(* ===== verification/_CoqProject ===== *)
-Q . S2P
Prelude.v
IO.v
WrappingIntegers.v
ByteStream.v
StreamReassembler.v
Buffer.v
Parser.v
Checksum.v
TCPHeader.v
TCPSegment.v
IPv4.v
Address.v
Adapter.v
Text.v
TCPReceiver.v
Robust.v
TCPSender.v
TCPState.v
TCPConnection.v
AnyPeer.v
System.v
Progress.v
Kernel.v
SimKernel.v
FileDescriptor.v
EventLoop.v
Socket.v
Tun.v
FdAdapter.v
Random.v
Cmdline.v
Tcpdump.v
TCPSpongeSocket.v
Holders.v
SpongeSafe.v
EndToEnd.v
StreamCopy.v
CS144Socket.v
Webget.v
Benchmark.v
Programs.v
Release.v
