(* ===== verification/Prelude.v ===== *)
(** * The sponge TCP implementation: a verified model

    The repository is a user-space TCP in C++: src/libsponge holds the protocol and its helpers,
    src/apps small programs around it. This development models the protocol, everything between
    it and the operating system, and programs that use it, as executable functions, and proves
    what they do.

    ** The program and the files that model it

    Data flows up from a datagram to an application and down again:

      application <-> TCPSpongeSocket (an event loop) <-> TCPConnection (TCPSender, TCPReceiver)
        <-> TCPSegment bytes <-> IPv4 or UDP datagrams <-> descriptors of the kernel.

    Foundations:

    - Prelude (this file): machine integers, bytes, [std::string::substr], outcomes ([result]),
      lengths and slices of lists, tactics and hint databases.
    - IO: computations with effects, which keep the state when they throw; weakest preconditions;
      loops with fuel, what holds of programs that need not end, and what a computation keeps.

    The protocol:

    - WrappingIntegers: wrapping_integers.hh/.cc. [WrappingInt32], its operators, [wrap], [unwrap].
    - ByteStream: byte_stream.hh/.cc. The bounded in-order queue, one function per method.
    - StreamReassembler: stream_reassembler.hh/.cc. [push_substring] with [_handle_substring],
      [_handle_overlap] and [_merge_seg]; the [std::set] of segments is a list kept in order.
    - TCPReceiver: tcp_receiver.hh/.cc. [segment_received], [ackno], [window_size]. Robust: the
      receiver on arbitrary segments.
    - TCPSender: tcp_sender.hh/.cc with RetransmissionTimer, and TCPConfig of tcp_config.hh.
      [fill_window], [ack_received], [tick], [send_segment], [send_empty_segment].
    - TCPState: tcp_helpers/tcp_state. The summaries of sender and receiver and the official states.
    - TCPConnection: tcp_connection.hh/.cc, the destructor included ([destroy]). AnyPeer: the
      connection with a peer that sends arbitrary segments.
    - System: two connections and the network between them, which is not code of the repository
      but the setting of its contract. Progress: what a timeout brings.

    Formats:

    - Buffer: util/buffer.hh/.cc. Buffer, BufferList, BufferViewList.
    - Parser: util/parser.hh/.cc. NetParser as a state monad over [result], NetUnparser, and the
      lemmas and tactics that step through a parser.
    - Checksum: InternetChecksum of util/util.hh/.cc.
    - TCPHeader, TCPSegment: tcp_helpers/tcp_header, tcp_segment. [parse], [serialize].
    - IPv4: tcp_helpers/ipv4_header, ipv4_datagram.
    - Address: util/address.hh/.cc. Socket addresses over the bytes of a sockaddr; the C library's
      resolver is the interface [Resolver] with laws [ResolverLaws].
    - Adapter: tcp_helpers/tcp_over_ip, tuntap_adapter, fd_adapter. Segments to and from IPv4 and
      UDP datagrams.
    - Text: output streams with their flags, width and fill; [to_string] and [summary] of the headers,
      the output of a WrappingInt32, and [hexdump] of util.cc.

    The operating system and the code around it:

    - Kernel: the system calls as an interface ([Kernel]) with their documented behaviour as laws
      ([KernelLaws]); the [machine] is a kernel and a heap of FDWrappers, which shared pointers
      share; [SystemCall] of util.cc. SimKernel: a kernel that keeps the laws, for the witnesses.
    - FileDescriptor, EventLoop, Socket, Tun: util/file_descriptor, eventloop, socket, tun.
    - FdAdapter: the adapters as objects that read and write a descriptor, behind the interface
      [FdAdapter] with its laws ([FdAdapterLaws]); lossy_fd_adapter is written against it.
    - Random: [get_random_generator] of util.cc, for lossy_fd_adapter, with the Mersenne Twister and the
      seed sequence of the C++ standard.
    - TCPSpongeSocket: tcp_helpers/tcp_sponge_socket. The four rules, the loop, [connect],
      [listen_and_accept], the thread, construction and destruction. CS144Socket: CS144TCPSocket.
    - SpongeSafe: the invariant of the socket's loop. EndToEnd: two sockets and a network.
    - Holders: who holds which descriptor. The handles that a machine [owns] beside those of before,
      and how each operation of the files above changes them.

    The programs:

    - StreamCopy: apps/bidirectional_stream_copy. Webget: apps/webget. Benchmark: apps/tcp_benchmark.
    - Cmdline: [get_config] of apps/tcp_udp and apps/tcp_ipv4, with the functions of the C library that
      they use; [strtof] is the interface [FloatParser]. Reading an argument that is not there, or
      converting a loss rate out of range, is the exception [undefined].
    - Tcpdump: apps/udp_tcpdump. libpcap and inet_ntop are the interface [Pcap]; reading a byte that was
      not captured is [undefined].
    - Programs: the main functions of apps/tcp_native, tcp_udp, tcp_ipv4 and tun. The thread of a socket is
      part of the environment of the program's own thread, and what it has done when it is joined
      is an argument. [thread_join] (IO) joins it: an exception that has left the thread is [terminated],
      which ends the program without handlers and destructors.
    - Release: the programs and the descriptors that they hold.

    A class is a record of its data members and a method a function that takes and returns the
    record; a method that may throw, or whose loop is not bounded by its data, returns a [result];
    one that calls the kernel is a computation of [io]. Unsigned integers are integers reduced with
    [u8], [u16], [u32] or [u64] wherever the C++ operation can leave the range, so that
    wrap-around is part of the model. Names are those of the source; where two classes share a
    name (parse, size, make for a constructor) the file tells them apart.

    ** What the theorems show

    - End to end, for streams shorter than half the sequence space: two programs, each with the thread
      that copies its standard streams and the thread of its socket: the standard output of one is a
      prefix of the standard input of the other (Programs). Two sockets on any kernels, with their event loops, connections and adapters, and
      a network that loses, reorders, delays and repeats datagrams: what one owner gets is a prefix of what
      the other owner gave, and all of it at the end unless the exception of rule 2 ended the thread
      (EndToEnd). The same for two connections and every schedule of their owners'
      calls, and that nothing throws, every call returns, all has arrived once the inbound stream
      has ended, and buffers, payloads, retransmissions and timeouts stay within bounds (System).
    - Progress: in every reachable state a timeout and a delivery bring the oldest unacknowledged segment to
      the peer, which then knows its bytes and answers.
    - Any peer: no sequence of segments, however malformed, makes a receiver or a
      connection throw or loop, or store more than its capacity (Robust, AnyPeer).
    - The socket: its loop keeps the invariants of the connection, throws only errors of calls, and
      never reports a busy wait (SpongeSafe, by the rule of EventLoop for the invariant of a loop);
      a run that goes on has made every turn it was given; and one case in which its thread throws and the
      program is terminated: a turn of the loop in which a reset arrives while the owner's data waits.
    - Descriptors: a write sends everything or throws, the last holder closes, a constructor that
      throws releases what it made, a callback that does nothing is detected. A program that returns has
      released every descriptor, also those of rules, of a socket pair and of the standard streams, and
      returns 0 or 1; nothing undefined is done on the way, but for a loss rate out of range, and the
      program is terminated only by an exception that has left the thread of its socket (Release).
    - Programs: copying loses, changes and reorders nothing, and so does tcp_native as a whole; webget
      prints exactly the answer; the benchmark never finds a difference; tun reports every packet;
      udp_tcpdump, for every packet, what is read and what is thrown, and the truncated packet that ends it.
    - Command lines: no argument is read that is not there and every option has a value of its type;
      tcp_ipv4 understands every list of options.
    - Text: the dump has exactly its layout, the text of a header determines the header.
    - Reassembly: what one push does exactly, safety for every order of arrival, completeness.
    - Receiver: segments land at the right index; acknowledgment number and window.
    - Sender: every segment carries the right bytes, nothing unacknowledged is forgotten, the
      window is filled and the loop of [fill_window] ends, acknowledgments and retransmissions
      do exactly what they should; and two cases in which they do not: a segment that ends
      at or beyond the wrap of the 32-bit numbers is never taken off the queue, and a window that
      shrinks below the bytes in flight makes the sender ignore it.
    - Connection: a clean close happens only when both streams are complete and acknowledged; a
      reset, received or after too many retransmissions, ends both streams in error, a received one in
      every state and whatever its numbers.
    - Wire formats: round trips of integers, headers, segments and datagrams, robustness of the
      parsers on arbitrary input, detection of a corrupted byte by the checksum; and the IPv4
      datagram parser accepts what the header parser rejects.
    - Adapters: segments pass through TUN and UDP unchanged, a listening adapter accepts exactly a
      SYN, a lossy adapter refines the adapter it wraps.

    ** Bounds and fuel

    - [fill_loop] (TCPSender) has fuel [fill_fuel], the number of buffered bytes plus two: every
      round but the last sends at least one byte. Running out is the outcome [Diverge], and the
      theorems show that it does not happen. No other loop of the connection needs fuel: they recurse
      on the queue or the set they empty.
    - The loop of [write] (FileDescriptor) has the number of bytes plus one: a call that accepts
      nothing throws. Rule 4 (TCPSpongeSocket) has the length of the queue plus one, the writing loop
      of the benchmark the number of bytes left plus one. None runs out.
    - The loops of the socket's thread, of the copying function, of webget and of the benchmark end when
      their environment ends them: their fuel is an argument, the number of turns, and [Diverge] means
      that the program is still running. The theorems hold for every number and say what is
      true then.
    - The loop over a command line has as many turns as arguments, as each takes one ([parse_arguments] of
      Tcpdump one more); the one over IPv6 extension headers ([skip_extensions]) the length of the
      packet, as each is eight bytes or longer. None runs out.
    - [fold_carries] (Checksum) has fuel 3: a 32-bit sum needs at most two folds, and a lemma shows
      that the result has no carry left. [to_digits] (Address) prints at most twenty digits.
    - Streams are shorter than 2^64 - 2^33 bytes, so that absolute sequence numbers do not overflow;
      a delivered segment is less than half the sequence space late ([timely] in System), which is
      what 32-bit sequence numbers can tell apart. For streams shorter than half the
      sequence space the second condition holds by itself.
    - The initial sequence number is [fixed_isn] of the configuration or a parameter that stands
      for the random generator.

    ** What is not modelled

    - The words of the random device, which are the environment's.
    - Messages on cerr, and the texts of exceptions except where one is compared or printed.
    - The interleaving of a socket's thread with its owner inside a system call: they share only
      the pair of sockets, on which the kernel's calls are atomic, and the flags of the socket.
    - Tests and doctests, and what CMake generates.

    ** State of the plan

    Every program and every file of libsponge is modelled. What is left is that both streams of two
    connections are complete in the end over a network that delivers again and again: the step
    that a timeout makes is proved (Progress); iterating it needs the bound of the acknowledgments by what
    the peer has received as an invariant of both ends, and streams that end before the wrap of the
    sequence numbers, after which the sender's queue is blocked (TCPSender). *)

From Stdlib Require Export ZArith Lia Bool Strings.Byte.
From Stdlib Require Strings.String.
From stdpp Require Export base list numbers option.
#[global] Open Scope Z_scope.

(** ** Notations *)

Declare Scope sponge_scope.
Delimit Scope sponge_scope with sponge.
#[global] Open Scope sponge_scope.

(** The C++ type [std::string] and [std::deque<char>]: a list of bytes. *)
Abbreviation bytes := (list byte).

(** [size()] of a container, as an integer. *)
Definition Zlen {A} (l : list A) : Z := Z.of_nat (length l).
Arguments Zlen : simpl never.
Notation "'#' l" := (Zlen l) (at level 8, l at level 7, format "# l") : sponge_scope.

(** ** Machine integers: a value of a [w]-bit type is an integer in
    [[0, 2^w)], and every operation that may leave the range is wrapped. *)

Definition u8 (z : Z) : Z := z mod 256.
Definition u16 (z : Z) : Z := z mod 65536.
Definition u32 (z : Z) : Z := z mod 4294967296.
Definition u64 (z : Z) : Z := z mod 18446744073709551616.

(** Conversion of an unsigned 32-bit value to [int32_t]. *)
Definition s32 (z : Z) : Z :=
  if u32 z <? 2147483648 then u32 z else u32 z - 4294967296.

(** Conversion of an unsigned 64-bit value to [ssize_t]. *)
Definition s64 (z : Z) : Z :=
  if u64 z <? 9223372036854775808 then u64 z else u64 z - 18446744073709551616.

Ltac unfold_words := unfold s32, s64, u8, u16, u32, u64 in *.
(** Linear arithmetic with the wraps unfolded to their quotients. *)
Ltac words_lia := unfold_words; Z.div_mod_to_equations; lia.

Lemma u8_id z : 0 <= z < 256 -> u8 z = z.
Proof. apply Z.mod_small. Qed.
Lemma u16_id z : 0 <= z < 65536 -> u16 z = z.
Proof. apply Z.mod_small. Qed.
Lemma u32_id z : 0 <= z < 4294967296 -> u32 z = z.
Proof. apply Z.mod_small. Qed.
Lemma u64_id z : 0 <= z < 18446744073709551616 -> u64 z = z.
Proof. apply Z.mod_small. Qed.

Lemma u8_range z : 0 <= u8 z < 256.
Proof. by apply Z.mod_pos_bound. Qed.
Lemma u16_range z : 0 <= u16 z < 65536.
Proof. by apply Z.mod_pos_bound. Qed.
Lemma u32_range z : 0 <= u32 z < 4294967296.
Proof. by apply Z.mod_pos_bound. Qed.
Lemma u64_range z : 0 <= u64 z < 18446744073709551616.
Proof. by apply Z.mod_pos_bound. Qed.

(** A 32-bit counter changes with every step. *)
Lemma u32_succ_ne z : u32 (z + 1) <> z.
Proof. unfold u32. intros E. Z.div_mod_to_equations. lia. Qed.

(** Drop every wrap whose argument is provably in range. *)
Ltac unwrap_words :=
  repeat match goal with
  | |- context [u64 ?x] => rewrite (u64_id x) by lia
  | |- context [u32 ?x] => rewrite (u32_id x) by lia
  | |- context [u16 ?x] => rewrite (u16_id x) by lia
  | |- context [u8 ?x] => rewrite (u8_id x) by lia
  end.
Ltac unwrap_words_in H :=
  repeat match type of H with
  | context [u64 ?x] => rewrite (u64_id x) in H by lia
  | context [u32 ?x] => rewrite (u32_id x) in H by lia
  | context [u16 ?x] => rewrite (u16_id x) in H by lia
  | context [u8 ?x] => rewrite (u8_id x) in H by lia
  end.

(** Split on the first boolean test of the goal, keeping its outcome. *)
Ltac case_if :=
  match goal with
  | |- context [if ?b then _ else _] => destruct b eqn:?
  end.
Ltac case_if_in H :=
  match type of H with
  | context [if ?b then _ else _] => destruct b eqn:?
  end.

(** Close a closed arithmetic goal by evaluation. *)
Ltac by_compute :=
  repeat split; first [reflexivity | lia | vm_compute; reflexivity | vm_compute; discriminate].

Lemma if_swap {A B} (f : A -> B) (c : bool) x y :
  f (if c then x else y) = if c then f x else f y.
Proof. by destruct c. Qed.

(** ** Bytes *)

Definition byte_to_Z (b : byte) : Z := Z.of_N (Byte.to_N b).

(** Conversion of an integer to [uint8_t]. *)
Definition byte_of_Z (z : Z) : byte :=
  match Byte.of_N (Z.to_N (u8 z)) with
  | Some b => b
  | None => x00
  end.

#[global] Instance byte_eq_decision : EqDecision byte := byte_eq_dec.

Lemma byte_to_Z_range b : 0 <= byte_to_Z b < 256.
Proof. unfold byte_to_Z. pose proof (Byte.to_N_bounded b). lia. Qed.

Lemma byte_to_of_Z z : byte_to_Z (byte_of_Z z) = u8 z.
Proof.
  pose proof (u8_range z) as Hr. unfold byte_to_Z, byte_of_Z.
  destruct (Byte.of_N (Z.to_N (u8 z))) eqn:E.
  - apply Byte.to_of_N in E. lia.
  - apply Byte.of_N_None_iff in E. lia.
Qed.

Lemma byte_to_Z_inj b1 b2 : byte_to_Z b1 = byte_to_Z b2 -> b1 = b2.
Proof.
  unfold byte_to_Z. intros H%N2Z.inj.
  pose proof (Byte.of_to_N b1). pose proof (Byte.of_to_N b2). congruence.
Qed.

Lemma byte_of_to_Z b : byte_of_Z (byte_to_Z b) = b.
Proof.
  apply byte_to_Z_inj. rewrite byte_to_of_Z. apply u8_id, byte_to_Z_range.
Qed.

(** ** Outcomes: an operation that may throw, or whose loop is not bounded by its
    data, returns a [result]. *)

Inductive exn :=
| out_of_range
| invalid_argument
| length_error
| runtime_error
| runtime_error_of (what : String.string) (* a runtime_error told apart by its text *)
| system_error (* tagged_error of the resolver *)
| unix_error (errno : Z)
| bad_optional_access
| undefined (what : String.string) (* an operation whose behaviour C++ does not define *)
| terminated. (* std::terminate: the program ends, without handlers and destructors *)

Inductive result (A : Type) :=
| Ok (a : A)
| Throw (e : exn)
| Diverge. (* the fuel of a loop is used up *)
Arguments Ok {A} a.
Arguments Throw {A} e.
Arguments Diverge {A}.

#[global] Instance result_ret : MRet result := fun A a => Ok a.
#[global] Instance result_bind : MBind result :=
  fun A B f r => match r with Ok a => f a | Throw e => Throw e | Diverge => Diverge end.

Lemma result_bind_Ok {A B} (f : A -> result B) a : (Ok a ≫= f) = f a.
Proof. done. Qed.
Lemma result_bind_inv {A B} (r : result A) (f : A -> result B) b : (r ≫= f) = Ok b -> exists a, r = Ok a /\ f a = Ok b.
Proof. destruct r as [a| |]; [|done..]. by exists a. Qed.

(** ** Lengths and slices *)

Section lists.
Context {A : Type}.
Implicit Types l k : list A.

Lemma Zlen_nonneg l : 0 <= #l.
Proof. unfold Zlen. lia. Qed.
Lemma Zlen_nil : #(@nil A) = 0.
Proof. done. Qed.
Lemma Zlen_cons x l : #(x :: l) = 1 + #l.
Proof. unfold Zlen. simpl. lia. Qed.
Lemma Zlen_app l k : #(l ++ k) = #l + #k.
Proof. unfold Zlen. rewrite length_app. lia. Qed.
Lemma Zlen_zero l : #l = 0 -> l = [].
Proof. destruct l; [done|]. rewrite Zlen_cons. pose proof (Zlen_nonneg l). lia. Qed.
Lemma Zlen_take n l : 0 <= n -> #(take (Z.to_nat n) l) = Z.min n (#l).
Proof. unfold Zlen. rewrite length_take. lia. Qed.
Lemma Zlen_drop n l : 0 <= n -> #(drop (Z.to_nat n) l) = Z.max 0 (#l - n).
Proof. unfold Zlen. rewrite length_drop. lia. Qed.

(** The elements of [l] at indices [lo <= i < hi]. *)
Definition slice (lo hi : Z) l : list A :=
  take (Z.to_nat (hi - lo)) (drop (Z.to_nat lo) l).

Lemma Zlen_slice lo hi l : 0 <= lo <= hi -> hi <= #l -> #(slice lo hi l) = hi - lo.
Proof.
  intros. unfold slice. rewrite Zlen_take, Zlen_drop by lia. lia.
Qed.

Lemma slice_empty lo hi l : hi <= lo -> slice lo hi l = [].
Proof. intros. unfold slice. by replace (Z.to_nat (hi - lo)) with 0%nat by lia. Qed.

Lemma slice_full l : slice 0 (#l) l = l.
Proof. unfold slice, Zlen. simpl. rewrite drop_0. apply take_ge. lia. Qed.

Lemma slice_to_end lo hi l : #l <= hi -> 0 <= lo -> slice lo hi l = drop (Z.to_nat lo) l.
Proof.
  intros. unfold slice. apply take_ge. rewrite length_drop. unfold Zlen in *. lia.
Qed.

Lemma slice_split mid lo hi l :
  0 <= lo <= mid -> mid <= hi -> slice lo hi l = slice lo mid l ++ slice mid hi l.
Proof.
  intros. unfold slice.
  replace (Z.to_nat (hi - lo)) with (Z.to_nat (mid - lo) + Z.to_nat (hi - mid))%nat by lia.
  rewrite <- (take_take_drop (drop (Z.to_nat lo) l)), drop_drop.
  do 3 f_equal. lia.
Qed.

Lemma take_slice n lo hi l :
  0 <= n -> take (Z.to_nat n) (slice lo hi l) = slice lo (Z.min hi (lo + n)) l.
Proof. intros. unfold slice. rewrite take_take. f_equal. lia. Qed.

Lemma drop_slice n lo hi l :
  0 <= n -> 0 <= lo -> drop (Z.to_nat n) (slice lo hi l) = slice (lo + n) hi l.
Proof.
  intros. unfold slice. rewrite skipn_firstn_comm, drop_drop. f_equal; [lia|].
  f_equal. lia.
Qed.

Lemma slice_app_l lo hi l k : 0 <= lo -> hi <= #l -> slice lo hi (l ++ k) = slice lo hi l.
Proof.
  intros. destruct (Z.le_gt_cases hi lo).
  { rewrite !slice_empty by lia. done. }
  unfold slice, Zlen in *. rewrite drop_app_le by lia.
  rewrite take_app_le; [done|]. rewrite length_drop. lia.
Qed.

Lemma Forall_sublist (P : A -> Prop) l k : l `sublist_of` k -> Forall P k -> Forall P l.
Proof. induction 1; intros Hf; [done|inversion_clear Hf; constructor; auto|inversion_clear Hf; auto]. Qed.
End lists.
Arguments Zlen_nil : clear implicits.

Create HintDb sponge.
#[export] Hint Resolve Zlen_nonneg byte_to_Z_range u8_range u16_range u32_range u64_range : sponge.
Create Rewrite HintDb zlen.
#[export] Hint Rewrite @Zlen_nil @Zlen_cons @Zlen_app : zlen.

(** ** [std::string::substr] *)

(** [npos], the default length argument. *)
Definition npos : Z := 18446744073709551615.

Definition substr (s : bytes) (pos n : Z) : result bytes :=
  if #s <? pos then Throw out_of_range
  else Ok (take (Z.to_nat (Z.min n (#s - pos))) (drop (Z.to_nat pos) s)).

Lemma substr_slice lo hi pos n (l : bytes) :
  0 <= lo <= hi -> hi <= #l -> 0 <= pos <= hi - lo -> 0 <= n ->
  substr (slice lo hi l) pos n = Ok (slice (lo + pos) (Z.min hi (lo + pos + n)) l).
Proof.
  intros. unfold substr. rewrite Zlen_slice by lia. case_if; [lia|].
  rewrite drop_slice, take_slice by lia. do 2 f_equal. lia.
Qed.
