(* ===== verification/IO.v ===== *)
(** * Effects

    Code that calls the operating system, or changes an object that others share, is a function of
    the state [W] it runs in. An exception leaves the state as it is when it is thrown, so the new
    state is part of every outcome. The weakest precondition of a computation has one
    postcondition for its value and one for its exceptions; running out of fuel satisfies neither. *)

From S2P Require Import Prelude.

Definition io (W A : Type) : Type := W -> result A * W.

#[global] Instance io_ret {W} : MRet (io W) := fun A a w => (Ok a, w).
#[global] Instance io_bind {W} : MBind (io W) := fun A B f m w =>
  match m w with
  | (Ok a, w) => f a w
  | (Throw e, w) => (Throw e, w)
  | (Diverge, w) => (Diverge, w)
  end.

Section io.
Context {W : Type}.

Definition of_result {A} (r : result A) : io W A := fun w => (r, w).
Definition throw {A} (e : exn) : io W A := fun w => (Throw e, w).
Definition diverge {A} : io W A := fun w => (Diverge, w).
Definition gets {A} (f : W -> A) : io W A := fun w => (Ok (f w), w).
Definition modify (f : W -> W) : io W unit := fun w => (Ok tt, f w).

(** [try { m } catch (e) { h(e) }]. *)
Definition catch {A} (m : io W A) (h : exn -> io W A) : io W A := fun w =>
  match m w with
  | (Throw e, w) => h e w
  | r => r
  end.

(** [catch (const exception &e)]; what is not defined is not caught, nor is the end of the program. *)
Definition catch_all {A} (m : io W A) (h : exn -> io W A) : io W A :=
  catch m (fun e => match e with undefined _ | terminated => throw e | _ => h e end).

(** The destructors that an exception runs on its way, in code that joins no thread and so is not
    [terminated]; and in code that may be. *)
Definition unwinding {A} (m : io W A) (cleanup : io W unit) : io W A :=
  catch m (fun e => _ ← cleanup; throw e).
Definition unwinding_threads {A} (m : io W A) (cleanup : io W unit) : io W A :=
  catch m (fun e => match e with terminated => throw e | _ => _ ← cleanup; throw e end).

(** [std::thread::join] of a thread that does [thread]: an exception that leaves the function of a thread
    is not passed on to the one that joins it but ends the program. *)
Definition thread_join (thread : io W unit) : io W unit :=
  catch thread (fun e => match e with undefined _ => throw e | _ => throw terminated end).

(** The values of [main]. *)
Definition EXIT_SUCCESS : Z := 0.
Definition EXIT_FAILURE : Z := 1.

Definition when (c : bool) (m : io W unit) : io W unit := if c then m else mret tt.

(** Running a computation made of two. *)
Lemma io_bind_run {A B} (m : io W A) (f : A -> io W B) w :
  (m ≫= f) w = match m w with
               | (Ok a, w) => f a w
               | (Throw e, w) => (Throw e, w)
               | (Diverge, w) => (Diverge, w)
               end.
Proof. done. Qed.

(** ** Weakest preconditions *)

Definition wp {A} (m : io W A) (Q : A -> W -> Prop) (E : exn -> W -> Prop) (w : W) : Prop :=
  match m w with
  | (Ok a, w') => Q a w'
  | (Throw e, w') => E e w'
  | (Diverge, _) => False
  end.

Lemma wp_ret {A} (a : A) Q E w : Q a w -> wp (mret a) Q E w.
Proof. done. Qed.

Lemma wp_throw {A} e (Q : A -> W -> Prop) (E : exn -> W -> Prop) w : E e w -> wp (throw e) Q E w.
Proof. done. Qed.

Lemma wp_bind {A B} (m : io W A) (f : A -> io W B) Q E w :
  wp m (fun a w' => wp (f a) Q E w') E w -> wp (m ≫= f) Q E w.
Proof. unfold wp, mbind, io_bind. by destruct (m w) as [[]?]. Qed.

Lemma wp_bind_assoc {A B C} (m : io W A) (f : A -> io W B) (g : B -> io W C) Q E w :
  wp (m ≫= f) (fun b w' => wp (g b) Q E w') E w -> wp (a ← m; b ← f a; g b) Q E w.
Proof. unfold wp, mbind, io_bind. destruct (m w) as [[a|e|] w']; try done. by destruct (f a w') as [[]?]. Qed.

Lemma wp_gets {A} (f : W -> A) Q E w : Q (f w) w -> wp (gets f) Q E w.
Proof. done. Qed.

Lemma wp_modify (f : W -> W) Q E w : Q tt (f w) -> wp (modify f) Q E w.
Proof. done. Qed.

Lemma wp_of_result {A} (r : result A) (Q : A -> W -> Prop) E w a : r = Ok a -> Q a w -> wp (of_result r) Q E w.
Proof. by intros ->. Qed.

Lemma wp_mono {A} (m : io W A) (Q Q' : A -> W -> Prop) (E E' : exn -> W -> Prop) w :
  wp m Q E w -> (forall a w', Q a w' -> Q' a w') -> (forall e w', E e w' -> E' e w') -> wp m Q' E' w.
Proof. unfold wp. destruct (m w) as [[]?]; auto. Qed.

Lemma wp_catch {A} (m : io W A) h Q (E : exn -> W -> Prop) w :
  wp m Q (fun e w' => wp (h e) Q E w') w -> wp (catch m h) Q E w.
Proof. unfold wp, catch. by destruct (m w) as [[]?]. Qed.

(** The cleanup runs on the way of an exception. *)
Lemma wp_unwinding {A} (m : io W A) cleanup (Q : A -> W -> Prop) (E : exn -> W -> Prop) w :
  wp m Q (fun e w' => wp cleanup (fun _ w'' => E e w'') E w') w -> wp (unwinding m cleanup) Q E w.
Proof.
  intros HW. apply wp_catch. eapply wp_mono; [exact HW|done|]. intros e w' Hc. apply wp_bind.
  eapply wp_mono; [exact Hc| |done]. intros [] w'' HE. by apply wp_throw.
Qed.

Lemma wp_when c m Q E w : (c = true -> wp m Q E w) -> (c = false -> Q tt w) -> wp (when c m) Q E w.
Proof. intros H1 H2. destruct c; [by apply H1|by apply wp_ret, H2]. Qed.

(** Two facts about one run. *)
Lemma wp_conj {A} (m : io W A) (Q Q' : A -> W -> Prop) (E E' : exn -> W -> Prop) w :
  wp m Q E w -> wp m Q' E' w -> wp m (fun a w' => Q a w' /\ Q' a w') (fun e w' => E e w' /\ E' e w') w.
Proof. unfold wp. by destruct (m w) as [[]?]. Qed.

Lemma wp_result {A} (m : io W A) (Q : A -> W -> Prop) (E : exn -> W -> Prop) w :
  wp m Q E w -> wp m (fun a w' => Q a w' /\ m w = (Ok a, w')) E w.
Proof. unfold wp. by destruct (m w) as [[]?]. Qed.

(** The outcome of a computation whose weakest precondition holds. *)
Lemma wp_run {A} (m : io W A) Q E w :
  wp m Q E w -> (exists a w', m w = (Ok a, w') /\ Q a w') \/ (exists e w', m w = (Throw e, w') /\ E e w').
Proof. unfold wp. destruct (m w) as [[]?]; [left|right|done]; eauto. Qed.
End io.

(** ** Exceptions of pure code *)

(** The exceptions that there are. *)
Definition caught (e : exn) : Prop := match e with undefined _ | terminated => False | _ => True end.

(** Code without effects returns or throws one of its own exceptions. *)
Definition tame_exn (e : exn) : Prop :=
  match e with
  | runtime_error_of _ | unix_error _ | bad_optional_access | undefined _ | terminated => False
  | _ => True
  end.
Definition tame {A} (r : result A) : Prop :=
  match r with
  | Ok _ => True
  | Throw e => tame_exn e
  | Diverge => False
  end.

Lemma tame_bind {A B} (r : result A) (f : A -> result B) : tame r -> (forall a, tame (f a)) -> tame (r ≫= f).
Proof. by destruct r; simpl; auto. Qed.

Lemma wp_tame {W A} (r : result A) (Q : A -> W -> Prop) (E : exn -> W -> Prop) w :
  tame r -> (forall a, r = Ok a -> Q a w) -> (forall e, tame_exn e -> E e w) -> wp (of_result r) Q E w.
Proof. unfold wp, of_result. destruct r; simpl; auto. Qed.

Lemma tame_caught e : tame_exn e -> caught e.
Proof. by destruct e. Qed.

(** Code that may throw any exception that there is. *)
Definition defined {A} (r : result A) : Prop :=
  match r with
  | Throw e => caught e
  | _ => True
  end.

Lemma defined_bind {A B} (r : result A) (f : A -> result B) : defined r -> (forall a, defined (f a)) -> defined (r ≫= f).
Proof. by destruct r; simpl; auto. Qed.
Lemma defined_tame {A} (r : result A) : tame r -> defined r.
Proof. destruct r; [done|apply tame_caught|done]. Qed.

(** Follow the structure of a definition. *)
Ltac tame_steps :=
  repeat first
    [ done
    | assumption
    | apply tame_bind; [|intros ?]
    | progress cbn [tame tame_exn]
    | match goal with |- tame (match ?x with _ => _ end) => destruct x end
    | match goal with |- tame (let '(_, _) := ?x in _) => destruct x end ].

(** ** State in parts *)

(** Running a computation on a part of the state. *)
Definition zoom {W V A} (get : W -> V) (set : V -> W -> W) (m : io V A) : io W A := fun w =>
  let '(r, v) := m (get w) in (r, set v w).

Definition on_fst {V S A} (m : io V A) : io (V * S) A := zoom fst (fun v w => (v, w.2)) m.
Definition on_snd {V S A} (m : io S A) : io (V * S) A := zoom snd (fun s w => (w.1, s)) m.

Lemma wp_on_fst {V S A} (m : io V A) Q E (w : V * S) :
  wp m (fun a v => Q a (v, w.2)) (fun e v => E e (v, w.2)) w.1 -> wp (on_fst m) Q E w.
Proof. unfold wp, on_fst, zoom. by destruct (m w.1) as [[]?]. Qed.

Lemma wp_on_snd {V S A} (m : io S A) Q E (w : V * S) :
  wp m (fun a s => Q a (w.1, s)) (fun e s => E e (w.1, s)) w.2 -> wp (on_snd m) Q E w.
Proof. unfold wp, on_snd, zoom. by destruct (m w.2) as [[]?]. Qed.

(** ** Loops *)

(** [body] is run until it returns a result, at most [fuel] times. *)
Fixpoint iterate {W A B} (fuel : nat) (body : A -> io W (A + B)) (a : A) : io W B :=
  match fuel with
  | O => diverge
  | S fuel => r ← body a;
      match r with
      | inl a => iterate fuel body a
      | inr b => mret b
      end
  end.

(** [k] turns of [body] have returned and gone on, from [a] and [w] to [a'] and [w']. *)
Fixpoint went_on {W A B} (k : nat) (body : A -> io W (A + B)) (a : A) (w : W) (a' : A) (w' : W) : Prop :=
  match k with
  | O => a = a' /\ w = w'
  | S k => exists a1 w1, body a w = (Ok (inl a1), w1) /\ went_on k body a1 w1 a' w'
  end.

(** A loop whose measure decreases returns; the measure may be of the state. *)
Lemma wp_iterate {W A B} (body : A -> io W (A + B)) (I : A -> W -> Prop) (measure : A -> W -> nat)
    (Q : B -> W -> Prop) (E : exn -> W -> Prop) :
  (forall a w, I a w -> wp (body a) (fun r w' =>
     match r with inl a' => I a' w' /\ (measure a' w' < measure a w)%nat | inr b => Q b w' end) E w) ->
  forall fuel a w, (measure a w < fuel)%nat -> I a w -> wp (iterate fuel body a) Q E w.
Proof.
  intros Hbody. induction fuel as [|fuel IH]; intros a w Hm Ha; [lia|].
  apply wp_bind. eapply wp_mono; [by apply Hbody| |done].
  intros [a'|b] w'; [|done]. intros [HI Hlt]. apply IH; [lia|done].
Qed.

(** ** Programs that need not end *)

(** What holds however a run with some fuel ends: [D] when it is still running. *)
Definition run_ends {W A} (m : io W A) (Q : A -> W -> Prop) (E : exn -> W -> Prop) (D : W -> Prop) (w : W) : Prop :=
  match m w with
  | (Ok a, w') => Q a w'
  | (Throw e, w') => E e w'
  | (Diverge, w') => D w'
  end.

Section run_ends.
Context {W : Type}.

Lemma run_ends_wp {A} (m : io W A) Q E D w : wp m Q E w -> run_ends m Q E D w.
Proof. unfold wp, run_ends. by destruct (m w) as [[]?]. Qed.

Lemma run_ends_bind {A B} (m : io W A) (f : A -> io W B) Q E D w :
  run_ends m (fun a w' => run_ends (f a) Q E D w') E D w -> run_ends (m ≫= f) Q E D w.
Proof. unfold run_ends, mbind, io_bind. by destruct (m w) as [[]?]. Qed.

Lemma run_ends_catch {A} (m : io W A) h Q (E : exn -> W -> Prop) D w :
  run_ends m Q (fun e w' => run_ends (h e) Q E D w') D w -> run_ends (catch m h) Q E D w.
Proof. unfold run_ends, catch. by destruct (m w) as [[]?]. Qed.

Lemma run_ends_unwinding {A} (m : io W A) cleanup (Q : A -> W -> Prop) (E : exn -> W -> Prop) D w :
  run_ends m Q (fun e w' => wp cleanup (fun _ w'' => E e w'') E w') D w -> run_ends (unwinding m cleanup) Q E D w.
Proof.
  intros HW. apply run_ends_catch. unfold run_ends at 1 in HW. unfold run_ends at 1. destruct (m w) as [[a|e|] w']; [done| |done].
  apply run_ends_wp, wp_bind. eapply wp_mono; [exact HW| |done]. intros [] w'' HE. by apply wp_throw.
Qed.

Lemma run_ends_join (thread : io W unit) Q (E : exn -> W -> Prop) D w :
  run_ends thread (fun _ => Q) (fun e _ => caught e) D w -> (forall e w', thread w = (Throw e, w') -> caught e -> E terminated w') ->
  run_ends (thread_join thread) (fun _ => Q) E D w.
Proof.
  unfold run_ends, thread_join, catch. destruct (thread w) as [[[]|e|] w'] eqn:Et; [done| |done]. intros He HE.
  destruct e; try done; by eapply HE.
Qed.

Lemma run_ends_mono {A} (m : io W A) (Q Q' : A -> W -> Prop) (E E' : exn -> W -> Prop) (D D' : W -> Prop) w :
  run_ends m Q E D w -> (forall a w', Q a w' -> Q' a w') -> (forall e w', E e w' -> E' e w') ->
  (forall w', D w' -> D' w') -> run_ends m Q' E' D' w.
Proof. unfold run_ends. destruct (m w) as [[]?]; auto. Qed.

Lemma run_ends_zoom {V A} (get : W -> V) (set : V -> W -> W) (m : io V A) (Q : A -> W -> Prop) (E : exn -> W -> Prop) D w :
  run_ends m (fun a v => Q a (set v w)) (fun e v => E e (set v w)) (fun v => D (set v w)) (get w) ->
  run_ends (zoom get set m) Q E D w.
Proof. unfold run_ends, zoom. by destruct (m (get w)) as [[]?]. Qed.
Lemma run_ends_on_fst {S A} (m : io W A) (Q : A -> W * S -> Prop) (E : exn -> W * S -> Prop) D w :
  run_ends m (fun a v => Q a (v, w.2)) (fun e v => E e (v, w.2)) (fun v => D (v, w.2)) w.1 -> run_ends (on_fst m) Q E D w.
Proof. unfold run_ends, on_fst, zoom. by destruct (m w.1) as [[]?]. Qed.

Lemma run_ends_iterate {A B} (body : A -> io W (A + B)) (I : A -> W -> Prop) Q E D :
  (forall a w, I a w -> wp (body a) (fun r w' => match r with inl a' => I a' w' | inr b => Q b w' end) E w) ->
  (forall a w, I a w -> D w) ->
  forall fuel a w, I a w -> run_ends (iterate fuel body a) Q E D w.
Proof.
  intros Hbody HD. induction fuel as [|fuel IH]; intros a w Ha; [by apply (HD a)|].
  apply run_ends_bind, run_ends_wp. eapply wp_mono; [by apply Hbody| |done].
  intros [a'|b] w' Hw'; [by apply IH|done].
Qed.
End run_ends.

(** ** What a computation keeps *)

(** However the computation ends, [I] still holds; a value that it returns satisfies [Q], and an
    exception is one that there is. *)
Definition keeps {W A} (I : W -> Prop) (m : io W A) (Q : A -> Prop) : Prop := forall w, I w ->
  run_ends m (fun a w' => I w' /\ Q a) (fun e w' => caught e /\ I w') (fun _ => True) w.

Section keeps.
Context {W : Type} (I : W -> Prop).

Lemma keeps_run {A} (m : io W A) (Q : A -> Prop) (Q' : A -> W -> Prop) (E' : exn -> W -> Prop) w :
  keeps I m Q -> I w -> (forall a w', I w' -> Q a -> Q' a w') -> (forall e w', caught e -> I w' -> E' e w') ->
  run_ends m Q' E' (fun _ => True) w.
Proof. intros Hm Hw HQ HE. eapply run_ends_mono; [by apply Hm|intros a w' []; auto|intros e w' []; auto|done]. Qed.

Lemma keeps_mono {A} (m : io W A) (Q Q' : A -> Prop) : keeps I m Q -> (forall a, Q a -> Q' a) -> keeps I m Q'.
Proof. intros Hm HQ w Hw. eapply keeps_run; [done..|by split; auto|done]. Qed.
Lemma keeps_any {A} (m : io W A) (Q : A -> Prop) : keeps I m Q -> keeps I m (fun _ => True).
Proof. intros Hm. by eapply keeps_mono. Qed.

Lemma keeps_ret {A} (a : A) (Q : A -> Prop) : Q a -> keeps I (mret a) Q.
Proof. by intros HQ w Hw. Qed.
Lemma keeps_bind {A B} (m : io W A) (f : A -> io W B) (Q : A -> Prop) R :
  keeps I m Q -> (forall a, Q a -> keeps I (f a) R) -> keeps I (m ≫= f) R.
Proof. intros Hm Hf w Hw. apply run_ends_bind. eapply keeps_run; [done..| |done]. intros a w' Hw' Ha. by apply Hf. Qed.
Lemma keeps_gets {A} (f : W -> A) (Q : A -> Prop) : (forall w, I w -> Q (f w)) -> keeps I (gets f) Q.
Proof. intros HQ w Hw. split; [done|by apply HQ]. Qed.
Lemma keeps_modify f : (forall w, I w -> I (f w)) -> keeps I (modify f) (fun _ => True).
Proof. intros Hf w Hw. split; [by apply Hf|done]. Qed.
Lemma keeps_throw {A} e (Q : A -> Prop) : caught e -> keeps I (throw e) Q.
Proof. by intros He w Hw. Qed.
Lemma keeps_of_result {A} (r : result A) (Q : A -> Prop) : defined r -> (forall a, r = Ok a -> Q a) -> keeps I (of_result r) Q.
Proof. intros Hr HQ w Hw. unfold run_ends, of_result. destruct r; [split; [done|by apply HQ]|done..]. Qed.
Lemma keeps_catch_all {A} (m : io W A) h (Q : A -> Prop) :
  keeps I m Q -> (forall e, keeps I (h e) Q) -> keeps I (catch_all m h) Q.
Proof.
  intros Hm Hh w Hw. apply run_ends_catch. eapply keeps_run; [done..|]. intros e w' He Hw'. pose proof (Hh e w' Hw').
  by destruct e.
Qed.
Lemma keeps_unwinding {A} (m : io W A) cleanup (Q : A -> Prop) :
  keeps I m Q -> keeps I cleanup (fun _ => True) -> keeps I (unwinding m cleanup) Q.
Proof.
  intros Hm Hc w Hw. apply run_ends_catch. eapply keeps_run; [done..|]. intros e w' He Hw'. apply run_ends_bind.
  by eapply keeps_run.
Qed.
Lemma keeps_when c m : (c = true -> keeps I m (fun _ => True)) -> keeps I (when c m) (fun _ => True).
Proof. intros Hm. destruct c; [by apply Hm|by apply keeps_ret]. Qed.
Lemma keeps_loop {A B} (body : A -> io W (A + B)) (Q : B -> Prop) fuel a :
  (forall a, keeps I (body a) (fun r => match r with inl _ => True | inr b => Q b end)) -> keeps I (iterate fuel body a) Q.
Proof.
  intros Hb. revert a. induction fuel as [|fuel IH]; intros a w Hw; [done|]. apply run_ends_bind.
  eapply keeps_run; [apply Hb|done| |done]. intros [a'|b] w' Hw' HQ; [by apply IH|done].
Qed.
Lemma keeps_iterate {A B} (body : A -> io W (A + B)) fuel a :
  (forall a, keeps I (body a) (fun _ => True)) -> keeps I (iterate fuel body a) (fun _ => True).
Proof. intros Hb. apply keeps_loop. intros a'. eapply keeps_mono; [apply Hb|]. by intros []. Qed.
End keeps.

(** A computation on a part of the state. *)
Lemma keeps_zoom {W V A} (get : W -> V) (set : V -> W -> W) (I : W -> Prop) (J : V -> Prop) (m : io V A) Q :
  (forall w, I w -> J (get w)) -> (forall v w, I w -> J v -> I (set v w)) -> keeps J m Q -> keeps I (zoom get set m) Q.
Proof.
  intros Hg Hs Hm w Hw. specialize (Hm _ (Hg _ Hw)). unfold run_ends, zoom in *.
  destruct (m (get w)) as [[a|e|] v]; [|destruct Hm..|done].
  - destruct Hm. split; [by apply Hs|done].
  - split; [done|by apply Hs].
Qed.

(** Follow the structure of a computation that keeps an invariant of its own. *)
Ltac keeps_step :=
  lazymatch goal with
  | |- keeps _ (_ ≫= _) _ => apply keeps_bind with (Q := fun _ => True); [|intros ? _]
  | |- keeps _ (mret _) _ => apply keeps_ret
  | |- keeps _ (throw _) _ => by apply keeps_throw
  | |- keeps _ (when _ _) _ => apply keeps_when; intros _
  | |- keeps _ (if ?b then _ else _) _ => destruct b
  | |- keeps _ (match ?x with _ => _ end) _ => destruct x
  end; cbv beta.

(** Step through the primitives of a computation. *)
Ltac wp_step :=
  lazymatch goal with
  | |- wp (_ ≫= _) _ _ _ => apply wp_bind
  | |- wp (mret _) _ _ _ => apply wp_ret
  | |- wp (throw _) _ _ _ => apply wp_throw
  | |- wp (gets _) _ _ _ => apply wp_gets
  | |- wp (modify _) _ _ _ => apply wp_modify
  | |- wp (on_fst _) _ _ _ => apply wp_on_fst
  | |- wp (on_snd _) _ _ _ => apply wp_on_snd
  | |- wp (catch _ _) _ _ _ => apply wp_catch
  end; cbn beta.
Ltac wp_steps := repeat wp_step.
