(* ===== verification/WrappingIntegers.v ===== *)
(** * 32-bit wrapping sequence numbers
    (src/libsponge/wrapping_integers.hh, wrapping_integers.cc)

    [WrappingInt32] is the wire representation of a sequence number;
    [wrap] and [unwrap] translate between it and a 64-bit absolute one. *)

From S2P Require Import Prelude.

Record WrappingInt32 := mkWrappingInt32 { raw_value : Z }.

(** The explicit constructor takes a [uint32_t]. *)
Definition WrappingInt32_of (raw : Z) : WrappingInt32 := mkWrappingInt32 (u32 raw).

Definition wf_wrapping (a : WrappingInt32) : Prop := 0 <= raw_value a < 4294967296.

#[global] Instance WrappingInt32_eq_dec : EqDecision WrappingInt32.
Proof. solve_decision. Defined.

(** [operator-(WrappingInt32, WrappingInt32)]: an [int32_t]. *)
Definition wi_minus (a b : WrappingInt32) : Z := s32 (raw_value a - raw_value b).
(** [operator==] and [operator!=]. *)
Definition wi_eq (a b : WrappingInt32) : bool := raw_value a =? raw_value b.
Definition wi_neq (a b : WrappingInt32) : bool := negb (wi_eq a b).
(** [operator+(WrappingInt32, uint32_t)]. *)
Definition wi_plus (a : WrappingInt32) (b : Z) : WrappingInt32 :=
  WrappingInt32_of (raw_value a + b).
(** [operator-(WrappingInt32, uint32_t)], that is [a + -b] with [-b] a [uint32_t]. *)
Definition wi_minus_n (a : WrappingInt32) (b : Z) : WrappingInt32 := wi_plus a (u32 (- b)).

Definition wrap (n : Z) (isn : WrappingInt32) : WrappingInt32 :=
  let number := u32 (raw_value isn + u32 n) in
  WrappingInt32_of number.

Definition unwrap (n isn : WrappingInt32) (checkpoint : Z) : Z :=
  let offset := u32 (wi_minus n (wrap checkpoint isn)) in
  let pos := u64 (checkpoint + offset) in
  if (offset >? 2147483648) && (pos >=? 4294967296)
  then u64 (pos - 4294967296)
  else pos.

(** ** Lemmas *)

Lemma wf_wrap n isn : wf_wrapping (wrap n isn).
Proof. apply u32_range. Qed.
#[export] Hint Resolve wf_wrap : sponge.

Lemma raw_wrap n isn : raw_value (wrap n isn) = u32 (raw_value isn + n).
Proof. unfold wrap; simpl. words_lia. Qed.

Lemma wi_eq_spec a b : wi_eq a b = true <-> a = b.
Proof.
  unfold wi_eq. rewrite Z.eqb_eq. destruct a, b; simpl. split; congruence.
Qed.

(** The offset computed by [unwrap], without the signed detour. *)
Lemma unwrap_offset n isn c :
  u32 (wi_minus n (wrap c isn)) = u32 (raw_value n - raw_value isn - c).
Proof. unfold wi_minus. rewrite raw_wrap. unfold s32. case_if; words_lia. Qed.

(** [unwrap] as a value at a known distance of the checkpoint. *)
Lemma unwrap_spec_lemma n isn c :
  0 <= c < 18446744073709551616 - 4294967296 ->
  let d := u32 (raw_value n - raw_value isn - c) in
  unwrap n isn c =
    if (d >? 2147483648) && (c + d >=? 4294967296) then c + d - 4294967296 else c + d.
Proof.
  intros Hc d. unfold unwrap. rewrite unwrap_offset. fold d.
  pose proof (u32_range (raw_value n - raw_value isn - c)). fold d in H.
  rewrite (u64_id (c + d)) by lia. case_if; [|done]. apply u64_id. lia.
Qed.

(** Within half the sequence space of the checkpoint, [unwrap] inverts [wrap]. *)
Lemma unwrap_wrap_near x isn c :
  0 <= x -> 0 <= c < 18446744073709551616 - 4294967296 ->
  - 2147483648 < x - c <= 2147483648 ->
  unwrap (wrap x isn) isn c = x.
Proof.
  intros Hx Hc Hd. rewrite unwrap_spec_lemma by done. rewrite raw_wrap.
  replace (u32 (u32 (raw_value isn + x) - raw_value isn - c)) with (u32 (x - c)) by words_lia.
  destruct (Z.le_gt_cases 0 (x - c)).
  - rewrite u32_id by lia. case_if; lia.
  - replace (u32 (x - c)) with (x - c + 4294967296) by words_lia. case_if; lia.
Qed.

Lemma wrap_unwrap n isn c :
  wf_wrapping n -> 0 <= c < 18446744073709551616 - 4294967296 -> wrap (unwrap n isn c) isn = n.
Proof.
  intros Hn Hc. rewrite unwrap_spec_lemma by done.
  assert (forall y, raw_value (wrap y isn) = raw_value n -> wrap y isn = n) as Hw
    by (intros y; destruct (wrap y isn), n; simpl; congruence).
  apply Hw. rewrite raw_wrap. unfold wf_wrapping in Hn. case_if; words_lia.
Qed.

(** [wrap] is determined by the absolute number modulo 2^32. *)
Lemma wrap_inj_near isn x y :
  -4294967296 < x - y < 4294967296 -> wrap x isn = wrap y isn -> x = y.
Proof.
  intros Hd H%(f_equal raw_value). rewrite !raw_wrap in H. words_lia.
Qed.

(** ** Properties *)

(** round trip. Converting an absolute sequence number to its 32-bit form
    and back gives the number again, for every initial sequence number and every
    checkpoint less than half the 32-bit space away (the tie 2^31 ahead included). *)
Theorem unwrap_wrap_roundtrip x isn checkpoint
  (Hx : 0 <= x) (Hc : 0 <= checkpoint < 18446744073709551616 - 4294967296)
  (Hd : - 2147483648 < x - checkpoint <= 2147483648) :
  unwrap (wrap x isn) isn checkpoint = x.
Proof. by apply unwrap_wrap_near. Qed.

(** C35: [unwrap] returns what its contract says: a non-negative absolute number that
    wraps to [n] and no other non-negative number that wraps to [n] is closer to the
    checkpoint. *)
Theorem unwrap_closest n isn checkpoint
  (Hn : wf_wrapping n) (Hc : 0 <= checkpoint < 18446744073709551616 - 4294967296) :
  let x := unwrap n isn checkpoint in
  0 <= x /\ wrap x isn = n /\
  forall y, 0 <= y -> wrap y isn = n -> Z.abs (x - checkpoint) <= Z.abs (y - checkpoint).
Proof.
  intros x. subst x. rewrite unwrap_spec_lemma by done.
  set (d := u32 _). pose proof (u32_range (raw_value n - raw_value isn - checkpoint)) as Hr.
  fold d in Hr.
  assert (Hk : exists k, raw_value n - raw_value isn - checkpoint = d + 4294967296 * k).
  { exists ((raw_value n - raw_value isn - checkpoint) / 4294967296). subst d. words_lia. }
  destruct Hk as [k Hk]. destruct n as [rn]; unfold wf_wrapping in Hn; simpl in *.
  assert (Hw : forall y, wrap y isn = mkWrappingInt32 rn <-> u32 (raw_value isn + y) = rn).
  { intros y. rewrite <- raw_wrap. destruct (wrap y isn); simpl. split; congruence. }
  repeat split.
  - case_if; lia.
  - apply Hw. case_if; words_lia.
  - intros y Hy Hwy%Hw. clearbody d. clear Hw.
    assert (exists j, y - checkpoint = d + 4294967296 * j) as [j Hj].
    { exists (k + ((raw_value isn + y) / 4294967296)). words_lia. }
    case_if; [|destruct (Z.le_gt_cases 0 j)]; nia.
Qed.

Lemma unwrap_wrap_roundtrip_witness :
  unwrap (wrap 4294967300 (WrappingInt32_of 4294967290)) (WrappingInt32_of 4294967290) 4294967000
  = 4294967300.
Proof. apply unwrap_wrap_roundtrip; by_compute. Defined.

Lemma unwrap_closest_witness :
  let x := unwrap (WrappingInt32_of 5) (WrappingInt32_of 4294967290) 4294967290 in
  0 <= x /\ wrap x (WrappingInt32_of 4294967290) = WrappingInt32_of 5 /\
  forall y, 0 <= y -> wrap y (WrappingInt32_of 4294967290) = WrappingInt32_of 5 ->
    Z.abs (x - 4294967290) <= Z.abs (y - 4294967290).
Proof. apply (unwrap_closest (WrappingInt32_of 5)); by_compute. Defined.
