(* ===== verification/ByteStream.v ===== *)
(** * The in-order byte stream (src/libsponge/byte_stream.hh, byte_stream.cc)

    A bounded queue of bytes with counters of the bytes written and read, an
    end-of-input flag and an error flag. *)

From S2P Require Import Prelude.

Record ByteStream := mkByteStream {
  _buff : bytes;
  capacity : Z;
  bytes_r : Z;
  bytes_w : Z;
  _end_input : bool;
  _error : bool
}.

(** The constructor. *)
Definition make (_capacity : Z) : ByteStream :=
  mkByteStream [] _capacity 0 0 false false.

Definition input_ended (s : ByteStream) : bool := _end_input s.
Definition buffer_size (s : ByteStream) : Z := #(_buff s).
Definition buffer_empty (s : ByteStream) : bool := bool_decide (_buff s = []).
Definition eof (s : ByteStream) : bool := input_ended s && buffer_empty s.
Definition error (s : ByteStream) : bool := _error s.
Definition bytes_written (s : ByteStream) : Z := bytes_w s.
Definition bytes_read (s : ByteStream) : Z := bytes_r s.
Definition remaining_capacity (s : ByteStream) : Z := u64 (capacity s - #(_buff s)).

Definition end_input (s : ByteStream) : ByteStream :=
  mkByteStream (_buff s) (capacity s) (bytes_r s) (bytes_w s) true (_error s).
Definition set_error (s : ByteStream) : ByteStream :=
  mkByteStream (_buff s) (capacity s) (bytes_r s) (bytes_w s) (_end_input s) true.

(** The loop of [write]: [n] times [_buff.push_back(data[i])]. *)
Fixpoint push_loop (n : nat) (data buff : bytes) : bytes :=
  match n, data with
  | S n', c :: rest => push_loop n' rest (buff ++ [c])
  | _, _ => buff
  end.

(** [write] returns the number of bytes accepted. *)
Definition write (data : bytes) (s : ByteStream) : Z * ByteStream :=
  if input_ended s then (0, s)
  else
    let write_size := Z.min (#data) (remaining_capacity s) in
    (write_size,
     mkByteStream (push_loop (Z.to_nat write_size) data (_buff s)) (capacity s)
       (bytes_r s) (u64 (bytes_w s + write_size)) (_end_input s) (_error s)).

Definition peek_output (len : Z) (s : ByteStream) : bytes :=
  let peek_size := Z.min len (#(_buff s)) in
  take (Z.to_nat peek_size) (_buff s).

(** The loop of [pop_output]: [n] times [_buff.pop_front()]. *)
Fixpoint pop_loop (n : nat) (buff : bytes) : bytes :=
  match n, buff with
  | S n', _ :: rest => pop_loop n' rest
  | _, _ => buff
  end.

Definition pop_output (len : Z) (s : ByteStream) : ByteStream :=
  let pop_size := Z.min len (#(_buff s)) in
  mkByteStream (pop_loop (Z.to_nat pop_size) (_buff s)) (capacity s)
    (u64 (bytes_r s + pop_size)) (bytes_w s) (_end_input s) (_error s).

Definition read (len : Z) (s : ByteStream) : bytes * ByteStream :=
  (peek_output len s, pop_output len s).

(** ** Invariant *)

(** The stream holds exactly the bytes written and not yet read, at most
    [capacity] of them, and the counters have not wrapped. *)
Record wf (s : ByteStream) : Prop := {
  wf_capacity : 0 <= capacity s < 18446744073709551616;
  wf_fits : #(_buff s) <= capacity s;
  wf_read : 0 <= bytes_r s;
  wf_count : bytes_r s + #(_buff s) = bytes_w s;
  wf_written : bytes_w s < 18446744073709551616
}.

(** The abstract contents: relative to the whole sequence [W] of bytes ever
    accepted, the buffer is its unread part. *)
Definition contents (W : bytes) (s : ByteStream) : Prop :=
  #W = bytes_w s /\ _buff s = slice (bytes_r s) (bytes_w s) W.

Lemma push_loop_app n data buff :
  push_loop n data buff = buff ++ take n data.
Proof.
  revert data buff. induction n as [|n IH]; intros [|c rest] buff; simpl;
    rewrite ?app_nil_r; [done..|].
  rewrite IH, <- app_assoc. done.
Qed.

Lemma pop_loop_drop n buff : pop_loop n buff = drop n buff.
Proof. revert buff. induction n as [|n IH]; intros [|c rest]; simpl; auto. Qed.

Lemma remaining_capacity_wf s :
  wf s -> remaining_capacity s = capacity s - #(_buff s).
Proof.
  intros []. pose proof (Zlen_nonneg (_buff s)). unfold remaining_capacity.
  apply u64_id. lia.
Qed.

Lemma buffer_empty_spec s : buffer_empty s = true <-> _buff s = [].
Proof. unfold buffer_empty. apply bool_decide_eq_true. Qed.

Lemma buffer_empty_size s : buffer_empty s = (buffer_size s =? 0).
Proof.
  unfold buffer_empty, buffer_size. destruct (_buff s) as [|b l]; [done|].
  rewrite bool_decide_eq_false_2 by done. rewrite Zlen_cons.
  pose proof (Zlen_nonneg l). lia.
Qed.

(** What a write does to an open stream. *)
Lemma write_open data s :
  wf s -> input_ended s = false -> bytes_w s + #data < 18446744073709551616 ->
  let n := Z.min (#data) (capacity s - #(_buff s)) in
  write data s =
    (n, mkByteStream (_buff s ++ take (Z.to_nat n) data) (capacity s)
          (bytes_r s) (bytes_w s + n) false (_error s)).
Proof.
  intros Hwf Hopen Hb n. unfold write. rewrite Hopen, remaining_capacity_wf by done.
  fold n. rewrite push_loop_app. unfold input_ended in Hopen. rewrite Hopen.
  destruct Hwf. pose proof (Zlen_nonneg data). pose proof (Zlen_nonneg (_buff s)).
  unfold n in *. unwrap_words. done.
Qed.

Lemma pop_output_wf_eq n s :
  wf s -> 0 <= n ->
  let k := Z.min n (#(_buff s)) in
  pop_output n s =
    mkByteStream (drop (Z.to_nat k) (_buff s)) (capacity s) (bytes_r s + k)
      (bytes_w s) (_end_input s) (_error s).
Proof.
  intros [] Hn k. unfold pop_output. rewrite pop_loop_drop. fold k.
  pose proof (Zlen_nonneg (_buff s)). unfold k in *. unwrap_words. done.
Qed.

Lemma make_wf c : 0 <= c < 18446744073709551616 -> wf (make c).
Proof. intros. constructor; simpl; rewrite ?Zlen_nil; lia. Qed.

Lemma write_wf data s :
  wf s -> bytes_w s + #data < 18446744073709551616 -> wf (write data s).2.
Proof.
  intros Hwf Hb. destruct (input_ended s) eqn:E; [unfold write; by rewrite E|].
  rewrite write_open by done. destruct Hwf. pose proof (Zlen_nonneg data).
  pose proof (Zlen_nonneg (_buff s)).
  constructor; simpl; rewrite ?Zlen_app, ?Zlen_take by lia; lia.
Qed.

Lemma pop_output_wf n s : wf s -> 0 <= n -> wf (pop_output n s).
Proof.
  intros Hwf Hn. rewrite pop_output_wf_eq by done. destruct Hwf.
  pose proof (Zlen_nonneg (_buff s)).
  constructor; simpl; rewrite ?Zlen_drop by lia; lia.
Qed.

Lemma end_input_wf s : wf s -> wf (end_input s).
Proof. intros []. by constructor. Qed.
Lemma set_error_wf s : wf s -> wf (set_error s).
Proof. intros []. by constructor. Qed.
#[export] Hint Resolve make_wf write_wf pop_output_wf end_input_wf set_error_wf : sponge.

(** Writing appends the accepted prefix to the sequence of all bytes written. *)
Lemma write_contents W data s :
  wf s -> contents W s -> bytes_w s + #data < 18446744073709551616 ->
  contents (W ++ take (Z.to_nat (write data s).1) data) (write data s).2.
Proof.
  intros Hwf [HW Hbuf] Hb. destruct (input_ended s) eqn:E.
  { unfold write, contents. rewrite E. simpl. rewrite app_nil_r. done. }
  rewrite write_open by done. destruct Hwf.
  pose proof (Zlen_nonneg data). pose proof (Zlen_nonneg (_buff s)).
  set (n := Z.min _ _). unfold contents; simpl.
  rewrite Zlen_app, Zlen_take by lia. split; [lia|].
  rewrite (slice_split (bytes_w s)) by lia. f_equal.
  - rewrite slice_app_l by lia. done.
  - rewrite slice_to_end by (try rewrite Zlen_app, Zlen_take by lia; lia).
    rewrite drop_app_ge by (unfold Zlen in *; lia).
    replace (Z.to_nat (bytes_w s) - length W)%nat with 0%nat by (unfold Zlen in *; lia).
    done.
Qed.

Lemma pop_output_contents W n s :
  wf s -> contents W s -> 0 <= n -> contents W (pop_output n s).
Proof.
  intros Hwf [HW Hbuf] Hn. rewrite pop_output_wf_eq by done.
  destruct Hwf. pose proof (Zlen_nonneg (_buff s)).
  split; simpl; [done|]. rewrite Hbuf at 2. rewrite drop_slice by lia. done.
Qed.

Lemma read_contents W n s :
  wf s -> contents W s -> 0 <= n ->
  (read n s).1 = slice (bytes_r s) (bytes_r (pop_output n s)) W.
Proof.
  intros Hwf [HW Hbuf] Hn. rewrite pop_output_wf_eq by done. simpl.
  unfold peek_output. destruct Hwf. pose proof (Zlen_nonneg (_buff s)).
  rewrite Hbuf at 2. rewrite take_slice by lia. f_equal. lia.
Qed.

(** Reading, relative to the bytes written. *)
Lemma read_spec W n s :
  wf s -> contents W s -> 0 <= n ->
  let k := Z.min n (#(_buff s)) in
  let s' := (read n s).2 in
  (read n s).1 = slice (bytes_r s) (bytes_r s + k) W /\ #((read n s).1) = k /\
  wf s' /\ contents W s' /\ bytes_r s' = bytes_r s + k /\ bytes_w s' = bytes_w s /\
  input_ended s' = input_ended s /\ error s' = error s /\ capacity s' = capacity s /\
  length (_buff s') = (length (_buff s) - Z.to_nat k)%nat.
Proof.
  intros Hwf HC Hn k s'. pose proof (read_contents W n s Hwf HC Hn) as Hr.
  pose proof (pop_output_wf n s Hwf Hn). pose proof (pop_output_contents W n s Hwf HC Hn).
  pose proof (pop_output_wf_eq n s Hwf Hn) as E. fold k in E. pose proof (Zlen_nonneg (_buff s)).
  assert (bytes_r s' = bytes_r s + k) as Hk by (unfold s', read; cbn [snd]; by rewrite E).
  split_and!; try done; unfold s' in *; cbn [read fst snd] in *.
  - rewrite Hr, Hk. done.
  - unfold peek_output, k. rewrite Zlen_take by lia. lia.
  - rewrite E. simpl. by rewrite length_drop.
Qed.

Lemma eof_spec s : eof s = true <-> input_ended s = true /\ _buff s = [].
Proof. unfold eof. by rewrite andb_true_iff, buffer_empty_spec. Qed.

Lemma eof_read_all s : wf s -> eof s = true -> bytes_r s = bytes_w s.
Proof. intros [] [_ E]%eof_spec. rewrite E, Zlen_nil in *. lia. Qed.

(** ** Sequences of operations *)

(** What the users of a stream may do with it. *)
Inductive stream_op :=
| OpWrite (data : bytes)
| OpRead (len : Z)
| OpEnd
| OpError.

(** A stream with its history: the bytes accepted by [write] and the bytes
    returned by [read], both in order. *)
Record history := mkHistory { stream : ByteStream; accepted : bytes; delivered : bytes }.

Definition exec (op : stream_op) (h : history) : history :=
  let s := stream h in
  match op with
  | OpWrite data =>
      let '(n, s') := write data s in
      mkHistory s' (accepted h ++ take (Z.to_nat n) data) (delivered h)
  | OpRead len =>
      let '(r, s') := read len s in
      mkHistory s' (accepted h) (delivered h ++ r)
  | OpEnd => mkHistory (end_input s) (accepted h) (delivered h)
  | OpError => mkHistory (set_error s) (accepted h) (delivered h)
  end.

Definition run (ops : list stream_op) (h : history) : history :=
  foldl (fun h op => exec op h) h ops.

(** The number of bytes offered to [write] by a sequence of operations. *)
Fixpoint offered (ops : list stream_op) : Z :=
  match ops with
  | [] => 0
  | OpWrite data :: rest => #data + offered rest
  | _ :: rest => offered rest
  end.

Definition valid_op (op : stream_op) : Prop :=
  match op with OpRead len => 0 <= len | _ => True end.

(** The history of a stream is consistent with its state. *)
Definition consistent (h : history) : Prop :=
  wf (stream h) /\ contents (accepted h) (stream h) /\
  delivered h = slice 0 (bytes_r (stream h)) (accepted h).

Lemma offered_nonneg ops : 0 <= offered ops.
Proof.
  induction ops as [|[] ops IH]; simpl; try lia. pose proof (Zlen_nonneg data). lia.
Qed.

Lemma write_count data s :
  wf s -> bytes_w s + #data < 18446744073709551616 ->
  bytes_w s <= bytes_w (write data s).2 <= bytes_w s + #data.
Proof.
  intros Hwf Hb. pose proof (Zlen_nonneg data). destruct (input_ended s) eqn:E.
  { unfold write. rewrite E. simpl. lia. }
  rewrite write_open by done. destruct Hwf. simpl. lia.
Qed.

Lemma exec_consistent op h :
  consistent h -> valid_op op ->
  bytes_w (stream h) + offered [op] < 18446744073709551616 ->
  consistent (exec op h).
Proof.
  intros (Hwf & Hc & Hd) Hv Hb. unfold consistent.
  destruct op as [data|n| |]; simpl in *.
  - rewrite Z.add_0_r in Hb. pose proof (write_contents _ data _ Hwf Hc Hb) as Hc'.
    pose proof (write_wf data _ Hwf Hb) as Hwf'.
    assert (bytes_r (write data (stream h)).2 = bytes_r (stream h)) as Hr
      by (unfold write; case_if; done).
    destruct (write data (stream h)) as [k s']; simpl in *.
    split_and!; [done..|]. destruct Hwf, Hc as [Hlen _].
    pose proof (Zlen_nonneg (_buff (stream h))).
    rewrite Hr, slice_app_l by lia. done.
  - pose proof (pop_output_contents _ _ _ Hwf Hc Hv).
    pose proof (pop_output_wf _ _ Hwf Hv).
    split_and!; [done..|]. pose proof (read_contents _ _ _ Hwf Hc Hv) as Hr.
    unfold read in Hr. simpl in Hr.
    rewrite Hd, Hr. destruct Hwf. pose proof (Zlen_nonneg (_buff (stream h))).
    unwrap_words.
    rewrite <- slice_split by lia. done.
  - split_and!; [auto with sponge|done|done].
  - split_and!; [auto with sponge|done|done].
Qed.

Lemma exec_bytes_w op h :
  consistent h -> valid_op op ->
  bytes_w (stream h) + offered [op] < 18446744073709551616 ->
  bytes_w (stream (exec op h)) <= bytes_w (stream h) + offered [op].
Proof.
  intros (Hwf & _) Hv Hb. destruct op as [data|n| |]; simpl in *; try lia.
  rewrite Z.add_0_r in *. pose proof (write_count data _ Hwf Hb).
  destruct (write data (stream h)); simpl in *. lia.
Qed.

Lemma run_consistent ops h :
  consistent h -> Forall valid_op ops ->
  bytes_w (stream h) + offered ops < 18446744073709551616 ->
  consistent (run ops h).
Proof.
  revert h. induction ops as [|op ops IH]; intros h Hc Hv Hb; [done|].
  inversion Hv; subst. pose proof (offered_nonneg ops).
  assert (offered (op :: ops) = offered [op] + offered ops) as Ho
    by (destruct op; simpl; lia).
  assert (bytes_w (stream h) + offered [op] < 18446744073709551616) as Hop by lia.
  pose proof (exec_bytes_w op h Hc ltac:(done) Hop).
  simpl. apply IH; [by apply exec_consistent|done|lia].
Qed.

Lemma make_consistent cap :
  0 <= cap < 18446744073709551616 -> consistent (mkHistory (make cap) [] []).
Proof.
  intros. split_and!; simpl; [auto with sponge|done|done].
Qed.

Lemma consistent_fifo h :
  consistent h -> accepted h = delivered h ++ _buff (stream h).
Proof.
  intros (Hwf & [Hlen Hb] & Hd). rewrite Hd, Hb.
  destruct Hwf. pose proof (Zlen_nonneg (_buff (stream h))).
  rewrite <- slice_split, <- Hlen, slice_full by lia. done.
Qed.

Lemma exec_eof op h :
  eof (stream h) = true ->
  eof (stream (exec op h)) = true /\
  accepted (exec op h) = accepted h /\ delivered (exec op h) = delivered h.
Proof.
  intros [He Hb%buffer_empty_spec]%andb_prop.
  destruct op as [data|n| |]; simpl.
  - unfold write. rewrite He. simpl. rewrite app_nil_r.
    unfold eof. rewrite He. split; [|done]. apply andb_true_intro.
    split; [done|]. by apply buffer_empty_spec.
  - assert (Hp : forall k, pop_loop k (_buff (stream h)) = []) by (rewrite Hb; by intros []).
    assert (Hk : peek_output n (stream h) = []) by (unfold peek_output; by rewrite Hb, take_nil).
    rewrite Hk, app_nil_r. split; [|done]. apply andb_true_intro. split; [done|].
    apply buffer_empty_spec. apply Hp.
  - unfold eof, buffer_empty. simpl. rewrite Hb. done.
  - unfold eof, buffer_empty. simpl. rewrite Hb. unfold input_ended in *. simpl. by rewrite He.
Qed.

(** ** Properties *)

(** C36: first in, first out, for every sequence of writes, reads, end and error marks on
    a new stream: the bytes accepted by [write] are exactly the bytes returned by [read]
    followed by the bytes still buffered, the two counters are the lengths of the two
    histories, and the buffer never exceeds the capacity. *)
Theorem stream_fifo cap ops
  (Hcap : 0 <= cap < 18446744073709551616) (Hv : Forall valid_op ops)
  (Hb : offered ops < 18446744073709551616) :
  let h := run ops (mkHistory (make cap) [] []) in
  accepted h = delivered h ++ _buff (stream h) /\
  bytes_written (stream h) = #(accepted h) /\
  bytes_read (stream h) = #(delivered h) /\
  buffer_size (stream h) <= cap.
Proof.
  intros h. assert (consistent h) as Hc
    by (apply run_consistent; [by apply make_consistent|done|done]).
  assert (capacity (stream h) = cap) as Hk.
  { subst h. clear. set (h0 := mkHistory _ _ _).
    change cap with (capacity (stream h0)). clearbody h0. revert h0.
    induction ops as [|op ops IH]; intros h0; [done|]. simpl. rewrite IH.
    destruct op; simpl; try done. unfold write. by case_if. }
  split; [by apply consistent_fifo|]. destruct Hc as (Hwf & [Hlen Hbuf] & Hd).
  destruct Hwf. unfold bytes_written, bytes_read, buffer_size.
  pose proof (Zlen_nonneg (_buff (stream h))).
  rewrite Hd, Zlen_slice by lia. lia.
Qed.

Lemma stream_fifo_witness :
  let h := run [OpWrite [x61; x62; x63]; OpRead 2; OpWrite [x64; x65; x66]; OpEnd;
                OpWrite [x67]; OpRead 9] (mkHistory (make 3) [] []) in
  accepted h = delivered h ++ _buff (stream h) /\
  bytes_written (stream h) = #(accepted h) /\
  bytes_read (stream h) = #(delivered h) /\
  buffer_size (stream h) <= 3.
Proof.
  apply (stream_fifo 3); [lia| |vm_compute; reflexivity].
  repeat constructor; simpl; lia.
Defined.

(** [write] accepts as much as fits and nothing else: on an open stream it returns the
    smaller of the length of the data and the free space and appends exactly that prefix;
    on an ended stream it returns 0 and changes nothing. *)
Theorem write_accepts data s
  (Hwf : wf s) (Hb : bytes_w s + #data < 18446744073709551616) :
  write data s =
    if input_ended s then (0, s)
    else
      let n := Z.min (#data) (capacity s - buffer_size s) in
      (n, mkByteStream (_buff s ++ take (Z.to_nat n) data) (capacity s)
            (bytes_r s) (bytes_w s + n) false (_error s)).
Proof.
  destruct (input_ended s) eqn:E; [unfold write; by rewrite E|]. by apply write_open.
Qed.

Lemma write_accepts_witness :
  write [x62; x63; x64] (mkByteStream [x61] 3 0 1 false false) =
    (2, mkByteStream [x61; x62; x63] 3 0 3 false false).
Proof.
  rewrite write_accepts; [reflexivity|constructor; by_compute|by_compute].
Defined.

(** end of file is final: once the input has ended and the buffer is empty, no sequence
    of operations adds or returns another byte, and the stream stays at end of file. *)
Theorem eof_is_final ops h (He : eof (stream h) = true) :
  eof (stream (run ops h)) = true /\
  accepted (run ops h) = accepted h /\ delivered (run ops h) = delivered h.
Proof.
  revert h He. induction ops as [|op ops IH]; intros h He; [done|]. simpl.
  destruct (exec_eof op h He) as (E1 & E2 & E3).
  destruct (IH _ E1) as (F1 & F2 & F3). rewrite F2, F3. done.
Qed.

Lemma eof_is_final_witness :
  eof (stream (run [OpWrite [x61]; OpRead 1]
    (mkHistory (mkByteStream [] 4 2 2 true false) [x62; x63] [x62; x63]))) = true.
Proof. apply (eof_is_final [OpWrite [x61]; OpRead 1]). reflexivity. Defined.
