(* ===== verification/StreamReassembler.v ===== *)
(** * The stream reassembler
    (src/libsponge/stream_reassembler.hh, stream_reassembler.cc)

    Substrings of a byte stream arrive out of order, duplicated and overlapping;
    the reassembler stores them in an ordered set of disjoint segments and moves
    every contiguous prefix to its output stream. *)

From S2P Require Import Prelude ByteStream.

(** ** Definitions *)

(** [struct Segment] with its methods. *)
Record Segment := mkSegment { _idx : Z; _data : bytes }.
Definition seg_length (s : Segment) : Z := #(_data s).
Definition tail_idx (s : Segment) : Z := u64 (_idx s + seg_length s - 1).
Definition seg_less (s seg : Segment) : bool := _idx s <? _idx seg.

Record StreamReassembler := mkReassembler {
  _output : ByteStream;
  _capacity : Z;
  _eof_index : Z;
  _unassembled_bytes : Z;
  _eof : bool;
  _buf : list Segment
}.

Definition make (capacity : Z) : StreamReassembler :=
  mkReassembler (ByteStream.make capacity) capacity 0 0 false [].

Definition stream_out (st : StreamReassembler) : ByteStream := _output st.
Definition unassembled_bytes (st : StreamReassembler) : Z := _unassembled_bytes st.
Definition empty (st : StreamReassembler) : bool :=
  match _buf st with [] => true | _ => false end.
Definition first_unread (st : StreamReassembler) : Z := bytes_read (_output st).
Definition first_unassembled (st : StreamReassembler) : Z := bytes_written (_output st).
Definition first_unacceptable (st : StreamReassembler) : Z :=
  u64 (first_unread st + _capacity st).

(** Updates of one or two fields. *)
Definition set_output (o : ByteStream) (st : StreamReassembler) : StreamReassembler :=
  mkReassembler o (_capacity st) (_eof_index st) (_unassembled_bytes st) (_eof st) (_buf st).
Definition set_eof (i : Z) (st : StreamReassembler) : StreamReassembler :=
  mkReassembler (_output st) (_capacity st) i (_unassembled_bytes st) true (_buf st).
Definition set_buf (n : Z) (b : list Segment) (st : StreamReassembler) : StreamReassembler :=
  mkReassembler (_output st) (_capacity st) (_eof_index st) n (_eof st) b.

(** [std::set<Segment>::insert]: the set is ordered by [operator<], and an
    element equivalent to the new one prevents the insertion. *)
Fixpoint set_insert (s : Segment) (l : list Segment) : list Segment :=
  match l with
  | [] => [s]
  | x :: r =>
      if seg_less s x then s :: l
      else if seg_less x s then x :: set_insert s r
      else l
  end.

(** An iterator of the set is a position in the ordered list. *)
Definition _buf_erase (iter : nat) (st : StreamReassembler) : StreamReassembler :=
  match _buf st !! iter with
  | Some s => set_buf (u64 (_unassembled_bytes st - seg_length s)) (delete iter (_buf st)) st
  | None => st
  end.

Definition _buf_insert (seg : Segment) (st : StreamReassembler) : StreamReassembler :=
  set_buf (u64 (_unassembled_bytes st + seg_length seg)) (set_insert seg (_buf st)) st.

Definition _merge_seg (seg1 seg2 : Segment) : result Segment :=
  let seg1_tail := tail_idx seg1 in
  let seg2_tail := tail_idx seg2 in
  if (_idx seg1 <? _idx seg2) && (seg1_tail <=? seg2_tail) then
    d ← substr (_data seg1) 0 (u64 (_idx seg2 - _idx seg1));
    Ok (mkSegment (_idx seg1) (d ++ _data seg2))
  else if (_idx seg1 >=? _idx seg2) && (seg1_tail >? seg2_tail) then
    d ← substr (_data seg1) (u64 (u64 (_idx seg2 + seg_length seg2) - _idx seg1)) npos;
    Ok (mkSegment (_idx seg2) (_data seg2 ++ d))
  else if (_idx seg1 >=? _idx seg2) && (seg1_tail <=? seg2_tail) then
    Ok (mkSegment (_idx seg2) (_data seg2))
  else Ok seg1.

(** The test of the loop of [_handle_overlap]. *)
Definition overlaps (seg_index seg_tail : Z) (b : Segment) : bool :=
  ((seg_index <=? tail_idx b) && (seg_index >=? _idx b)) ||
  ((seg_tail >=? _idx b) && (seg_index <=? _idx b)).

(** The loop of [_handle_overlap]; [n] counts the elements from the iterator to
    the end of the set, and each turn passes over or erases one of them. *)
Fixpoint overlap_loop (seg_index seg_tail : Z) (n iter : nat) (seg : Segment)
    (st : StreamReassembler) : result (Segment * StreamReassembler) :=
  match n with
  | O => Ok (seg, st)
  | S n' =>
      match _buf st !! iter with
      | None => Ok (seg, st)
      | Some b =>
          if overlaps seg_index seg_tail b then
            seg' ← _merge_seg seg b;
            overlap_loop seg_index seg_tail n' iter seg' (_buf_erase iter st)
          else overlap_loop seg_index seg_tail n' (S iter) seg st
      end
  end.

Definition _handle_overlap (seg : Segment) (st : StreamReassembler) : result StreamReassembler :=
  r ← overlap_loop (_idx seg) (tail_idx seg) (length (_buf st)) 0 seg st;
  Ok (_buf_insert r.1 r.2).

Definition _handle_substring (seg : Segment) (st : StreamReassembler) : result StreamReassembler :=
  let index := _idx seg in
  if (index >=? first_unacceptable st) || (tail_idx seg <? first_unassembled st) then Ok st
  else
    seg ← (if (index <? first_unassembled st) && (tail_idx seg >=? first_unassembled st) then
             d ← substr (_data seg) (u64 (first_unassembled st - index)) npos;
             Ok (mkSegment (first_unassembled st) d)
           else Ok seg);
    seg ← (if (index <? first_unacceptable st) && (tail_idx seg >=? first_unacceptable st) then
             d ← substr (_data seg) 0 (u64 (first_unacceptable st - index));
             Ok (mkSegment (_idx seg) d)
           else Ok seg);
    if empty st then Ok (_buf_insert seg st) else _handle_overlap seg st.

(** The loop of [push_substring]; every turn erases one of the [n] segments. *)
Fixpoint assemble_loop (n : nat) (st : StreamReassembler) : StreamReassembler :=
  match n, _buf st with
  | S n', s :: _ =>
      if _idx s =? first_unassembled st then
        let '(_, o) := ByteStream.write (_data s) (_output st) in
        assemble_loop n' (_buf_erase 0 (set_output o st))
      else st
  | _, _ => st
  end.

Definition push_substring (data : bytes) (index : Z) (eof : bool) (st : StreamReassembler)
    : result StreamReassembler :=
  let st := if eof then set_eof (u64 (index + #data)) st else st in
  st ← match data with
       | [] => Ok st
       | _ => _handle_substring (mkSegment index data) st
       end;
  let st := assemble_loop (length (_buf st)) st in
  if _eof st && (first_unassembled st =? _eof_index st) then
    Ok (set_buf (_unassembled_bytes st) [] (set_output (ByteStream.end_input (_output st)) st))
  else Ok st.

(** ** Segments of a stream *)

(** One past the last index of a segment. *)
Definition seg_end (s : Segment) : Z := _idx s + #(_data s).

(** The segment is a non-empty part of the stream [W]. *)
Definition good (W : bytes) (s : Segment) : Prop :=
  0 <= _idx s /\ 0 < #(_data s) /\ seg_end s <= #W /\
  _data s = slice (_idx s) (seg_end s) W.

(** Disjoint segments in increasing order inside [[lo, hi)]. *)
Fixpoint chain (lo : Z) (l : list Segment) (hi : Z) : Prop :=
  match l with
  | [] => True
  | s :: r => lo <= _idx s /\ _idx s < seg_end s <= hi /\ chain (seg_end s) r hi
  end.

(** Index [i] is in one of the segments. *)
Definition covered (l : list Segment) (i : Z) : Prop :=
  Exists (fun s => _idx s <= i < seg_end s) l.

Fixpoint total (l : list Segment) : Z :=
  match l with [] => 0 | s :: r => #(_data s) + total r end.

(** The list-level meaning of [overlap_loop]: merge the segments that overlap,
    keep the others. *)
Fixpoint absorb (seg_index seg_tail : Z) (seg : Segment) (l : list Segment)
    : result (Segment * list Segment) :=
  match l with
  | [] => Ok (seg, [])
  | b :: r =>
      if overlaps seg_index seg_tail b then
        seg' ← _merge_seg seg b;
        absorb seg_index seg_tail seg' r
      else
        p ← absorb seg_index seg_tail seg r;
        Ok (p.1, b :: p.2)
  end.

Lemma chain_weaken lo lo' l hi hi' :
  chain lo l hi -> lo' <= lo -> hi <= hi' -> chain lo' l hi'.
Proof.
  revert lo lo'. induction l as [|s l IH]; intros lo lo'; simpl; [done|].
  intros (? & ? & ?) ??. split_and!; try lia. eapply IH; eauto; lia.
Qed.

Lemma chain_bounds lo l hi : chain lo l hi -> Forall (fun s => lo <= _idx s < seg_end s /\ seg_end s <= hi) l.
Proof.
  revert lo. induction l as [|s l IH]; intros lo; simpl; [done|].
  intros (? & ? & H%IH). constructor; [lia|].
  eapply Forall_impl; [|exact H]. simpl. intros. lia.
Qed.

Lemma total_nonneg l : 0 <= total l.
Proof. induction l as [|s l IH]; simpl; [lia|]. pose proof (Zlen_nonneg (_data s)). lia. Qed.

Lemma total_chain lo l hi : lo <= hi -> chain lo l hi -> total l <= hi - lo.
Proof.
  revert lo. induction l as [|s l IH]; intros lo Hlo; simpl; [lia|].
  intros (? & ? & H%IH); unfold seg_end in *; lia.
Qed.

Lemma covered_cons s l i :
  covered (s :: l) i <-> _idx s <= i < seg_end s \/ covered l i.
Proof. apply Exists_cons. Qed.

Lemma covered_bounds lo l hi i : chain lo l hi -> covered l i -> lo <= i < hi.
Proof.
  intros H%chain_bounds [s [Hs Hi]]%Exists_exists.
  rewrite Forall_forall in H. specialize (H s Hs). simpl in H. lia.
Qed.

Lemma set_insert_elem m l x : In x (set_insert m l) -> x = m \/ In x l.
Proof.
  induction l as [|y l IH]; simpl; [intuition|].
  repeat case_if; simpl; intuition.
Qed.

(** Good segments lie inside the stream. *)
Lemma chain_good W lo l hi : Forall (good W) l -> chain lo l hi -> chain lo l (#W).
Proof.
  intros Hg. revert lo. induction Hg as [|b l Hb _ IH]; simpl; [done|].
  intros lo (? & ? & ?). destruct Hb as (? & ? & ? & ?). split_and!; auto; lia.
Qed.

Section segments.
Variable W : bytes.
Hypothesis HW : #W < 18446744073709551616.

Lemma tail_idx_good s : good W s -> tail_idx s = seg_end s - 1.
Proof.
  unfold good, tail_idx, seg_end, seg_length. intros (? & ? & ? & ?).
  apply u64_id. lia.
Qed.

Lemma overlaps_good si se b :
  si < se -> good W b ->
  overlaps si (se - 1) b = (si <? seg_end b) && (_idx b <? se).
Proof.
  intros Hs Hb. unfold overlaps. rewrite (tail_idx_good b) by done.
  destruct Hb as (? & ? & ? & ?). unfold seg_end in *. lia.
Qed.

(** A part of the stream, as a good segment. *)
Lemma good_slice lo hi :
  0 <= lo < hi -> hi <= #W -> good W (mkSegment lo (slice lo hi W)) /\
  seg_end (mkSegment lo (slice lo hi W)) = hi.
Proof.
  intros. unfold good, seg_end; simpl. rewrite Zlen_slice by lia.
  split; [|lia]. split_and!; try lia. f_equal. lia.
Qed.

Lemma good_eq s : good W s -> s = mkSegment (_idx s) (slice (_idx s) (seg_end s) W).
Proof. destruct s as [i d]. intros (_ & _ & _ & H). simpl in *. by rewrite <- H. Qed.

(** Two overlapping parts of the stream merge into their union. *)
Lemma merge_good m b :
  good W m -> good W b -> _idx m < seg_end b -> _idx b < seg_end m ->
  exists m', _merge_seg m b = Ok m' /\ good W m' /\
    _idx m' = Z.min (_idx m) (_idx b) /\ seg_end m' = Z.max (seg_end m) (seg_end b).
Proof.
  intros Hm Hb H1 H2. unfold _merge_seg. rewrite !tail_idx_good by done.
  pose proof (good_eq _ Hm) as Em. pose proof (good_eq _ Hb) as Eb.
  destruct Hm as (Hm0 & Hm1 & Hm2 & Hm3), Hb as (Hb0 & Hb1 & Hb2 & Hb3).
  assert (#(_data m) = seg_end m - _idx m /\ #(_data b) = seg_end b - _idx b) as [Lm Lb]
    by (unfold seg_end; lia).
  unfold seg_length, npos. case_if; [|case_if; [|case_if]].
  - unwrap_words. rewrite Hm3, substr_slice, result_bind_Ok, Hb3 by lia.
    rewrite Z.add_0_r. replace (Z.min _ _) with (_idx b) by lia.
    rewrite <- slice_split by lia.
    destruct (good_slice (_idx m) (seg_end b)) as [G1 G2]; [lia..|].
    eexists; split_and!; [done|exact G1|simpl; lia|rewrite G2; lia].
  - rewrite Lb. rewrite (u64_id (_idx b + _)) by lia. unwrap_words.
    rewrite Hm3, substr_slice, result_bind_Ok, Hb3 by lia.
    replace (Z.min _ _) with (seg_end m) by lia.
    replace (_idx m + _) with (seg_end b) by lia.
    rewrite <- slice_split by lia.
    destruct (good_slice (_idx b) (seg_end m)) as [G1 G2]; [lia..|].
    eexists; split_and!; [done|exact G1|simpl; lia|rewrite G2; lia].
  - eexists; split_and!; [done| |simpl; lia|unfold seg_end in *; simpl; lia].
    destruct b. by repeat split.
  - eexists; split_and!; [done|by repeat split|lia|lia].
Qed.

(** Segments to the right of the new one are kept as they are. *)
Lemma absorb_right si se m lo l hi :
  si < se -> se <= lo -> chain lo l hi -> Forall (good W) l ->
  absorb si (se - 1) m l = Ok (m, l).
Proof.
  intros Hs. revert lo. induction l as [|b l IH]; intros lo Hlo Hc Hg; [done|].
  destruct Hc as (H1 & H2 & Hc). inversion Hg; subst. simpl.
  rewrite overlaps_good by done. case_if; [lia|].
  rewrite (IH (seg_end b)) by (done || lia). done.
Qed.

Lemma set_insert_front m l lo hi :
  chain lo l hi -> _idx m < lo -> set_insert m l = m :: l.
Proof.
  destruct l as [|b l]; [done|]. intros (H & _) ?. simpl. unfold seg_less.
  case_if; [done|]. lia.
Qed.

(** The outcome of [absorb]: the union [m'] of the new segment with those that
    overlap it, and the others [K]; inserting [m'] gives a chain again. *)
Definition absorbed (lo hi : Z) (m : Segment) (l : list Segment) (m' : Segment)
    (K : list Segment) : Prop :=
  good W m' /\ Z.min lo (_idx m) <= _idx m' <= _idx m /\
  seg_end m <= seg_end m' <= Z.max hi (seg_end m) /\
  incl K l /\ total K <= total l /\
  chain (Z.min lo (_idx m)) (set_insert m' K) (Z.max hi (seg_end m)) /\
  total (set_insert m' K) = total K + #(_data m') /\
  forall i, covered (set_insert m' K) i <-> covered l i \/ _idx m <= i < seg_end m.

Lemma absorb_spec si se lo l hi m :
  si < se -> chain lo l hi -> Forall (good W) l -> good W m ->
  _idx m <= si -> se <= seg_end m ->
  _idx m = si \/ si <= lo ->
  seg_end m = se \/ (se <= lo /\ seg_end m <= lo) ->
  exists m' K, absorb si (se - 1) m l = Ok (m', K) /\ absorbed lo hi m l m' K.
Proof.
  intros Hs. revert lo m. induction l as [|b l IH]; intros lo m Hc Hg Hm Hmi Hme Hlo Hhi.
  { exists m, []. split; [done|]. split_and!; try done; try apply incl_refl; simpl; try lia.
    intros i. rewrite covered_cons. tauto. }
  destruct Hc as (H1 & H2 & Hc). inversion Hg as [|? ? Hb Hg']; subst.
  destruct (Z.le_gt_cases se (_idx b)) as [Hr|Hr].
  { assert (chain (_idx b) (b :: l) hi) as Hc' by (simpl; split_and!; done || lia).
    exists m, (b :: l). rewrite (absorb_right si se m (_idx b) (b :: l) hi) by done.
    split; [done|]. pose proof Hm as (? & ? & ? & ?).
    assert (_idx m < seg_end m) by (unfold seg_end; lia).
    unfold absorbed. rewrite (set_insert_front m (b :: l) (_idx b) hi) by (done || lia).
    split_and!; try done; try apply incl_refl; simpl; try lia.
    - split_and!; try lia. eapply chain_weaken; [exact Hc|lia|lia].
    - intros i. rewrite covered_cons. tauto. }
  simpl. rewrite overlaps_good by done.
  destruct (Z.le_gt_cases (seg_end b) si) as [Hl|Hl].
  - case_if; [lia|].
    destruct (IH (seg_end b) m) as (m' & K & -> & HA); try done; try lia.
    destruct HA as (G & B1 & B2 & B3 & B4 & B5 & B6 & B7).
    exists m', (b :: K). split; [done|].
    assert (set_insert m' (b :: K) = b :: set_insert m' K) as Hins.
    { simpl. unfold seg_less. case_if; [lia|]. case_if; [done|lia]. }
    unfold absorbed. rewrite Hins.
    split_and!; try done; simpl; try lia.
    + intros x [->|Hx]; simpl; auto.
    + split_and!; try lia. eapply chain_weaken; [exact B5|lia|lia].
    + intros i. rewrite !covered_cons, B7. tauto.
  - case_if; [|lia].
    destruct (merge_good m b) as (m2 & -> & G2 & I2 & E2); try done; try lia.
    rewrite result_bind_Ok.
    destruct (IH (seg_end b) m2) as (m' & K & -> & HA); try done; try lia.
    destruct HA as (G & B1 & B2 & B3 & B4 & B5 & B6 & B7).
    exists m', K. split; [done|]. pose proof (Zlen_nonneg (_data b)).
    split_and!; try done; simpl; try lia.
    + intros x Hx. simpl. auto.
    + eapply chain_weaken; [exact B5|lia|lia].
    + intros i. rewrite B7, covered_cons, I2, E2.
      pose proof Hm as (? & ? & ? & ?). unfold seg_end in *. intuition lia.
Qed.
End segments.

(** The loop of [_handle_overlap] performs [absorb] on the part of the set it has
    not passed yet, and keeps the byte count. *)
Lemma overlap_loop_absorb si tl l before m st m' K :
  _buf st = before ++ l -> _unassembled_bytes st = total before + total l ->
  total before + total l < 18446744073709551616 ->
  absorb si tl m l = Ok (m', K) ->
  overlap_loop si tl (length l) (length before) m st =
    Ok (m', set_buf (total before + total K) (before ++ K) st).
Proof.
  revert before m st K. induction l as [|b l IH]; intros before m st K Hb Hu Ht HA; simpl in *.
  { injection HA as <- <-. rewrite <- Hb. simpl. rewrite <- Hu. by destruct st. }
  rewrite Hb, list_lookup_middle by done.
  pose proof (total_nonneg before). pose proof (total_nonneg l).
  pose proof (Zlen_nonneg (_data b)). case_if.
  - destruct (_merge_seg m b) as [m2| |]; [|done..]. rewrite result_bind_Ok in *.
    rewrite (IH before m2 _ K); [|..|done].
    + unfold _buf_erase. rewrite Hb, list_lookup_middle by done. done.
    + unfold _buf_erase. rewrite Hb, list_lookup_middle by done. simpl. by apply delete_middle.
    + unfold _buf_erase. rewrite Hb, list_lookup_middle by done. simpl.
      unfold seg_length. rewrite u64_id; lia.
    + lia.
  - destruct (absorb si tl m l) as [[m2 K2]| |] eqn:E; [|done..]. simpl in HA.
    injection HA as <- <-.
    replace (S (length before)) with (length (before ++ [b])) by (rewrite length_app; simpl; lia).
    assert (total (before ++ [b]) = total before + #(_data b)) as Htb.
    { clear. induction before as [|x before IH]; simpl; lia. }
    rewrite (IH (before ++ [b]) m st K2); [|..|exact E].
    + rewrite Htb, <- app_assoc. simpl. do 3 f_equal. lia.
    + by rewrite Hb, <- app_assoc.
    + rewrite Htb. lia.
    + rewrite Htb. lia.
Qed.

(** ** The invariant *)

(** Relative to the stream [W] that is being received: *)
Record core (W : bytes) (st : StreamReassembler) : Prop := {
  core_bound : #W + _capacity st < 18446744073709551616;
  core_output : ByteStream.wf (_output st);
  core_capacity : capacity (_output st) = _capacity st;
  core_prefix : bytes_w (_output st) <= #W;
  core_contents : _buff (_output st) = slice (bytes_r (_output st)) (bytes_w (_output st)) W;
  core_good : Forall (good W) (_buf st);
  core_count : _unassembled_bytes st = total (_buf st);
  core_eof : _eof st = true -> _eof_index st = #W;
  core_ended : input_ended (_output st) = true -> bytes_w (_output st) = #W
}.

(** Between calls the stored segments are disjoint, inside the window, and none
    of them can be moved to the output; the output has ended when all of the
    stream has been assembled and its end is known. *)
Record wf (W : bytes) (st : StreamReassembler) : Prop := {
  wf_core : core W st;
  wf_chain : chain (first_unassembled st + 1) (_buf st) (first_unacceptable st);
  wf_ended : input_ended (_output st) = _eof st && (first_unassembled st =? #W)
}.

(** The bytes the reassembler has: already assembled, or stored. *)
Definition known (st : StreamReassembler) (i : Z) : Prop :=
  i < first_unassembled st \/ covered (_buf st) i.

Section reassembler.
Variable W : bytes.
Implicit Type st : StreamReassembler.

Lemma first_unacceptable_eq st :
  core W st -> first_unacceptable st = bytes_r (_output st) + _capacity st.
Proof.
  intros []. destruct core_output0. unfold first_unacceptable, first_unread, bytes_read.
  pose proof (Zlen_nonneg (_buff (_output st))). apply u64_id. lia.
Qed.

Lemma window_bounds st :
  core W st ->
  0 <= bytes_r (_output st) <= first_unassembled st /\
  first_unassembled st <= first_unacceptable st /\
  first_unacceptable st < 18446744073709551616 /\
  first_unassembled st <= #W /\ #W < 18446744073709551616.
Proof.
  intros Hc. pose proof (first_unacceptable_eq st Hc). destruct Hc, core_output0.
  unfold first_unassembled, bytes_written in *.
  pose proof (Zlen_nonneg (_buff (_output st))). lia.
Qed.

(** The two cuts of [_handle_substring]. *)
Definition trim (fu fa : Z) (seg : Segment) : result Segment :=
  let index := _idx seg in
  seg ← (if (index <? fu) && (tail_idx seg >=? fu) then
           d ← substr (_data seg) (u64 (fu - index)) npos;
           Ok (mkSegment fu d)
         else Ok seg);
  (if (index <? fa) && (tail_idx seg >=? fa) then
     d ← substr (_data seg) 0 (u64 (fa - index));
     Ok (mkSegment (_idx seg) d)
   else Ok seg).

(** They keep the part of the segment inside the window, except that a segment cut
    on both sides may extend past the end of the window. *)
Lemma trim_spec fu fa seg :
  #W < 18446744073709551616 -> good W seg -> 0 <= fu <= fa -> fa < 18446744073709551616 ->
  _idx seg < fa -> fu < seg_end seg ->
  exists m, trim fu fa seg = Ok m /\ good W m /\
    _idx m = Z.max fu (_idx seg) /\
    Z.min fa (seg_end seg) <= seg_end m <= seg_end seg /\
    (seg_end m <= fa \/ _idx m = fu).
Proof.
  intros HW Hg Hfu Hfa Hi He. unfold trim. rewrite (tail_idx_good W) by done.
  pose proof Hg as (H0 & H1 & H2 & H3).
  set (c1 := (_idx seg <? fu) && _).
  assert (exists m, (if c1 then d ← substr (_data seg) (u64 (fu - _idx seg)) npos;
                               Ok (mkSegment fu d) else Ok seg) = Ok m /\
            good W m /\ _idx m = Z.max fu (_idx seg) /\ seg_end m = seg_end seg)
    as (m & -> & Gm & Im & Em).
  { subst c1. case_if.
    - unwrap_words. rewrite H3, substr_slice, result_bind_Ok by (unfold npos; lia).
      replace (_idx seg + (fu - _idx seg)) with fu by lia.
      replace (Z.min _ _) with (seg_end seg) by (unfold npos; lia).
      destruct (good_slice W fu (seg_end seg)) as [G1 G2]; [lia..|].
      eexists; split_and!; [done|done|simpl; lia|done].
    - eexists; split_and!; [done|done|lia|done]. }
  rewrite result_bind_Ok, (tail_idx_good W) by done. clear c1.
  pose proof Gm as (M0 & M1 & M2 & M3).
  assert (_idx m < seg_end m) by (unfold seg_end; lia).
  case_if.
  - unwrap_words. rewrite M3, substr_slice, result_bind_Ok, Z.add_0_r by lia.
    set (e := Z.min _ _).
    destruct (good_slice W (_idx m) e) as [G1 G2]; [lia..|].
    eexists; split_and!; [done|done|simpl; lia|rewrite G2; lia..|rewrite G2; simpl; lia].
  - eexists; split_and!; [done|done|lia..].
Qed.

(** Inserting one segment in the set, with or without others there. *)
Lemma insert_spec st m :
  core W st -> chain (first_unassembled st + 1) (_buf st) (first_unacceptable st) ->
  good W m -> first_unassembled st <= _idx m ->
  exists b', (if empty st then Ok (_buf_insert m st) else _handle_overlap m st) =
      Ok (set_buf (total b') b' st) /\
    Forall (good W) b' /\ chain (first_unassembled st) b' (#W) /\
    Forall (fun b => seg_end b <= Z.max (first_unacceptable st) (seg_end m) /\
                     (seg_end b <= first_unacceptable st \/ _idx b <= _idx m)) b' /\
    forall i, covered b' i <-> covered (_buf st) i \/ _idx m <= i < seg_end m.
Proof.
  intros Hc Hch Hm Hi. pose proof (window_bounds st Hc) as Hw.
  pose proof Hm as (M0 & M1 & M2 & M3).
  assert (_idx m < seg_end m) by (unfold seg_end; lia).
  destruct Hc. pose proof (chain_good _ _ _ _ core_good0 Hch) as HchW.
  assert (total (_buf st) <= #W - (first_unassembled st + 1) \/ _buf st = []) as Ht.
  { destruct (_buf st) eqn:E; [by right|]. left. rewrite <- E in *. apply total_chain; [|done].
    rewrite E in HchW. simpl in HchW. lia. }
  pose proof (total_nonneg (_buf st)).
  destruct (absorb_spec W ltac:(lia) (_idx m) (seg_end m) (first_unassembled st + 1) (_buf st)
              (first_unacceptable st) m) as (m' & K & HA & Habs); try done; try lia.
  destruct (absorb_spec W ltac:(lia) (_idx m) (seg_end m) (first_unassembled st + 1) (_buf st)
              (#W) m) as (m2 & K2 & HA2 & Habs2); try done; try lia.
  rewrite HA in HA2. injection HA2 as <- <-.
  destruct Habs as (G & B1 & B2 & B3 & B4 & B5 & B6 & B7).
  destruct Habs2 as (_ & _ & _ & _ & _ & B5' & _ & _).
  assert (chain (first_unassembled st) (set_insert m' K) (#W)) as HB by
    (eapply chain_weaken; [exact B5'|lia|lia]).
  assert (total (set_insert m' K) <= #W) as HT.
  { pose proof (total_chain (first_unassembled st) _ (#W) ltac:(lia) HB). lia. }
  pose proof (total_nonneg K). pose proof (Zlen_nonneg (_data m')).
  assert (Forall (good W) (set_insert m' K)) as HG.
  { apply Forall_forall. intros x Hx.
    destruct (set_insert_elem _ _ _ Hx) as [->|Hk]; [done|].
    rewrite Forall_forall in core_good0. auto. }
  exists (set_insert m' K). split_and!; [|done|done| |done].
  - unfold empty, _handle_overlap. destruct (_buf st) as [|b0 l0] eqn:E.
    + simpl in HA. injection HA as <- <-. unfold _buf_insert. rewrite E, core_count0. simpl.
      f_equal. f_equal. unfold seg_length. simpl in *. rewrite u64_id; lia.
    + rewrite (tail_idx_good W) by (done || lia).
      destruct Ht as [Ht|?]; [|done].
      pose proof (overlap_loop_absorb _ _ (b0 :: l0) [] m st m' K ltac:(done) ltac:(done)
                    ltac:(simpl in *; lia) HA) as HL.
      change (length (@nil Segment)) with 0%nat in HL. rewrite HL.
      simpl. unfold _buf_insert, set_buf. simpl. unfold seg_length.
      rewrite u64_id by lia. rewrite B6. done.
  - apply Forall_forall. intros x Hx.
    pose proof (chain_bounds _ _ _ B5) as HBd. rewrite Forall_forall in HBd.
    specialize (HBd x Hx) as HBx. simpl in HBx. split; [lia|].
    destruct (set_insert_elem _ _ _ Hx) as [->|Hk]; [lia|].
    pose proof (chain_bounds _ _ _ Hch) as HBb. rewrite Forall_forall in HBb.
    specialize (HBb x (B3 x Hk)). simpl in HBb. lia.
Qed.

Lemma _handle_substring_trim seg st :
  _handle_substring seg st =
    (if (_idx seg >=? first_unacceptable st) || (tail_idx seg <? first_unassembled st) then Ok st
     else m ← trim (first_unassembled st) (first_unacceptable st) seg;
          if empty st then Ok (_buf_insert m st) else _handle_overlap m st).
Proof.
  unfold _handle_substring, trim. case_if; [done|].
  destruct (if _ && _ then _ else _); done.
Qed.

Lemma set_buf_core st b :
  core W st -> Forall (good W) b -> core W (set_buf (total b) b st).
Proof. intros []. by constructor. Qed.

(** [_handle_substring] stores exactly the new bytes that are inside the window. *)
Lemma handle_substring_spec st seg :
  core W st -> chain (first_unassembled st + 1) (_buf st) (first_unacceptable st) -> good W seg ->
  exists b', _handle_substring seg st = Ok (set_buf (total b') b' st) /\
    Forall (good W) b' /\ chain (first_unassembled st) b' (#W) /\
    Forall (fun b => seg_end b <= first_unacceptable st \/ _idx b <= first_unassembled st) b' /\
    forall i, i < first_unacceptable st ->
      (i < first_unassembled st \/ covered b' i <->
       known st i \/ _idx seg <= i < seg_end seg).
Proof.
  intros Hc Hch Hg. pose proof (window_bounds st Hc) as Hw.
  rewrite _handle_substring_trim, (tail_idx_good W) by (done || lia). case_if.
  { exists (_buf st). destruct Hc. split_and!; [|done|..].
    - f_equal. rewrite <- core_count0. by destruct st.
    - eapply chain_weaken; [by eapply chain_good|lia|lia].
    - eapply Forall_impl; [|exact (chain_bounds _ _ _ Hch)]. simpl. lia.
    - intros i Hi. unfold known. assert (_idx seg <= i < seg_end seg -> i < first_unassembled st) by lia.
      tauto. }
  destruct (trim_spec (first_unassembled st) (first_unacceptable st) seg)
    as (m & -> & Gm & Im & Em & Om); try done; try lia.
  rewrite result_bind_Ok.
  destruct (insert_spec st m) as (b' & -> & B1 & B2 & B3 & B4); try done; try lia.
  exists b'. split_and!; try done.
  - eapply Forall_impl; [|exact B3]. simpl. lia.
  - intros i Hi. rewrite B4. unfold known.
    assert (i < first_unassembled st \/ _idx m <= i < seg_end m <->
            i < first_unassembled st \/ _idx seg <= i < seg_end seg) by lia.
    tauto.
Qed.

(** One turn of the assembly loop. *)
Lemma assemble_step st s r :
  core W st -> chain (first_unassembled st) (_buf st) (#W) ->
  _buf st = s :: r -> _idx s = first_unassembled st ->
  exists o, ByteStream.write (_data s) (_output st) =
      (Z.min (#(_data s)) (first_unacceptable st - first_unassembled st), o) /\
    let st' := _buf_erase 0 (set_output o st) in
    st' = mkReassembler o (_capacity st) (_eof_index st) (total r) (_eof st) r /\
    core W st' /\ first_unassembled st' = Z.min (seg_end s) (first_unacceptable st) /\
    bytes_r o = bytes_r (_output st) /\
    input_ended o = input_ended (_output st) /\ _error o = _error (_output st).
Proof.
  intros Hc Hch Hb Hs. pose proof (window_bounds st Hc) as Hw.
  pose proof (first_unacceptable_eq st Hc) as Hfa.
  pose proof (total_chain (first_unassembled st) _ (#W) ltac:(lia) Hch) as Ht.
  destruct Hc as [H1 H2 H3 H4 H5 H6 H7 H8 H9]. rewrite Hb in *.
  inversion H6 as [|? ? (G0 & G1 & G2 & G3) G4]; subst.
  assert (seg_end s = _idx s + #(_data s)) as He by done.
  unfold first_unassembled, bytes_written in *.
  assert (input_ended (_output st) = false) as Hopen.
  { apply not_true_is_false. intros E%H9. lia. }
  rewrite write_open by (done || lia). rewrite H3.
  pose proof H2 as [W1 W2 W3 W4 W5]. pose proof (Zlen_nonneg (_buff (_output st))).
  replace (_capacity st - #(_buff (_output st)))
    with (first_unacceptable st - bytes_w (_output st)) by lia.
  set (n := Z.min _ _). eexists; split; [done|].
  assert (_buf_erase 0 (set_output (mkByteStream (_buff (_output st) ++ take (Z.to_nat n) (_data s))
            (_capacity st) (bytes_r (_output st)) (bytes_w (_output st) + n) false
            (_error (_output st))) st) =
    mkReassembler (mkByteStream (_buff (_output st) ++ take (Z.to_nat n) (_data s))
            (_capacity st) (bytes_r (_output st)) (bytes_w (_output st) + n) false
            (_error (_output st))) (_capacity st) (_eof_index st) (total r) (_eof st) r) as ->.
  { unfold _buf_erase. simpl. rewrite Hb. simpl. rewrite H7. simpl. unfold seg_length, set_buf. simpl.
    pose proof (total_nonneg r).
    simpl in Ht. rewrite u64_id by lia. f_equal. lia. }
  split; [done|]. split_and!; try done; simpl; try lia.
  constructor; simpl; try done; try lia.
  - constructor; simpl; rewrite ?Zlen_app, ?Zlen_take by lia; lia.
  - rewrite H5, G3, take_slice by lia. rewrite Hs.
    replace (Z.min (seg_end s) _) with (bytes_w (_output st) + n) by lia.
    by rewrite <- slice_split by lia.
Qed.

(** The assembly loop moves the longest contiguous prefix to the output. *)
Lemma assemble_spec n st :
  (length (_buf st) <= n)%nat -> core W st -> chain (first_unassembled st) (_buf st) (#W) ->
  Forall (fun b => seg_end b <= first_unacceptable st \/ _idx b <= first_unassembled st) (_buf st) ->
  let st' := assemble_loop n st in
  core W st' /\ chain (first_unassembled st' + 1) (_buf st') (first_unacceptable st') /\
  first_unread st' = first_unread st /\ _capacity st' = _capacity st /\
  _eof st' = _eof st /\ _eof_index st' = _eof_index st /\
  input_ended (_output st') = input_ended (_output st) /\
  _error (_output st') = _error (_output st) /\
  first_unassembled st <= first_unassembled st' /\
  forall i, i < first_unacceptable st -> (known st' i <-> known st i).
Proof.
  revert st. induction n as [|n IH]; intros st Hn Hc Hch HF.
  { assert (_buf st = []) as E by (destruct (_buf st); simpl in *; [done|lia]).
    simpl. rewrite E. split_and!; done || lia. }
  simpl. destruct (_buf st) as [|s r] eqn:E.
  { rewrite E. split_and!; done || lia. }
  case_if.
  - rewrite <- E in Hch. destruct (assemble_step st s r Hc Hch E ltac:(lia))
      as (o & -> & He & Hc' & Hf & Hr & Ho & Herr).
    set (st1 := _buf_erase 0 (set_output o st)) in *. clearbody st1.
    assert (first_unacceptable st1 = first_unacceptable st) as Hfa.
    { unfold first_unacceptable, first_unread, bytes_read. subst st1. simpl. by rewrite Hr. }
    rewrite E in Hch. destruct Hch as (C1 & C2 & C3). inversion HF as [|? ? F1 F2]; subst x l.
    pose proof (window_bounds st Hc) as Hw.
    destruct (IH st1) as (R1 & R2 & R3 & R4 & R5 & R6 & R7 & R8 & R9 & R10); try done.
    + subst st1. simpl in *. lia.
    + rewrite Hf. subst st1. simpl. eapply chain_weaken; [exact C3|lia|lia].
    + subst st1. rewrite Hfa, Hf. simpl. eapply Forall_impl; [|exact F2]. simpl. lia.
    + split_and!; try done; try (subst st1; done).
      * rewrite R3. subst st1. done.
      * rewrite R7. subst st1. done.
      * rewrite R8. subst st1. done.
      * lia.
      * intros i Hi. rewrite R10 by lia. unfold known. rewrite Hf, E, covered_cons.
        assert (_buf st1 = r) as -> by (by subst st1).
        assert (covered r i -> seg_end s <= i).
        { intros Hcov. pose proof (covered_bounds _ _ _ _ C3 Hcov). lia. }
        destruct F1; intuition lia.
  - rewrite E. destruct Hch as (C1 & C2 & C3).
    split_and!; try done; try lia. simpl.
    assert (first_unassembled st < _idx s) by lia.
    inversion HF as [|? ? F1 F2]; subst. split_and!; try lia.
    clear - C2 C3 F2 H. assert (first_unassembled st < seg_end s) as Hlt by lia.
    clear C2 H. revert C3 Hlt. generalize (seg_end s).
    induction F2 as [|b l Hb _ IHF]; simpl; [done|]. intros z (? & ? & ?) ?.
    split_and!; try lia. apply IHF; [done|lia].
Qed.

Lemma set_eof_core st i :
  core W st -> i = #W -> core W (set_eof i st).
Proof. intros [] ->. by constructor. Qed.

(** Storing a substring, empty or not. *)
Lemma store_spec st data index :
  core W st -> chain (first_unassembled st + 1) (_buf st) (first_unacceptable st) ->
  0 <= index -> index + #data <= #W -> data = slice index (index + #data) W ->
  exists b', match data with [] => Ok st | _ => _handle_substring (mkSegment index data) st end
      = Ok (set_buf (total b') b' st) /\
    Forall (good W) b' /\ chain (first_unassembled st) b' (#W) /\
    Forall (fun b => seg_end b <= first_unacceptable st \/ _idx b <= first_unassembled st) b' /\
    forall i, i < first_unacceptable st ->
      (i < first_unassembled st \/ covered b' i <-> known st i \/ index <= i < index + #data).
Proof.
  intros Hc Hch Hi Hle Hd. pose proof (window_bounds st Hc) as Hw.
  destruct data as [|x data'] eqn:Ed.
  - exists (_buf st). destruct Hc. split_and!; [|done|..].
    + f_equal. rewrite <- core_count0. by destruct st.
    + eapply chain_weaken; [by eapply chain_good|lia|lia].
    + eapply Forall_impl; [|exact (chain_bounds _ _ _ Hch)]. simpl. lia.
    + intros i _. rewrite Zlen_nil. unfold known. intuition lia.
  - rewrite <- Ed in *.
    assert (0 < #data) by (subst data; rewrite Zlen_cons; pose proof (Zlen_nonneg data'); lia).
    by apply (handle_substring_spec st (mkSegment index data)).
Qed.

(** The last step of [push_substring]. *)
Lemma finish_spec st :
  core W st -> chain (first_unassembled st + 1) (_buf st) (first_unacceptable st) ->
  (input_ended (_output st) = true -> _eof st = true) ->
  let st' := if _eof st && (first_unassembled st =? _eof_index st)
             then set_buf (_unassembled_bytes st) [] (set_output (end_input (_output st)) st)
             else st in
  wf W st' /\ first_unread st' = first_unread st /\ _capacity st' = _capacity st /\
  _eof st' = _eof st /\ _error (_output st') = _error (_output st) /\
  first_unassembled st' = first_unassembled st /\ forall i, known st' i <-> known st i.
Proof.
  intros Hc Hch Hin. destruct (_eof st && _) eqn:HE; simpl.
  - apply andb_prop in HE as [HE1 HE2].
    assert (_eof_index st = #W) as Ei by (by apply Hc).
    assert (_buf st = []) as Eb.
    { destruct Hc. destruct (_buf st) as [|s r]; [done|].
      inversion core_good0 as [|? ? (? & ? & ? & ?)]; subst. destruct Hch as (? & ?).
      unfold seg_end in *. lia. }
    split_and!; try done; [|by unfold known; rewrite Eb].
    constructor; simpl; [|done|rewrite HE1; unfold first_unassembled, bytes_written in *; simpl; lia].
    destruct Hc. constructor; simpl; try done; [by apply end_input_wf|by rewrite core_count0, Eb|].
    unfold first_unassembled, bytes_written in HE2. lia.
  - split_and!; try done. constructor; [done|done|].
    destruct (input_ended (_output st)) eqn:Ein.
    + rewrite Hin by done. destruct Hc. specialize (core_ended0 Ein).
      unfold first_unassembled, bytes_written. simpl. lia.
    + destruct (_eof st) eqn:E; [|done]. destruct Hc. rewrite core_eof0 in HE by done. done.
Qed.

(** [push_substring] on a part of the stream [W]. *)
Lemma push_substring_spec st data index eof :
  wf W st -> 0 <= index -> index + #data <= #W -> data = slice index (index + #data) W ->
  (eof = true -> index + #data = #W) ->
  exists st', push_substring data index eof st = Ok st' /\ wf W st' /\
    first_unread st' = first_unread st /\ _capacity st' = _capacity st /\
    _eof st' = _eof st || eof /\ _error (_output st') = _error (_output st) /\
    first_unassembled st <= first_unassembled st' /\
    forall i, known st' i <->
      known st i \/ (index <= i < index + #data /\ i < first_unacceptable st).
Proof.
  intros [Hc Hch Hend] Hi Hle Hd He. unfold push_substring.
  set (st0 := if eof then _ else st).
  assert (core W st0 /\ _output st0 = _output st /\ _buf st0 = _buf st /\
    _capacity st0 = _capacity st /\ _eof st0 = _eof st || eof) as (Hc0 & Ho0 & Hb0 & Hk0 & He0).
  { subst st0. destruct eof; simpl; rewrite ?orb_true_r, ?orb_false_r; [|done].
    split_and!; try done. pose proof (window_bounds st Hc). pose proof (Zlen_nonneg data).
    specialize (He eq_refl). apply set_eof_core; [done|]. rewrite u64_id; lia. }
  assert (first_unassembled st0 = first_unassembled st) as Hfu
    by (unfold first_unassembled; by rewrite Ho0).
  assert (first_unread st0 = first_unread st) as Hfr by (unfold first_unread; by rewrite Ho0).
  assert (first_unacceptable st0 = first_unacceptable st) as Hfa
    by (unfold first_unacceptable; by rewrite Hfr, Hk0).
  assert (forall i, known st0 i <-> known st i) as Hkn by (unfold known; by rewrite Hfu, Hb0).
  pose proof (window_bounds st Hc) as Hw. rewrite <- Hb0, <- Hfu, <- Hfa in Hch. clearbody st0.
  destruct (store_spec st0 data index) as (b' & -> & G1 & G2 & G3 & G4); try done.
  rewrite result_bind_Ok. set (st1 := set_buf (total b') b' st0).
  destruct (assemble_spec (length (_buf st1)) st1)
    as (R1 & R2 & R3 & R4 & R5 & _ & R7 & R8 & R9 & R10); try done; [by apply set_buf_core|].
  set (st2 := assemble_loop _ st1) in *.
  assert (first_unacceptable st2 = first_unacceptable st) as Hfa2.
  { rewrite <- Hfa. unfold first_unacceptable. by rewrite R3, R4. }
  destruct (finish_spec st2) as (F1 & F2 & F3 & F4 & F5 & F6 & F7); try done.
  { rewrite R7, R5. simpl. rewrite Ho0, Hend, He0. destruct (_eof st); [done|simpl; discriminate]. }
  rewrite <- (if_swap Ok). eexists; split; [done|].
  split_and!; try done.
  - rewrite F2, R3. exact Hfr.
  - by rewrite F3, R4.
  - rewrite F4, R5. done.
  - rewrite F5, R8. simpl. by rewrite Ho0.
  - rewrite F6. change (first_unassembled st1) with (first_unassembled st0) in R9. lia.
  - intros i. rewrite F7. destruct (Z.lt_ge_cases i (first_unacceptable st)) as [Hlt|Hge].
    + rewrite <- Hfa in Hlt. rewrite R10 by done. specialize (G4 i Hlt).
      rewrite Hfa in Hlt. rewrite Hkn in G4.
      change (known st1 i) with (i < first_unassembled st0 \/ covered b' i). tauto.
    + rewrite <- Hkn. pose proof (window_bounds st2 R1). unfold known. split.
      * intros [?|Hcov]; [lia|]. pose proof (covered_bounds _ _ _ _ R2 Hcov). lia.
      * intros [[?|Hcov]|?]; [lia| |lia]. pose proof (covered_bounds _ _ _ _ Hch Hcov). lia.
Qed.
End reassembler.

(** An empty substring that is not the last says nothing, wherever it is. *)
Lemma push_substring_empty index st : push_substring [] index false st = push_substring [] 0 false st.
Proof. done. Qed.

(** The invariant survives when the peer's stream grows before its end is announced. *)
Lemma wf_grow W d st :
  wf W st -> (_eof st = true -> d = []) -> #(W ++ d) + _capacity st < 18446744073709551616 ->
  wf (W ++ d) st.
Proof.
  intros Hwf Hd Hb. destruct (decide (d = [])) as [->|Hne]; [by rewrite app_nil_r|].
  assert (_eof st = false) as He by (destruct (_eof st); [by destruct Hne; auto|done]).
  pose proof (Zlen_nonneg d). destruct Hwf as [Hc Hch Hend]. rewrite He in Hend. simpl in Hend.
  constructor; [|done|by rewrite He, Hend].
  destruct Hc; constructor; try done; try congruence; rewrite ?Zlen_app in *; try lia.
  - rewrite core_contents0 at 1. symmetry. apply slice_app_l; [destruct core_output0; lia|lia].
  - eapply Forall_impl; [|exact core_good0]. intros s (? & ? & ? & E).
    unfold good. rewrite Zlen_app. split_and!; try lia. rewrite slice_app_l by lia. done.
Qed.

(** ** Reading from the output *)

(** The owner reads through [stream_out()]. *)
Definition read_output (len : Z) (st : StreamReassembler) : bytes * StreamReassembler :=
  let '(r, o) := ByteStream.read len (stream_out st) in (r, set_output o st).

Lemma make_reassembler_wf W cap :
  0 <= cap -> #W + cap < 18446744073709551616 -> wf W (make cap).
Proof.
  intros. pose proof (Zlen_nonneg W).
  constructor; [|done|done]. constructor; simpl; try done; try lia.
  apply make_wf. lia.
Qed.

Lemma read_output_wf W n st :
  wf W st -> 0 <= n ->
  wf W (read_output n st).2 /\ (forall i, known (read_output n st).2 i <-> known st i) /\
  (read_output n st).1 = slice (first_unread st) (first_unread (read_output n st).2) W /\
  first_unread st <= first_unread (read_output n st).2 /\
  first_unassembled (read_output n st).2 = first_unassembled st.
Proof.
  intros [Hc Hch Hend] Hn. pose proof (window_bounds W st Hc) as Hw.
  pose proof (first_unacceptable_eq W st Hc) as Hfa. pose proof Hc as [].
  pose proof core_output0 as [B1 B2 B3 B4 B5]. pose proof (Zlen_nonneg (_buff (_output st))).
  unfold read_output, ByteStream.read, stream_out; cbn [fst snd].
  unfold peek_output. rewrite pop_output_wf_eq by done.
  set (k := Z.min n _). unfold first_unread, bytes_read; simpl.
  assert (core W (set_output (mkByteStream (drop (Z.to_nat k) (_buff (_output st)))
    (capacity (_output st)) (bytes_r (_output st) + k) (bytes_w (_output st))
    (_end_input (_output st)) (_error (_output st))) st)) as Hc'.
  { constructor; simpl; try done.
    - constructor; simpl; rewrite ?Zlen_drop by lia; lia.
    - rewrite core_contents0 at 1. rewrite drop_slice by lia. done. }
  split_and!; try done; try lia.
  - constructor; [exact Hc'| |exact Hend].
    rewrite (first_unacceptable_eq _ _ Hc'). eapply chain_weaken; [exact Hch| |simpl; lia].
    unfold first_unassembled, bytes_written; simpl. lia.
  - rewrite core_contents0 at 1. rewrite take_slice by lia. f_equal. lia.
Qed.

(** ** Sequences of arrivals and reads *)

Inductive event :=
| Arrive (data : bytes) (index : Z) (eof : bool)
| Read (len : Z).

(** Every arrival is a part of the stream [W], and marks its end only at the end. *)
Definition valid_event (W : bytes) (e : event) : Prop :=
  match e with
  | Arrive data index eof =>
      0 <= index /\ index + #data <= #W /\ data = slice index (index + #data) W /\
      (eof = true -> index + #data = #W)
  | Read len => 0 <= len
  end.

Definition step_event (e : event) (p : StreamReassembler * bytes)
    : result (StreamReassembler * bytes) :=
  match e with
  | Arrive data index eof =>
      st ← push_substring data index eof p.1; Ok (st, p.2)
  | Read len => let '(r, st) := read_output len p.1 in Ok (st, p.2 ++ r)
  end.

Fixpoint run_events (es : list event) (p : StreamReassembler * bytes)
    : result (StreamReassembler * bytes) :=
  match es with
  | [] => Ok p
  | e :: es => p ← step_event e p; run_events es p
  end.

Lemma run_events_spec W es st d :
  Forall (valid_event W) es -> wf W st -> d = slice 0 (first_unread st) W ->
  exists st' d', run_events es (st, d) = Ok (st', d') /\ wf W st' /\
    d' = slice 0 (first_unread st') W /\ _capacity st' = _capacity st.
Proof.
  intros Hv. revert st d. induction Hv as [|e es He Hv IH]; intros st d Hwf Hd.
  { by exists st, d. }
  destruct e as [data index eof|n]; cbn [run_events step_event fst snd].
  - destruct He as (H1 & H2 & H3 & H4).
    destruct (push_substring_spec W st data index eof) as (st1 & -> & R1 & R2 & R3 & _); try done.
    rewrite !result_bind_Ok. destruct (IH st1 d) as (st' & d' & -> & A & B & C); try done.
    { by rewrite R2. }
    exists st', d'. by rewrite C, R3.
  - destruct (read_output_wf W n st Hwf He) as (R1 & R2 & R3 & R4 & R5).
    destruct (read_output n st) as [r st1] eqn:E. cbn [fst snd] in *. rewrite result_bind_Ok.
    destruct (IH st1 (d ++ r)) as (st' & d' & -> & A & B & C); try done.
    { pose proof (window_bounds W st (wf_core _ _ Hwf)). unfold first_unread, bytes_read in *.
      rewrite Hd, R3, <- slice_split by lia. done. }
    exists st', d'. split_and!; try done. rewrite C. unfold read_output in E.
    injection E as <- <-. done.
Qed.

(** The delivered bytes followed by the buffered ones are the assembled prefix. *)
Lemma wf_prefix W st :
  wf W st ->
  slice 0 (first_unread st) W ++ _buff (stream_out st) = slice 0 (first_unassembled st) W.
Proof.
  intros [Hc _ _]. pose proof (window_bounds W st Hc). destruct Hc.
  unfold stream_out. rewrite core_contents0.
  unfold first_unread, first_unassembled, bytes_read, bytes_written in *.
  rewrite <- slice_split by lia. done.
Qed.

(** Everything stored is inside the capacity. *)
Lemma wf_memory W st :
  wf W st -> buffer_size (stream_out st) + unassembled_bytes st <= _capacity st.
Proof.
  intros [Hc Hch _]. pose proof (window_bounds W st Hc).
  pose proof (first_unacceptable_eq W st Hc). destruct Hc.
  unfold buffer_size, stream_out, unassembled_bytes. rewrite core_count0.
  destruct core_output0. unfold first_unassembled, bytes_written in *.
  destruct (_buf st) as [|s r] eqn:E; [simpl; lia|]. rewrite <- E in *.
  pose proof (total_chain (bytes_w (_output st) + 1) (_buf st) (first_unacceptable st)) as Ht.
  rewrite E in Hch, Ht at 1. destruct Hch as (? & ? & ?).
  rewrite E in Ht. specialize (Ht ltac:(lia) ltac:(simpl; split_and!; done || lia)).
  rewrite E. lia.
Qed.

Lemma wf_maximal W st : wf W st -> ~ known st (first_unassembled st).
Proof.
  intros [_ Hch _] [?|Hcov]; [lia|]. pose proof (covered_bounds _ _ _ _ Hch Hcov). lia.
Qed.

(** ** Properties *)

(** C21: safety of reassembly. However the parts of a stream [W] arrive (lost, reordered,
    duplicated, overlapping, interleaved with reads), the reassembler never throws; the bytes
    delivered to the reader followed by the bytes waiting in the output are a prefix of [W];
    the bytes buffered and stored never exceed the capacity; and the output reports the end
    of input only when all of [W] is there. *)
Theorem reassembly_safe W cap es
  (Hcap : 0 <= cap) (Hbound : #W + cap < 18446744073709551616)
  (Hv : Forall (valid_event W) es) :
  exists st d, run_events es (make cap, []) = Ok (st, d) /\
    d ++ _buff (stream_out st) = slice 0 (first_unassembled st) W /\
    buffer_size (stream_out st) + unassembled_bytes st <= cap /\
    (input_ended (stream_out st) = true -> d ++ _buff (stream_out st) = W).
Proof.
  destruct (run_events_spec W es (make cap) []) as (st & d & Hrun & Hwf & Hd & Hk); try done.
  { by apply make_reassembler_wf. }
  exists st, d. split; [done|]. rewrite Hd. pose proof (wf_prefix W st Hwf) as Hp.
  pose proof (wf_memory W st Hwf). rewrite Hk in *. split_and!; [done|done|].
  intros Hend. rewrite Hp. destruct Hwf as [[] _ _]. unfold first_unassembled, bytes_written.
  rewrite core_ended0 by done. apply slice_full.
Qed.

Definition sample_stream : bytes := [x61; x62; x63; x64; x65; x66].
Definition sample_events : list event :=
  [Arrive [x65; x66] 4 true; Arrive [x62; x63; x64] 1 false; Arrive [x63; x64; x65] 2 false;
   Arrive [x61; x62] 0 false; Read 3; Arrive [x64; x65; x66] 3 true; Read 10].

Lemma reassembly_safe_witness :
  exists st d, run_events sample_events (make 5, []) = Ok (st, d) /\
    d ++ _buff (stream_out st) = slice 0 (first_unassembled st) sample_stream /\
    buffer_size (stream_out st) + unassembled_bytes st <= 5 /\
    (input_ended (stream_out st) = true -> d ++ _buff (stream_out st) = sample_stream).
Proof.
  apply (reassembly_safe sample_stream 5 sample_events); [lia|by_compute|].
  repeat constructor; try (vm_compute; reflexivity || discriminate || (intros; discriminate)).
Defined.

(** C22: what one arrival does. Pushing a part of the stream never throws, keeps the invariant,
    and afterwards the known bytes are exactly those known before and those of the part that
    lie inside the window; and the assembled prefix is maximal: the first unassembled byte is
    not known. *)
Theorem push_substring_exact W st data index eof
  (Hwf : wf W st) (Hi : 0 <= index) (Hle : index + #data <= #W)
  (Hd : data = slice index (index + #data) W) (He : eof = true -> index + #data = #W) :
  exists st', push_substring data index eof st = Ok st' /\ wf W st' /\
    first_unread st' = first_unread st /\
    (forall i, known st' i <->
       known st i \/ (index <= i < index + #data /\ i < first_unacceptable st)) /\
    ~ known st' (first_unassembled st').
Proof.
  destruct (push_substring_spec W st data index eof) as (st' & E & R1 & R2 & _ & _ & _ & _ & R3); try done.
  exists st'. split_and!; try done. by apply wf_maximal with W.
Qed.

Lemma push_substring_exact_witness :
  exists st', push_substring [x63; x64; x65] 2 false (make 4) = Ok st' /\ wf sample_stream st' /\
    first_unread st' = first_unread (make 4) /\
    (forall i, known st' i <->
       known (make 4) i \/ (2 <= i < 2 + #([x63; x64; x65]) /\ i < first_unacceptable (make 4))) /\
    ~ known st' (first_unassembled st').
Proof.
  apply (push_substring_exact sample_stream (make 4) [x63; x64; x65] 2 false);
    [apply make_reassembler_wf; by_compute|by_compute|by_compute|reflexivity|discriminate].
Defined.

(** With every byte and the end known, all of the stream is assembled. *)
Lemma wf_complete W st :
  wf W st -> _eof st = true -> (forall i, 0 <= i < #W -> known st i) ->
  first_unassembled st = #W /\ empty st = true /\ unassembled_bytes st = 0 /\ input_ended (stream_out st) = true.
Proof.
  intros Hwf He Hall. pose proof (wf_maximal W st Hwf) as Hmax. destruct Hwf as [Hc Hch Hend].
  pose proof (window_bounds W st Hc).
  assert (first_unassembled st = #W) as Hfu.
  { destruct (Z.eq_dec (first_unassembled st) (#W)); [done|]. exfalso. apply Hmax, Hall. lia. }
  assert (_buf st = []) as Hb.
  { destruct Hc. destruct (_buf st) as [|s r]; [done|]. destruct Hch as (? & ?).
    inversion core_good0 as [|? ? (? & ? & ? & ?)]; subst. unfold seg_end in *. lia. }
  unfold empty, unassembled_bytes, stream_out. rewrite Hb, Hend, He. destruct Hc.
  rewrite core_count0, Hb. split_and!; try done. simpl. lia.
Qed.

(** C32: completeness of reassembly. When the part that is pushed is the last that was missing, because every
    byte of [W] was known before or lies in the part and inside the window, and the end of the stream was
    announced before or is announced now, then the call assembles all of the stream: nothing is left
    in store, and the output has ended. *)
Theorem reassembly_complete W st data index eof
  (Hwf : wf W st) (Hi : 0 <= index) (Hle : index + #data <= #W)
  (Hd : data = slice index (index + #data) W) (He : eof = true -> index + #data = #W)
  (Hend : _eof st || eof = true)
  (Hall : forall i, 0 <= i < #W -> known st i \/ (index <= i < index + #data /\ i < first_unacceptable st)) :
  exists st', push_substring data index eof st = Ok st' /\
    first_unassembled st' = #W /\ empty st' = true /\ unassembled_bytes st' = 0 /\
    input_ended (stream_out st') = true.
Proof.
  destruct (push_substring_spec W st data index eof) as (st' & E & R1 & _ & _ & R2 & _ & _ & R3); try done.
  exists st'. split; [done|]. apply wf_complete; [done|congruence|]. intros i Hi'. by apply R3, Hall.
Qed.

(** The first four bytes arrive after the last two. *)
Definition tail_stored : StreamReassembler := Eval vm_compute in
  match push_substring [x65; x66] 4 true (make 6) with Ok st => st | _ => make 0 end.

Lemma reassembly_complete_witness :
  exists st', push_substring [x61; x62; x63; x64] 0 false tail_stored = Ok st' /\
    first_unassembled st' = 6 /\ empty st' = true /\ unassembled_bytes st' = 0 /\
    input_ended (stream_out st') = true.
Proof.
  assert (push_substring [x65; x66] 4 true (make 6) = Ok tail_stored) as Et by (vm_compute; reflexivity).
  destruct (push_substring_spec sample_stream (make 6) [x65; x66] 4 true)
    as (st & E & Hwf & _ & _ & _ & _ & _ & Hk);
    [apply make_reassembler_wf; by_compute|by_compute|by_compute|reflexivity|reflexivity|].
  assert (st = tail_stored) as -> by congruence.
  apply (reassembly_complete sample_stream tail_stored [x61; x62; x63; x64] 0 false);
    [exact Hwf|by_compute|by_compute|reflexivity|discriminate|reflexivity|].
  intros i Hi. change (#sample_stream) with 6 in Hi. change (first_unacceptable tail_stored) with 6.
  destruct (Z.lt_ge_cases i 4); [right; change (#([x61; x62; x63; x64])) with 4; lia|left].
  apply Hk. right. change (first_unacceptable (make 6)) with 6. change (#([x65; x66])) with 2. lia.
Defined.
