(* ===== verification/Buffer.v ===== *)
(** * Read-only buffers (src/libsponge/util/buffer.hh, buffer.cc)

    A [Buffer] shares a string and drops bytes from its front by moving an
    offset; a [BufferList] is a discontiguous sequence of buffers, and a
    [BufferViewList] a sequence of views. The shared string is never written,
    so sharing it is the same as copying it. *)

From S2P Require Import Prelude.

(** ** Buffer *)

Record Buffer := mkBuffer { _storage : option bytes; _starting_offset : Z }.

(** The default constructor and the constructor from a string. *)
Definition empty_buffer : Buffer := mkBuffer None 0.
Definition Buffer_of (str : bytes) : Buffer := mkBuffer (Some str) 0.

Definition str (b : Buffer) : bytes :=
  match _storage b with
  | None => []
  | Some s => drop (Z.to_nat (_starting_offset b)) s
  end.

Definition at_ (n : Z) (b : Buffer) : result Z :=
  match str b !! Z.to_nat n with
  | Some c => Ok (byte_to_Z c)
  | None => Throw out_of_range
  end.

Definition size (b : Buffer) : Z := #(str b).
Definition copy (b : Buffer) : bytes := str b.

Definition remove_prefix (n : Z) (b : Buffer) : result Buffer :=
  if n >? #(str b) then Throw out_of_range
  else
    let off := u64 (_starting_offset b + n) in
    match _storage b with
    | Some s => Ok (if off =? #s then mkBuffer None off else mkBuffer (Some s) off)
    | None => Ok (mkBuffer None off)
    end.

(** ** BufferList *)

(** The member [_buffers], a deque of buffers. *)
Definition BufferList := list Buffer.

Definition BufferList_of_string (s : bytes) : BufferList := [Buffer_of s].

Definition append (other l : BufferList) : BufferList := l ++ other.

(** [operator Buffer]: only a list of at most one buffer converts. *)
Definition to_Buffer (l : BufferList) : result Buffer :=
  match l with
  | [] => Ok empty_buffer
  | [b] => Ok b
  | _ => Throw runtime_error
  end.

Definition concatenate (l : BufferList) : bytes :=
  foldl (fun ret buf => ret ++ str buf) [] l.

Definition list_size (l : BufferList) : Z :=
  foldl (fun ret buf => u64 (ret + size buf)) 0 l.

(** The loop pops whole buffers until the rest of the prefix is inside one. *)
Fixpoint list_remove_prefix (n : Z) (l : BufferList) : result BufferList :=
  if n >? 0 then
    match l with
    | [] => Throw out_of_range
    | b :: r =>
        if n <? #(str b) then b' ← remove_prefix n b; Ok (b' :: r)
        else list_remove_prefix (u64 (n - #(str b))) r
    end
  else Ok l.

(** ** BufferViewList *)

Definition BufferViewList := list bytes.

Definition views_of (buffers : BufferList) : BufferViewList := map str buffers.
Definition view_of_string (s : bytes) : BufferViewList := [s].

Fixpoint views_remove_prefix (n : Z) (l : BufferViewList) : result BufferViewList :=
  if n >? 0 then
    match l with
    | [] => Throw out_of_range
    | v :: r =>
        if n <? #v then Ok (drop (Z.to_nat n) v :: r)
        else views_remove_prefix (u64 (n - #v)) r
    end
  else Ok l.

Definition views_size (l : BufferViewList) : Z :=
  foldl (fun ret v => u64 (ret + #v)) 0 l.

(** [as_iovecs]: the memory each view points to, in order. *)
Definition as_iovecs (l : BufferViewList) : list bytes := l.

(** ** Invariant and lemmas *)

(** The offset of a buffer is inside its string. *)
Definition wf_buffer (b : Buffer) : Prop :=
  0 <= _starting_offset b < 18446744073709551616 /\
  match _storage b with
  | Some s => _starting_offset b <= #s < 18446744073709551616
  | None => True
  end.

Lemma Buffer_of_wf s : #s < 18446744073709551616 -> wf_buffer (Buffer_of s).
Proof. pose proof (Zlen_nonneg s). unfold wf_buffer; simpl. lia. Qed.

Lemma str_Buffer_of s : str (Buffer_of s) = s.
Proof. apply drop_0. Qed.

Lemma size_small b : wf_buffer b -> _storage b <> None -> 
  0 <= size b /\ _starting_offset b + size b < 18446744073709551616.
Proof.
  unfold wf_buffer, size, str. destruct (_storage b) as [s|]; [|done]. intros [] _.
  rewrite Zlen_drop by lia. lia.
Qed.

(** Dropping a prefix that is there drops it from the view and keeps the buffer sound. *)
Lemma remove_prefix_ok n b :
  wf_buffer b -> 0 <= n <= size b ->
  exists b', remove_prefix n b = Ok b' /\ str b' = drop (Z.to_nat n) (str b) /\ wf_buffer b'.
Proof.
  intros Hwf Hn. pose proof (size_small b Hwf) as Hs. unfold remove_prefix.
  fold (size b). case_if; [lia|]. unfold wf_buffer, size, str in *.
  destruct (_storage b) as [s|] eqn:E.
  - destruct Hwf. specialize (Hs ltac:(done)). rewrite Zlen_drop in * by lia. unwrap_words.
    eexists; split; [done|]. case_if; simpl.
    + split; [|lia]. symmetry. rewrite drop_drop. apply drop_ge. unfold Zlen in *. lia.
    + split; [|lia]. rewrite drop_drop. f_equal. lia.
  - rewrite Zlen_nil in Hn. replace n with 0 by lia. rewrite Z.add_0_r, u64_id by lia.
    eexists; split; [done|]. simpl. split; [done|]. lia.
Qed.

Lemma remove_prefix_throws n b : size b < n -> remove_prefix n b = Throw out_of_range.
Proof. intros. unfold remove_prefix. fold (size b). case_if; [done|lia]. Qed.

Lemma concatenate_app l1 l2 : concatenate (l1 ++ l2) = concatenate l1 ++ concatenate l2.
Proof.
  unfold concatenate. rewrite foldl_app. generalize (foldl (fun ret buf => ret ++ str buf) [] l1).
  intros x. assert (forall acc l, foldl (fun ret buf => ret ++ str buf) acc l =
    acc ++ foldl (fun ret buf => ret ++ str buf) [] l) as H.
  { intros acc l. revert acc. induction l as [|b l IH]; intros acc; simpl; [by rewrite app_nil_r|].
    rewrite IH, (IH (str b)), <- app_assoc. done. }
  apply H.
Qed.

Lemma concatenate_cons b l : concatenate (b :: l) = str b ++ concatenate l.
Proof. apply (concatenate_app [b] l). Qed.

(** The views of a list of buffers and the list itself behave alike. *)
Lemma views_remove_prefix_spec n l :
  0 <= n < 18446744073709551616 ->
  if n <=? #(concat l)
  then exists l', views_remove_prefix n l = Ok l' /\ concat l' = drop (Z.to_nat n) (concat l)
  else views_remove_prefix n l = Throw out_of_range.
Proof.
  revert n. induction l as [|v r IH]; intros n Hn; simpl.
  - rewrite Zlen_nil. destruct (n >? 0) eqn:E0; (case_if; [|try lia]); try done; [lia|].
    exists []. split; [done|]. by replace n with 0 by lia.
  - rewrite Zlen_app. pose proof (Zlen_nonneg v). pose proof (Zlen_nonneg (concat r)).
    destruct (n >? 0) eqn:E0; [destruct (n <? #v) eqn:E1|].
    + case_if; [|lia]. eexists; split; [done|]. simpl. rewrite drop_app_le; [done|].
      unfold Zlen in *. lia.
    + specialize (IH (n - #v) ltac:(lia)). rewrite u64_id by lia.
      replace (n <=? #v + #(concat r)) with (n - #v <=? #(concat r)) by lia. case_if; [|done].
      destruct IH as (l' & E2 & E3). exists l'. split; [done|]. rewrite E3.
      rewrite drop_app_ge by (unfold Zlen in *; lia). f_equal. unfold Zlen. lia.
    + case_if; [|lia]. eexists; split; [done|]. by replace n with 0 by lia.
Qed.

Lemma list_remove_prefix_views n l :
  Forall wf_buffer l -> 0 <= n < 18446744073709551616 ->
  match list_remove_prefix n l, views_remove_prefix n (views_of l) with
  | Ok l', Ok v' => views_of l' = v' /\ Forall wf_buffer l'
  | Throw e, Throw e' => e = e'
  | _, _ => False
  end.
Proof.
  intros Hl. revert n. induction Hl as [|b r Hb Hr IH]; intros n Hn; simpl; [by case_if|].
  case_if; [|by split; [|constructor]]. case_if.
  - destruct (remove_prefix_ok n b Hb) as (b' & -> & E & Hb'); [unfold size; lia|].
    simpl. rewrite E. split; [done|]. by constructor.
  - apply IH. apply u64_range.
Qed.

Lemma concat_views l : concat (views_of l) = concatenate l.
Proof. induction l as [|b l IH]; [done|]. rewrite concatenate_cons. simpl. by rewrite IH. Qed.

(** ** Properties *)

(** [BufferList::remove_prefix] drops exactly the first [n] bytes of the concatenated
    contents, however they are split in buffers, and throws [out_of_range] exactly when
    there are fewer than [n] bytes. *)
Theorem list_remove_prefix_correct n l
  (Hl : Forall wf_buffer l) (Hn : 0 <= n < 18446744073709551616) :
  match list_remove_prefix n l with
  | Ok l' => n <= #(concatenate l) /\ concatenate l' = drop (Z.to_nat n) (concatenate l) /\
             Forall wf_buffer l'
  | Throw e => #(concatenate l) < n /\ e = out_of_range
  | Diverge => False
  end.
Proof.
  pose proof (list_remove_prefix_views n l Hl Hn) as HV.
  pose proof (views_remove_prefix_spec n (views_of l) Hn) as HS. rewrite concat_views in HS.
  destruct (list_remove_prefix n l) as [l'|e|], (views_remove_prefix n (views_of l)) as [v'|e'|];
    try done; case_if_in HS.
  - destruct HV as [HV1 HV2]. destruct HS as (v'' & [= <-] & HS2).
    rewrite <- HV1, concat_views in HS2. split_and!; done || lia.
  - done.
  - destruct HS as (? & ? & ?). done.
  - injection HS as ->. split; [lia|done].
Qed.

Lemma list_remove_prefix_correct_witness :
  match list_remove_prefix 3 [Buffer_of [x61; x62]; Buffer_of [x63; x64]] with
  | Ok l' => 3 <= #(concatenate [Buffer_of [x61; x62]; Buffer_of [x63; x64]]) /\
             concatenate l' = [x64] /\ Forall wf_buffer l'
  | Diverge => False
  | Throw e => #(concatenate [Buffer_of [x61; x62]; Buffer_of [x63; x64]]) < 3 /\ e = out_of_range
  end.
Proof.
  apply (list_remove_prefix_correct 3 [Buffer_of [x61; x62]; Buffer_of [x63; x64]]); [|lia].
  repeat constructor; by_compute.
Defined.
