(* ===== verification/Parser.v ===== *)
(** * Network-order parsing and unparsing of integers
    (src/libsponge/util/parser.hh, parser.cc)

    A [NetParser] consumes a buffer and remembers the first error; a method of
    it is a function of the parser's state that may throw. *)

From stdpp Require Import strings.
From S2P Require Import Prelude Buffer.

(** ** Definitions *)

Inductive ParseResult :=
| NoError
| BadChecksum
| PacketTooShort
| WrongIPVersion
| HeaderTooShort
| TruncatedPacket
| Unsupported.

#[global] Instance ParseResult_eq_dec : EqDecision ParseResult.
Proof. solve_decision. Defined.

(** The position of a constructor in the enumeration, and [as_string], a lookup
    in a table of six names ([None]: the read is outside the table). *)
Definition ParseResult_index (r : ParseResult) : nat :=
  match r with
  | NoError => 0 | BadChecksum => 1 | PacketTooShort => 2 | WrongIPVersion => 3
  | HeaderTooShort => 4 | TruncatedPacket => 5 | Unsupported => 6
  end.
Definition as_string (r : ParseResult) : option string :=
  [ "NoError"; "BadChecksum"; "PacketTooShort"; "WrongIPVersion"; "HeaderTooShort";
    "TruncatedPacket" ]%string !! ParseResult_index r.

Record NetParser := mkNetParser { _buffer : Buffer; _error : ParseResult }.

Definition NetParser_of (b : Buffer) : NetParser := mkNetParser b NoError.
Definition buffer (p : NetParser) : Buffer := _buffer p.
Definition get_error (p : NetParser) : ParseResult := _error p.
Definition set_error (r : ParseResult) (p : NetParser) : NetParser := mkNetParser (_buffer p) r.
Definition error (p : NetParser) : bool := negb (bool_decide (get_error p = NoError)).

Definition _check_size (sz : Z) (p : NetParser) : NetParser :=
  if sz >? size (_buffer p) then set_error PacketTooShort p else p.

(** A method of the parser: it may throw, or return a value and the new state. *)
Definition parser (A : Type) : Type := NetParser -> result (A * NetParser).
#[global] Instance parser_ret : MRet parser := fun A a p => Ok (a, p).
#[global] Instance parser_bind : MBind parser :=
  fun A B f m p => match m p with Ok (a, p') => f a p' | Throw e => Throw e | Diverge => Diverge end.

(** The loop of [_parse_int<T>], where [T] has [w] bits. *)
Fixpoint parse_loop (w : Z) (n : nat) (i ret : Z) (b : Buffer) : result Z :=
  match n with
  | O => Ok ret
  | S n' =>
      let ret := (Z.shiftl ret 8) mod 2 ^ w in
      c ← at_ i b;
      parse_loop w n' (i + 1) ((ret + c) mod 2 ^ w) b
  end.

Definition _parse_int (len : nat) : parser Z := fun p =>
  let p := _check_size (Z.of_nat len) p in
  if error p then Ok (0, p)
  else
    ret ← parse_loop (8 * Z.of_nat len) len 0 0 (_buffer p);
    b ← Buffer.remove_prefix (Z.of_nat len) (_buffer p);
    Ok (ret, mkNetParser b (_error p)).

Definition parse_u32 : parser Z := _parse_int 4.
Definition parse_u16 : parser Z := _parse_int 2.
Definition parse_u8 : parser Z := _parse_int 1.

Definition parser_remove_prefix (n : Z) : parser unit := fun p =>
  let p := _check_size n p in
  if error p then Ok (tt, p)
  else b ← Buffer.remove_prefix n (_buffer p); Ok (tt, mkNetParser b (_error p)).

(** [NetUnparser::_unparse_int<T>], where [T] has [len] bytes; [n] turns are left. *)
Fixpoint unparse_loop (len n : nat) (val : Z) (s : bytes) : bytes :=
  match n with
  | O => s
  | S n' =>
      let i := (len - n)%nat in
      let the_byte := Z.land (Z.shiftr val ((Z.of_nat len - Z.of_nat i - 1) * 8)) 255 in
      unparse_loop len n' val (s ++ [byte_of_Z the_byte])
  end.
Definition _unparse_int (len : nat) (s : bytes) (val : Z) : bytes := unparse_loop len len val s.

Definition unparse_u32 (s : bytes) (val : Z) : bytes := _unparse_int 4 s val.
Definition unparse_u16 (s : bytes) (val : Z) : bytes := _unparse_int 2 s val.
Definition unparse_u8 (s : bytes) (val : Z) : bytes := _unparse_int 1 s val.

(** [static_cast<bool>(x & mask)]. *)
Definition flag (x mask : Z) : bool := negb (Z.land x mask =? 0).

Definition get_parser : parser NetParser := fun p => Ok (p, p).

(** [std::string::resize]: cut, or pad with zero bytes. *)
Definition resize (n : Z) (s : bytes) : bytes :=
  take (Z.to_nat n) s ++ replicate (Z.to_nat n - length s) x00.

(** ** Big-endian values *)

Fixpoint be_value (l : bytes) : Z :=
  match l with
  | [] => 0
  | b :: r => byte_to_Z b * 2 ^ (8 * #r) + be_value r
  end.

Fixpoint be_bytes (n : nat) (v : Z) : bytes :=
  match n with
  | O => []
  | S n' => byte_of_Z (Z.shiftr v (8 * Z.of_nat n')) :: be_bytes n' v
  end.

Lemma be_value_range l : 0 <= be_value l < 2 ^ (8 * #l).
Proof.
  induction l as [|b l IH]; [simpl; rewrite Zlen_nil; simpl; lia|].
  cbn [be_value]. rewrite Zlen_cons, Z.mul_add_distr_l, Z.pow_add_r by (pose proof (Zlen_nonneg l); lia).
  pose proof (byte_to_Z_range b). change (2 ^ (8 * 1)) with 256. nia.
Qed.

Lemma length_be_bytes n v : length (be_bytes n v) = n.
Proof. induction n; simpl; congruence. Qed.

Lemma be_value_bytes n v : be_value (be_bytes n v) = v mod 2 ^ (8 * Z.of_nat n).
Proof.
  induction n as [|n IH]; [by rewrite Z.mod_1_r|].
  cbn [be_bytes be_value]. rewrite IH. unfold Zlen. rewrite length_be_bytes, byte_to_of_Z.
  rewrite Z.shiftr_div_pow2 by lia.
  replace (8 * Z.of_nat (S n)) with (8 * Z.of_nat n + 8) by lia.
  rewrite Z.pow_add_r, Z.rem_mul_r by lia. unfold u8. change (2 ^ 8) with 256. lia.
Qed.

Lemma be_bytes_value l : be_bytes (length l) (be_value l) = l.
Proof.
  assert (forall l k, 0 <= k -> be_bytes (length l) (k * 2 ^ (8 * #l) + be_value l) = l) as H.
  { clear. induction l as [|b l IH]; intros k Hk; [done|]. cbn [length be_bytes be_value].
    pose proof (byte_to_Z_range b). pose proof (be_value_range l). pose proof (Zlen_nonneg l).
    rewrite Zlen_cons, Z.mul_add_distr_l, Z.pow_add_r by lia. change (2 ^ (8 * 1)) with 256.
    replace (k * (256 * 2 ^ (8 * #l)) + (byte_to_Z b * 2 ^ (8 * #l) + be_value l))
      with ((k * 256 + byte_to_Z b) * 2 ^ (8 * #l) + be_value l) by ring.
    f_equal; [|apply IH; lia].
    change (Z.of_nat (length l)) with (#l). rewrite Z.shiftr_div_pow2 by lia.
    rewrite Z.div_add_l, Z.div_small, Z.add_0_r by lia.
    apply byte_to_Z_inj. rewrite byte_to_of_Z. words_lia. }
  apply (H l 0). lia.
Qed.

Lemma unparse_loop_app len n val s :
  (n <= len)%nat -> unparse_loop len n val s = s ++ be_bytes n val.
Proof.
  revert s. induction n as [|n IH]; intros s Hn; simpl; [by rewrite app_nil_r|].
  rewrite IH by lia. rewrite <- app_assoc. simpl. do 2 f_equal.
  apply byte_to_Z_inj. rewrite !byte_to_of_Z. change 255 with (Z.ones 8).
  rewrite Z.land_ones by lia. unfold u8. change (2 ^ 8) with 256. rewrite Zmod_mod.
  do 2 f_equal. lia.
Qed.

Lemma unparse_int_app len s val : _unparse_int len s val = s ++ be_bytes len val.
Proof. by apply unparse_loop_app. Qed.

Lemma parse_loop_value w n i ret b l rest :
  0 <= i -> drop (Z.to_nat i) (str b) = l ++ rest -> length l = n ->
  0 <= ret -> ret * 2 ^ (8 * Z.of_nat n) + be_value l < 2 ^ w ->
  parse_loop w n i ret b = Ok (ret * 2 ^ (8 * Z.of_nat n) + be_value l).
Proof.
  revert i ret l. induction n as [|n IH]; intros i ret l Hi Hd Hl Hr Hb.
  { destruct l; [|done]. simpl in *. f_equal. lia. }
  destruct l as [|x l]; [done|]. injection Hl as Hl.
  pose proof (be_value_range l) as Hv. pose proof (byte_to_Z_range x).
  cbn [be_value parse_loop] in *.
  assert (at_ i b = Ok (byte_to_Z x)) as Ha.
  { unfold at_. pose proof (lookup_drop (str b) (Z.to_nat i) 0) as HL.
    rewrite Hd, Nat.add_0_r in HL. simpl in HL. by rewrite <- HL. }
  rewrite Ha, result_bind_Ok. unfold Zlen in *. rewrite Hl in *.
  replace (8 * Z.of_nat (S n)) with (8 * Z.of_nat n + 8) in * by lia.
  rewrite Z.pow_add_r in * by lia. change (2 ^ 8) with 256 in *.
  set (P := 2 ^ (8 * Z.of_nat n)) in *. assert (0 < P) by (apply Z.pow_pos_nonneg; lia).
  rewrite Z.shiftl_mul_pow2 by lia. change (2 ^ 8) with 256.
  assert (0 <= ret * 256 + byte_to_Z x <= ret * (P * 256) + (byte_to_Z x * P + be_value l)) by nia.
  rewrite (Z.mod_small (ret * 256)) by lia. rewrite Z.mod_small by lia.
  rewrite (IH (i + 1) _ l); try done; try lia.
  - f_equal. lia.
  - replace (Z.to_nat (i + 1)) with (Z.to_nat i + 1)%nat by lia.
    rewrite <- drop_drop, Hd. done.
Qed.

(** ** The parser *)

Definition wf_parser (p : NetParser) : Prop := wf_buffer (_buffer p).

Lemma error_false p : error p = false <-> _error p = NoError.
Proof. unfold error, get_error. rewrite negb_false_iff. apply bool_decide_eq_true. Qed.

Lemma check_size_ok n p : n <= size (_buffer p) -> _check_size n p = p.
Proof. intros. unfold _check_size. case_if; [lia|done]. Qed.
Lemma check_size_short n p : size (_buffer p) < n -> _check_size n p = set_error PacketTooShort p.
Proof. intros. unfold _check_size. case_if; [done|lia]. Qed.

(** The next integer is there. *)
Lemma parse_int_ok len p l rest :
  wf_parser p -> _error p = NoError -> str (_buffer p) = l ++ rest -> length l = len ->
  exists p', _parse_int len p = Ok (be_value l, p') /\ wf_parser p' /\
    _error p' = NoError /\ str (_buffer p') = rest.
Proof.
  intros Hwf He Hs Hl. unfold _parse_int.
  rewrite check_size_ok by (unfold size; rewrite Hs; unfold Zlen; rewrite length_app; lia).
  rewrite (proj2 (error_false p)) by done.
  pose proof (be_value_range l). unfold Zlen in *. rewrite Hl in *.
  rewrite (parse_loop_value _ _ _ _ _ l rest); try done; try lia. rewrite result_bind_Ok.
  destruct (remove_prefix_ok (Z.of_nat len) (_buffer p)) as (b' & -> & Hb & Hwf'); [done| |].
  { unfold size, Zlen. rewrite Hs, length_app. lia. }
  eexists; split; [done|]. split_and!; try done. simpl.
  rewrite Hb, Hs, drop_app_ge by lia. rewrite Nat2Z.id, Hl, Nat.sub_diag. done.
Qed.

(** Too few bytes, or an earlier error: the value is 0 and the error stays. *)
Lemma parse_int_fail len p :
  _error p <> NoError \/ size (_buffer p) < Z.of_nat len ->
  exists p', _parse_int len p = Ok (0, p') /\ _buffer p' = _buffer p /\
    _error p' = (if Z.of_nat len >? size (_buffer p) then PacketTooShort else _error p) /\
    _error p' <> NoError.
Proof.
  intros H. unfold _parse_int. destruct (Z.gtb_spec (Z.of_nat len) (size (_buffer p))).
  - rewrite check_size_short by lia. by eexists.
  - rewrite check_size_ok by lia. destruct (error p) eqn:E; [|apply error_false in E; destruct H; [done|lia]].
    eexists; split; [done|]. split_and!; try done. destruct H; [done|lia].
Qed.

(** Every call of an integer method returns, and keeps the parser sound. *)
Lemma parse_int_total len p :
  wf_parser p -> exists v p', _parse_int len p = Ok (v, p') /\ wf_parser p' /\
    0 <= v < 2 ^ (8 * Z.of_nat len) /\
    (_error p' = NoError ->
       _error p = NoError /\ size (_buffer p') = size (_buffer p) - Z.of_nat len).
Proof.
  intros Hwf. destruct (decide (_error p = NoError)) as [He|He];
    [destruct (Z.le_gt_cases (Z.of_nat len) (size (_buffer p)))|].
  - destruct (parse_int_ok len p (take len (str (_buffer p))) (drop len (str (_buffer p))))
      as (p' & -> & Hp & He' & Hs); [done|done|by rewrite take_drop|
        rewrite length_take; unfold size, Zlen in *; lia|].
    do 2 eexists; split; [done|]. pose proof (be_value_range (take len (str (_buffer p)))) as Hr.
    unfold Zlen in Hr. rewrite length_take_le in Hr by (unfold size, Zlen in *; lia).
    split_and!; try done; try lia. intros _. split; [done|].
    unfold size. rewrite Hs. unfold Zlen. rewrite length_drop. unfold size, Zlen in *. lia.
  - destruct (parse_int_fail len p) as (p' & -> & Hb & _ & Hn); [auto|].
    do 2 eexists; split; [done|]. unfold wf_parser. rewrite Hb. split_and!; try done; lia.
  - destruct (parse_int_fail len p) as (p' & -> & Hb & _ & Hn); [auto|].
    do 2 eexists; split; [done|]. unfold wf_parser. rewrite Hb. split_and!; try done; lia.
Qed.

Lemma parser_remove_prefix_ok n p :
  wf_parser p -> _error p = NoError -> 0 <= n <= size (_buffer p) ->
  exists p', parser_remove_prefix n p = Ok (tt, p') /\ wf_parser p' /\
    _error p' = NoError /\ str (_buffer p') = drop (Z.to_nat n) (str (_buffer p)).
Proof.
  intros Hwf He Hn. unfold parser_remove_prefix. rewrite check_size_ok by lia.
  rewrite (proj2 (error_false p)) by done.
  destruct (remove_prefix_ok n (_buffer p)) as (b' & -> & Hb & Hwf'); [done|done|].
  eexists; split; [done|]. done.
Qed.

Lemma parser_remove_prefix_fail n p :
  _error p <> NoError \/ size (_buffer p) < n ->
  exists p', parser_remove_prefix n p = Ok (tt, p') /\ _buffer p' = _buffer p /\
    _error p' = (if n >? size (_buffer p) then PacketTooShort else _error p) /\
    _error p' <> NoError.
Proof.
  intros H. unfold parser_remove_prefix. destruct (Z.gtb_spec n (size (_buffer p))).
  - rewrite check_size_short by lia. by eexists.
  - rewrite check_size_ok by lia. destruct (error p) eqn:E; [|apply error_false in E; destruct H; [done|lia]].
    eexists; split; [done|]. split_and!; try done. destruct H; [done|lia].
Qed.

(** ** Running a parser *)

Lemma parser_bind_Ok {A B} (m : parser A) (f : A -> parser B) p a p' :
  m p = Ok (a, p') -> (m ≫= f) p = f a p'.
Proof. intros H. unfold mbind, parser_bind. by rewrite H. Qed.

(** Consume the next [be_bytes] of the input. *)
Ltac parse_next :=
  match goal with
  | Hwf : wf_parser ?p, He : _error ?p = NoError, Hs : str (_buffer ?p) = be_bytes ?n ?v ++ ?r
    |- context [(_ ≫= _) ?p] =>
      let p' := fresh "p" in
      let E := fresh "E" in
      destruct (parse_int_ok n p (be_bytes n v) r Hwf He Hs (length_be_bytes n v))
        as (p' & E & ? & ? & ?);
      rewrite be_value_bytes in E; rewrite (parser_bind_Ok _ _ p _ p' E);
      clear Hwf He Hs E; simpl Z.mul
  end.

(** Take the next integer of an input that is long enough. *)
Lemma parse_int_avail len p s n :
  wf_parser p -> _error p = NoError -> str (_buffer p) = drop n s -> (n + len <= length s)%nat ->
  exists v p', _parse_int len p = Ok (v, p') /\ wf_parser p' /\ _error p' = NoError /\
    0 <= v < 2 ^ (8 * Z.of_nat len) /\ str (_buffer p') = drop (n + len) s.
Proof.
  intros Hwf He Hs Hl.
  destruct (parse_int_ok len p (take len (drop n s)) (drop len (drop n s))) as (p' & E & H1 & H2 & H3);
    [done..|by rewrite take_drop|rewrite length_take, length_drop; lia|].
  do 2 eexists. split; [exact E|]. rewrite <- drop_drop. split_and!; try done;
    pose proof (be_value_range (take len (drop n s))) as Hr; unfold Zlen in Hr;
    rewrite length_take_le in Hr by (rewrite length_drop; lia); apply Hr.
Qed.

Ltac parse_avail :=
  match goal with
  | Hwf : wf_parser ?p, He : _error ?p = NoError, Hs : str (_buffer ?p) = drop ?k ?s
    |- context [(_parse_int ?n ≫= _) ?p] =>
      let v := fresh "v" in let p' := fresh "p" in let E := fresh "E" in
      destruct (parse_int_avail n p s k Hwf He Hs) as (v & p' & E & ? & ? & ? & ?); [simpl; lia|];
      rewrite (parser_bind_Ok _ _ p v p' E); clear Hwf He Hs E
  end.

(** Take the next integer of an arbitrary input. *)
Ltac parse_any :=
  match goal with
  | Hwf : wf_parser ?p |- context [(_parse_int ?n ≫= _) ?p] =>
      let v := fresh "v" in let p' := fresh "p" in let E := fresh "E" in
      destruct (parse_int_total n p Hwf) as (v & p' & E & ? & ? & ?);
      rewrite (parser_bind_Ok _ _ p v p' E); clear E
  end.

Lemma parser_remove_prefix_total n p :
  wf_parser p -> 0 <= n ->
  exists p', parser_remove_prefix n p = Ok (tt, p') /\ wf_parser p' /\
    (_error p' = NoError -> _error p = NoError /\ size (_buffer p') = size (_buffer p) - n).
Proof.
  intros Hwf Hn. destruct (decide (_error p = NoError)) as [He|He];
    [destruct (Z.le_gt_cases n (size (_buffer p)))|].
  - destruct (parser_remove_prefix_ok n p) as (p' & E & H1 & H2 & H3); try done.
    exists p'. split_and!; try done. intros _. split; [done|]. unfold size in *. rewrite H3, Zlen_drop; lia.
  - destruct (parser_remove_prefix_fail n p) as (p' & E & H1 & _ & H2); [auto|].
    exists p'. split_and!; try done. unfold wf_parser. by rewrite H1.
  - destruct (parser_remove_prefix_fail n p) as (p' & E & H1 & _ & H2); [auto|].
    exists p'. split_and!; try done. unfold wf_parser. by rewrite H1.
Qed.

(** ** Properties *)

(** round trip of integers. Unparsing a value of [len] bytes appends [len] bytes, and
    parsing them from any sound parser whose input starts with them gives the value back,
    leaves the rest of the input, and reports no error. *)
Theorem unparse_parse_int len v s rest p
  (Hv : 0 <= v < 2 ^ (8 * Z.of_nat len)) (Hwf : wf_parser p) (He : _error p = NoError)
  (Hs : s ++ str (_buffer p) = _unparse_int len s v ++ rest) :
  length (_unparse_int len s v) = (length s + len)%nat /\
  exists p', _parse_int len p = Ok (v, p') /\ _error p' = NoError /\ str (_buffer p') = rest.
Proof.
  rewrite unparse_int_app in *. rewrite length_app, length_be_bytes. split; [done|].
  rewrite <- app_assoc in Hs. apply app_inv_head in Hs.
  destruct (parse_int_ok len p (be_bytes len v) rest) as (p' & -> & _ & He' & Hr); try done.
  { apply length_be_bytes. }
  exists p'. rewrite be_value_bytes, Z.mod_small by done. done.
Qed.

Lemma unparse_parse_int_witness :
  length (_unparse_int 2 [] 258) = (0 + 2)%nat /\
  exists p', _parse_int 2 (NetParser_of (Buffer_of [x01; x02; xff])) = Ok (258, p') /\
    _error p' = NoError /\ str (_buffer p') = [xff].
Proof.
  apply (unparse_parse_int 2 258 [] [xff] (NetParser_of (Buffer_of [x01; x02; xff])));
    [by_compute|apply Buffer_of_wf; by_compute|reflexivity|reflexivity].
Defined.
