(* ===== verification/Checksum.v ===== *)
(** * The Internet checksum (class InternetChecksum of src/libsponge/util/util.hh, util.cc)

    Bytes are added alternately as the high and the low half of a 16-bit word
    to a 32-bit sum; the value is the complement of the sum with its carries
    folded in. *)

From S2P Require Import Prelude Parser.

Record InternetChecksum := mkChecksum { _sum : Z; _parity : bool }.

Definition InternetChecksum_of (initial_sum : Z) : InternetChecksum :=
  mkChecksum initial_sum false.

(** One turn of the loop of [add]. *)
Definition add_byte (c : InternetChecksum) (b : byte) : InternetChecksum :=
  let val := byte_to_Z b in
  let val := if negb (_parity c) then u16 (Z.shiftl val 8) else val in
  mkChecksum (u32 (_sum c + val)) (negb (_parity c)).

Definition add (data : bytes) (c : InternetChecksum) : InternetChecksum :=
  foldl add_byte c data.

(** The loop of [value]; it stops after at most two turns on a 32-bit sum
    ([fold_carries_done]), so the fuel 3 is not exhausted. *)
Fixpoint fold_carries (fuel : nat) (ret : Z) : Z :=
  match fuel with
  | O => ret
  | S n =>
      if ret >? 65535
      then fold_carries n (u32 (Z.shiftr ret 16 + Z.land ret 65535))
      else ret
  end.

Definition value (c : InternetChecksum) : Z := u16 (Z.lnot (fold_carries 3 (_sum c))).

(** ** Lemmas *)

Lemma carry_step r : 0 <= r -> Z.shiftr r 16 + Z.land r 65535 = r / 65536 + r mod 65536.
Proof.
  intros. rewrite Z.shiftr_div_pow2 by lia. change 65535 with (Z.ones 16).
  rewrite Z.land_ones by lia. done.
Qed.

(** The loop ends with a 16-bit value congruent to the sum modulo 65535, which is
    zero only for a zero sum. *)
Lemma fold_carries_done s :
  0 <= s < 4294967296 ->
  let r := fold_carries 3 s in
  0 <= r <= 65535 /\ r mod 65535 = s mod 65535 /\ (r = 0 <-> s = 0).
Proof.
  intros Hs. cbn [fold_carries].
  destruct (s >? 65535) eqn:E1; [|lia].
  rewrite carry_step by lia. rewrite u32_id by words_lia.
  set (s1 := s / 65536 + s mod 65536).
  assert (0 < s1 <= 131070 /\ s1 mod 65535 = s mod 65535) as [H1 H1'] by (unfold s1; words_lia).
  destruct (s1 >? 65535) eqn:E2; [|lia].
  rewrite carry_step by lia. rewrite u32_id by words_lia.
  set (s2 := s1 / 65536 + s1 mod 65536).
  assert (0 < s2 <= 65535 /\ s2 mod 65535 = s1 mod 65535) as [H2 H2'] by (unfold s2; words_lia).
  destruct (s2 >? 65535) eqn:E3; [lia|]. lia.
Qed.

#[global] Arguments fold_carries : simpl never.

Lemma value_spec c :
  0 <= _sum c < 4294967296 -> value c = 65535 - fold_carries 3 (_sum c).
Proof.
  intros Hs. pose proof (fold_carries_done _ Hs) as (H & _). cbn zeta in H.
  unfold value, Z.lnot. words_lia.
Qed.

(** The checksum verifies exactly when the sum is a non-zero multiple of 65535. *)
Lemma value_zero c :
  0 <= _sum c < 4294967296 -> (value c = 0 <-> 0 < _sum c /\ _sum c mod 65535 = 0).
Proof.
  intros Hs. rewrite value_spec by done.
  pose proof (fold_carries_done _ Hs) as (H & H' & H''). cbn zeta in *. words_lia.
Qed.

(** The sum of the bytes as words, starting at a high ([false]) or low half. *)
Fixpoint word_sum (parity : bool) (data : bytes) : Z :=
  match data with
  | [] => 0
  | b :: r => (if parity then byte_to_Z b else byte_to_Z b * 256) + word_sum (negb parity) r
  end.

Fixpoint end_parity (parity : bool) (data : bytes) : bool :=
  match data with [] => parity | _ :: r => end_parity (negb parity) r end.

Lemma word_sum_range p data : 0 <= word_sum p data <= 65280 * #data.
Proof.
  revert p. induction data as [|b r IH]; intros p; simpl; [rewrite Zlen_nil; lia|].
  rewrite Zlen_cons. specialize (IH (negb p)). pose proof (byte_to_Z_range b). destruct p; lia.
Qed.

Lemma word_sum_app p d1 d2 : word_sum p (d1 ++ d2) = word_sum p d1 + word_sum (end_parity p d1) d2.
Proof. revert p. induction d1 as [|b r IH]; intros p; simpl; [lia|]. rewrite IH. lia. Qed.

Lemma end_parity_app p d1 d2 : end_parity p (d1 ++ d2) = end_parity (end_parity p d1) d2.
Proof. revert p. induction d1 as [|b r IH]; intros p; simpl; [done|]. apply IH. Qed.

Lemma word_sum_replicate p n : word_sum p (replicate n x00) = 0.
Proof. revert p. induction n as [|n IH]; intros p; simpl; [done|]. rewrite IH. by destruct p. Qed.

Lemma end_parity_even p data : Nat.even (length data) = true -> end_parity p data = p.
Proof.
  intros He. assert (forall d p, end_parity p d = if Nat.even (length d) then p else negb p) as H.
  { clear. induction d as [|b d IH]; intros p; [done|]. cbn [end_parity length].
    rewrite IH, Nat.even_succ, <- Nat.negb_even. destruct (Nat.even (length d)), p; done. }
  rewrite H, He. done.
Qed.

Lemma word_sum_be2 v : 0 <= v < 65536 -> word_sum false (be_bytes 2 v) = v.
Proof.
  intros Hv. cbn [be_bytes word_sum negb]. rewrite !byte_to_of_Z, !Z.shiftr_div_pow2 by lia.
  change (2 ^ (8 * Z.of_nat 1)) with 256. change (2 ^ (8 * Z.of_nat 0)) with 1. words_lia.
Qed.

Lemma add_sum data c :
  0 <= _sum c -> _sum c + word_sum (_parity c) data < 4294967296 ->
  add data c = mkChecksum (_sum c + word_sum (_parity c) data) (end_parity (_parity c) data).
Proof.
  revert c. induction data as [|b r IH]; intros [s p] Hs Hb; simpl in *.
  { by rewrite Z.add_0_r. }
  pose proof (byte_to_Z_range b). pose proof (word_sum_range (negb p) r).
  assert (add_byte (mkChecksum s p) b =
    mkChecksum (s + if p then byte_to_Z b else byte_to_Z b * 256) (negb p)) as E.
  { unfold add_byte; simpl. f_equal. rewrite Z.shiftl_mul_pow2 by lia. change (2 ^ 8) with 256.
    destruct p; simpl; unwrap_words; done. }
  unfold add in *. cbn [foldl]. rewrite E, IH; simpl; [f_equal; lia|destruct p; lia|lia].
Qed.

Lemma add_app d1 d2 c : add (d1 ++ d2) c = add d2 (add d1 c).
Proof. apply foldl_app. Qed.

(** Computing and checking agree. Put the checksum of data whose checksum field is zero
    in that field (so that the word sum grows by it): the result verifies. *)
Lemma checksum_fill init data data'
  (Hi : 0 <= init) (Hb : init + word_sum false data' < 4294967296)
  (Hd : word_sum false data' =
        word_sum false data + value (add data (InternetChecksum_of init))) :
  value (add data' (InternetChecksum_of init)) = 0.
Proof.
  pose proof (word_sum_range false data).
  pose proof (u16_range (Z.lnot (fold_carries 3 (_sum (add data (InternetChecksum_of init)))))) as Hv.
  fold (value (add data (InternetChecksum_of init))) in Hv.
  assert (init + word_sum false data < 4294967296) as Hs by lia.
  rewrite add_sum by done. apply value_zero; simpl; [lia|].
  rewrite add_sum in Hd, Hv by done.
  rewrite value_spec in Hd, Hv by (cbn [_sum _parity InternetChecksum_of]; lia).
  cbn [_sum _parity InternetChecksum_of] in *.
  pose proof (fold_carries_done (init + word_sum false data) ltac:(lia)) as (H1 & H2 & H3).
  cbn zeta in *. words_lia.
Qed.

(** ** Properties *)

(** [value] is the Internet checksum: on any data that does not overflow the 32-bit sum
    it is a 16-bit number, and it is 0 (the data verifies) exactly when the sum of the
    initial value and the big-endian 16-bit words is a non-zero multiple of 65535. *)
Theorem checksum_verifies init data
  (Hi : 0 <= init) (Hb : init + word_sum false data < 4294967296) :
  let v := value (add data (InternetChecksum_of init)) in
  0 <= v < 65536 /\
  (v = 0 <-> 0 < init + word_sum false data /\ (init + word_sum false data) mod 65535 = 0).
Proof.
  pose proof (word_sum_range false data). cbn zeta. split; [apply u16_range|].
  rewrite add_sum by done. apply value_zero. simpl. lia.
Qed.

Lemma checksum_verifies_witness :
  let v := value (add [x01; x02; x03] (InternetChecksum_of 64250)) in
  0 <= v < 65536 /\
  (v = 0 <-> 0 < 64250 + word_sum false [x01; x02; x03] /\
             (64250 + word_sum false [x01; x02; x03]) mod 65535 = 0).
Proof. apply (checksum_verifies 64250 [x01; x02; x03]); by_compute. Defined.
