(* ===== verification/TCPHeader.v ===== *)
(** * TCP segment headers (src/libsponge/tcp_helpers/tcp_header.hh, tcp_header.cc) *)

From S2P Require Import Prelude WrappingIntegers Buffer Parser.

(** ** Definitions *)

(** [TCPHeader::LENGTH]. *)
Definition LENGTH : Z := 20.

Record TCPHeader := mkTCPHeader {
  sport : Z;
  dport : Z;
  seqno : WrappingInt32;
  ackno : WrappingInt32;
  doff : Z;
  urg : bool;
  ack : bool;
  psh : bool;
  rst : bool;
  syn : bool;
  fin : bool;
  win : Z;
  cksum : Z;
  uptr : Z
}.

(** The default member initializers. *)
Definition default_header : TCPHeader :=
  mkTCPHeader 0 0 (WrappingInt32_of 0) (WrappingInt32_of 0) (LENGTH / 4)
    false false false false false false 0 0 0.

Definition parse : parser (ParseResult * TCPHeader) :=
  sport ← parse_u16;
  dport ← parse_u16;
  seqno ← parse_u32;
  ackno ← parse_u32;
  b12 ← parse_u8;
  fl_b ← parse_u8;
  win ← parse_u16;
  cksum ← parse_u16;
  uptr ← parse_u16;
  let doff := Z.shiftr b12 4 in
  let h := mkTCPHeader sport dport (WrappingInt32_of seqno) (WrappingInt32_of ackno) doff
             (flag fl_b 32) (flag fl_b 16) (flag fl_b 8) (flag fl_b 4) (flag fl_b 2) (flag fl_b 1)
             win cksum uptr in
  if doff <? 5 then mret (HeaderTooShort, h)
  else
    _ ← parser_remove_prefix (u64 (doff * 4 - LENGTH));
    p ← get_parser;
    if error p then mret (get_error p, h) else mret (NoError, h).

(** The byte with the flags. *)
Definition flag_byte (h : TCPHeader) : Z :=
  u8 (Z.lor (Z.lor (Z.lor (Z.lor (Z.lor (if urg h then 32 else 0) (if ack h then 16 else 0))
       (if psh h then 8 else 0)) (if rst h then 4 else 0)) (if syn h then 2 else 0))
       (if fin h then 1 else 0)).

Definition serialize (h : TCPHeader) : result bytes :=
  if doff h <? 5 then Throw runtime_error
  else
    let ret := [] in
    let ret := unparse_u16 ret (sport h) in
    let ret := unparse_u16 ret (dport h) in
    let ret := unparse_u32 ret (raw_value (seqno h)) in
    let ret := unparse_u32 ret (raw_value (ackno h)) in
    let ret := unparse_u8 ret (u8 (Z.shiftl (doff h) 4)) in
    let ret := unparse_u8 ret (flag_byte h) in
    let ret := unparse_u16 ret (win h) in
    let ret := unparse_u16 ret (cksum h) in
    let ret := unparse_u16 ret (uptr h) in
    Ok (resize (4 * doff h) ret).

(** [operator==], which leaves out ports and checksum. *)
Definition header_eq (h other : TCPHeader) : bool :=
  wi_eq (seqno h) (seqno other) && wi_eq (ackno h) (ackno other) &&
  (doff h =? doff other) && eqb (urg h) (urg other) && eqb (ack h) (ack other) &&
  eqb (psh h) (psh other) && eqb (rst h) (rst other) && eqb (syn h) (syn other) &&
  eqb (fin h) (fin other) && (win h =? win other) && (uptr h =? uptr other).

(** Assignments to one field. *)
Definition set_seqno (v : WrappingInt32) (h : TCPHeader) : TCPHeader :=
  mkTCPHeader (sport h) (dport h) v (ackno h) (doff h) (urg h) (ack h) (psh h) (rst h) (syn h)
    (fin h) (win h) (cksum h) (uptr h).
Definition set_ack (v : bool) (no : WrappingInt32) (w : Z) (h : TCPHeader) : TCPHeader :=
  mkTCPHeader (sport h) (dport h) (seqno h) no (doff h) (urg h) v (psh h) (rst h) (syn h)
    (fin h) w (cksum h) (uptr h).
Definition set_rst (v : bool) (h : TCPHeader) : TCPHeader :=
  mkTCPHeader (sport h) (dport h) (seqno h) (ackno h) (doff h) (urg h) (ack h) (psh h) v (syn h)
    (fin h) (win h) (cksum h) (uptr h).
Definition set_syn (v : bool) (h : TCPHeader) : TCPHeader :=
  mkTCPHeader (sport h) (dport h) (seqno h) (ackno h) (doff h) (urg h) (ack h) (psh h) (rst h) v
    (fin h) (win h) (cksum h) (uptr h).
Definition set_fin (v : bool) (h : TCPHeader) : TCPHeader :=
  mkTCPHeader (sport h) (dport h) (seqno h) (ackno h) (doff h) (urg h) (ack h) (psh h) (rst h)
    (syn h) v (win h) (cksum h) (uptr h).
Definition set_cksum (v : Z) (h : TCPHeader) : TCPHeader :=
  mkTCPHeader (sport h) (dport h) (seqno h) (ackno h) (doff h) (urg h) (ack h) (psh h) (rst h)
    (syn h) (fin h) (win h) v (uptr h).
Definition set_ports (s d : Z) (h : TCPHeader) : TCPHeader :=
  mkTCPHeader s d (seqno h) (ackno h) (doff h) (urg h) (ack h) (psh h) (rst h)
    (syn h) (fin h) (win h) (cksum h) (uptr h).

(** ** The fields hold values of their types *)

Definition wf_header (h : TCPHeader) : Prop :=
  0 <= sport h < 65536 /\ 0 <= dport h < 65536 /\ wf_wrapping (seqno h) /\
  wf_wrapping (ackno h) /\ 0 <= doff h < 256 /\ 0 <= win h < 65536 /\
  0 <= cksum h < 65536 /\ 0 <= uptr h < 65536.

(** ** The bytes of a header *)

Definition header_front (h : TCPHeader) : bytes :=
  be_bytes 2 (sport h) ++ be_bytes 2 (dport h) ++ be_bytes 4 (raw_value (seqno h)) ++
  be_bytes 4 (raw_value (ackno h)) ++ be_bytes 1 (u8 (Z.shiftl (doff h) 4)) ++
  be_bytes 1 (flag_byte h) ++ be_bytes 2 (win h).
Definition header_options (h : TCPHeader) : bytes :=
  replicate (Z.to_nat (4 * doff h - 20)) x00.
Definition header_bytes (h : TCPHeader) : bytes :=
  header_front h ++ be_bytes 2 (cksum h) ++ be_bytes 2 (uptr h) ++ header_options h.

Lemma length_header_front h : length (header_front h) = 16%nat.
Proof. unfold header_front. rewrite !length_app, !length_be_bytes. done. Qed.

Lemma serialize_bytes h : 5 <= doff h -> serialize h = Ok (header_bytes h).
Proof.
  intros Hd. unfold serialize. case_if; [lia|]. f_equal.
  unfold unparse_u8, unparse_u16, unparse_u32. rewrite !unparse_int_app, app_nil_l.
  unfold resize. rewrite take_ge by (rewrite !length_app, !length_be_bytes; simpl; lia).
  rewrite !length_app, !length_be_bytes. unfold header_bytes, header_front, header_options.
  rewrite <- !app_assoc. do 9 f_equal. simpl length. f_equal. lia.
Qed.

Lemma length_header_bytes h : 5 <= doff h -> #(header_bytes h) = 4 * doff h.
Proof.
  intros. unfold header_bytes, header_options, Zlen.
  rewrite !length_app, length_header_front, !length_be_bytes, length_replicate. lia.
Qed.

(** ** Running the parser *)

Lemma flags_parsed h :
  flag (flag_byte h) 32 = urg h /\ flag (flag_byte h) 16 = ack h /\ flag (flag_byte h) 8 = psh h /\
  flag (flag_byte h) 4 = rst h /\ flag (flag_byte h) 2 = syn h /\ flag (flag_byte h) 1 = fin h.
Proof.
  unfold flag_byte. destruct (urg h), (ack h), (psh h), (rst h), (syn h), (fin h); done.
Qed.

Lemma WrappingInt32_of_id a : wf_wrapping a -> WrappingInt32_of (raw_value a) = a.
Proof. destruct a as [r]. intros H. unfold WrappingInt32_of; simpl. by rewrite u32_id. Qed.

Lemma parse_header_bytes h p rest :
  wf_header h -> 5 <= doff h < 16 -> wf_parser p -> _error p = NoError ->
  str (_buffer p) = header_bytes h ++ rest ->
  exists p', parse p = Ok ((NoError, h), p') /\ wf_parser p' /\ _error p' = NoError /\
    str (_buffer p') = rest.
Proof.
  intros (W1 & W2 & W3 & W4 & W5 & W6 & W7 & W8) Hd Hwf He Hs.
  unfold header_bytes, header_front in Hs. rewrite <- !app_assoc in Hs.
  pose proof (flags_parsed h) as (F1 & F2 & F3 & F4 & F5 & F6).
  pose proof (u8_range (Z.shiftl (doff h) 4)).
  assert (0 <= flag_byte h < 256) by (unfold flag_byte; apply u8_range).
  unfold wf_wrapping in *.
  unfold parse, parse_u16, parse_u32, parse_u8. repeat parse_next.
  rewrite !(Z.mod_small _ (2 ^ 16)), !(Z.mod_small _ (2 ^ 32)), !(Z.mod_small _ (2 ^ 8)) by lia.
  rewrite !WrappingInt32_of_id, F1, F2, F3, F4, F5, F6 by done.
  assert (Z.shiftr (u8 (Z.shiftl (doff h) 4)) 4 = doff h) as ->.
  { rewrite Z.shiftl_mul_pow2, Z.shiftr_div_pow2 by lia. change (2 ^ 4) with 16.
    rewrite u8_id by lia. apply Z.div_mul. lia. }
  case_if; [lia|]. unfold LENGTH. rewrite u64_id by lia.
  match goal with Hw : wf_parser ?q, Hq : _error ?q = NoError, Hr : str (_buffer ?q) = _ |- _ =>
    destruct (parser_remove_prefix_ok (doff h * 4 - 20) q Hw Hq) as (p' & E & G1 & G2 & G3);
      [unfold size, Zlen; rewrite Hr, length_app; unfold header_options;
       rewrite length_replicate; lia|];
    rewrite Hr in G3
  end.
  rewrite (parser_bind_Ok _ _ _ _ _ E). unfold get_parser. rewrite (parser_bind_Ok _ _ p' p' p') by done.
  rewrite (proj2 (error_false p')) by done. exists p'. split; [destruct h; done|].
  split_and!; try done. rewrite G3. unfold header_options.
  rewrite drop_app_ge by (rewrite length_replicate; lia). rewrite length_replicate.
  replace (_ - _)%nat with 0%nat by lia. done.
Qed.

(** On every input the parser of a header returns. *)
Lemma parse_total p :
  wf_parser p ->
  exists r h p', parse p = Ok ((r, h), p') /\ wf_parser p' /\ wf_header h /\ doff h < 16 /\
    r = (if doff h <? 5 then HeaderTooShort else _error p') /\
    (_error p' = NoError -> _error p = NoError /\
       size (_buffer p) = size (_buffer p') + (if doff h <? 5 then 20 else 4 * doff h)).
Proof.
  intros Hwf. unfold parse, parse_u16, parse_u32, parse_u8. repeat parse_any.
  change (8 * Z.of_nat 2) with 16 in *. change (8 * Z.of_nat 4) with 32 in *.
  change (8 * Z.of_nat 1) with 8 in *.
  assert (0 <= Z.shiftr v3 4 < 16) as Hd.
  { rewrite Z.shiftr_div_pow2 by lia. change (2 ^ 4) with 16. split.
    - apply Z.div_pos; lia.
    - apply Z.div_lt_upper_bound; lia. }
  set (h := mkTCPHeader _ _ _ _ _ _ _ _ _ _ _ _ _ _).
  assert (wf_header h) as Hh 
    by (unfold wf_header, wf_wrapping; cbn -[u32 Z.pow];
        pose proof (u32_range v1); pose proof (u32_range v2); split_and!; lia).
  case_if.
  - do 3 eexists. split; [done|]. split_and!; try done; simpl; try lia.
    + by rewrite Heqb.
    + rewrite Heqb. intuition lia.
  - destruct (parser_remove_prefix_total (u64 (Z.shiftr v3 4 * 4 - LENGTH)) p8)
      as (p' & E & G1 & G2); [done|apply u64_range|].
    rewrite (parser_bind_Ok _ _ _ _ _ E), (parser_bind_Ok _ _ p' p' p') by done.
    unfold LENGTH in *. rewrite u64_id in G2 by lia.
    destruct (error p') eqn:E1; do 3 eexists; (split; [done|]);
      (split_and!; try done; simpl; try lia); rewrite Heqb; intuition lia || idtac.
    by apply error_false in E1.
Qed.

(** ** Properties *)

(** round trip of headers. Every header with 5 to 15 words serializes to [4 * doff] bytes,
    and parsing them from any input that starts with them returns the same header, no error,
    and the rest of the input. *)
Theorem header_roundtrip h p rest
  (Hh : wf_header h) (Hd : 5 <= doff h < 16) (Hp : wf_parser p) (He : _error p = NoError)
  (Hs : Ok (str (_buffer p)) = b ← serialize h; Ok (b ++ rest)) :
  exists b p', serialize h = Ok b /\ #b = 4 * doff h /\
    parse p = Ok ((NoError, h), p') /\ _error p' = NoError /\ str (_buffer p') = rest.
Proof.
  rewrite serialize_bytes, result_bind_Ok in Hs by lia. injection Hs as Hs.
  destruct (parse_header_bytes h p rest) as (p' & E & _ & H1 & H2); try done.
  exists (header_bytes h), p'. rewrite serialize_bytes by lia.
  split_and!; try done. apply length_header_bytes. lia.
Qed.

Definition sample_header : TCPHeader :=
  mkTCPHeader 80 1025 (WrappingInt32_of 4294967295) (WrappingInt32_of 7) 6
    false true false false true true 1000 51966 3.

Lemma header_roundtrip_witness :
  exists b p', serialize sample_header = Ok b /\ #b = 24 /\
    parse (NetParser_of (Buffer_of (header_bytes sample_header ++ [xaa]))) = Ok ((NoError, sample_header), p') /\
    _error p' = NoError /\ str (_buffer p') = [xaa].
Proof.
  apply (header_roundtrip sample_header
    (NetParser_of (Buffer_of (header_bytes sample_header ++ [xaa]))) [xaa]);
    [by_compute|by_compute|apply Buffer_of_wf; by_compute|reflexivity|reflexivity].
Defined.

(** robustness of the header parser. On every input it returns without throwing, with a
    header whose fields are in range; the result is [HeaderTooShort] exactly when the data
    offset is below 5 words and otherwise the error of the parser; and without error the
    header consumed exactly the 20 fixed bytes, or the [4 * doff] bytes it announces. *)
Theorem header_parse_robust p (Hp : wf_parser p) :
  exists r h p', parse p = Ok ((r, h), p') /\ wf_parser p' /\ wf_header h /\
    r = (if doff h <? 5 then HeaderTooShort else _error p') /\
    (_error p' = NoError -> _error p = NoError /\
       size (_buffer p) = size (_buffer p') + (if doff h <? 5 then 20 else 4 * doff h)).
Proof.
  destruct (parse_total p Hp) as (r & h & p' & H1 & H2 & H3 & H4 & H5 & H6).
  by exists r, h, p'.
Qed.

Lemma header_parse_robust_witness :
  exists r h p', parse (NetParser_of (Buffer_of [x01; x02; x03])) = Ok ((r, h), p') /\
    wf_parser p' /\ wf_header h /\ r = (if doff h <? 5 then HeaderTooShort else _error p') /\
    (_error p' = NoError -> NoError = NoError /\
       3 = size (_buffer p') + (if doff h <? 5 then 20 else 4 * doff h)).
Proof.
  apply (header_parse_robust (NetParser_of (Buffer_of [x01; x02; x03]))).
  apply Buffer_of_wf. by_compute.
Defined.
