(* ===== verification/TCPSegment.v ===== *)
(** * TCP segments (src/libsponge/tcp_helpers/tcp_segment.hh, tcp_segment.cc)

    A header and a payload; [parse] verifies the checksum before it reads the
    header, [serialize] fills it in. *)

From S2P Require Import Prelude WrappingIntegers Buffer Parser Checksum TCPHeader.

Record TCPSegment := mkTCPSegment { header : TCPHeader; payload : Buffer }.

Definition default_segment : TCPSegment := mkTCPSegment default_header empty_buffer.

(** [TCPSegment::parse] on the segment [this]. The value that [_header.parse]
    returns is dropped: the result is the error state of the parser. *)
Definition parse_segment (buf : Buffer) (datagram_layer_checksum : Z) (this : TCPSegment)
  : result (ParseResult * TCPSegment) :=
  let check := InternetChecksum_of datagram_layer_checksum in
  let check := add (str buf) check in
  if negb (value check =? 0) then Ok (BadChecksum, this)
  else
    let p := NetParser_of buf in
    r ← parse p;
    let '((_, h), p) := r in
    Ok (get_error p, mkTCPSegment h (buffer p)).

Definition length_in_sequence_space (s : TCPSegment) : Z :=
  u64 (#(str (payload s)) + (if syn (header s) then 1 else 0) + (if fin (header s) then 1 else 0)).

Definition serialize_segment (datagram_layer_checksum : Z) (this : TCPSegment)
  : result BufferList :=
  let header_out := set_cksum 0 (header this) in
  let check := InternetChecksum_of datagram_layer_checksum in
  b ← serialize header_out;
  let check := add b check in
  let check := add (str (payload this)) check in
  let header_out := set_cksum (value check) header_out in
  let ret := [] in
  b ← serialize header_out;
  let ret := append (BufferList_of_string b) ret in
  let ret := append [payload this] ret in
  Ok ret.

(** ** Lemmas *)

(** The word sum of a header grows by its checksum field. *)
Lemma word_sum_header h c rest :
  0 <= c < 65536 ->
  word_sum false (header_bytes (set_cksum c h) ++ rest) =
  word_sum false (header_bytes (set_cksum 0 h) ++ rest) + c.
Proof.
  intros Hc. unfold header_bytes. change (header_front (set_cksum ?x h)) with (header_front h).
  change (header_options (set_cksum ?x h)) with (header_options h). cbn [cksum uptr set_cksum].
  rewrite <- !app_assoc, !(word_sum_app _ (header_front h)).
  rewrite (end_parity_even _ (header_front h)) by (by rewrite length_header_front).
  rewrite !(word_sum_app _ (be_bytes 2 _)), (word_sum_be2 c), (word_sum_be2 0) by lia.
  rewrite !end_parity_even by (by rewrite length_be_bytes).
  lia.
Qed.

Lemma concatenate_pair a b : concatenate [a; b] = str a ++ str b.
Proof. done. Qed.

Definition wf_segment (s : TCPSegment) : Prop :=
  wf_header (header s) /\ 5 <= doff (header s) < 16 /\ wf_buffer (payload s).

(** The 32-bit sum over a segment does not overflow. *)
Definition sum_fits (cksum : Z) (s : TCPSegment) : Prop :=
  0 <= cksum /\ cksum + 65280 * (4 * doff (header s) + size (payload s)) < 4294967296.

(** The checksum field of the serialized form. *)
Definition segment_cksum (cksum : Z) (s : TCPSegment) : Z :=
  value (add (header_bytes (set_cksum 0 (header s)) ++ str (payload s)) (InternetChecksum_of cksum)).

Definition segment_bytes (cksum : Z) (s : TCPSegment) : bytes :=
  header_bytes (set_cksum (segment_cksum cksum s) (header s)) ++ str (payload s).

Lemma serialize_segment_ok c s :
  5 <= doff (header s) ->
  serialize_segment c s =
    Ok [Buffer_of (header_bytes (set_cksum (segment_cksum c s) (header s))); payload s].
Proof.
  intros Hd. unfold serialize_segment. rewrite !serialize_bytes by done.
  rewrite result_bind_Ok. cbv zeta. rewrite !serialize_bytes, result_bind_Ok by done.
  rewrite <- add_app. done.
Qed.

Lemma Zlen_segment_bytes c s :
  5 <= doff (header s) -> #(segment_bytes c s) = 4 * doff (header s) + size (payload s).
Proof. intros Hd. unfold segment_bytes. by rewrite Zlen_app, length_header_bytes. Qed.

(** The serialized segment verifies. *)
Lemma segment_bytes_verify c s :
  wf_segment s -> sum_fits c s ->
  value (add (segment_bytes c s) (InternetChecksum_of c)) = 0.
Proof.
  intros (Hh & Hd & Hb) [Hc Hs].
  pose proof (word_sum_range false (segment_bytes c s)) as Hr.
  rewrite Zlen_segment_bytes in Hr by lia.
  apply (checksum_fill c (header_bytes (set_cksum 0 (header s)) ++ str (payload s)));
    [done|lia|]. apply word_sum_header, u16_range.
Qed.

Lemma wf_set_cksum c h : 0 <= c < 65536 -> wf_header h -> wf_header (set_cksum c h).
Proof. unfold wf_header; simpl. tauto. Qed.

(** One changed byte changes the word sum by less than 65535. *)
Lemma word_sum_insert p i (b : byte) d :
  d !! i <> Some b -> (i < length d)%nat ->
  exists e, word_sum p (<[i := b]> d) = word_sum p d + e /\ e <> 0 /\ -65535 < e < 65535.
Proof.
  revert p i. induction d as [|x d IH]; intros p [|i] Hi Hl; simpl in *; try lia.
  - pose proof (byte_to_Z_range b). pose proof (byte_to_Z_range x).
    assert (byte_to_Z b <> byte_to_Z x) by (intros ?%byte_to_Z_inj; congruence).
    destruct p; [exists (byte_to_Z b - byte_to_Z x)|exists ((byte_to_Z b - byte_to_Z x) * 256)]; lia.
  - destruct (IH (negb p) i) as (e & E & He); [done|lia|]. exists e. rewrite E. lia.
Qed.

Lemma Zlen_insert {A} i (x : A) l : #(<[i := x]> l) = #l.
Proof. unfold Zlen. by rewrite length_insert. Qed.

(** Parsing the serialized bytes, wherever they are stored. *)
Lemma parse_segment_bytes c s b old :
  wf_segment s -> sum_fits c s -> wf_buffer b -> str b = segment_bytes c s ->
  exists s', parse_segment b c old = Ok (NoError, s') /\
    header s' = set_cksum (segment_cksum c s) (header s) /\ str (payload s') = str (payload s).
Proof.
  intros Hs Hf Hb Hstr. pose proof (segment_bytes_verify c s Hs Hf) as Hv. destruct Hs as (Hh & Hd & _).
  destruct (parse_header_bytes (set_cksum (segment_cksum c s) (header s)) (NetParser_of b)
    (str (payload s))) as (p' & E & H1 & H2 & H3); try done.
  { apply wf_set_cksum; [apply u16_range|done]. }
  exists (mkTCPSegment (set_cksum (segment_cksum c s) (header s)) (_buffer p')).
  split; [|done]. unfold parse_segment. rewrite Hstr, Hv. simpl negb. cbn iota.
  rewrite E, result_bind_Ok. unfold get_error. by rewrite H2.
Qed.

(** The ranges of the fields that the parser gives. *)
Definition parsed (seg : TCPSegment) : Prop :=
  wf_wrapping (TCPHeader.ackno (header seg)) /\ 0 <= win (header seg) < 65536 /\ size (payload seg) < 4294967296.

Lemma parse_segment_parsed b c old r seg :
  wf_buffer b -> size b < 4294967296 -> parse_segment b c old = Ok (r, seg) -> r = NoError -> parsed seg.
Proof.
  intros Hb Hs. unfold parse_segment. case_if; [by intros [= <- <-]|].
  destruct (parse_total (NetParser_of b) Hb) as (r' & h & p' & E & H1 & H2 & H3 & H4 & H5).
  rewrite E, result_bind_Ok. intros [= <- <-] Hr. destruct (H5 Hr) as [_ Hz]. destruct H2 as (_ & _ & _ & ? & _ & ? & _).
  split_and!; [done|simpl; lia..|]. simpl in *. unfold buffer. destruct (doff h <? 5) eqn:Ed; lia.
Qed.

(** ** Properties *)

(** C30: round trip of segments. A well-formed segment always serializes; parsing the bytes of
    the result, with the same pseudo-header checksum, passes the checksum test and gives back
    the header (with the checksum filled in) and the payload. *)
Theorem segment_roundtrip c s old
  (Hs : wf_segment s) (Hf : sum_fits c s) :
  exists l s', serialize_segment c s = Ok l /\
    concatenate l = segment_bytes c s /\
    parse_segment (Buffer_of (concatenate l)) c old = Ok (NoError, s') /\
    header s' = set_cksum (segment_cksum c s) (header s) /\
    str (payload s') = str (payload s).
Proof.
  pose proof Hs as (Hh & Hd & Hb).
  assert (#(segment_bytes c s) < 18446744073709551616) as Hl.
  { rewrite Zlen_segment_bytes by lia. unfold sum_fits in Hf. lia. }
  destruct (parse_segment_bytes c s (Buffer_of (segment_bytes c s)) old) as (s' & E & H1 & H2); try done.
  eexists; exists s'. split; [apply serialize_segment_ok; lia|].
  rewrite concatenate_pair, str_Buffer_of. fold (segment_bytes c s). by split_and!.
Qed.

Definition sample_segment : TCPSegment := mkTCPSegment sample_header (Buffer_of [x68; x69; x21]).

Lemma segment_roundtrip_witness :
  exists l s', serialize_segment 6000 sample_segment = Ok l /\
    concatenate l = segment_bytes 6000 sample_segment /\
    parse_segment (Buffer_of (concatenate l)) 6000 default_segment = Ok (NoError, s') /\
    header s' = set_cksum (segment_cksum 6000 sample_segment) sample_header /\
    str (payload s') = [x68; x69; x21].
Proof. apply (segment_roundtrip 6000 sample_segment default_segment); by_compute. Defined.

(** C31: the checksum detects damage. Change any one byte of a serialized segment: [parse]
    reports [BadChecksum] and leaves the segment object as it was. *)
Theorem corruption_detected c s old i b
  (Hs : wf_segment s) (Hf : sum_fits c s)
  (Hi : (i < length (segment_bytes c s))%nat) (Hb : segment_bytes c s !! i <> Some b) :
  parse_segment (Buffer_of (<[i := b]> (segment_bytes c s))) c old = Ok (BadChecksum, old).
Proof.
  pose proof (segment_bytes_verify c s Hs Hf) as Hv. destruct Hs as (Hh & Hd & _), Hf as [Hc Hf].
  set (d := segment_bytes c s) in *.
  assert (#d = 4 * doff (header s) + size (payload s)) as Hl by (apply Zlen_segment_bytes; lia).
  pose proof (word_sum_range false d) as Hr. pose proof (word_sum_range false (<[i:=b]> d)) as Hr'.
  rewrite Zlen_insert in Hr'. clearbody d.
  rewrite add_sum, value_zero in Hv by (simpl; lia). simpl in Hv.
  destruct (word_sum_insert false i b d Hb Hi) as (e & E & He).
  unfold parse_segment. rewrite str_Buffer_of, add_sum by (simpl; lia).
  case_if; [done|]. exfalso. apply negb_false_iff, Z.eqb_eq, value_zero in Heqb0; simpl in *; [|lia].
  rewrite E in Heqb0. words_lia.
Qed.

Lemma corruption_detected_witness :
  parse_segment (Buffer_of (<[13%nat := x07]> (segment_bytes 6000 sample_segment))) 6000 default_segment
  = Ok (BadChecksum, default_segment).
Proof.
  apply (corruption_detected 6000 sample_segment default_segment 13 x07);
    [by_compute|by_compute|apply Nat.ltb_lt; reflexivity|vm_compute; discriminate].
Defined.

(** [parse] never throws: on every buffer it returns a parse result, with the object
    untouched or with a header in range and a sound payload. *)
Theorem segment_parse_robust b c old (Hb : wf_buffer b) :
  exists r s, parse_segment b c old = Ok (r, s) /\
    ((r = BadChecksum /\ s = old) \/
     (wf_header (header s) /\ doff (header s) < 16 /\ wf_buffer (payload s) /\
      (r = NoError -> size b = size (payload s) + Z.max 20 (4 * doff (header s))))).
Proof.
  unfold parse_segment. case_if; [by eauto 6|].
  destruct (parse_total (NetParser_of b) Hb) as (r & h & p' & E & H1 & H2 & H3 & H4 & H5).
  rewrite E, result_bind_Ok. do 2 eexists. split; [done|]. right. split_and!; try done.
  intros Hr. destruct (H5 Hr) as [_ Hz]. simpl in *. rewrite Hz.
  unfold buffer. f_equal. case_if; lia.
Qed.

Lemma segment_parse_robust_witness :
  exists r s, parse_segment (Buffer_of [xff; xff; x01]) 0 default_segment = Ok (r, s) /\
    ((r = BadChecksum /\ s = default_segment) \/
     (wf_header (header s) /\ doff (header s) < 16 /\ wf_buffer (payload s) /\
      (r = NoError -> 3 = size (payload s) + Z.max 20 (4 * doff (header s))))).
Proof. apply (segment_parse_robust (Buffer_of [xff; xff; x01])). by_compute. Defined.
