(* ===== verification/IPv4.v ===== *)
(** * IPv4 headers and datagrams
    (src/libsponge/tcp_helpers/ipv4_header.hh, ipv4_header.cc, ipv4_datagram.hh, ipv4_datagram.cc)

    The header parser reports every defect of a header, but its caller, the datagram
    parser, keeps only the error state of the NetParser. *)

From S2P Require Import Prelude Buffer Parser Checksum.

(** ** Header *)

Definition LENGTH : Z := 20.
Definition DEFAULT_TTL : Z := 128.
Definition PROTO_TCP : Z := 6.

Record IPv4Header := mkIPv4Header {
  ver : Z;
  hlen : Z;
  tos : Z;
  len : Z;
  id : Z;
  df : bool;
  mf : bool;
  offset : Z;
  ttl : Z;
  proto : Z;
  cksum : Z;
  src : Z;
  dst : Z
}.

Definition default_ip_header : IPv4Header :=
  mkIPv4Header 4 (LENGTH / 4) 0 0 0 true false 0 DEFAULT_TTL PROTO_TCP 0 0 0.

(** [parse] on the header [this], which is not written when the packet is too short. *)
Definition parse_ip (this : IPv4Header) : parser (ParseResult * IPv4Header) :=
  p ← get_parser;
  let original_serialized_version := buffer p in
  let data_size := size (buffer p) in
  if data_size <? LENGTH then mret (PacketTooShort, this)
  else
    first_byte ← parse_u8;
    tos ← parse_u8;
    len ← parse_u16;
    id ← parse_u16;
    fo_val ← parse_u16;
    ttl ← parse_u8;
    proto ← parse_u8;
    cksum ← parse_u16;
    src ← parse_u32;
    dst ← parse_u32;
    let ver := Z.shiftr first_byte 4 in
    let hlen := Z.land first_byte 15 in
    let h := mkIPv4Header ver hlen tos len id (flag fo_val 16384) (flag fo_val 8192)
               (Z.land fo_val 8191) ttl proto cksum src dst in
    if data_size <? 4 * hlen then mret (PacketTooShort, h)
    else if negb (ver =? 4) then mret (WrongIPVersion, h)
    else if hlen <? 5 then mret (HeaderTooShort, h)
    else if negb (data_size =? len) then mret (TruncatedPacket, h)
    else
      _ ← parser_remove_prefix (u64 (hlen * 4 - LENGTH));
      p ← get_parser;
      if error p then mret (get_error p, h)
      else
        let check := add (take (Z.to_nat (4 * hlen)) (str original_serialized_version))
                       (InternetChecksum_of 0) in
        if negb (value check =? 0) then mret (BadChecksum, h) else mret (NoError, h).

Definition first_byte_of (h : IPv4Header) : Z := u8 (Z.lor (Z.shiftl (ver h) 4) (Z.land (hlen h) 15)).
Definition fo_val_of (h : IPv4Header) : Z :=
  u16 (Z.lor (Z.lor (if df h then 16384 else 0) (if mf h then 8192 else 0)) (Z.land (offset h) 8191)).

Definition serialize_ip (h : IPv4Header) : result bytes :=
  if negb (ver h =? 4) then Throw runtime_error
  else if 4 * hlen h <? LENGTH then Throw runtime_error
  else
    let ret := [] in
    let ret := unparse_u8 ret (first_byte_of h) in
    let ret := unparse_u8 ret (tos h) in
    let ret := unparse_u16 ret (len h) in
    let ret := unparse_u16 ret (id h) in
    let ret := unparse_u16 ret (fo_val_of h) in
    let ret := unparse_u8 ret (ttl h) in
    let ret := unparse_u8 ret (proto h) in
    let ret := unparse_u16 ret (cksum h) in
    let ret := unparse_u32 ret (src h) in
    let ret := unparse_u32 ret (dst h) in
    Ok (resize (4 * hlen h) ret).

Definition payload_length (h : IPv4Header) : Z := u16 (len h - 4 * hlen h).

Definition pseudo_cksum (h : IPv4Header) : Z :=
  let pcksum := u32 (Z.shiftr (src h) 16 + Z.land (src h) 65535) in
  let pcksum := u32 (pcksum + u32 (Z.shiftr (dst h) 16 + Z.land (dst h) 65535)) in
  let pcksum := u32 (pcksum + proto h) in
  u32 (pcksum + payload_length h).

Definition set_ip_cksum (c : Z) (h : IPv4Header) : IPv4Header :=
  mkIPv4Header (ver h) (hlen h) (tos h) (len h) (id h) (df h) (mf h) (offset h) (ttl h) (proto h) c
    (src h) (dst h).

(** ** Datagram *)

Record IPv4Datagram := mkIPv4Datagram { ip_header : IPv4Header; ip_payload : BufferList }.

Definition default_datagram : IPv4Datagram := mkIPv4Datagram default_ip_header [].

(** The result of the header's [parse] is dropped. *)
Definition parse_datagram (buf : Buffer) (this : IPv4Datagram) : result (ParseResult * IPv4Datagram) :=
  let p := NetParser_of buf in
  r ← parse_ip (ip_header this) p;
  let '((_, h), p) := r in
  let d := mkIPv4Datagram h [buffer p] in
  if negb (list_size (ip_payload d) =? payload_length (ip_header d)) then Ok (PacketTooShort, d)
  else Ok (get_error p, d).

Definition serialize_datagram (d : IPv4Datagram) : result BufferList :=
  if negb (list_size (ip_payload d) =? payload_length (ip_header d)) then Throw runtime_error
  else
    let header_out := set_ip_cksum 0 (ip_header d) in
    header_zero_checksum ← serialize_ip header_out;
    let check := add header_zero_checksum (InternetChecksum_of 0) in
    let header_out := set_ip_cksum (value check) header_out in
    let ret := [] in
    b ← serialize_ip header_out;
    let ret := append (BufferList_of_string b) ret in
    Ok (append (ip_payload d) ret).

(** ** The bytes of a header *)

Record wf_ip (h : IPv4Header) : Prop := {
  wf_ver : ver h = 4;
  wf_hlen : 5 <= hlen h < 16;
  wf_tos : 0 <= tos h < 256;
  wf_len : 0 <= len h < 65536;
  wf_id : 0 <= id h < 65536;
  wf_offset : 0 <= offset h < 8192;
  wf_ttl : 0 <= ttl h < 256;
  wf_proto : 0 <= proto h < 256;
  wf_cksum : 0 <= cksum h < 65536;
  wf_src : 0 <= src h < 4294967296;
  wf_dst : 0 <= dst h < 4294967296
}.

Definition ip_front (h : IPv4Header) : bytes :=
  be_bytes 1 (first_byte_of h) ++ be_bytes 1 (tos h) ++ be_bytes 2 (len h) ++ be_bytes 2 (id h) ++
  be_bytes 2 (fo_val_of h) ++ be_bytes 1 (ttl h) ++ be_bytes 1 (proto h).
Definition ip_rest (h : IPv4Header) : bytes :=
  be_bytes 4 (src h) ++ be_bytes 4 (dst h) ++ replicate (Z.to_nat (4 * hlen h - 20)) x00.
Definition ip_bytes (h : IPv4Header) : bytes := ip_front h ++ be_bytes 2 (cksum h) ++ ip_rest h.

Lemma serialize_ip_bytes h : wf_ip h -> serialize_ip h = Ok (ip_bytes h).
Proof.
  intros []. unfold serialize_ip, LENGTH. rewrite wf_ver0. simpl negb. cbn iota. case_if; [lia|]. f_equal.
  unfold unparse_u8, unparse_u16, unparse_u32. rewrite !unparse_int_app, app_nil_l.
  unfold resize. rewrite take_ge by (rewrite !length_app, !length_be_bytes; simpl; lia).
  rewrite !length_app, !length_be_bytes. unfold ip_bytes, ip_front, ip_rest.
  rewrite <- !app_assoc. do 10 f_equal. simpl length. f_equal. lia.
Qed.

Lemma length_ip_bytes h : 5 <= hlen h -> length (ip_bytes h) = Z.to_nat (4 * hlen h).
Proof.
  intros. unfold ip_bytes, ip_front, ip_rest.
  rewrite !length_app, !length_be_bytes, length_replicate. lia.
Qed.

(** ** Packed fields *)

Lemma land_pow2_small o k : 0 <= k -> 0 <= o < 2 ^ k -> Z.land o (2 ^ k) = 0.
Proof.
  intros Hk Ho. apply Z.bits_inj'. intros n Hn. rewrite Z.land_spec, Z.bits_0, Z.pow2_bits_eqb by lia.
  destruct (Z.eqb_spec k n) as [->|]; [|apply andb_false_r].
  rewrite <- (Z.mod_small o (2 ^ n)), Z.mod_pow2_bits_high by lia. done.
Qed.

Lemma first_byte_fields h :
  ver h = 4 -> 5 <= hlen h < 16 ->
  0 <= first_byte_of h < 256 /\ Z.shiftr (first_byte_of h) 4 = 4 /\ Z.land (first_byte_of h) 15 = hlen h.
Proof.
  intros Hv Hh. split; [apply u8_range|]. unfold first_byte_of. rewrite Hv.
  assert (hlen h = 5 \/ hlen h = 6 \/ hlen h = 7 \/ hlen h = 8 \/ hlen h = 9 \/ hlen h = 10 \/
    hlen h = 11 \/ hlen h = 12 \/ hlen h = 13 \/ hlen h = 14 \/ hlen h = 15) as Hc by lia.
  repeat (destruct Hc as [->|Hc]; [done|]). rewrite Hc. done.
Qed.

Lemma fo_val_fields h :
  0 <= offset h < 8192 ->
  0 <= fo_val_of h < 65536 /\ flag (fo_val_of h) 16384 = df h /\ flag (fo_val_of h) 8192 = mf h /\
  Z.land (fo_val_of h) 8191 = offset h.
Proof.
  intros Ho. split; [apply u16_range|]. unfold fo_val_of, flag.
  assert (Z.land (offset h) 8191 = offset h) as Hl.
  { change 8191 with (Z.ones 13). rewrite Z.land_ones by lia. apply Z.mod_small. lia. }
  rewrite Hl. set (a := Z.lor (if df h then _ else _) _).
  assert (0 <= a <= 24576) as Ha by (unfold a; destruct (df h), (mf h); done).
  pose proof (Z.add_lor_land a (offset h)). pose proof (proj2 (Z.land_nonneg a (offset h)) ltac:(lia)).
  pose proof (proj2 (Z.lor_nonneg a (offset h)) ltac:(lia)). rewrite u16_id by lia.
  rewrite !Z.land_lor_distr_l, Hl.
  assert (Z.land (offset h) 16384 = 0) as -> by (apply (land_pow2_small (offset h) 14); lia).
  assert (Z.land (offset h) 8192 = 0) as -> by (apply (land_pow2_small (offset h) 13); lia).
  unfold a. destruct (df h), (mf h); done.
Qed.

(** ** Running the parsers *)

(** Parsing the bytes of a header in a packet of the announced length. *)
Lemma parse_ip_bytes this h p payload :
  wf_ip h -> wf_parser p -> _error p = NoError -> str (_buffer p) = ip_bytes h ++ payload ->
  len h = 4 * hlen h + #payload ->
  exists p', parse_ip this p =
      Ok ((if value (add (ip_bytes h) (InternetChecksum_of 0)) =? 0 then NoError else BadChecksum, h), p') /\
    wf_parser p' /\ _error p' = NoError /\ str (_buffer p') = payload.
Proof.
  intros [] Hwf He Hs Hlen.
  assert (size (_buffer p) = len h) as Hsize.
  { unfold size. rewrite Hs, Zlen_app. unfold Zlen at 1. rewrite length_ip_bytes by lia. lia. }
  pose proof (first_byte_fields h wf_ver0 wf_hlen0) as (B1 & B2 & B3).
  pose proof (fo_val_fields h wf_offset0) as (O1 & O2 & O3 & O4).
  assert (take (Z.to_nat (4 * hlen h)) (str (_buffer p)) = ip_bytes h) as Htake.
  { rewrite Hs, <- length_ip_bytes by lia. apply take_app_length. }
  unfold parse_ip. rewrite (parser_bind_Ok get_parser _ p p p) by done.
  unfold buffer. rewrite Hsize. unfold LENGTH. pose proof (Zlen_nonneg payload). case_if; [lia|]. clear Heqb Hsize.
  unfold ip_bytes at 1 in Hs. unfold ip_front, ip_rest in Hs. rewrite <- !app_assoc in Hs.
  unfold parse_u8, parse_u16, parse_u32. repeat parse_next.
  rewrite !(Z.mod_small _ (2 ^ 16)), !(Z.mod_small _ (2 ^ 32)), !(Z.mod_small _ (2 ^ 8)) by lia.
  rewrite B2, B3, O2, O3, O4, Htake. case_if; [lia|]. simpl (negb (4 =? 4)). cbn iota. case_if; [lia|]. case_if; [lia|].
  rewrite u64_id by lia.
  match goal with Hw : wf_parser ?q, Hq : _error ?q = NoError, Hr : str (_buffer ?q) = _ |- _ =>
    destruct (parser_remove_prefix_ok (hlen h * 4 - 20) q Hw Hq) as (p' & E & G1 & G2 & G3);
      [unfold size, Zlen; rewrite Hr, length_app, length_replicate; lia|]; rewrite Hr in G3
  end.
  rewrite (parser_bind_Ok _ _ _ _ _ E), (parser_bind_Ok get_parser _ p' p' p') by done.
  rewrite (proj2 (error_false p')) by done. exists p'.
  assert (mkIPv4Header 4 (hlen h) (tos h) (len h) (id h) (df h) (mf h) (offset h) (ttl h) (proto h)
            (cksum h) (src h) (dst h) = h) as -> by (rewrite <- wf_ver0; by destruct h).
  set (c := value _). clearbody c. split; [by destruct (c =? 0)|]. split_and!; try done.
  rewrite G3, drop_app_ge by (rewrite length_replicate; lia). rewrite length_replicate.
  replace (_ - _)%nat with 0%nat by lia. done.
Qed.

(** Without a bound on the input, the header parser still returns. *)
(** Every field within its width. *)
Definition ip_in_range (h : IPv4Header) : Prop :=
  0 <= ver h < 16 /\ 0 <= hlen h < 16 /\ 0 <= tos h < 256 /\ 0 <= len h < 65536 /\ 0 <= id h < 65536 /\
  0 <= offset h < 8192 /\ 0 <= ttl h < 256 /\ 0 <= proto h < 256 /\ 0 <= cksum h < 65536 /\
  0 <= src h < 4294967296 /\ 0 <= dst h < 4294967296.

(** The number of bytes the header takes from a packet of [n] bytes: none if it is too short, and
    the options only if version and lengths are right. *)
Definition ip_consumed (n : Z) (h : IPv4Header) : Z :=
  if n <? 20 then 0
  else if (4 * hlen h <=? n) && (ver h =? 4) && (5 <=? hlen h) && (n =? len h) then 4 * hlen h else 20.

Lemma land_range a k : 0 <= a -> 0 <= k -> 0 <= Z.land a (2 ^ k - 1) < 2 ^ k.
Proof.
  intros ? ?. replace (2 ^ k - 1) with (Z.ones k) by (rewrite Z.ones_equiv; lia).
  rewrite Z.land_ones by done. apply Z.mod_pos_bound. lia.
Qed.

Lemma parse_ip_total this p :
  wf_parser p -> _error p = NoError -> ip_in_range this ->
  exists r h p', parse_ip this p = Ok ((r, h), p') /\ wf_parser p' /\ _error p' = NoError /\ ip_in_range h /\
    (size (_buffer p) < 20 -> h = this) /\
    str (_buffer p') = drop (Z.to_nat (ip_consumed (size (_buffer p)) h)) (str (_buffer p)).
Proof.
  intros Hwf He Ht. unfold parse_ip. rewrite (parser_bind_Ok get_parser _ p p p) by done.
  unfold buffer, LENGTH, ip_consumed. set (s := str (_buffer p)). set (n := size (_buffer p)).
  destruct (n <? 20) eqn:En; [do 3 eexists; by split_and!|].
  assert (20 <= length s)%nat by (unfold n, size, Zlen in *; subst s; lia).
  assert (str (_buffer p) = drop 0 s) as Hs by done.
  unfold parse_u8, parse_u16, parse_u32. repeat parse_avail. simpl Z.mul in *. simpl Nat.add in *.
  set (h := mkIPv4Header _ _ _ _ _ _ _ _ _ _ _ _ _).
  assert (ip_in_range h) as Hr.
  { unfold ip_in_range, h. cbn [ver hlen tos len id offset ttl proto cksum src dst].
    pose proof (land_range v 4) as L1. pose proof (land_range v3 13) as L2.
    change (2 ^ 4 - 1) with 15 in L1. change (2 ^ 13 - 1) with 8191 in L2.
    rewrite Z.shiftr_div_pow2 by lia. change (2 ^ 4) with 16 in *. change (2 ^ 8) with 256 in *.
    pose proof (Z.div_pos v 16). pose proof (Z.div_lt_upper_bound v 16 16). lia. }
  change (Z.land v 15) with (hlen h). change (Z.shiftr v 4) with (ver h).
  replace v1 with (len h) by done. pose proof Hr as (_ & Hh & _). clearbody h.
  pose (good := (4 * hlen h <=? n) && (ver h =? 4) && (5 <=? hlen h) && (n =? len h)).
  assert (forall (r : ParseResult) q, wf_parser q -> _error q = NoError ->
    str (_buffer q) = drop (Z.to_nat (if good then 4 * hlen h else 20)) s -> exists r1 h1 p1,
      Ok ((r, h), q) = Ok ((r1, h1), p1) /\ wf_parser p1 /\ _error p1 = NoError /\
      ip_in_range h1 /\ (n < 20 -> h1 = this) /\ str (_buffer p1) =
        drop (Z.to_nat (if (4 * hlen h1 <=? n) && (ver h1 =? 4) && (5 <=? hlen h1) && (n =? len h1)
                        then 4 * hlen h1 else 20)) s) as Hend
    by (intros r q ? ? ?; do 3 eexists; split; [done|split_and!; try done; lia]).
  destruct good eqn:Eg; subst good.
  2: { repeat (case_if; [by apply Hend|]). lia. }
  rewrite (proj2 (Z.ltb_ge n (4 * hlen h))), (proj2 (Z.ltb_ge (hlen h) 5)) by lia.
  assert ((ver h =? 4) = true) as -> by lia. assert ((n =? len h) = true) as -> by lia. cbn [negb].
  rewrite u64_id by lia.
  destruct (parser_remove_prefix_ok (hlen h * 4 - 20) p9) as (q & E & G1 & G2 & G3); try done.
  { split; [lia|]. assert (n = #s) as Hn by done. unfold size, Zlen in *. rewrite H15, length_drop. lia. }
  rewrite (parser_bind_Ok _ _ _ _ _ E), (parser_bind_Ok get_parser _ q q q) by done.
  rewrite (proj2 (error_false q) G2). rewrite H15, drop_drop in G3.
  case_if; apply Hend; try done; rewrite G3; f_equal; lia.
Qed.

Lemma list_size_concatenate l :
  #(concatenate l) < 18446744073709551616 -> list_size l = #(concatenate l).
Proof.
  unfold list_size, concatenate.
  assert (forall l n (s : bytes), n = #s -> #(foldl (fun ret b => ret ++ str b) s l) < 18446744073709551616 ->
    foldl (fun ret b => u64 (ret + size b)) n l = #(foldl (fun ret b => ret ++ str b) s l)) as H.
  { clear. induction l as [|b l IH]; intros n s -> Hb; [done|]. cbn [foldl] in *. apply IH; [|done].
    assert (forall k (s : bytes), #s <= #(foldl (fun ret b => ret ++ str b) s k)) as Hm.
    { clear. induction k as [|b k IH]; intros s; [done|]. cbn [foldl]. etransitivity; [|apply IH].
      rewrite Zlen_app. pose proof (Zlen_nonneg (str b)). lia. }
    specialize (Hm l (s ++ str b)). rewrite Zlen_app in *. unfold size.
    pose proof (Zlen_nonneg s). pose proof (Zlen_nonneg (str b)). apply u64_id. lia. }
  intros Hb. by apply H.
Qed.

Definition wf_datagram (d : IPv4Datagram) : Prop :=
  wf_ip (ip_header d) /\ len (ip_header d) = 4 * hlen (ip_header d) + #(concatenate (ip_payload d)).

Lemma wf_payload_length h n : wf_ip h -> 0 <= n -> len h = 4 * hlen h + n -> payload_length h = n.
Proof. intros [] Hn E. unfold payload_length. rewrite E. rewrite u16_id; lia. Qed.

(** Parsing a packet whose header has the right shape does not depend on its checksum. *)
Lemma parse_datagram_bytes h payload this :
  wf_ip h -> len h = 4 * hlen h + #payload ->
  exists d, parse_datagram (Buffer_of (ip_bytes h ++ payload)) this = Ok (NoError, d) /\
    ip_header d = h /\ exists b, ip_payload d = [b] /\ wf_buffer b /\ str b = payload.
Proof.
  intros Hh Hl. pose proof Hh as []. pose proof (Zlen_nonneg payload).
  destruct (parse_ip_bytes (ip_header this) h (NetParser_of (Buffer_of (ip_bytes h ++ payload))) payload)
    as (p' & E & W & G1 & G2); try done.
  { apply Buffer_of_wf. rewrite Zlen_app. unfold Zlen at 1. rewrite length_ip_bytes by lia. lia. }
  unfold parse_datagram. rewrite E, result_bind_Ok. cbn [ip_payload ip_header].
  assert (concatenate [buffer p'] = payload) as Hc by (unfold buffer; simpl; by rewrite <- G2).
  rewrite list_size_concatenate, Hc by (rewrite Hc; lia). rewrite (wf_payload_length h (#payload)) by done.
  rewrite Z.eqb_refl. simpl negb. cbn iota. eexists; split; [unfold get_error; by rewrite G1|].
  split; [done|]. by exists (buffer p').
Qed.

Lemma wf_set_ip_cksum c h : 0 <= c < 65536 -> wf_ip h -> wf_ip (set_ip_cksum c h).
Proof. intros ? []. by constructor. Qed.

Lemma serialize_datagram_ok d :
  wf_datagram d ->
  let c := value (add (ip_bytes (set_ip_cksum 0 (ip_header d))) (InternetChecksum_of 0)) in
  serialize_datagram d = Ok (Buffer_of (ip_bytes (set_ip_cksum c (ip_header d))) :: ip_payload d).
Proof.
  intros [Hh Hl] c. pose proof Hh as []. pose proof (Zlen_nonneg (concatenate (ip_payload d))).
  unfold serialize_datagram.
  rewrite list_size_concatenate, (wf_payload_length _ (#(concatenate (ip_payload d)))) by (done || lia).
  rewrite Z.eqb_refl. simpl negb. cbn iota.
  rewrite serialize_ip_bytes by (by apply wf_set_ip_cksum). rewrite result_bind_Ok. fold c.
  change (set_ip_cksum c (set_ip_cksum 0 (ip_header d))) with (set_ip_cksum c (ip_header d)).
  rewrite serialize_ip_bytes by (apply wf_set_ip_cksum; [apply u16_range|done]). done.
Qed.

(** The word sum of a header grows by its checksum field. *)
Lemma word_sum_ip h c :
  0 <= c < 65536 ->
  word_sum false (ip_bytes (set_ip_cksum c h)) = word_sum false (ip_bytes (set_ip_cksum 0 h)) + c.
Proof.
  intros Hc. unfold ip_bytes. change (ip_front (set_ip_cksum ?x h)) with (ip_front h).
  change (ip_rest (set_ip_cksum ?x h)) with (ip_rest h). cbn [cksum set_ip_cksum].
  rewrite !(word_sum_app _ (ip_front h)).
  rewrite (end_parity_even _ (ip_front h)) by (unfold ip_front; rewrite !length_app, !length_be_bytes; done).
  rewrite !(word_sum_app _ (be_bytes 2 _)), (word_sum_be2 c), (word_sum_be2 0) by lia.
  rewrite !end_parity_even by (by rewrite length_be_bytes). lia.
Qed.

(** ** Properties *)

(** round trip of datagrams. A datagram whose header announces the length of its payload
    serializes; parsing the bytes gives no error and returns the header, with a checksum that
    verifies filled in, and the payload. *)
Theorem datagram_roundtrip d this (Hd : wf_datagram d) :
  exists c l d', serialize_datagram d = Ok l /\
    parse_datagram (Buffer_of (concatenate l)) this = Ok (NoError, d') /\
    ip_header d' = set_ip_cksum c (ip_header d) /\
    concatenate (ip_payload d') = concatenate (ip_payload d) /\
    value (add (ip_bytes (ip_header d')) (InternetChecksum_of 0)) = 0.
Proof.
  pose proof (serialize_datagram_ok d Hd) as E. cbn zeta in E. set (c := value _) in E.
  destruct Hd as [Hh Hl]. pose proof Hh as [].
  assert (wf_ip (set_ip_cksum c (ip_header d))) as Hc by (apply wf_set_ip_cksum; [apply u16_range|done]).
  destruct (parse_datagram_bytes _ (concatenate (ip_payload d)) this Hc Hl) as (d' & E' & H1 & b & H2 & _ & H3).
  exists c. eexists; exists d'. split; [exact E|]. rewrite concatenate_cons, str_Buffer_of.
  split; [done|]. split; [done|]. split; [by rewrite H2, concatenate_cons, H3, app_nil_r|]. rewrite H1.
  apply (checksum_fill 0 (ip_bytes (set_ip_cksum 0 (ip_header d)))); [lia| |apply word_sum_ip, u16_range].
  pose proof (word_sum_range false (ip_bytes (set_ip_cksum c (ip_header d)))) as Hr.
  unfold Zlen in Hr. rewrite length_ip_bytes in Hr by (simpl; lia). simpl hlen in Hr. lia.
Qed.

Definition sample_datagram : IPv4Datagram :=
  mkIPv4Datagram (mkIPv4Header 4 6 0 29 7 true false 5 64 6 0 3232235777 2130706433)
    [Buffer_of [x01; x02]; Buffer_of [x03; x04; x05]].

Lemma datagram_roundtrip_witness :
  exists c l d', serialize_datagram sample_datagram = Ok l /\
    parse_datagram (Buffer_of (concatenate l)) default_datagram = Ok (NoError, d') /\
    ip_header d' = set_ip_cksum c (ip_header sample_datagram) /\
    concatenate (ip_payload d') = [x01; x02; x03; x04; x05] /\
    value (add (ip_bytes (ip_header d')) (InternetChecksum_of 0)) = 0.
Proof.
  apply (datagram_roundtrip sample_datagram default_datagram). split; [constructor; by_compute|by_compute].
Defined.

(** The header checksum is not enforced. For a packet of the announced length whose header
    checksum does not verify, the header parser reports [BadChecksum], but the datagram parser
    drops that result and accepts the packet. *)
Theorem ip_checksum_not_enforced h payload this
  (Hh : wf_ip h) (Hl : len h = 4 * hlen h + #payload)
  (Hbad : value (add (ip_bytes h) (InternetChecksum_of 0)) <> 0) :
  (exists p', parse_ip (ip_header this) (NetParser_of (Buffer_of (ip_bytes h ++ payload))) =
     Ok ((BadChecksum, h), p')) /\
  exists d, parse_datagram (Buffer_of (ip_bytes h ++ payload)) this = Ok (NoError, d) /\ ip_header d = h.
Proof.
  pose proof Hh as []. pose proof (Zlen_nonneg payload). split.
  - destruct (parse_ip_bytes (ip_header this) h (NetParser_of (Buffer_of (ip_bytes h ++ payload))) payload)
      as (p' & E & _); try done.
    { apply Buffer_of_wf. rewrite Zlen_app. unfold Zlen at 1. rewrite length_ip_bytes by lia. lia. }
    exists p'. rewrite E. destruct (Z.eqb_spec (value (add (ip_bytes h) (InternetChecksum_of 0))) 0); done.
  - destruct (parse_datagram_bytes h payload this Hh Hl) as (d & E & H1 & _). by exists d.
Qed.

Lemma ip_checksum_not_enforced_witness :
  let h := mkIPv4Header 4 5 0 21 7 true false 0 64 6 4660 1 2 in
  (exists p', parse_ip default_ip_header (NetParser_of (Buffer_of (ip_bytes h ++ [xff]))) =
     Ok ((BadChecksum, h), p')) /\
  exists d, parse_datagram (Buffer_of (ip_bytes h ++ [xff])) default_datagram = Ok (NoError, d) /\ ip_header d = h.
Proof.
  apply (ip_checksum_not_enforced (mkIPv4Header 4 5 0 21 7 true false 0 64 6 4660 1 2) [xff] default_datagram);
    [constructor; by_compute|by_compute|vm_compute; discriminate].
Defined.

(** the datagram parser on arbitrary input. On every buffer it returns without throwing,
    with header fields within their widths; the payload is what is left of the buffer after the
    header, and the result is [NoError] exactly if the buffer holds the fixed header and the
    payload has the announced length, and [PacketTooShort] otherwise. *)
Theorem datagram_parse_robust b (Hb : wf_buffer b) (Hs : size b < 18446744073709551616) :
  exists d, ip_in_range (ip_header d) /\
    concatenate (ip_payload d) = drop (Z.to_nat (ip_consumed (size b) (ip_header d))) (str b) /\
    parse_datagram b default_datagram =
      Ok (if (20 <=? size b) && (#(concatenate (ip_payload d)) =? payload_length (ip_header d))
          then NoError else PacketTooShort, d).
Proof.
  unfold parse_datagram.
  destruct (parse_ip_total (ip_header default_datagram) (NetParser_of b))
    as (r & h & p' & E & H1 & H2 & H3 & H4 & H5); [done|done|by_compute|].
  cbn [_buffer NetParser_of] in *. rewrite E, result_bind_Ok.
  exists (mkIPv4Datagram h [buffer p']). cbn [ip_header ip_payload]. split; [done|].
  assert (concatenate [buffer p'] = str (_buffer p')) as Hc by done. rewrite Hc.
  split; [done|]. rewrite list_size_concatenate.
  2: { rewrite Hc, H5. unfold size, Zlen in *. rewrite length_drop. lia. }
  rewrite Hc. unfold get_error. rewrite H2.
  destruct (20 <=? size b) eqn:E20; [by destruct (_ =? _)|].
  rewrite H4 by lia. case_if; [done|]. apply negb_false_iff, Z.eqb_eq in Heqb0.
  rewrite H5, H4 in Heqb0 by lia. unfold ip_consumed in Heqb0.
  rewrite (proj2 (Z.ltb_lt _ _)) in Heqb0 by lia. simpl in Heqb0. unfold size in *.
  change (#(str b) = 65516) in Heqb0. lia.
Qed.

Lemma datagram_parse_robust_witness :
  exists d, ip_in_range (ip_header d) /\
    concatenate (ip_payload d) = drop (Z.to_nat (ip_consumed 3 (ip_header d))) [x45; x00; x00] /\
    parse_datagram (Buffer_of [x45; x00; x00]) default_datagram =
      Ok (if (20 <=? 3) && (#(concatenate (ip_payload d)) =? payload_length (ip_header d))
          then NoError else PacketTooShort, d).
Proof. apply (datagram_parse_robust (Buffer_of [x45; x00; x00])); by_compute. Defined.
