(* ===== verification/Address.v ===== *)
(** * Socket addresses (src/libsponge/util/address.hh and address.cc)

    An [Address] wraps the bytes of a [sockaddr_storage]. The resolver functions of the C library
    (getaddrinfo, getnameinfo and inet_ntoa) are an interface with their documented behaviour on
    numeric IPv4 addresses as its laws; the layout of the structures and the constants are those
    of Linux on a little-endian machine. *)

From S2P Require Import Prelude Parser.

(** ** Decimal numbers: [std::to_string] and [std::stoi] *)

Definition digit (d : Z) : byte := byte_of_Z (48 + d).

Fixpoint to_digits (fuel : nat) (n : Z) (acc : bytes) : bytes :=
  match fuel with
  | O => acc
  | S fuel =>
      let acc := digit (n mod 10) :: acc in
      if n <? 10 then acc else to_digits fuel (n / 10) acc
  end.

(** [std::to_string] of an unsigned number; twenty digits are enough for 64 bits. *)
Definition to_string (n : Z) : bytes := to_digits 20 n [].

Definition is_digit (b : byte) : bool := (48 <=? byte_to_Z b) && (byte_to_Z b <=? 57).
Definition is_space (b : byte) : bool :=
  (byte_to_Z b =? 32) || ((9 <=? byte_to_Z b) && (byte_to_Z b <=? 13)).

Fixpoint skip_space (s : bytes) : bytes :=
  match s with
  | b :: r => if is_space b then skip_space r else s
  | [] => []
  end.

(** The value of the digits at the front of a string, and what follows them. *)
Fixpoint read_digits (acc : Z) (s : bytes) : Z * bytes :=
  match s with
  | b :: r => if is_digit b then read_digits (acc * 10 + (byte_to_Z b - 48)) r else (acc, s)
  | [] => (acc, [])
  end.

Definition starts_with_digit (s : bytes) : bool :=
  match s with
  | b :: _ => is_digit b
  | [] => false
  end.

Definition stoi (s : bytes) : result Z :=
  let s := skip_space s in
  let '(sign, s) :=
    match s with
    | b :: r => if byte_to_Z b =? 45 then (-1, r) else if byte_to_Z b =? 43 then (1, r) else (1, s)
    | [] => (1, s)
    end in
  if starts_with_digit s then
    let v := sign * (read_digits 0 s).1 in
    if (-2147483648 <=? v) && (v <=? 2147483647) then Ok v else Throw out_of_range
  else Throw invalid_argument.

(** ** The resolver of the C library *)

Record addrinfo := mk_addrinfo { ai_flags : Z; ai_family : Z }.

Definition AF_INET : Z := 2.
Definition AI_NUMERICHOST : Z := 4.
Definition AI_ALL : Z := 16.
Definition AI_NUMERICSERV : Z := 1024.
Definition NI_NUMERICHOST : Z := 1.
Definition NI_NUMERICSERV : Z := 2.

(** [struct sockaddr_in] of an address and a port in host byte order. *)
Definition sockaddr_in (ip p : Z) : bytes :=
  [x02; x00] ++ be_bytes 2 p ++ be_bytes 4 ip ++ replicate 8 x00.

(** [getaddrinfo] returns an error code or the list of addresses, each with its length;
    [getnameinfo] an error code or the names of host and service. *)
Class Resolver := {
  getaddrinfo : bytes -> bytes -> addrinfo -> Z + list (bytes * Z);
  getnameinfo : bytes -> Z -> Z -> Z + (bytes * bytes);
  inet_ntoa : Z -> bytes
}.

(** What the code relies on: numeric IPv4 addresses and ports are translated without a lookup,
    in both directions. *)
Class ResolverLaws `{Resolver} := {
  numeric_forward : forall ip p, 0 <= ip < 4294967296 -> 0 <= p < 65536 -> exists more,
    getaddrinfo (inet_ntoa ip) (to_string p)
      (mk_addrinfo (Z.lor AI_NUMERICHOST AI_NUMERICSERV) AF_INET) = inr ((sockaddr_in ip p, 16) :: more);
  numeric_backward : forall ip p storage, 0 <= ip < 4294967296 -> 0 <= p < 65536 ->
    take 16 storage = sockaddr_in ip p ->
    getnameinfo storage 16 (Z.lor NI_NUMERICHOST NI_NUMERICSERV) = inr (inet_ntoa ip, to_string p);
  inet_ntoa_c_str : forall ip, Forall (fun b => b <> x00) (inet_ntoa ip)
}.

(** ** Addresses *)

Record Address := mkAddress { _size : Z; _address : bytes }.

#[global] Instance address_eq_decision : EqDecision Address.
Proof. solve_decision. Defined.

Section address.
Context `{Resolver}.

Definition sizeof_storage : Z := 128.
Definition sizeof_sockaddr_in : Z := 16.

(** The storage is zero where [memcpy] does not write. *)
Definition Address_of_sockaddr (addr : bytes) (size : Z) : result Address :=
  if size >? sizeof_storage then Throw runtime_error
  else Ok (mkAddress (u32 size)
             (take (Z.to_nat size) addr ++ drop (Z.to_nat size) (replicate (Z.to_nat sizeof_storage) x00))).

(** [std::string::c_str] as the C library reads it. *)
Fixpoint c_str (s : bytes) : bytes :=
  match s with
  | b :: r => if bool_decide (b = x00) then [] else b :: c_str r
  | [] => []
  end.

Definition Address_resolve (node service : bytes) (hints : addrinfo) : result Address :=
  match getaddrinfo (c_str node) (c_str service) hints with
  | inl _ => Throw system_error
  | inr [] => Throw runtime_error
  | inr ((ai_addr, ai_addrlen) :: _) => Address_of_sockaddr ai_addr ai_addrlen
  end.

Definition make_hints (flags family : Z) : addrinfo := mk_addrinfo flags family.

Definition Address_of_host (hostname service : bytes) : result Address :=
  Address_resolve hostname service (make_hints AI_ALL AF_INET).

Definition Address_of_ip (ip : bytes) (p : Z) : result Address :=
  Address_resolve ip (to_string p) (make_hints (Z.lor AI_NUMERICHOST AI_NUMERICSERV) AF_INET).

Definition ip_port (a : Address) : result (bytes * Z) :=
  match getnameinfo (_address a) (_size a) (Z.lor NI_NUMERICHOST NI_NUMERICSERV) with
  | inl _ => Throw system_error
  | inr (ip, p) => v ← stoi p; Ok (ip, u16 v)
  end.

Definition ip (a : Address) : result bytes := r ← ip_port a; Ok r.1.
Definition port (a : Address) : result Z := r ← ip_port a; Ok r.2.

Definition address_to_string (a : Address) : result bytes :=
  r ← ip_port a; Ok (r.1 ++ [x3a] ++ to_string r.2).

(** [ss_family], two bytes in host order. *)
Definition ss_family (storage : bytes) : Z :=
  match storage with
  | b0 :: b1 :: _ => byte_to_Z b0 + 256 * byte_to_Z b1
  | _ => 0
  end.

(** [be32toh] of [sin_addr.s_addr] is the big-endian value of its bytes. *)
Definition ipv4_numeric (a : Address) : result Z :=
  if negb (ss_family (_address a) =? AF_INET) || negb (_size a =? sizeof_sockaddr_in)
  then Throw runtime_error
  else
    let ipv4_addr := take (Z.to_nat (_size a)) (_address a) in
    Ok (be_value (take 4 (drop 4 ipv4_addr))).

Definition from_ipv4_numeric (ip_address : Z) : result Address :=
  Address_of_sockaddr (sockaddr_in ip_address 0) sizeof_sockaddr_in.

(** [memcmp] of the first [_size] bytes. *)
Definition address_eqb (a other : Address) : bool :=
  if negb (_size a =? _size other) then false
  else bool_decide (take (Z.to_nat (_size a)) (_address a) = take (Z.to_nat (_size a)) (_address other)).

Definition address_neqb (a other : Address) : bool := negb (address_eqb a other).
End address.

(** ** Lemmas on decimal numbers *)

Lemma byte_digit d : 0 <= d < 10 -> byte_to_Z (digit d) = 48 + d.
Proof. intros. unfold digit. rewrite byte_to_of_Z, u8_id; lia. Qed.

Lemma is_digit_digit d : 0 <= d < 10 -> is_digit (digit d) = true.
Proof. intros. unfold is_digit. rewrite byte_digit by done. lia. Qed.

Lemma read_to_digits fuel n acc :
  0 <= n < 10 ^ Z.of_nat fuel -> read_digits 0 (to_digits fuel n acc) = read_digits n acc.
Proof.
  revert n acc. induction fuel as [|fuel IH]; intros n acc Hn.
  { simpl in *. f_equal. lia. }
  cbn [to_digits]. rewrite Nat2Z.inj_succ, Z.pow_succ_r in Hn by lia.
  pose proof (Z.mod_pos_bound n 10). pose proof (Z.div_mod n 10). case_if.
  - cbn [read_digits]. rewrite is_digit_digit, byte_digit by lia. rewrite Z.mod_small by lia. f_equal. lia.
  - rewrite IH by (split; [apply Z.div_pos; lia|apply Z.div_lt_upper_bound; lia]).
    cbn [read_digits]. rewrite is_digit_digit, byte_digit by lia. f_equal. lia.
Qed.

Lemma to_digits_app fuel n acc rest : to_digits fuel n acc ++ rest = to_digits fuel n (acc ++ rest).
Proof. revert n acc. induction fuel as [|fuel IH]; intros n acc; simpl; [done|]. case_if; [done|apply IH]. Qed.

Lemma to_digits_Forall (P : byte -> Prop) fuel n acc :
  (forall d, 0 <= d < 10 -> P (digit d)) -> Forall P acc -> Forall P (to_digits fuel n acc).
Proof.
  intros Hd. revert n acc. induction fuel as [|fuel IH]; intros n acc Ha; simpl; [done|].
  assert (P (digit (n mod 10))) by (apply Hd, Z.mod_pos_bound; lia).
  case_if; [|apply IH]; by constructor.
Qed.

(** Reading back a number, up to the first byte that is not a digit. *)
Lemma read_to_string n rest :
  0 <= n < 65536 -> starts_with_digit rest = false -> read_digits 0 (to_string n ++ rest) = (n, rest).
Proof.
  intros Hn Hr. unfold to_string. rewrite to_digits_app, read_to_digits by (simpl; lia).
  destruct rest as [|b r]; [done|]. simpl in *. by rewrite Hr.
Qed.

Lemma to_string_digits n : Forall (fun b => is_digit b = true) (to_string n).
Proof. apply to_digits_Forall; [apply is_digit_digit|done]. Qed.

Lemma to_string_nonempty n : exists b r, to_string n = b :: r.
Proof.
  assert (forall fuel n b acc, exists c r, to_digits fuel n (b :: acc) = c :: r) as He.
  { clear. induction fuel as [|fuel IH]; intros n b acc; simpl; [by do 2 eexists|].
    case_if; [by do 2 eexists|apply IH]. }
  change (to_string n) with (if n <? 10 then [digit (n mod 10)] else to_digits 19 (n / 10) [digit (n mod 10)]).
  case_if; [by do 2 eexists|apply He].
Qed.

Lemma stoi_to_string n : 0 <= n < 65536 -> stoi (to_string n) = Ok n.
Proof.
  intros Hn. pose proof (to_string_digits n) as Hd. pose proof (read_to_string n [] Hn eq_refl) as Hr.
  rewrite app_nil_r in Hr. destruct (to_string_nonempty n) as (b & r & E). rewrite E in *.
  apply Forall_inv in Hd as Hb. pose proof Hb as Hb'. unfold is_digit in Hb'.
  unfold stoi. cbn [skip_space]. unfold is_space.
  destruct (byte_to_Z b =? 32) eqn:?; [lia|]. cbn [orb]. case_if; [lia|].
  case_if; [lia|]. case_if; [lia|]. cbn [starts_with_digit]. rewrite Hb, Hr. cbn [fst]. case_if; [f_equal; lia|lia].
Qed.

Lemma c_str_id s : Forall (fun b => b <> x00) s -> c_str s = s.
Proof.
  induction 1 as [|b s Hb _ IH]; [done|]. cbn [c_str]. rewrite bool_decide_eq_false_2 by done. by rewrite IH.
Qed.

Lemma digit_not_zero b : is_digit b = true -> b <> x00.
Proof. by intros Hb ->. Qed.

Lemma c_str_to_string n : c_str (to_string n) = to_string n.
Proof. apply c_str_id. exact (Forall_impl _ digit_not_zero (to_string_digits n)). Qed.

(** ** IPv4 addresses *)

(** The address of an IPv4 host and port. *)
Definition inet_address (i p : Z) : Address := mkAddress 16 (sockaddr_in i p ++ replicate 112 x00).

Lemma length_sockaddr_in i p : length (sockaddr_in i p) = 16%nat.
Proof. unfold sockaddr_in. by rewrite !length_app, !length_be_bytes, length_replicate. Qed.

Lemma take_sockaddr_in i p rest : take 16 (sockaddr_in i p ++ rest) = sockaddr_in i p.
Proof. rewrite <- (length_sockaddr_in i p). apply take_app_length. Qed.

Lemma Address_of_sockaddr_in i p : Address_of_sockaddr (sockaddr_in i p) 16 = Ok (inet_address i p).
Proof.
  unfold Address_of_sockaddr. change (16 >? sizeof_storage) with false.
  rewrite <- (app_nil_r (sockaddr_in i p)) at 1. change (Z.to_nat 16) with 16%nat.
  by rewrite take_sockaddr_in.
Qed.

Lemma ipv4_numeric_inet i p : 0 <= i < 4294967296 -> ipv4_numeric (inet_address i p) = Ok i.
Proof.
  intros Hi. unfold ipv4_numeric. cbn [_size _address inet_address]. change (Z.to_nat 16) with 16%nat.
  rewrite take_sockaddr_in. change (ss_family (sockaddr_in i p ++ replicate 112 x00)) with 2.
  change (negb (2 =? AF_INET) || negb (16 =? sizeof_sockaddr_in)) with false. cbv iota.
  change (take 4 (drop 4 (sockaddr_in i p))) with (be_bytes 4 i). rewrite be_value_bytes.
  change (2 ^ (8 * Z.of_nat 4)) with 4294967296. by rewrite Z.mod_small.
Qed.

Lemma be_bytes_inj n x y :
  0 <= x < 2 ^ (8 * Z.of_nat n) -> 0 <= y < 2 ^ (8 * Z.of_nat n) -> be_bytes n x = be_bytes n y -> x = y.
Proof.
  intros Hx Hy E. apply (f_equal be_value) in E. rewrite !be_value_bytes, !Z.mod_small in E by done. done.
Qed.

Lemma inet_address_inj i p j q :
  0 <= i < 4294967296 -> 0 <= j < 4294967296 -> 0 <= p < 65536 -> 0 <= q < 65536 ->
  sockaddr_in i p = sockaddr_in j q -> i = j /\ p = q.
Proof.
  intros ???? E. split; [apply (f_equal (drop 4)) in E; apply (f_equal (take 4)) in E
                        |apply (f_equal (drop 2)) in E; apply (f_equal (take 2)) in E].
  - by apply (be_bytes_inj 4) in E.
  - by apply (be_bytes_inj 2) in E.
Qed.

Lemma address_eqb_inet i p j q :
  0 <= i < 4294967296 -> 0 <= j < 4294967296 -> 0 <= p < 65536 -> 0 <= q < 65536 ->
  address_eqb (inet_address i p) (inet_address j q) = (i =? j) && (p =? q).
Proof.
  intros. unfold address_eqb. cbn [_size _address inet_address]. rewrite Z.eqb_refl. cbn [negb].
  change (Z.to_nat 16) with 16%nat. rewrite !take_sockaddr_in.
  destruct ((i =? j) && (p =? q)) eqn:E; case_bool_decide as Hs; try done.
  - destruct Hs. f_equal; lia.
  - apply inet_address_inj in Hs; lia.
Qed.

Section laws.
Context `{ResolverLaws}.

Lemma Address_of_ip_inet i p :
  0 <= i < 4294967296 -> 0 <= p < 65536 -> Address_of_ip (inet_ntoa i) p = Ok (inet_address i p).
Proof.
  intros Hi Hp. unfold Address_of_ip, Address_resolve, make_hints.
  rewrite c_str_to_string, c_str_id by apply inet_ntoa_c_str.
  destruct (numeric_forward i p Hi Hp) as [more ->]. apply Address_of_sockaddr_in.
Qed.

Lemma ip_port_inet i p :
  0 <= i < 4294967296 -> 0 <= p < 65536 -> ip_port (inet_address i p) = Ok (inet_ntoa i, p).
Proof.
  intros Hi Hp. unfold ip_port. cbn [_size _address inet_address].
  rewrite (numeric_backward i p) by first [done|apply take_sockaddr_in].
  rewrite stoi_to_string, result_bind_Ok, u16_id by done. done.
Qed.

Lemma port_inet i p : 0 <= i < 4294967296 -> 0 <= p < 65536 -> port (inet_address i p) = Ok p.
Proof. intros. unfold port. by rewrite ip_port_inet. Qed.
End laws.

(** ** A resolver for numeric addresses *)

Definition dotted_quad (i : Z) : bytes :=
  to_string (i / 16777216 mod 256) ++ [x2e] ++ to_string (i / 65536 mod 256) ++ [x2e] ++
  to_string (i / 256 mod 256) ++ [x2e] ++ to_string (i mod 256).

Definition read_dot (s : bytes) : option bytes :=
  match s with
  | b :: r => if bool_decide (b = x2e) then Some r else None
  | [] => None
  end.

Definition read_quad (s : bytes) : option Z :=
  let '(a, s) := read_digits 0 s in
  s ← read_dot s;
  let '(b, s) := read_digits 0 s in
  s ← read_dot s;
  let '(c, s) := read_digits 0 s in
  s ← read_dot s;
  let '(d, s) := read_digits 0 s in
  if bool_decide (s = []) then Some (((a * 256 + b) * 256 + c) * 256 + d) else None.

Lemma read_dotted_quad i : 0 <= i < 4294967296 -> read_quad (dotted_quad i) = Some i.
Proof.
  intros Hi. unfold read_quad, dotted_quad.
  do 3 (rewrite read_to_string by first [words_lia|done]; cbn [app read_dot];
        rewrite bool_decide_eq_true_2 by done; cbn [mbind option_bind]).
  rewrite <- (app_nil_r (to_string (i mod 256))), read_to_string by first [words_lia|done].
  rewrite bool_decide_eq_true_2 by done. f_equal. words_lia.
Qed.

(** The number 0 is an address too. *)
Definition read_host (s : bytes) : option Z := if bool_decide (s = [x30]) then Some 0 else read_quad s.

Lemma read_host_quad i : 0 <= i < 4294967296 -> read_host (dotted_quad i) = Some i.
Proof.
  intros Hi. pose proof (read_dotted_quad i Hi) as HR. unfold read_host. case_bool_decide as E; [|done].
  by rewrite E in HR.
Qed.

Definition numeric_resolver : Resolver := {|
  getaddrinfo node service _ :=
    match read_host node, stoi service with
    | Some i, Ok p => inr [(sockaddr_in i p, 16)]
    | _, _ => inl (-2)
    end;
  getnameinfo storage _ _ :=
    inr (dotted_quad (be_value (take 4 (drop 4 (take 16 storage)))),
         to_string (be_value (take 2 (drop 2 (take 16 storage)))));
  inet_ntoa := dotted_quad
|}.

Lemma numeric_resolver_laws : @ResolverLaws numeric_resolver.
Proof.
  constructor; unfold getaddrinfo, getnameinfo, inet_ntoa, numeric_resolver.
  - intros i p Hi Hp. rewrite read_host_quad, stoi_to_string by done. by eexists.
  - intros i p storage Hi Hp ->.
    change (take 4 (drop 4 (sockaddr_in i p))) with (be_bytes 4 i).
    change (take 2 (drop 2 (sockaddr_in i p))) with (be_bytes 2 p).
    rewrite !be_value_bytes, !Z.mod_small by done. done.
  - intros i. pose proof (fun n => Forall_impl _ digit_not_zero (to_string_digits n)) as Hd.
    unfold dotted_quad. repeat apply Forall_app_2; repeat constructor; done || apply Hd.
Qed.

(** ** Properties *)

(** IPv4 addresses. The address built from the dotted quad of a host and a port gives back
    both, as numbers and as text, and does not throw; two such addresses are equal exactly if host
    and port are; and the address of a host alone has port 0. *)
Theorem address_roundtrip {R : Resolver} {L : ResolverLaws} i p j q
  (Hi : 0 <= i < 4294967296) (Hp : 0 <= p < 65536) (Hj : 0 <= j < 4294967296) (Hq : 0 <= q < 65536) :
  exists a b, Address_of_ip (inet_ntoa i) p = Ok a /\ Address_of_ip (inet_ntoa j) q = Ok b /\
    ipv4_numeric a = Ok i /\ port a = Ok p /\ ip a = Ok (inet_ntoa i) /\
    address_to_string a = Ok (inet_ntoa i ++ [x3a] ++ to_string p) /\
    address_eqb a b = (i =? j) && (p =? q) /\ (p = 0 -> from_ipv4_numeric i = Ok a).
Proof.
  exists (inet_address i p), (inet_address j q). unfold ip, address_to_string.
  rewrite !Address_of_ip_inet, ipv4_numeric_inet, port_inet, ip_port_inet, address_eqb_inet by done.
  split_and!; try done. intros ->. unfold from_ipv4_numeric, sizeof_sockaddr_in. apply Address_of_sockaddr_in.
Qed.

Lemma address_roundtrip_witness :
  let R := numeric_resolver in
  exists a b, Address_of_ip (inet_ntoa 3232235777) 1024 = Ok a /\ Address_of_ip (inet_ntoa 16909060) 80 = Ok b /\
    ipv4_numeric a = Ok 3232235777 /\ port a = Ok 1024 /\ ip a = Ok (inet_ntoa 3232235777) /\
    address_to_string a = Ok (inet_ntoa 3232235777 ++ [x3a] ++ to_string 1024) /\
    address_eqb a b = (3232235777 =? 16909060) && (1024 =? 80) /\
    (1024 = 0 -> from_ipv4_numeric 3232235777 = Ok a).
Proof. apply (@address_roundtrip numeric_resolver numeric_resolver_laws 3232235777 1024 16909060 80); lia. Defined.
