(* ===== verification/Adapter.v ===== *)
(** * Adapters between segments and datagrams
    (src/libsponge/tcp_helpers/fd_adapter.hh, fd_adapter.cc, tcp_over_ip.hh, tcp_over_ip.cc,
    tuntap_adapter.hh, and FdAdapterConfig of tcp_config.hh)

    The sockets and the TUN device are outside the model: reading takes the datagram that
    arrived as an argument, and writing returns the buffers of the datagram to send. *)

From S2P Require Import Prelude WrappingIntegers Buffer Parser Checksum TCPHeader TCPSegment IPv4 Address.

(** ** Adapter state *)

(** FdAdapterConfig. *)
Record FdAdapterConfig := mkFdAdapterConfig {
  source : Address;
  destination : Address;
  loss_rate_dn : Z;
  loss_rate_up : Z
}.

(** FdAdapterBase. *)
Record FdAdapterBase := mkFdAdapterBase { _cfg : FdAdapterConfig; _listen : bool }.

Definition set_listening (l : bool) (b : FdAdapterBase) : FdAdapterBase := mkFdAdapterBase (_cfg b) l.
Definition listening (b : FdAdapterBase) : bool := _listen b.
Definition config (b : FdAdapterBase) : FdAdapterConfig := _cfg b.

(** Assigning through the reference [config_mut()]. *)
Definition config_mut (c : FdAdapterConfig) (b : FdAdapterBase) : FdAdapterBase := mkFdAdapterBase c (_listen b).

Definition base_tick (ms_since_last_tick : Z) (b : FdAdapterBase) : FdAdapterBase := b.

(** Assignments to [config_mutable().source] and [config_mutable().destination]. *)
Definition set_source (a : Address) (b : FdAdapterBase) : FdAdapterBase :=
  mkFdAdapterBase (mkFdAdapterConfig a (destination (_cfg b)) (loss_rate_dn (_cfg b)) (loss_rate_up (_cfg b)))
    (_listen b).
Definition set_destination (a : Address) (b : FdAdapterBase) : FdAdapterBase :=
  mkFdAdapterBase (mkFdAdapterConfig (source (_cfg b)) a (loss_rate_dn (_cfg b)) (loss_rate_up (_cfg b)))
    (_listen b).

Section base.
Context {R : Resolver}.

(** The initial configuration and state. *)
Definition default_fd_config : result FdAdapterConfig :=
  s ← Address_of_ip [x30] 0;
  d ← Address_of_ip [x30] 0;
  Ok (mkFdAdapterConfig s d 0 0).

Definition default_adapter : result FdAdapterBase := c ← default_fd_config; Ok (mkFdAdapterBase c false).

(** Assigning the ports of a segment. *)
Definition with_ports (s d : Z) (seg : TCPSegment) : TCPSegment :=
  mkTCPSegment (set_ports s d (header seg)) (payload seg).

(** ** TCP over IPv4 *)

(** [not listening() and x != a.ipv4_numeric()], which asks for the number only if needed. *)
Definition other_host (b : FdAdapterBase) (x : Z) (a : Address) : result bool :=
  if listening b then Ok false else n ← ipv4_numeric a; Ok (negb (x =? n)).

Definition unwrap_tcp_in_ip (ip_dgram : IPv4Datagram) (b : FdAdapterBase)
  : result (option TCPSegment * FdAdapterBase) :=
  not_for_us ← other_host b (dst (ip_header ip_dgram)) (source (config b));
  if (not_for_us : bool) then Ok (None, b) else
  not_from_peer ← other_host b (src (ip_header ip_dgram)) (destination (config b));
  if (not_from_peer : bool) then Ok (None, b) else
  if negb (proto (ip_header ip_dgram) =? PROTO_TCP) then Ok (None, b) else
  buf ← to_Buffer (ip_payload ip_dgram);
  r ← parse_segment buf (pseudo_cksum (ip_header ip_dgram)) default_segment;
  let '(res, tcp_seg) := r in
  if negb (bool_decide (res = NoError)) then Ok (None, b) else
  our_port ← port (source (config b));
  if negb (dport (header tcp_seg) =? our_port) then Ok (None, b) else
  let check_port b :=
    peer_port ← port (destination (config b));
    if negb (sport (header tcp_seg) =? peer_port) then Ok (None, b) else Ok (Some tcp_seg, b) in
  if listening b then
    if syn (header tcp_seg) && negb (rst (header tcp_seg)) then
      our_port ← port (source (config b));
      s ← Address_of_ip (inet_ntoa (dst (ip_header ip_dgram))) our_port;
      let b := set_source s b in
      d ← Address_of_ip (inet_ntoa (src (ip_header ip_dgram))) (sport (header tcp_seg));
      let b := set_destination d b in
      check_port (set_listening false b)
    else Ok (None, b)
  else check_port b.

(** [wrap_tcp_in_ip] also writes the ports of its argument. *)
Definition wrap_tcp_in_ip (seg : TCPSegment) (b : FdAdapterBase) : result (IPv4Datagram * TCPSegment) :=
  s ← port (source (config b));
  d ← port (destination (config b));
  let seg := with_ports s d seg in
  s ← ipv4_numeric (source (config b));
  d ← ipv4_numeric (destination (config b));
  let h := default_ip_header in
  let h := mkIPv4Header (ver h) (hlen h) (tos h)
             (u16 (hlen h * 4 + doff (header seg) * 4 + size (payload seg))) (id h) (df h) (mf h)
             (offset h) (ttl h) (proto h) (IPv4.cksum h) s d in
  l ← serialize_segment (pseudo_cksum h) seg;
  Ok (mkIPv4Datagram h l, seg).

(** ** TCP over IPv4 over a TUN device *)

Definition tun_read (packet : bytes) (b : FdAdapterBase) : result (option TCPSegment * FdAdapterBase) :=
  r ← parse_datagram (Buffer_of packet) default_datagram;
  let '(res, ip_dgram) := r in
  if negb (bool_decide (res = NoError)) then Ok (None, b) else unwrap_tcp_in_ip ip_dgram b.

Definition tun_write (seg : TCPSegment) (b : FdAdapterBase) : result (BufferList * TCPSegment) :=
  r ← wrap_tcp_in_ip seg b;
  let '(d, seg) := r in
  l ← serialize_datagram d;
  Ok (l, seg).

(** ** TCP over UDP *)

(** [received_datagram]: the address a UDP datagram came from and its payload. *)
Definition udp_read (source_address : Address) (datagram : bytes) (b : FdAdapterBase)
  : result (option TCPSegment * FdAdapterBase) :=
  if negb (listening b) && address_neqb source_address (destination (config b)) then Ok (None, b)
  else
    r ← parse_segment (Buffer_of datagram) 0 default_segment;
    let '(res, seg) := r in
    if negb (bool_decide (res = NoError)) then Ok (None, b)
    else if listening b then
      if syn (header seg) && negb (rst (header seg)) then
        Ok (Some seg, set_listening false (set_destination source_address b))
      else Ok (None, b)
    else Ok (Some seg, b).

(** The address and the payload of the UDP datagram that is sent. *)
Definition udp_write (seg : TCPSegment) (b : FdAdapterBase) : result (Address * BufferList * TCPSegment) :=
  s ← port (source (config b));
  d ← port (destination (config b));
  let seg := with_ports s d seg in
  l ← serialize_segment 0 seg;
  Ok (destination (config b), l, seg).
End base.

(** ** Lemmas *)

Lemma wf_set_ports s d seg :
  0 <= s < 65536 -> 0 <= d < 65536 -> wf_segment seg -> wf_segment (with_ports s d seg).
Proof. intros ?? ((_ & _ & ?) & ? & ?). by split. Qed.

(** What arrives is the segment that was sent, with ports and checksum filled in. *)
Definition same_segment (s d : Z) (seg seg' : TCPSegment) : Prop :=
  str (payload seg') = str (payload seg) /\
  exists c, header seg' = set_cksum c (set_ports s d (header seg)).

(** ** Adapters of the two ends of a connection *)

Section adapters.
Context {R : Resolver} {L : ResolverLaws}.
Implicit Types b : FdAdapterBase.

(** A segment whose datagram has a 16-bit length. *)
Definition fits_ip (seg : TCPSegment) : Prop := 20 + 4 * doff (header seg) + size (payload seg) < 65536.

(** A host and a port. *)
Definition valid_host (h : Z * Z) : Prop := 0 <= h.1 < 4294967296 /\ 0 <= h.2 < 65536.

(** Adapter [b] sends from [h] to [h']. *)
Definition sends b (h h' : Z * Z) : Prop :=
  valid_host h /\ valid_host h' /\
  source (config b) = inet_address h.1 h.2 /\ destination (config b) = inet_address h'.1 h'.2.

(** The numbers of the addresses that adapter [b] uses. *)
Definition numbers b (h h' : Z * Z) : Prop :=
  valid_host h /\ valid_host h' /\
  port (source (config b)) = Ok h.2 /\ port (destination (config b)) = Ok h'.2 /\
  ipv4_numeric (source (config b)) = Ok h.1 /\ ipv4_numeric (destination (config b)) = Ok h'.1.

Lemma sends_numbers b h h' : sends b h h' -> numbers b h h'.
Proof.
  intros ([H1 H2] & [H3 H4] & E1 & E2). unfold numbers. rewrite E1, E2, !port_inet, !ipv4_numeric_inet by done. done.
Qed.

(** The adapters [b] and [b'] are the two ends of one connection. *)
Definition peers b b' : Prop := listening b' = false /\ exists h h', sends b h h' /\ sends b' h' h.

(** The header of the datagram that carries a segment. *)
Definition carrier (seg : TCPSegment) (s d : Z) : IPv4Header :=
  mkIPv4Header 4 5 0 (20 + 4 * doff (header seg) + size (payload seg)) 0 true false 0 128 6 0 s d.

Lemma carrier_wf seg s d :
  wf_segment seg -> fits_ip seg -> 0 <= s < 4294967296 -> 0 <= d < 4294967296 -> wf_ip (carrier seg s d).
Proof.
  intros (_ & ? & _) Hf ? ?. pose proof (Zlen_nonneg (str (payload seg))). unfold fits_ip in *.
  fold (size (payload seg)) in *. constructor; simpl; lia.
Qed.

Lemma pseudo_cksum_range h : wf_ip h -> 0 <= pseudo_cksum h <= 393210.
Proof.
  intros []. unfold pseudo_cksum.
  pose proof (u16_range (len h - 4 * hlen h)) as Hp. fold (payload_length h) in Hp.
  assert (forall x, 0 <= x < 4294967296 -> 0 <= Z.shiftr x 16 + Z.land x 65535 <= 131070) as Hx.
  { intros x Hr. rewrite carry_step by lia. words_lia. }
  pose proof (Hx _ wf_src) as H1. pose proof (Hx _ wf_dst) as H2. unwrap_words. lia.
Qed.

Lemma wrap_tcp_in_ip_ok seg b h h' :
  wf_segment seg -> fits_ip seg -> numbers b h h' ->
  let seg1 := with_ports h.2 h'.2 seg in
  let c := carrier seg h.1 h'.1 in
  exists l, wrap_tcp_in_ip seg b = Ok (mkIPv4Datagram c l, seg1) /\
    concatenate l = segment_bytes (pseudo_cksum c) seg1 /\ wf_datagram (mkIPv4Datagram c l).
Proof.
  intros Hs Hf ([H1 H2] & [H3 H4] & E1 & E2 & E3 & E4) seg1 c. pose proof Hs as (_ & Hd & _).
  pose proof (Zlen_nonneg (str (payload seg))).
  assert (doff (header seg1) = doff (header seg)) as Hd1 by done.
  unfold fits_ip, size in Hf. unfold wrap_tcp_in_ip.
  rewrite E1, E2, E3, E4, !result_bind_Ok. fold seg1.
  assert (u16 (hlen default_ip_header * 4 + doff (header seg1) * 4 + size (payload seg1)) =
    20 + 4 * doff (header seg) + size (payload seg)) as ->.
  { rewrite Hd1. change (size (payload seg1)) with (size (payload seg)).
    change (hlen default_ip_header) with 5. unfold size. rewrite u16_id; lia. }
  change (mkIPv4Header _ _ _ _ _ _ _ _ _ _ _ _ _) with c.
  rewrite serialize_segment_ok by lia. rewrite result_bind_Ok. eexists; split; [done|].
  rewrite concatenate_pair, str_Buffer_of. fold (segment_bytes (pseudo_cksum c) seg1).
  split; [done|]. split; [by apply carrier_wf|]. cbn [ip_header ip_payload].
  rewrite concatenate_pair, str_Buffer_of. fold (segment_bytes (pseudo_cksum c) seg1).
  rewrite Zlen_segment_bytes by lia. rewrite Hd1. simpl. lia.
Qed.

(** A packet is only sent with addresses that have numbers. *)
Lemma port_range a p : port a = Ok p -> 0 <= p < 65536.
Proof.
  unfold port, ip_port. destruct (getnameinfo _ _ _) as [|[]]; [done|].
  intros ([ip v] & (x & _ & [= <- <-])%result_bind_inv & [= <-])%result_bind_inv. apply u16_range.
Qed.

Lemma ipv4_numeric_range a n : ipv4_numeric a = Ok n -> 0 <= n < 4294967296.
Proof.
  unfold ipv4_numeric. case_if; [done|]. intros [= <-].
  match goal with |- 0 <= be_value ?l < _ => pose proof (be_value_range l) as Hr; assert (length l <= 4)%nat as Hl
    by (rewrite length_take; lia) end.
  split; [apply Hr|]. eapply Z.lt_le_trans; [apply Hr|]. change 4294967296 with (2 ^ (8 * 4)).
  apply Z.pow_le_mono_r; unfold Zlen; lia.
Qed.

Lemma tun_write_numbers seg b r : tun_write seg b = Ok r -> exists h h', numbers b h h'.
Proof.
  unfold tun_write, wrap_tcp_in_ip. intros (x & (s & E1 & Hf)%result_bind_inv & _)%result_bind_inv.
  apply result_bind_inv in Hf as (d & E2 & Hf). apply result_bind_inv in Hf as (n & E3 & Hf).
  apply result_bind_inv in Hf as (n' & E4 & _). exists (n, s), (n', d).
  split_and!; try done; split; cbn [fst snd]; by eapply ipv4_numeric_range || by eapply port_range.
Qed.

(** A segment that is read was in the packet. *)
Lemma tun_read_segment d b seg b' :
  tun_read d b = Ok (Some seg, b') ->
  exists dg buf, parse_datagram (Buffer_of d) default_datagram = Ok (NoError, dg) /\
    to_Buffer (ip_payload dg) = Ok buf /\
    parse_segment buf (pseudo_cksum (ip_header dg)) default_segment = Ok (NoError, seg).
Proof.
  unfold tun_read, unwrap_tcp_in_ip. intros ([res dg] & E1 & Hf)%result_bind_inv.
  case_if_in Hf; [done|]. apply negb_false_iff, bool_decide_eq_true in Heqb0 as ->.
  apply result_bind_inv in Hf as (x & _ & Hf). case_if_in Hf; [done|]. apply result_bind_inv in Hf as (y & _ & Hf).
  case_if_in Hf; [done|]. case_if_in Hf; [done|]. apply result_bind_inv in Hf as (buf & E2 & Hf).
  apply result_bind_inv in Hf as ([res s] & E3 & Hf).
  destruct (negb (bool_decide (res = NoError))) eqn:Er; [done|]. apply negb_false_iff, bool_decide_eq_true in Er as ->.
  exists dg, buf. split_and!; [done..|].
  repeat first [ done | case_if_in Hf | apply result_bind_inv in Hf as (? & _ & Hf) ]; by injection Hf as <- <-.
Qed.

(** The packet that [tun_write] makes of a segment, as the datagram parser sees it. *)
Lemma tun_write_packet seg b h h' :
  wf_segment seg -> fits_ip seg -> numbers b h h' ->
  let c := carrier seg h.1 h'.1 in
  exists packet k buf, tun_write seg b = Ok (packet, with_ports h.2 h'.2 seg) /\
    parse_datagram (Buffer_of (concatenate packet)) default_datagram =
      Ok (NoError, mkIPv4Datagram (set_ip_cksum k c) [buf]) /\
    exists seg', parse_segment buf (pseudo_cksum c) default_segment = Ok (NoError, seg') /\
      same_segment h.2 h'.2 seg seg'.
Proof.
  intros Hs Hf Hb c. destruct (wrap_tcp_in_ip_ok seg b h h' Hs Hf Hb) as (l & E & Hc & Hd).
  set (seg1 := with_ports h.2 h'.2 seg) in *. fold c in E, Hc, Hd.
  unfold tun_write. rewrite E, result_bind_Ok. pose proof (serialize_datagram_ok _ Hd) as Es. cbn zeta in Es.
  set (k := value _) in Es. rewrite Es, result_bind_Ok. cbn [ip_header ip_payload] in *.
  destruct Hd as [Hh Hl]. cbn [ip_header ip_payload] in *.
  assert (wf_ip (set_ip_cksum k c)) as Hc' by (apply wf_set_ip_cksum; [apply u16_range|done]).
  destruct (parse_datagram_bytes _ (concatenate l) default_datagram Hc' Hl) as ([c' pl] & E' & H1 & buf & H2 & H3 & H4).
  cbn [ip_header ip_payload] in *. subst c' pl. eexists; exists k, buf. split; [done|].
  split; [by rewrite concatenate_cons, str_Buffer_of|].
  destruct Hb as ([_ Hp] & [_ Hp'] & _).
  destruct (parse_segment_bytes (pseudo_cksum c) seg1 buf default_segment) as (seg' & E3 & G1 & G2).
  - by apply wf_set_ports.
  - pose proof (pseudo_cksum_range _ Hh). unfold fits_ip in Hf. split; simpl; lia.
  - done.
  - by rewrite H4, Hc.
  - exists seg'. split; [done|]. split; [done|]. eexists. exact G1.
Qed.
End adapters.

(** ** Properties *)

(** C37: segments pass through the TUN device. A well-formed segment that fits a datagram is
    written as an IPv4 packet without an exception, and the adapter at the other end of the
    connection reads that packet as the same segment, with the connection's ports and the checksum
    filled in. *)
Theorem tun_roundtrip {R : Resolver} {L : ResolverLaws} b b' h h' seg
  (Hs : wf_segment seg) (Hf : fits_ip seg) (Hb : sends b h h') (Hb' : sends b' h' h)
  (Hl : listening b' = false) :
  exists packet seg1 seg', tun_write seg b = Ok (packet, seg1) /\
    tun_read (concatenate packet) b' = Ok (Some seg', b') /\ same_segment h.2 h'.2 seg seg'.
Proof.
  destruct (tun_write_packet seg b h h' Hs Hf (sends_numbers b h h' Hb)) as (packet & k & buf & E1 & E2 & seg' & E3 & Hpay & c & Hhd).
  destruct Hb' as ([H1 H2] & [H3 H4] & S1 & S2). eexists packet, _, seg'. split; [exact E1|].
  split; [|by split; [|exists c]].
  unfold tun_read. rewrite E2, result_bind_Ok. rewrite bool_decide_eq_true_2 by done. cbn [negb].
  unfold unwrap_tcp_in_ip, other_host. rewrite Hl, S1, S2, !ipv4_numeric_inet, !port_inet, !result_bind_Ok by done.
  cbn [ip_header ip_payload set_ip_cksum carrier src dst proto to_Buffer]. rewrite !Z.eqb_refl. cbn [negb].
  rewrite result_bind_Ok.
  change (pseudo_cksum (set_ip_cksum k (carrier seg h.1 h'.1))) with (pseudo_cksum (carrier seg h.1 h'.1)).
  rewrite E3, result_bind_Ok. rewrite bool_decide_eq_true_2, Hhd by done.
  cbn [negb dport sport set_cksum set_ports mbind result_bind]. by rewrite !Z.eqb_refl.
Qed.

Definition host_a : Z * Z := (2130706433, 80).
Definition host_b : Z * Z := (3232235777, 1024).
Definition sample_adapter (h h' : Z * Z) (l : bool) : FdAdapterBase :=
  mkFdAdapterBase (mkFdAdapterConfig (inet_address h.1 h.2) (inet_address h'.1 h'.2) 0 0) l.

Lemma tun_roundtrip_witness :
  let R := numeric_resolver in
  exists packet seg1 seg', tun_write sample_segment (sample_adapter host_a host_b false) = Ok (packet, seg1) /\
    tun_read (concatenate packet) (sample_adapter host_b host_a false) = Ok (Some seg', sample_adapter host_b host_a false) /\
    same_segment host_a.2 host_b.2 sample_segment seg'.
Proof.
  apply (@tun_roundtrip numeric_resolver numeric_resolver_laws (sample_adapter host_a host_b false)
    (sample_adapter host_b host_a false) host_a host_b sample_segment); by_compute.
Defined.

(** a listening adapter. It reads the packet of a SYN without RST that is addressed to its
    port, returns the segment, stops listening and becomes the other end of the connection of the
    adapter that sent it; a segment without SYN, or with RST, is dropped and the adapter stays as
    it was. *)
Theorem tun_listen {R : Resolver} {L : ResolverLaws} b b' h h' seg
  (Hs : wf_segment seg) (Hf : fits_ip seg) (Hb : sends b h h')
  (Hl : listening b' = true) (Hp : port (source (config b')) = Ok h'.2) :
  exists packet seg1, tun_write seg b = Ok (packet, seg1) /\
    if syn (header seg) && negb (rst (header seg)) then
      exists seg' b'', tun_read (concatenate packet) b' = Ok (Some seg', b'') /\ same_segment h.2 h'.2 seg seg' /\
        sends b'' h' h /\ listening b'' = false
    else tun_read (concatenate packet) b' = Ok (None, b').
Proof.
  destruct (tun_write_packet seg b h h' Hs Hf (sends_numbers b h h' Hb)) as (packet & k & buf & E1 & E2 & seg' & E3 & Hpay & c & Hhd).
  destruct Hb as ([H1 H2] & [H3 H4] & _). eexists packet, _. split; [exact E1|].
  unfold tun_read. rewrite E2, result_bind_Ok. rewrite bool_decide_eq_true_2 by done. cbn [negb].
  unfold unwrap_tcp_in_ip, other_host. rewrite Hl, Hp, !result_bind_Ok.
  cbn [ip_header ip_payload set_ip_cksum carrier src dst proto to_Buffer]. rewrite Z.eqb_refl. cbn [negb].
  rewrite result_bind_Ok.
  change (pseudo_cksum (set_ip_cksum k (carrier seg h.1 h'.1))) with (pseudo_cksum (carrier seg h.1 h'.1)).
  rewrite E3, result_bind_Ok. rewrite bool_decide_eq_true_2, Hhd by done.
  cbn [negb dport sport syn rst set_cksum set_ports mbind result_bind]. rewrite Z.eqb_refl. cbn [negb].
  destruct (syn (header seg) && negb (rst (header seg))); [|done].
  rewrite !Address_of_ip_inet, !result_bind_Ok by done.
  cbn [config _cfg set_listening set_destination set_source destination source].
  rewrite port_inet, result_bind_Ok, Z.eqb_refl by done. cbn [negb].
  do 2 eexists. split; [done|]. by split; [split; [|exists c]|].
Qed.

Lemma tun_listen_witness :
  let R := numeric_resolver in
  exists packet seg1, tun_write sample_segment (sample_adapter host_a host_b false) = Ok (packet, seg1) /\
    if syn (header sample_segment) && negb (rst (header sample_segment)) then
      exists seg' b'', tun_read (concatenate packet) (sample_adapter (0, 1024) (0, 0) true) = Ok (Some seg', b'') /\
        same_segment host_a.2 host_b.2 sample_segment seg' /\ sends b'' host_b host_a /\ listening b'' = false
    else tun_read (concatenate packet) (sample_adapter (0, 1024) (0, 0) true) = Ok (None, sample_adapter (0, 1024) (0, 0) true).
Proof.
  apply (@tun_listen numeric_resolver numeric_resolver_laws (sample_adapter host_a host_b false)
    (sample_adapter (0, 1024) (0, 0) true) host_a host_b sample_segment); by_compute.
Defined.

(** C39: segments pass through UDP. The datagram goes to the configured destination; the adapter
    that receives it from an address it is connected to reads the same segment, and one that is
    listening does so for a SYN without RST, stops listening and answers to that address, and
    drops any other segment; from another address everything is dropped. *)
Theorem udp_roundtrip {R : Resolver} {L : ResolverLaws} b b' h h' from seg
  (Hs : wf_segment seg) (Hf : sum_fits 0 seg) (Hb : sends b h h') :
  exists packet seg1 seg', udp_write seg b = Ok (inet_address h'.1 h'.2, packet, seg1) /\
    same_segment h.2 h'.2 seg seg' /\
    udp_read from (concatenate packet) b' = Ok (
      if listening b' then
        if syn (header seg) && negb (rst (header seg))
        then (Some seg', set_listening false (set_destination from b')) else (None, b')
      else if address_eqb from (destination (config b')) then (Some seg', b') else (None, b')).
Proof.
  destruct Hb as ([H1 H2] & [H3 H4] & S1 & S2). unfold udp_write.
  rewrite S1, S2, !port_inet, !result_bind_Ok by done. set (seg1 := with_ports h.2 h'.2 seg).
  assert (wf_segment seg1) as Hs1 by by apply wf_set_ports.
  rewrite serialize_segment_ok, result_bind_Ok by apply Hs1.
  destruct (parse_segment_bytes 0 seg1 (Buffer_of (segment_bytes 0 seg1)) default_segment)
    as (seg' & E & G1 & G2); [done|exact Hf| |apply str_Buffer_of|].
  { apply Buffer_of_wf. destruct Hs1 as (_ & Hd & _). destruct Hf as [_ Hf]. rewrite Zlen_segment_bytes by apply Hd.
    change (doff (header seg1)) with (doff (header seg)) in *.
    change (size (payload seg1)) with (size (payload seg)). unfold size in *.
    pose proof (Zlen_nonneg (str (payload seg))). lia. }
  eexists _, _, seg'. split; [done|]. split; [split; [done|eexists; exact G1]|].
  rewrite concatenate_pair, str_Buffer_of. fold (segment_bytes 0 seg1).
  unfold udp_read, address_neqb. rewrite E, result_bind_Ok, bool_decide_eq_true_2, G1 by done.
  cbn [negb syn rst set_cksum set_ports with_ports header seg1].
  destruct (listening b'), (address_eqb _ _), (syn (header seg)), (rst (header seg)); done.
Qed.

Lemma udp_roundtrip_witness :
  let R := numeric_resolver in
  let b' := sample_adapter host_b host_a false in
  exists packet seg1 seg',
    udp_write sample_segment (sample_adapter host_a host_b false) = Ok (inet_address host_b.1 host_b.2, packet, seg1) /\
    same_segment host_a.2 host_b.2 sample_segment seg' /\
    udp_read (inet_address host_a.1 host_a.2) (concatenate packet) b' = Ok (
      if listening b' then
        if syn (header sample_segment) && negb (rst (header sample_segment))
        then (Some seg', set_listening false (set_destination (inet_address host_a.1 host_a.2) b')) else (None, b')
      else if address_eqb (inet_address host_a.1 host_a.2) (destination (config b')) then (Some seg', b')
      else (None, b')).
Proof.
  apply (@udp_roundtrip numeric_resolver numeric_resolver_laws (sample_adapter host_a host_b false)
    (sample_adapter host_b host_a false) host_a host_b (inet_address host_a.1 host_a.2) sample_segment); by_compute.
Defined.
