(* ===== verification/Text.v ===== *)
(** * Text output
    (hexdump of src/libsponge/util/util.cc; to_string and summary of
    src/libsponge/tcp_helpers/tcp_header.cc and ipv4_header.cc)

    A [std::ostream] is the text it has got and the state of its format: the base of numbers,
    whether booleans are words, the width of the next item and the character that fills it up. *)

From stdpp Require Import strings.
From S2P Require Import Prelude WrappingIntegers Parser TCPHeader IPv4 Address.

Abbreviation lit s := (String.list_byte_of_string s).

(** ** Streams *)

Record ostream := mkOstream {
  text : bytes;
  hex_flag : bool;
  boolalpha_flag : bool;
  width : Z;
  fill_char : byte
}.

(** An empty [std::stringstream]; [std::cout] starts in the same state. *)
Definition new_stream : ostream := mkOstream [] false false 0 x20.

(** Numbers in base 16: sixteen digits are enough for 64 bits. *)
Definition hex_digit (d : Z) : byte := byte_of_Z (if d <? 10 then 48 + d else 87 + d).

Fixpoint to_hex_digits (fuel : nat) (n : Z) (acc : bytes) : bytes :=
  match fuel with
  | O => acc
  | S fuel =>
      let acc := hex_digit (n mod 16) :: acc in
      if n <? 16 then acc else to_hex_digits fuel (n / 16) acc
  end.

Definition to_hex (n : Z) : bytes := to_hex_digits 16 n [].

(** Every formatted item is padded on the left, and uses the width up. *)
Definition put (s : bytes) (os : ostream) : ostream :=
  mkOstream (text os ++ replicate (Z.to_nat (width os) - length s) (fill_char os) ++ s)
    (hex_flag os) (boolalpha_flag os) 0 (fill_char os).

(** The overloads of [operator<<]; a manipulator is inserted too. *)
Class Insert (A : Type) := insert_item : A -> ostream -> ostream.

Inductive manipulator := hex | dec | boolalpha | setw (n : Z) | setfill (c : byte).

#[global] Instance insert_bytes : Insert bytes := put.
#[global] Instance insert_char : Insert byte := fun c => put [c].
#[global] Instance insert_number : Insert Z := fun n os => put (if hex_flag os then to_hex n else to_string n) os.
#[global] Instance insert_bool : Insert bool := fun b os =>
  put (if boolalpha_flag os then (if b then lit "true" else lit "false") else (if b then lit "1" else lit "0")) os.
#[global] Instance insert_wrapping : Insert WrappingInt32 := fun a => insert_number (raw_value a).
#[global] Instance insert_manipulator : Insert manipulator := fun m os =>
  match m with
  | hex => mkOstream (text os) true (boolalpha_flag os) (width os) (fill_char os)
  | dec => mkOstream (text os) false (boolalpha_flag os) (width os) (fill_char os)
  | boolalpha => mkOstream (text os) (hex_flag os) true (width os) (fill_char os)
  | setw n => mkOstream (text os) (hex_flag os) (boolalpha_flag os) n (fill_char os)
  | setfill c => mkOstream (text os) (hex_flag os) (boolalpha_flag os) (width os) c
  end.

Notation "os '<<' x" := (insert_item x os) (at level 51, left associativity) : sponge_scope.

Definition newline : byte := x0a.

(** ** Headers *)

Definition TCPHeader_to_string (h : TCPHeader) : bytes :=
  text (new_stream << hex << boolalpha << lit "TCP source port: " << sport h << newline
    << lit "TCP dest port: " << dport h << newline
    << lit "TCP seqno: " << seqno h << newline
    << lit "TCP ackno: " << ackno h << newline
    << lit "TCP doff: " << doff h << newline
    << lit "Flags: urg: " << urg h << lit " ack: " << ack h << lit " psh: " << psh h << lit " rst: " << rst h
    << lit " syn: " << syn h << lit " fin: " << fin h << newline
    << lit "TCP winsize: " << win h << newline
    << lit "TCP cksum: " << TCPHeader.cksum h << newline
    << lit "TCP uptr: " << uptr h << newline).

Definition TCPHeader_summary (h : TCPHeader) : bytes :=
  text (new_stream << lit "Header(flags=" << (if syn h then lit "S" else []) << (if ack h then lit "A" else [])
    << (if rst h then lit "R" else []) << (if fin h then lit "F" else [])
    << lit ",seqno=" << seqno h << lit ",ack=" << ackno h << lit ",win=" << win h << lit ")").

Definition IPv4Header_to_string (h : IPv4Header) : bytes :=
  text (new_stream << hex << boolalpha << lit "IP version: " << ver h << newline
    << lit "IP hdr len: " << hlen h << newline
    << lit "IP tos: " << tos h << newline
    << lit "IP dgram len: " << len h << newline
    << lit "IP id: " << id h << newline
    << lit "Flags: df: " << df h << lit " mf: " << mf h << newline
    << lit "Offset: " << offset h << newline
    << lit "TTL: " << ttl h << newline
    << lit "Protocol: " << proto h << newline
    << lit "Checksum: " << IPv4.cksum h << newline
    << lit "Src addr: " << src h << newline
    << lit "Dst addr: " << dst h << newline).

Definition IPv4Header_summary `{Resolver} (h : IPv4Header) : bytes :=
  text (new_stream << hex << boolalpha << lit "IPv" << ver h << lit ", "
    << lit "len=" << len h << lit ", "
    << lit "protocol=" << proto h << lit ", "
    << (if ttl h >=? 10 then [] else lit "ttl=" ++ to_string (ttl h) ++ lit ", ")
    << lit "src=" << inet_ntoa (src h) << lit ", "
    << lit "dst=" << inet_ntoa (dst h)).

(** ** hexdump *)

(** [isprint] in the C locale. *)
Definition isprint (b : byte) : bool := (32 <=? byte_to_Z b) && (byte_to_Z b <=? 126).

(** The stream [pchars]: its content, and the position at which the next character goes. The
    constructor and [str(s)] leave the position at the beginning, so that the characters that
    follow replace those of [s]. *)
Record stringbuf := mkStringbuf { content : bytes; position : nat }.
Definition stringbuf_of (s : bytes) : stringbuf := mkStringbuf s 0.
Definition sputc (c : byte) (b : stringbuf) : stringbuf :=
  mkStringbuf (take (position b) (content b) ++ c :: drop (S (position b)) (content b)) (S (position b)).

(** The variables of the loop; [printed] is an int, and data is shorter than 2^31 bytes. *)
Record dump := mkDump { cout : ostream; printed : Z; pchars : stringbuf }.

(** One byte. *)
Definition dump_byte (indent_string : bytes) (d : dump) (b : byte) : dump :=
  let d :=
    if Z.land (printed d) 15 =? 0 then
      let d := if negb (printed d =? 0) then
                 mkDump (cout d << lit "    " << content (pchars d) << newline) (printed d) (stringbuf_of (lit " "))
               else d in
      mkDump (cout d << indent_string << setw 8 << printed d << lit ":    ") (printed d) (pchars d)
    else if Z.land (printed d) 1 =? 0 then mkDump (cout d << x20) (printed d) (pchars d)
    else d in
  mkDump (cout d << setw 2 << byte_to_Z b) (printed d + 1)
    (sputc (if isprint b then b else x2e) (pchars d)).

Definition hexdump (data : bytes) (indent : Z) (os : ostream) : ostream :=
  let indent_string := replicate (Z.to_nat indent) x20 in
  let d := foldl (dump_byte indent_string) (mkDump (os << hex << setfill x30) 0 (stringbuf_of (lit " "))) data in
  let print_rem := (16 - Z.land (printed d) 15) mod 16 in
  let out := cout d << replicate (Z.to_nat (2 * print_rem + print_rem / 2 + 4)) x20 << content (pchars d)
               << newline << newline in
  mkOstream (text out) (hex_flag os) (boolalpha_flag os) (width out) (fill_char out).

(** ** The layout of a dump *)

(** Two digits for a byte, bytes in pairs, sixteen bytes on a line: the address, the column of
    digits, always 39 wide, and the characters. *)
Definition hex_byte (b : byte) : bytes := [hex_digit (byte_to_Z b / 16); hex_digit (byte_to_Z b mod 16)].

Fixpoint hex_column (c : bytes) : bytes :=
  match c with
  | b1 :: r =>
      hex_byte b1 ++
      match r with
      | b2 :: r => hex_byte b2 ++ match r with [] => [] | _ => x20 :: hex_column r end
      | [] => []
      end
  | [] => []
  end.

Definition ljust (n : nat) (s : bytes) : bytes := s ++ replicate (n - length s) x20.
Definition rjust (n : nat) (c : byte) (s : bytes) : bytes := replicate (n - length s) c ++ s.
Definition visible (b : byte) : byte := if isprint b then b else x2e.

Definition line_start (indent : nat) (address : Z) : bytes :=
  replicate indent x20 ++ rjust 8 x30 (to_hex address) ++ lit ":    ".

Definition dump_line (indent : nat) (address : Z) (c : bytes) : bytes :=
  line_start indent address ++ ljust 39 (hex_column c) ++ lit "    " ++ map visible c ++ [newline].

Fixpoint dump_lines (fuel : nat) (indent : nat) (address : Z) (data : bytes) : bytes :=
  match fuel, data with
  | S fuel, _ :: _ => dump_line indent address (take 16 data) ++ dump_lines fuel indent (address + 16) (drop 16 data)
  | _, _ => []
  end.

(** The text that [hexdump] should add: a line for every sixteen bytes, and an empty line. *)
Definition dump_text (indent : nat) (data : bytes) : bytes :=
  match data with
  | [] => replicate 5 x20 ++ [newline; newline]
  | _ => dump_lines (length data) indent 0 data ++ [newline]
  end.

Lemma put_plain s os : width os = 0 ->
  put s os = mkOstream (text os ++ s) (hex_flag os) (boolalpha_flag os) 0 (fill_char os).
Proof. intros E. unfold put. by rewrite E. Qed.

Lemma insert_bytes_plain (s : bytes) os : width os = 0 ->
  (os << s) = mkOstream (text os ++ s) (hex_flag os) (boolalpha_flag os) 0 (fill_char os).
Proof. apply put_plain. Qed.
Lemma insert_char_plain (c : byte) os : width os = 0 ->
  (os << c) = mkOstream (text os ++ [c]) (hex_flag os) (boolalpha_flag os) 0 (fill_char os).
Proof. apply put_plain. Qed.

Lemma hex_column_more b1 b2 b3 c :
  hex_column (b1 :: b2 :: b3 :: c) = hex_byte b1 ++ hex_byte b2 ++ x20 :: hex_column (b3 :: c).
Proof. done. Qed.

Lemma hex_column_snoc c b : c <> [] ->
  hex_column (c ++ [b]) = hex_column c ++ (if Nat.even (length c) then [x20] else []) ++ hex_byte b.
Proof.
  induction c as [c IH] using (induction_ltof1 _ (@length byte)). unfold ltof in IH.
  destruct c as [|b1 [|b2 c]]; [done|intros _; done|intros _].
  destruct c as [|b3 c]; [done|]. cbn [app]. rewrite !hex_column_more. change (b3 :: (c ++ [b])) with ((b3 :: c) ++ [b]).
  rewrite (IH (b3 :: c)) by (simpl; done || lia). cbn [length Nat.even]. by rewrite <- !app_assoc.
Qed.

Lemma length_hex_column c : c <> [] -> length (hex_column c) = (2 * length c + (length c - 1) / 2)%nat.
Proof.
  induction c as [c IH] using (induction_ltof1 _ (@length byte)). unfold ltof in IH.
  destruct c as [|b1 [|b2 [|b3 c]]]; try done. intros _. rewrite hex_column_more, !length_app.
  cbn [length hex_byte]. rewrite (IH (b3 :: c)) by (simpl; done || lia). cbn [length].
  replace (S (S (S (length c))) - 1)%nat with (1 * 2 + length c)%nat by lia. rewrite Nat.div_add_l by done.
  replace (S (length c) - 1)%nat with (length c) by lia. lia.
Qed.

(** ** The loop of hexdump *)

(** In the middle of a line: [c] is what has been printed of it. *)
Definition mid_line (os : ostream) (indent : nat) (before : bytes) (address : Z) (c : bytes) : dump :=
  mkDump (mkOstream (before ++ line_start indent address ++ hex_column c) true (boolalpha_flag os) 0 x30)
    (address + #c) (mkStringbuf (map visible c) (length c)).

Lemma land_15 n : Z.land n 15 = n mod 16.
Proof. exact (Z.land_ones n 4 ltac:(lia)). Qed.
Lemma land_1 n : Z.land n 1 = n mod 2.
Proof. exact (Z.land_ones n 1 ltac:(lia)). Qed.

Lemma to_hex_byte b : rjust 2 x30 (to_hex (byte_to_Z b)) = hex_byte b.
Proof. by destruct b. Qed.

Lemma sputc_visible c b :
  sputc (if isprint b then b else x2e) (mkStringbuf (map visible c) (length c)) =
    mkStringbuf (map visible (c ++ [b])) (length (c ++ [b])).
Proof.
  unfold sputc. cbn [position content]. rewrite take_ge, drop_ge by (rewrite length_map; lia).
  by rewrite map_app, length_app, Nat.add_1_r.
Qed.

Lemma even_length (c : bytes) : (#c mod 2 =? 0) = Nat.even (length c).
Proof.
  unfold Zlen. destruct (Nat.Even_or_Odd (length c)) as [[m ->]|[m ->]].
  - rewrite Nat.even_even. apply Z.eqb_eq. rewrite Nat2Z.inj_mul, Z.mul_comm. by apply Z.mod_mul.
  - rewrite Nat.even_odd. apply Z.eqb_neq. rewrite Nat2Z.inj_add, Nat2Z.inj_mul, Z.add_comm, Z.mul_comm, Z.mod_add; done.
Qed.

(** The byte itself, after what separates it. *)
Lemma dump_digits os b :
  width os = 0 -> hex_flag os = true -> fill_char os = x30 ->
  (os << setw 2 << byte_to_Z b) = mkOstream (text os ++ hex_byte b) true (boolalpha_flag os) 0 x30.
Proof.
  intros H1 H2 H3. unfold insert_item, insert_number, insert_manipulator, put. cbn [hex_flag width fill_char text boolalpha_flag].
  rewrite H2, H3. change (Z.to_nat 2) with 2%nat. by rewrite <- to_hex_byte.
Qed.

Lemma dump_byte_inside os indent before address c b :
  address mod 16 = 0 -> (0 < length c < 16)%nat ->
  dump_byte (replicate indent x20) (mid_line os indent before address c) b = mid_line os indent before address (c ++ [b]).
Proof.
  intros Ha Hc. unfold dump_byte, mid_line. cbn [printed cout pchars].
  assert ((address + #c) mod 16 = #c) as E16.
  { rewrite Z.add_mod, Ha by done. unfold Zlen. rewrite (Z.mod_small (Z.of_nat (length c))) by lia. apply Z.mod_small. lia. }
  assert ((address + #c) mod 2 = #c mod 2) as E2.
  { pose proof (Z.div_mod address 16 ltac:(lia)) as Hd. rewrite Ha in Hd. rewrite Hd, Z.add_0_r.
    replace (16 * (address / 16) + #c) with (#c + (8 * (address / 16)) * 2) by lia. by apply Z.mod_add. }
  rewrite land_15, land_1, E16, E2. destruct (Z.eqb_spec (#c) 0) as [E|_]; [unfold Zlen in E; lia|].
  rewrite even_length, hex_column_snoc by (intros ->; simpl in Hc; lia). destruct (Nat.even (length c)).
  - rewrite insert_char_plain by done. rewrite dump_digits by done.
    cbn [cout printed pchars text boolalpha_flag]. by rewrite sputc_visible, Zlen_app, Z.add_assoc, <- !app_assoc.
  - cbn [cout printed pchars]. rewrite dump_digits by done.
    cbn [text boolalpha_flag]. by rewrite sputc_visible, Zlen_app, Z.add_assoc, <- !app_assoc.
Qed.

(** The beginning of a line. *)
Lemma dump_address os indent address :
  width os = 0 -> hex_flag os = true -> fill_char os = x30 ->
  (os << replicate indent x20 << setw 8 << address << lit ":    ") =
    mkOstream (text os ++ line_start indent address) true (boolalpha_flag os) 0 x30.
Proof.
  intros H1 H2 H3. unfold insert_item, insert_number, insert_bytes, insert_manipulator, line_start, rjust, put.
  cbn [hex_flag width fill_char text boolalpha_flag]. rewrite H1, H2, H3. change (Z.to_nat 8) with 8%nat. change (Z.to_nat 0) with 0%nat.
  cbn [Nat.sub replicate app]. by rewrite <- !app_assoc.
Qed.

Lemma dump_byte_flush os indent before address c b :
  address mod 16 = 0 -> length c = 16%nat -> 0 <= address ->
  dump_byte (replicate indent x20) (mid_line os indent before address c) b =
    mid_line os indent (before ++ dump_line indent address c) (address + 16) [b].
Proof.
  intros Ha Hc Hpos. unfold dump_byte. assert (#c = 16) as H16 by (unfold Zlen; lia).
  assert (printed (mid_line os indent before address c) = address + 16) as Hp by (cbn; lia).
  rewrite Hp, land_15, <- Z.add_mod_idemp_l, Ha by done. change ((0 + 16) mod 16 =? 0) with true.
  destruct (Z.eqb_spec (address + 16) 0) as [E|_]; [lia|]. cbn [negb cout printed pchars]. cbv iota. cbn [cout printed pchars].
  cbn [mid_line cout pchars content]. rewrite (insert_bytes_plain (lit "    ")), (insert_bytes_plain (map visible c)), insert_char_plain by done.
  rewrite dump_address by done. rewrite dump_digits by done.
  cbn [text boolalpha_flag cout pchars content mid_line]. unfold mid_line. f_equal.
  f_equal. unfold dump_line, ljust. rewrite length_hex_column, Hc by (by intros ->). cbn [Nat.sub replicate].
  rewrite app_nil_r, <- !app_assoc. done.
Qed.

Lemma dump_byte_first os indent b :
  width os = 0 ->
  dump_byte (replicate indent x20) (mkDump (os << hex << setfill x30) 0 (stringbuf_of (lit " "))) b =
    mid_line os indent (text os) 0 [b].
Proof.
  intros Hw. unfold dump_byte. cbn [printed cout pchars]. change (Z.land 0 15 =? 0) with true. change (0 =? 0) with true.
  cbn [negb]. cbv iota. cbn [printed cout pchars]. rewrite dump_address, dump_digits by done. unfold mid_line. f_equal. f_equal.
  cbn [text hex_column]. by rewrite <- app_assoc, app_nil_r.
Qed.

Lemma dump_lines_fuel n n' indent address data :
  (length data <= n)%nat -> (length data <= n')%nat -> dump_lines n indent address data = dump_lines n' indent address data.
Proof.
  revert n' address data. induction n as [|n IH]; intros [|n'] address [|b data] H1 H2; simpl in H1, H2; try lia; try done.
  cbn [dump_lines]. f_equal. apply IH; rewrite length_drop; simpl; lia.
Qed.

Lemma dump_lines_line indent address c data : length c = 16%nat ->
  dump_lines (length (c ++ data)) indent address (c ++ data) =
    dump_line indent address c ++ dump_lines (length data) indent (address + 16) data.
Proof.
  intros Hc. transitivity (dump_lines (S (length (c ++ data))) indent address (c ++ data)); [apply dump_lines_fuel; lia|].
  destruct c as [|b c]; [done|]. cbn [dump_lines app]. change (b :: c ++ data) with ((b :: c) ++ data).
  rewrite take_app_length', drop_app_length' by done. f_equal. apply dump_lines_fuel; rewrite ?length_app; lia.
Qed.

(** All of the data: the last line is not finished yet. *)
Lemma dump_loop os indent data before address c :
  address mod 16 = 0 -> 0 <= address -> (0 < length c <= 16)%nat ->
  exists before' address' c',
    foldl (dump_byte (replicate indent x20)) (mid_line os indent before address c) data =
      mid_line os indent before' address' c' /\
    address' mod 16 = 0 /\ (0 < length c' <= 16)%nat /\
    before' ++ dump_line indent address' c' = before ++ dump_lines (length (c ++ data)) indent address (c ++ data).
Proof.
  revert before address c. induction data as [|b data IH]; intros before address c Ha Hpos Hc.
  - exists before, address, c. split_and!; try done; try lia. rewrite app_nil_r. destruct c as [|b c]; [simpl in Hc; lia|].
    cbn [length dump_lines]. rewrite take_ge, drop_ge by lia. by destruct (length c); rewrite app_nil_r.
  - cbn [foldl]. destruct (decide (length c = 16%nat)) as [Hfull|Hless].
    + rewrite dump_byte_flush by done.
      destruct (IH (before ++ dump_line indent address c) (address + 16) [b]) as (before' & address' & c' & E & H1 & H2 & H3);
        [rewrite <- Z.add_mod_idemp_l, Ha by done; done|lia|simpl; lia|].
      exists before', address', c'. split_and!; try done; try lia. rewrite H3, <- app_assoc. f_equal.
      by rewrite (dump_lines_line _ _ c).
    + rewrite dump_byte_inside by (done || lia). destruct (IH before address (c ++ [b])) as (before' & address' & c' & E & H);
        [done|done|rewrite length_app; simpl; lia|].
      exists before', address', c'. rewrite <- app_assoc in H. done.
Qed.

Lemma dump_end os indent before address c :
  address mod 16 = 0 -> (0 < length c <= 16)%nat ->
  let d := mid_line os indent before address c in
  let print_rem := (16 - Z.land (printed d) 15) mod 16 in
  text (cout d << replicate (Z.to_nat (2 * print_rem + print_rem / 2 + 4)) x20 << content (pchars d) << newline << newline) =
    before ++ dump_line indent address c ++ [newline].
Proof.
  intros Ha Hc d print_rem. assert (print_rem = 16 - #c) as ->.
  { unfold print_rem. cbn [d printed mid_line]. rewrite land_15, <- Z.add_mod_idemp_l, Ha, Z.add_0_l by done. unfold Zlen.
    destruct (decide (length c = 16%nat)) as [->|]; [done|]. rewrite (Z.mod_small (Z.of_nat _)) by lia. apply Z.mod_small. lia. }
  cbn [d cout pchars content mid_line]. rewrite !insert_bytes_plain, !insert_char_plain by done. cbn [text].
  unfold dump_line, ljust. rewrite <- !app_assoc. do 3 f_equal. rewrite (app_assoc (replicate _ x20) (lit "    ")). f_equal.
  change (lit "    ") with (replicate 4 x20). rewrite <- replicate_add. f_equal.
  rewrite length_hex_column by (by intros ->; simpl in Hc; lia). unfold Zlen.
  destruct c as [|b c]; [simpl in Hc; lia|]. revert Hc. cbn [length]. generalize (length c). intros n Hn.
  do 16 (destruct n as [|n]; [done|]). lia.
Qed.

(** ** Reading the text of a header *)

Lemma hex_digit_word d : 0 <= d < 16 -> byte_to_Z (hex_digit d) = (if d <? 10 then 48 + d else 87 + d).
Proof. intros. unfold hex_digit. rewrite byte_to_of_Z. apply u8_id. case_if; lia. Qed.

(** The value of a number in base 16. *)
Definition hex_value (b : byte) : Z := if byte_to_Z b <? 58 then byte_to_Z b - 48 else byte_to_Z b - 87.
Definition read_hex (acc : Z) (s : bytes) : Z := foldl (fun acc b => acc * 16 + hex_value b) acc s.

Lemma read_to_hex_digits fuel n acc :
  0 <= n < 16 ^ Z.of_nat fuel -> read_hex 0 (to_hex_digits fuel n acc) = read_hex n acc.
Proof.
  revert n acc. induction fuel as [|fuel IH]; intros n acc Hn; [simpl in *; f_equal; lia|].
  rewrite Nat2Z.inj_succ, Z.pow_succ_r in Hn by lia. pose proof (Z.mod_pos_bound n 16). pose proof (Z.div_mod n 16).
  assert (hex_value (hex_digit (n mod 16)) = n mod 16) as Hv
    by (unfold hex_value; rewrite hex_digit_word by lia; repeat case_if; lia).
  cbn [to_hex_digits]. case_if.
  - unfold read_hex at 1. cbn [foldl]. rewrite Hv. unfold read_hex. f_equal. rewrite Z.mod_small; lia.
  - rewrite IH by (split; [apply Z.div_pos; lia|apply Z.div_lt_upper_bound; lia]).
    unfold read_hex. cbn [foldl]. rewrite Hv. f_equal. lia.
Qed.

Lemma to_hex_inj n m : 0 <= n < 18446744073709551616 -> 0 <= m < 18446744073709551616 -> to_hex n = to_hex m -> n = m.
Proof.
  intros Hn Hm E. apply (f_equal (read_hex 0)) in E. unfold to_hex in E.
  rewrite !read_to_hex_digits in E by (simpl; lia). done.
Qed.

Lemma to_hex_no_newline n : newline ∉ to_hex n.
Proof.
  assert (forall fuel n acc, newline ∉ acc -> newline ∉ to_hex_digits fuel n acc) as H.
  { induction fuel as [|fuel IH]; intros k acc Ha; [done|]. cbn [to_hex_digits].
    assert (newline ∉ hex_digit (k mod 16) :: acc) as Ha'.
    { intros [E|?]%elem_of_cons; [|done]. apply (f_equal byte_to_Z) in E.
      rewrite hex_digit_word in E by (apply Z.mod_pos_bound; lia). pose proof (Z.mod_pos_bound k 16).
      change (byte_to_Z newline) with 10 in E. case_if_in E; lia. }
    case_if; [done|by apply IH]. }
  apply H. by intros ?%elem_of_nil.
Qed.

(** A number at the end of a line, and a word in the middle of one. *)
Lemma line_inv a b (r s : bytes) :
  newline ∉ a -> newline ∉ b -> a ++ newline :: r = b ++ newline :: s -> a = b /\ r = s.
Proof.
  revert b. induction a as [|x a IH]; intros [|y b] Ha Hb E; simplify_eq/=; try done.
  - by destruct Hb; left.
  - by destruct Ha; left.
  - destruct (IH b) as [-> ->]; [by intros ?; apply Ha; right|by intros ?; apply Hb; right|done|done].
Qed.

Lemma hex_line_inv n m (r s : bytes) :
  to_hex n ++ newline :: r = to_hex m ++ newline :: s ->
  0 <= n < 18446744073709551616 -> 0 <= m < 18446744073709551616 -> n = m /\ r = s.
Proof. intros [E ->]%line_inv Hn Hm; [|apply to_hex_no_newline..]. split; [by apply to_hex_inj|done]. Qed.

Definition bool_word (b : bool) : bytes := if b then lit "true" else lit "false".

Lemma bool_word_inv b b' (r s : bytes) : bool_word b ++ r = bool_word b' ++ s -> b = b' /\ r = s.
Proof. destruct b, b'; cbn; intros [=]; by subst. Qed.

(** Take a pair of equal texts apart. *)
Ltac text_inv E :=
  repeat lazymatch type of E with
    | to_hex _ ++ _ = to_hex _ ++ _ => apply hex_line_inv in E; [|lia|lia]; destruct E as [? E]
    | bool_word _ ++ _ = bool_word _ ++ _ => apply bool_word_inv in E; destruct E as [? E]
    | ?a ++ _ = ?a ++ _ => apply app_inv_head in E
    | _ :: _ = _ :: _ => injection E as E
    end.

(** What the items of a header add to a stream that prints in base 16. *)
Section items.
Context (t : bytes) (f : byte).
Abbreviation plain t := (mkOstream t true true 0 f).
Lemma print_bytes (s : bytes) : (plain t << s) = plain (t ++ s).
Proof. done. Qed.
Lemma print_char (c : byte) : (plain t << c) = plain (t ++ [c]).
Proof. done. Qed.
Lemma print_number (n : Z) : (plain t << n) = plain (t ++ to_hex n).
Proof. done. Qed.
Lemma print_wrapping (n : WrappingInt32) : (plain t << n) = plain (t ++ to_hex (raw_value n)).
Proof. done. Qed.
Lemma print_bool (b : bool) : (plain t << b) = plain (t ++ bool_word b).
Proof. done. Qed.
End items.

Ltac print_items :=
  change (new_stream << hex << boolalpha) with (mkOstream [] true true 0 x20);
  repeat first [rewrite print_bytes | rewrite print_char | rewrite print_number | rewrite print_wrapping | rewrite print_bool];
  cbn [text].

(** The text, item by item. *)
Lemma TCPHeader_text h :
  TCPHeader_to_string h =
    lit "TCP source port: " ++ to_hex (sport h) ++ newline :: lit "TCP dest port: " ++ to_hex (dport h) ++ newline ::
    lit "TCP seqno: " ++ to_hex (raw_value (seqno h)) ++ newline :: lit "TCP ackno: " ++ to_hex (raw_value (ackno h)) ++ newline ::
    lit "TCP doff: " ++ to_hex (doff h) ++ newline :: lit "Flags: urg: " ++ bool_word (urg h) ++ lit " ack: " ++ bool_word (ack h) ++
    lit " psh: " ++ bool_word (psh h) ++ lit " rst: " ++ bool_word (rst h) ++ lit " syn: " ++ bool_word (syn h) ++
    lit " fin: " ++ bool_word (fin h) ++ newline :: lit "TCP winsize: " ++ to_hex (win h) ++ newline ::
    lit "TCP cksum: " ++ to_hex (TCPHeader.cksum h) ++ newline :: lit "TCP uptr: " ++ to_hex (uptr h) ++ [newline].
Proof.
  unfold TCPHeader_to_string. print_items. rewrite <- !app_assoc. done.
Qed.

Lemma TCPHeader_text_inj h h' :
  wf_header h -> wf_header h' -> TCPHeader_to_string h = TCPHeader_to_string h' -> h = h'.
Proof.
  intros (A1 & A2 & A3 & A4 & A5 & A6 & A7 & A8) (B1 & B2 & B3 & B4 & B5 & B6 & B7 & B8). rewrite !TCPHeader_text.
  unfold wf_wrapping in *. intros E. text_inv E. clear E A1 A2 A3 A4 A5 A6 A7 A8 B1 B2 B3 B4 B5 B6 B7 B8.
  destruct h as [? ? [?] [?]], h' as [? ? [?] [?]]. simpl in *. by subst.
Qed.

Lemma IPv4Header_text h :
  IPv4Header_to_string h =
    lit "IP version: " ++ to_hex (ver h) ++ newline :: lit "IP hdr len: " ++ to_hex (hlen h) ++ newline ::
    lit "IP tos: " ++ to_hex (tos h) ++ newline :: lit "IP dgram len: " ++ to_hex (len h) ++ newline ::
    lit "IP id: " ++ to_hex (id h) ++ newline :: lit "Flags: df: " ++ bool_word (df h) ++ lit " mf: " ++ bool_word (mf h) ++ newline ::
    lit "Offset: " ++ to_hex (offset h) ++ newline :: lit "TTL: " ++ to_hex (ttl h) ++ newline ::
    lit "Protocol: " ++ to_hex (proto h) ++ newline :: lit "Checksum: " ++ to_hex (IPv4.cksum h) ++ newline ::
    lit "Src addr: " ++ to_hex (src h) ++ newline :: lit "Dst addr: " ++ to_hex (dst h) ++ [newline].
Proof. unfold IPv4Header_to_string. print_items. rewrite <- !app_assoc. done. Qed.

Lemma IPv4Header_text_inj h h' : wf_ip h -> wf_ip h' -> IPv4Header_to_string h = IPv4Header_to_string h' -> h = h'.
Proof.
  intros [] []. rewrite !IPv4Header_text. intros E. text_inv E.
  destruct h, h'. simpl in *. by subst.
Qed.

(** ** Properties *)

(** C40: the dump has its layout. For all data [hexdump] prints exactly the lines
    of [dump_text]: an address and sixteen bytes in pairs on each line, the column of digits
    always 39 wide, so that the characters are aligned, and an empty line at the end. The base of
    numbers is as before. *)
Theorem hexdump_layout data indent os :
  width os = 0 ->
  hexdump data indent os =
    mkOstream (text os ++ dump_text (Z.to_nat indent) data) (hex_flag os) (boolalpha_flag os) 0 x30.
Proof.
  intros Hw. unfold hexdump. destruct data as [|b data].
  - cbn [foldl cout printed pchars]. change (_ mod 16) with 0. rewrite !insert_bytes_plain, !insert_char_plain by done.
    cbn [text width fill_char]. f_equal. cbn [text insert_item insert_manipulator]. by rewrite <- !app_assoc.
  - cbn [foldl]. rewrite dump_byte_first by done.
    destruct (dump_loop os (Z.to_nat indent) data (text os) 0 [b]) as (before & address & c & -> & H1 & H2 & H3);
      [done|done|simpl; lia|].
    pose proof (dump_end os (Z.to_nat indent) before address c H1 H2) as HE. cbv zeta in HE. cbv zeta. rewrite HE.
    rewrite app_assoc, H3, <- app_assoc. done.
Qed.

Lemma hexdump_layout_witness :
  hexdump (lit "sponge TCP, 20 bytes") 2 new_stream =
    mkOstream (dump_text 2 (lit "sponge TCP, 20 bytes")) false false 0 x30.
Proof. exact (hexdump_layout (lit "sponge TCP, 20 bytes") 2 new_stream eq_refl). Defined.


(** The text of a header determines the header. Two TCP headers whose fields have their
    types and whose [to_string] is the same are equal, field by field, and so are two IPv4
    headers. *)
Theorem header_text_faithful :
  (forall h h', wf_header h -> wf_header h' -> TCPHeader_to_string h = TCPHeader_to_string h' -> h = h') /\
  (forall h h', wf_ip h -> wf_ip h' -> IPv4Header_to_string h = IPv4Header_to_string h' -> h = h').
Proof. split; [apply TCPHeader_text_inj|apply IPv4Header_text_inj]. Qed.

(** The headers of two segments that differ in one number. *)
Lemma header_text_faithful_witness :
  let h := mkTCPHeader 1 80 (WrappingInt32_of 17) (WrappingInt32_of 0) 5 false true false false false false 100 0 0 in
  let h' := mkTCPHeader 1 80 (WrappingInt32_of 1) (WrappingInt32_of 0) 5 false true false false false false 100 0 0 in
  wf_header h /\ wf_header h' /\ TCPHeader_to_string h <> TCPHeader_to_string h'.
Proof.
  intros h h'. assert (wf_header h) as H1 by (by repeat split).
  assert (wf_header h') as H2 by (by repeat split). split; [done|]. split; [done|].
  intros E. pose proof (proj1 header_text_faithful h h' H1 H2 E) as Eq. discriminate Eq.
Defined.
