(* ===== verification/TCPReceiver.v ===== *)
(** * The receiver (src/libsponge/tcp_receiver.hh, tcp_receiver.cc)

    Turns the 32-bit sequence numbers of the segments that arrive into stream
    indices for the reassembler, and computes the acknowledgment number and the
    window for the peer. *)

From S2P Require Import Prelude WrappingIntegers ByteStream StreamReassembler Buffer TCPHeader.
From S2P Require Import TCPSegment.

(** ** Definitions *)

Record TCPReceiver := mkTCPReceiver {
  _reassembler : StreamReassembler;
  _capacity : Z;
  _syn : bool;
  _isn : WrappingInt32
}.

Definition make (capacity : Z) : TCPReceiver :=
  mkTCPReceiver (StreamReassembler.make capacity) capacity false (WrappingInt32_of 0).

Definition set_reassembler (a : StreamReassembler) (r : TCPReceiver) : TCPReceiver :=
  mkTCPReceiver a (_capacity r) (_syn r) (_isn r).

Definition segment_received (seg : TCPSegment) (r : TCPReceiver) : result TCPReceiver :=
  if negb (_syn r) then
    if negb (syn (header seg)) then Ok r
    else
      let r := mkTCPReceiver (_reassembler r) (_capacity r) (syn (header seg)) (seqno (header seg)) in
      a ← push_substring (copy (payload seg)) 0 (fin (header seg)) (_reassembler r);
      Ok (set_reassembler a r)
  else
    let abs_seqno := unwrap (seqno (header seg)) (_isn r) (first_unassembled (_reassembler r)) in
    a ← push_substring (copy (payload seg)) (u64 (abs_seqno - 1)) (fin (header seg)) (_reassembler r);
    Ok (set_reassembler a r).

Definition ackno (r : TCPReceiver) : option WrappingInt32 :=
  if negb (_syn r) then None
  else
    let _ackno := u64 (first_unassembled (_reassembler r) + 1) in
    let _ackno := if input_ended (StreamReassembler.stream_out (_reassembler r))
                  then u64 (_ackno + 1) else _ackno in
    Some (wrap _ackno (_isn r)).

Definition window_size (r : TCPReceiver) : Z :=
  u64 (first_unacceptable (_reassembler r) - first_unassembled (_reassembler r)).

Definition unassembled_bytes (r : TCPReceiver) : Z :=
  StreamReassembler.unassembled_bytes (_reassembler r).
Definition stream_out (r : TCPReceiver) : ByteStream :=
  StreamReassembler.stream_out (_reassembler r).

(** The owner reads, or flags an error, through [stream_out()]. *)
Definition read_stream (len : Z) (r : TCPReceiver) : bytes * TCPReceiver :=
  let '(d, a) := read_output len (_reassembler r) in (d, set_reassembler a r).
Definition set_stream_error (r : TCPReceiver) : TCPReceiver :=
  set_reassembler (set_output (ByteStream.set_error (stream_out r)) (_reassembler r)) r.

(** ** The stream a peer sends *)

(** Segment [s] carries, at absolute sequence number [x], a part of the stream [W]
    numbered from [isn]: the SYN is number 0, byte [i] of [W] is number [i + 1], and
    the FIN is the number after the last byte. *)
Definition carries (W : bytes) (isn : WrappingInt32) (x : Z) (s : TCPSegment) : Prop :=
  0 <= x /\ seqno (header s) = wrap x isn /\
  (syn (header s) = true -> x = 0) /\
  ((str (payload s) = [] /\ fin (header s) = false) \/
   (0 < x /\ x - 1 + #(str (payload s)) <= #W /\
    str (payload s) = slice (x - 1) (x - 1 + #(str (payload s))) W /\
    (fin (header s) = true -> x - 1 + #(str (payload s)) = #W))).

(** ** Invariant *)

(** The receiver of stream [W] from a peer with initial sequence number [isn]. *)
Record wf (W : bytes) (isn : WrappingInt32) (r : TCPReceiver) : Prop := {
  wf_reassembler : StreamReassembler.wf W (_reassembler r);
  wf_isn : _syn r = true -> _isn r = isn;
  wf_listen : _syn r = false -> first_unassembled (_reassembler r) = 0 /\
                StreamReassembler._buf (_reassembler r) = [] /\
                StreamReassembler._eof (_reassembler r) = false
}.

(** ** Lemmas *)

Lemma make_receiver_wf W isn cap :
  0 <= cap -> #W + cap < 18446744073709551616 -> wf W isn (make cap).
Proof. intros. constructor; [by apply make_reassembler_wf|done|done]. Qed.

Lemma wf_grow_receiver W d isn r :
  wf W isn r -> (_eof (_reassembler r) = true -> d = []) ->
  #(W ++ d) + StreamReassembler._capacity (_reassembler r) < 18446744073709551616 ->
  wf (W ++ d) isn r.
Proof. intros [] ??. constructor; try done. by apply wf_grow. Qed.

Lemma carries_grow W d isn x s :
  carries W isn x s -> (fin (header s) = true -> d = []) -> carries (W ++ d) isn x s.
Proof.
  intros (H1 & H2 & H3 & H4) Hd. split_and!; try done. destruct H4 as [?|(P1 & P2 & P3 & P4)]; [by left|].
  right. pose proof (Zlen_nonneg d). rewrite Zlen_app. split_and!; try lia.
  - rewrite slice_app_l by lia. done.
  - intros Hf. rewrite (Hd Hf), Zlen_nil. specialize (P4 Hf). lia.
Qed.

Section receiver.
Variables (W : bytes) (isn : WrappingInt32).
Hypothesis Hisn : wf_wrapping isn.
Hypothesis HW : #W < 18446744073709551616 - 4294967296.

(** Absolute number [x] is near enough to the receiver's position to be recovered. *)
Definition near (r : TCPReceiver) (x : Z) : Prop :=
  -2147483648 < x - first_unassembled (_reassembler r) <= 2147483648.

(** What a receiver has gained from segment [s] at number [x]. *)
Definition received (x : Z) (s : TCPSegment) (r r' : TCPReceiver) : Prop :=
  _syn r' = _syn r || syn (header s) /\
  StreamReassembler._capacity (_reassembler r') = StreamReassembler._capacity (_reassembler r) /\
  first_unread (_reassembler r') = first_unread (_reassembler r) /\
  first_unassembled (_reassembler r) <= first_unassembled (_reassembler r') /\
  error (stream_out r') = error (stream_out r) /\
  _eof (_reassembler r') = _eof (_reassembler r) || (_syn r && fin (header s)) /\
  forall i, known (_reassembler r') i <->
    known (_reassembler r) i \/
    (_syn r = true /\ x - 1 <= i < x - 1 + #(str (payload s)) /\
     i < first_unacceptable (_reassembler r)).

Lemma push_nothing r index :
  wf W isn r ->
  exists a, push_substring [] index false (_reassembler r) = Ok a /\
    StreamReassembler.wf W a /\
    StreamReassembler._capacity a = StreamReassembler._capacity (_reassembler r) /\
    first_unread a = first_unread (_reassembler r) /\
    first_unassembled (_reassembler r) <= first_unassembled a /\
    _error (_output a) = _error (_output (_reassembler r)) /\
    _eof a = _eof (_reassembler r) /\
    forall i, known a i <-> known (_reassembler r) i.
Proof.
  intros [Hr _ _]. rewrite push_substring_empty. pose proof (Zlen_nonneg W).
  destruct (push_substring_spec W (_reassembler r) [] 0 false)
    as (a & E & R1 & R2 & R3 & R4 & R5 & R6 & R7); rewrite ?Zlen_nil in *; try done; try lia.
  exists a. rewrite orb_false_r in R4. split_and!; try done.
  intros i. rewrite R7. intuition lia.
Qed.

Lemma wf_set_reassembler a r :
  StreamReassembler.wf W a -> wf W isn r -> _syn r = true -> wf W isn (set_reassembler a r).
Proof. intros ? [] Hs. constructor; simpl; [done..|congruence]. Qed.

Lemma segment_received_spec r x s :
  wf W isn r -> carries W isn x s -> near r x ->
  exists r', segment_received s r = Ok r' /\ wf W isn r' /\ received x s r r'.
Proof.
  intros Hr (Hx & Hseq & Hsyn & Hp) Hn. pose proof Hr as [Ha Hi Hl].
  pose proof (window_bounds W _ (StreamReassembler.wf_core _ _ Ha)) as Hw.
  unfold segment_received, received. destruct (_syn r) eqn:Es; cbn [negb orb].
  - rewrite Hi, Hseq, unwrap_wrap_near by (done || lia). unfold copy.
    destruct Hp as [[Hp1 Hp2]|(P1 & P2 & P3 & P4)].
    + destruct (push_nothing r (u64 (x - 1)) Hr) as (a & E & R1 & R2 & R3 & R4 & R5 & R6 & R7).
      rewrite Hp1, Hp2, E, result_bind_Ok. eexists; split; [done|].
      split; [by apply wf_set_reassembler|]. rewrite Zlen_nil, andb_false_r, orb_false_r.
      split_and!; try done. intros i. rewrite <- R7. intuition lia.
    + unfold near in Hn. rewrite u64_id by lia.
      destruct (push_substring_spec W (_reassembler r) (str (payload s)) (x - 1) (fin (header s)))
        as (a & E & R1 & R2 & R3 & R4 & R5 & R6 & R7); try done; try lia.
      rewrite E, result_bind_Ok. eexists; split; [done|]. split; [by apply wf_set_reassembler|].
      split_and!; try done. intros i. cbn [_reassembler set_reassembler]. rewrite R7. intuition.
  - destruct (syn (header s)) eqn:Esy; cbn [negb].
    + specialize (Hsyn eq_refl). subst x. destruct Hp as [[Hp1 Hp2]|?]; [|lia].
      destruct (push_nothing r 0 Hr) as (a & E & R1 & R2 & R3 & R4 & R5 & R6 & R7).
      unfold copy. cbn [_reassembler]. rewrite Hp1, Hp2, E, result_bind_Ok. eexists; split; [done|].
      split.
      * constructor; try done. intros _. simpl. rewrite Hseq. unfold wrap, wf_wrapping in *.
        destruct isn as [n]. simpl in *. rewrite Z.add_0_r, u32_id by done. unfold WrappingInt32_of.
        by rewrite u32_id.
      * rewrite Zlen_nil, orb_false_r. split_and!; try done. intros i. rewrite <- R7. intuition lia.
    + eexists; split; [done|]. split; [done|]. rewrite orb_false_r.
      split_and!; try done; try lia. intros i. intuition lia.
Qed.

(** The sequence number the receiver acknowledges: all before it have arrived. *)
Definition next_expected (r : TCPReceiver) : Z :=
  1 + first_unassembled (_reassembler r) + (if input_ended (stream_out r) then 1 else 0).

Lemma ackno_spec r :
  wf W isn r -> ackno r = if _syn r then Some (wrap (next_expected r) isn) else None.
Proof.
  intros [Ha Hi _]. pose proof (window_bounds W _ (StreamReassembler.wf_core _ _ Ha)) as Hw.
  unfold ackno, next_expected. destruct (_syn r); [|done]. cbn [negb].
  rewrite (Hi eq_refl), (u64_id (first_unassembled _ + 1)) by lia. unfold stream_out.
  destruct (input_ended _); [rewrite u64_id by lia|]; do 2 f_equal; lia.
Qed.

Lemma window_size_spec r :
  wf W isn r ->
  window_size r = StreamReassembler._capacity (_reassembler r) - buffer_size (stream_out r) /\
  0 <= window_size r.
Proof.
  intros [Ha _ _]. pose proof (StreamReassembler.wf_core _ _ Ha) as Hc.
  pose proof (window_bounds W _ Hc). pose proof (first_unacceptable_eq W _ Hc).
  unfold window_size. rewrite u64_id by lia. unfold stream_out, StreamReassembler.stream_out, buffer_size.
  destruct Hc, core_output. unfold first_unassembled, bytes_written in *. lia.
Qed.

Lemma read_stream_spec n r :
  wf W isn r -> 0 <= n ->
  let r' := (read_stream n r).2 in
  wf W isn r' /\ (read_stream n r).1 = slice (first_unread (_reassembler r)) (first_unread (_reassembler r')) W /\
  _syn r' = _syn r /\ first_unread (_reassembler r) <= first_unread (_reassembler r') /\
  StreamReassembler._capacity (_reassembler r') = StreamReassembler._capacity (_reassembler r) /\
  first_unassembled (_reassembler r') = first_unassembled (_reassembler r) /\
  _eof (_reassembler r') = _eof (_reassembler r).
Proof.
  intros [Ha Hi Hl] Hn. unfold read_stream.
  destruct (read_output_wf W n _ Ha Hn) as (R1 & R2 & R3 & R4 & R5).
  destruct (read_output n (_reassembler r)) as [d a] eqn:E. cbn [fst snd] in *.
  unfold read_output in E. injection E as <- <-. split_and!; try done.
Qed.

Lemma set_stream_error_wf_receiver r : wf W isn r -> wf W isn (set_stream_error r).
Proof.
  intros [[[] Hch Hend] Hi Hl]. constructor; [|done|done]. constructor; [|done|done].
  constructor; try done. by apply set_error_wf.
Qed.
End receiver.

(** ** Properties *)

(** The first segment of a stream: a SYN, perhaps with the first bytes, and a FIN if these are all. *)
Definition opens (W : bytes) (isn : WrappingInt32) (s : TCPSegment) : Prop :=
  seqno (header s) = isn /\ #(str (payload s)) <= #W /\ str (payload s) = slice 0 (#(str (payload s))) W /\
  (fin (header s) = true -> #(str (payload s)) = #W).

(** What can arrive: before the SYN any segment without one, or the first; after it any part within half of
    the sequence space of the receiver's position. *)
Definition incoming (W : bytes) (isn : WrappingInt32) (r : TCPReceiver) (x : Z) (s : TCPSegment) : Prop :=
  if _syn r then carries W isn x s /\ near r x else syn (header s) = true -> opens W isn s.

(** The index of the payload in the stream. *)
Definition payload_index (r : TCPReceiver) (x : Z) : Z := if _syn r then x - 1 else 0.

(** What a segment does not change, but for assembling more. *)
Definition undisturbed (r r' : TCPReceiver) : Prop :=
  StreamReassembler._capacity (_reassembler r') = StreamReassembler._capacity (_reassembler r) /\
  first_unread (_reassembler r') = first_unread (_reassembler r) /\
  first_unassembled (_reassembler r) <= first_unassembled (_reassembler r') /\
  error (stream_out r') = error (stream_out r).

Lemma receiver_syn_spec W isn r s :
  #W < 18446744073709551616 - 4294967296 -> wf W isn r -> _syn r = false -> syn (header s) = true -> opens W isn s ->
  exists r', segment_received s r = Ok r' /\ wf W isn r' /\ _syn r' = true /\ undisturbed r r' /\
    _eof (_reassembler r') = fin (header s) /\
    forall i, known (_reassembler r') i <->
      known (_reassembler r) i \/ (0 <= i < #(str (payload s)) /\ i < first_unacceptable (_reassembler r)).
Proof.
  intros HW Hr Es Hsyn (O1 & O2 & O3 & O4). unfold segment_received. rewrite Es, Hsyn. cbn [negb]. unfold copy. cbn [_reassembler].
  destruct (wf_listen _ _ _ Hr Es) as (_ & _ & L3).
  destruct (push_substring_spec W (_reassembler r) (str (payload s)) 0 (fin (header s)))
    as (a & E & R1 & R2 & R3 & R4 & R5 & R6 & R7); [apply Hr|done|by rewrite Z.add_0_l|by rewrite Z.add_0_l|by rewrite Z.add_0_l|].
  rewrite E, result_bind_Ok. eexists; split; [done|]. split; [by constructor|]. split; [done|]. split; [done|].
  rewrite L3 in R4. split; [exact R4|]. intros i. cbn [_reassembler set_reassembler]. rewrite R7, Z.add_0_l. done.
Qed.

(** C25: what one segment does to the receiver. Before the SYN, a segment without one changes nothing, whatever
    it holds, and the SYN, perhaps with data and FIN, fixes the initial sequence number, and its payload starts
    at index 0. After it, a segment that carries part of the peer's stream [W] at
    absolute number [x], within half the sequence space of the receiver's position, has its payload at
    index [x - 1], which is found from the 32-bit number. No such segment makes the receiver throw; afterwards
    the known bytes are exactly those known before and those of the payload that lie inside the window,
    and the end is known if it was or the segment has a FIN; the reader's position, the capacity and the error flag
    stay. *)
Theorem receiver_segment_exact W isn r x s
  (Hisn : wf_wrapping isn) (HW : #W < 18446744073709551616 - 4294967296)
  (Hr : wf W isn r) (Hs : incoming W isn r x s) :
  exists r', segment_received s r = Ok r' /\ wf W isn r' /\ _syn r' = _syn r || syn (header s) /\
    undisturbed r r' /\ (_syn r' = false -> r' = r) /\
    (_syn r' = true -> _isn r' = isn /\
       _eof (_reassembler r') = _eof (_reassembler r) || fin (header s) /\
       forall i, known (_reassembler r') i <->
         known (_reassembler r) i \/
         (payload_index r x <= i < payload_index r x + #(str (payload s)) /\ i < first_unacceptable (_reassembler r))).
Proof.
  unfold incoming, payload_index in *. destruct (_syn r) eqn:Es; cbn [orb].
  - destruct Hs as [Hs Hn].
    destruct (segment_received_spec W isn Hisn HW r x s Hr Hs Hn) as (r' & E & R1 & R2 & U1 & U2 & U3 & U4 & R3 & R4).
    rewrite Es in R2, R3, R4. cbn [orb andb] in R2, R3. exists r'. split_and!; try done; [by rewrite R2|]. intros _.
    split; [by apply (wf_isn _ _ _ R1)|]. split; [done|]. intros i. rewrite R4. intuition.
  - destruct (syn (header s)) eqn:Esyn.
    + destruct (receiver_syn_spec W isn r s HW Hr Es Esyn (Hs eq_refl)) as (r' & E & R1 & R2 & U & R3 & R4).
      destruct (wf_listen _ _ _ Hr Es) as (_ & _ & L3).
      exists r'. split_and!; try done; [by rewrite R2|]. intros _. split; [by apply (wf_isn _ _ _ R1)|]. by rewrite L3.
    + exists r. unfold segment_received. rewrite Es, Esyn. by split_and!.
Qed.

Definition sample_isn : WrappingInt32 := WrappingInt32_of 4294967295.
Definition sample_syn : TCPSegment :=
  mkTCPSegment (set_syn true (set_seqno sample_isn default_header)) (Buffer_of [x61; x62]).

(** A SYN with the first two bytes. *)
Lemma receiver_segment_exact_witness :
  exists r', segment_received sample_syn (make 10) = Ok r' /\ wf sample_stream sample_isn r' /\ _isn r' = sample_isn /\
    forall i, known (_reassembler r') i <->
      known (_reassembler (make 10)) i \/ (0 <= i < 0 + 2 /\ i < first_unacceptable (_reassembler (make 10))).
Proof.
  destruct (receiver_segment_exact sample_stream sample_isn (make 10) 0 sample_syn) as (r' & E & R1 & R2 & _ & _ & R3);
    [by_compute|by_compute|apply make_receiver_wf; by_compute|
     intros _; split_and!; [reflexivity|by_compute|reflexivity|discriminate]|].
  destruct (R3 R2) as (R4 & _ & R5). exists r'. by split_and!.
Defined.

(** acknowledgment and window. The acknowledgment number exists exactly after the SYN; a
    peer whose checkpoint is within half the sequence space recovers from it the absolute
    number of the first byte that is missing (counting the SYN, and the FIN once the stream
    has ended); that byte is indeed missing; and the window is the capacity less the bytes
    waiting for the reader, and ends at the first unacceptable index. *)
Theorem receiver_ack_window W isn r c
  (Hisn : wf_wrapping isn) (HW : #W < 18446744073709551616 - 4294967296)
  (Hr : wf W isn r) (Hc : 0 <= c < 18446744073709551616 - 4294967296)
  (Hn : -2147483648 < next_expected r - c <= 2147483648) :
  match ackno r with
  | None => _syn r = false
  | Some a => _syn r = true /\ unwrap a isn c = next_expected r
  end /\
  ~ known (_reassembler r) (first_unassembled (_reassembler r)) /\
  (input_ended (stream_out r) = true -> next_expected r = #W + 2) /\
  window_size r = StreamReassembler._capacity (_reassembler r) - buffer_size (stream_out r) /\
  0 <= window_size r /\
  first_unacceptable (_reassembler r) = first_unassembled (_reassembler r) + window_size r.
Proof.
  rewrite (ackno_spec W isn HW r Hr). destruct (window_size_spec W isn r Hr) as [H1 H2].
  pose proof Hr as [Ha _ _]. pose proof (StreamReassembler.wf_core _ _ Ha) as Hcore.
  pose proof (window_bounds W _ Hcore).
  split; [|split; [|split; [|split; [|split]]]]; try done.
  - destruct (_syn r); [|done]. split; [done|]. apply unwrap_wrap_near; try done.
    unfold next_expected. case_if; lia.
  - by apply wf_maximal with W.
  - intros He. unfold next_expected. rewrite He. destruct Hcore.
    specialize (core_ended He). unfold first_unassembled, bytes_written. lia.
  - unfold window_size. rewrite u64_id by lia. lia.
Qed.

Lemma receiver_ack_window_witness :
  match ackno (make 10) with
  | None => _syn (make 10) = false
  | Some a => _syn (make 10) = true /\ unwrap a sample_isn 7 = next_expected (make 10)
  end /\
  ~ known (_reassembler (make 10)) (first_unassembled (_reassembler (make 10))) /\
  (input_ended (stream_out (make 10)) = true -> next_expected (make 10) = #sample_stream + 2) /\
  window_size (make 10) = 10 - 0 /\ 0 <= window_size (make 10) /\
  first_unacceptable (_reassembler (make 10)) =
    first_unassembled (_reassembler (make 10)) + window_size (make 10).
Proof.
  apply (receiver_ack_window sample_stream sample_isn (make 10) 7);
    [by_compute|by_compute|apply make_receiver_wf; by_compute|by_compute|by_compute].
Defined.
