(* ===== verification/Robust.v ===== *)
(** * Receiving from any peer

    The theorems on the reassembler and the receiver are about the segments of a peer that sends
    one stream. This file is about any segments at all, inconsistent ones included. What the
    reassembler does to its indices does not depend on the bytes it stores, so its state behaves
    like the same state with every byte zero ([blank]), which is receiving the stream
    of zeros; only the end of that stream is never announced. *)

From S2P Require Import Prelude WrappingIntegers ByteStream StreamReassembler Buffer TCPHeader.
From S2P Require Import TCPSegment TCPReceiver.

(** ** Forgetting the bytes *)

Definition zeros (d : bytes) : bytes := replicate (length d) x00.
Definition blank_seg (s : Segment) : Segment := mkSegment (_idx s) (zeros (_data s)).
Definition blank_out (o : ByteStream) : ByteStream :=
  mkByteStream (zeros (_buff o)) (capacity o) (bytes_r o) (bytes_w o) false false.
Definition blank (st : StreamReassembler) : StreamReassembler :=
  mkReassembler (blank_out (_output st)) (StreamReassembler._capacity st) 0 (total (_buf st)) false
    (map blank_seg (_buf st)).

Lemma Zlen_zeros d : #(zeros d) = #d.
Proof. unfold Zlen, zeros. by rewrite length_replicate. Qed.

Lemma zeros_app d e : zeros (d ++ e) = zeros d ++ zeros e.
Proof. unfold zeros. by rewrite length_app, replicate_add. Qed.
Lemma zeros_take n d : zeros (take n d) = take n (zeros d).
Proof. unfold zeros. by rewrite length_take, take_replicate, Nat.min_comm. Qed.
Lemma zeros_drop n d : zeros (drop n d) = drop n (zeros d).
Proof. unfold zeros. by rewrite length_drop, drop_replicate. Qed.

Lemma blank_length s : seg_length (blank_seg s) = seg_length s.
Proof. apply Zlen_zeros. Qed.
Lemma blank_tail s : tail_idx (blank_seg s) = tail_idx s.
Proof. unfold tail_idx. by rewrite blank_length. Qed.
Lemma blank_end s : seg_end (blank_seg s) = seg_end s.
Proof. unfold seg_end. simpl. by rewrite Zlen_zeros. Qed.

Lemma blank_total l : total (map blank_seg l) = total l.
Proof. induction l as [|s l IH]; [done|]. simpl. by rewrite IH, Zlen_zeros. Qed.
Lemma blank_chain lo l hi : chain lo (map blank_seg l) hi <-> chain lo l hi.
Proof. revert lo. induction l as [|s l IH]; intros lo; [done|]. simpl. by rewrite blank_end, IH. Qed.

(** Two outcomes that agree. *)
Definition agree {A B} (P : A -> B -> Prop) (r : result A) (r' : result B) : Prop :=
  match r, r' with
  | Ok a, Ok b => P a b
  | Throw e, Throw e' => e = e'
  | Diverge, Diverge => True
  | _, _ => False
  end.

Lemma agree_bind {A A' B B'} (P : A -> A' -> Prop) (Q : B -> B' -> Prop) r r' f f' :
  agree P r r' -> (forall a a', P a a' -> agree Q (f a) (f' a')) -> agree Q (r ≫= f) (r' ≫= f').
Proof. destruct r, r'; simpl; auto; done. Qed.

Abbreviation blanked := (fun s s' => s' = blank_seg s) (only parsing).

Lemma substr_zeros d pos n : agree (fun x y => y = zeros x) (substr d pos n) (substr (zeros d) pos n).
Proof.
  unfold substr. rewrite Zlen_zeros. case_if; [done|]. simpl. by rewrite zeros_take, zeros_drop.
Qed.

Lemma merge_blank a b : agree blanked (_merge_seg a b) (_merge_seg (blank_seg a) (blank_seg b)).
Proof.
  unfold _merge_seg. rewrite !blank_tail, !blank_length. cbn [_idx blank_seg].
  repeat case_if; try done; (eapply agree_bind; [apply substr_zeros|]); intros d ? ->; simpl;
    unfold blank_seg; simpl; by rewrite zeros_app.
Qed.

(** States whose segments agree. *)
Record similar (st z : StreamReassembler) : Prop := {
  similar_buf : _buf z = map blank_seg (_buf st);
  similar_read : first_unread z = first_unread st;
  similar_written : first_unassembled z = first_unassembled st;
  similar_capacity : StreamReassembler._capacity z = StreamReassembler._capacity st
}.

(** Only the stored segments and their count have changed. *)
Definition only_buf (st st' : StreamReassembler) : Prop := exists n, st' = set_buf n (_buf st') st.

Lemma set_insert_blank s l : set_insert (blank_seg s) (map blank_seg l) = map blank_seg (set_insert s l).
Proof.
  induction l as [|x l IH]; [done|]. simpl. unfold seg_less. cbn [_idx blank_seg].
  case_if; [done|]. case_if; [|done]. simpl. by rewrite IH.
Qed.

Lemma buf_insert_similar s st z :
  similar st z -> similar (_buf_insert s st) (_buf_insert (blank_seg s) z) /\ only_buf st (_buf_insert s st).
Proof.
  intros []. split; [|by eexists]. constructor; try done. simpl. by rewrite similar_buf0, set_insert_blank.
Qed.

Lemma buf_erase_similar i st z :
  similar st z -> similar (_buf_erase i st) (_buf_erase i z) /\ only_buf st (_buf_erase i st).
Proof.
  intros Hs. pose proof Hs as []. unfold _buf_erase. rewrite similar_buf0, list_lookup_fmap.
  destruct (_buf st !! i) as [s|] eqn:E; simpl.
  - split; [|by eexists]. constructor; try done. simpl. by rewrite list_fmap_delete.
  - split; [done|]. exists (_unassembled_bytes st). by destruct st.
Qed.

Lemma only_buf_trans a b c : only_buf a b -> only_buf b c -> only_buf a c.
Proof. intros [n E1] [m E2]. exists m. rewrite E2 at 1. rewrite E1 at 1. done. Qed.

Lemma overlap_loop_similar si se n : forall i seg st z,
  similar st z ->
  agree (fun p q => q.1 = blank_seg p.1 /\ similar p.2 q.2 /\ only_buf st p.2)
    (overlap_loop si se n i seg st) (overlap_loop si se n i (blank_seg seg) z).
Proof.
  assert (forall st, only_buf st st) as Hrefl by (intros st; exists (_unassembled_bytes st); by destruct st).
  induction n as [|n IH]; intros i seg st z Hs; [done|].
  cbn [overlap_loop]. rewrite (similar_buf _ _ Hs), list_lookup_fmap.
  destruct (_buf st !! i) as [b|]; [|done]. cbn [fmap option_fmap option_map].
  assert (overlaps si se (blank_seg b) = overlaps si se b) as ->
    by (unfold overlaps; by rewrite blank_tail).
  case_if; [|by apply IH].
  eapply agree_bind; [apply merge_blank|]. intros m ? ->.
  destruct (buf_erase_similar i st z Hs) as [H1 H2].
  specialize (IH i m _ _ H1). destruct (overlap_loop si se n i m _), (overlap_loop si se n i (blank_seg m) _); try done.
  destruct IH as (? & ? & ?). split_and!; try done. by eapply only_buf_trans.
Qed.

Lemma handle_substring_similar seg st z :
  similar st z ->
  agree (fun a b => similar a b /\ only_buf st a) (_handle_substring seg st) (_handle_substring (blank_seg seg) z).
Proof.
  intros Hs. pose proof Hs as [Hb Hr Hw Hc]. unfold _handle_substring.
  assert (first_unacceptable z = first_unacceptable st) as -> by (unfold first_unacceptable; by rewrite Hr, Hc).
  rewrite Hw, blank_tail. cbn [_idx _data blank_seg]. case_if.
  { split; [done|]. exists (_unassembled_bytes st). by destruct st. }
  apply (agree_bind blanked).
  { case_if; [|done]. eapply agree_bind; [apply substr_zeros|]. by intros d ? ->. }
  intros m ? ->. apply (agree_bind blanked).
  { rewrite blank_tail. case_if; [|done]. eapply agree_bind; [apply substr_zeros|]. by intros d ? ->. }
  clear m. intros m ? ->.
  assert (empty z = empty st) as -> by (unfold empty; rewrite Hb; by destruct (_buf st)).
  case_if; [by apply buf_insert_similar|]. unfold _handle_overlap. rewrite Hb, length_map, blank_tail.
  cbn [_idx blank_seg]. eapply agree_bind; [by apply overlap_loop_similar|].
  intros [s1 st1] [s2 st2] (E & H1 & H2). cbn [fst snd] in *. subst s2.
  destruct (buf_insert_similar s1 st1 st2 H1) as [H3 H4]. split; [done|]. by eapply only_buf_trans.
Qed.

(** ** The invariant *)

Section robust.
Context (n : nat).
Abbreviation W := (replicate n x00) (only parsing).
Implicit Type st : StreamReassembler.

(** Without the bytes, a reassembler that is receiving [n] zeros. *)
Record sound st : Prop := {
  sound_core : core W (blank st);
  sound_chain : chain (first_unassembled st + 1) (_buf st) (first_unacceptable st)
}.

Lemma blank_similar st : similar st (blank st).
Proof. by constructor. Qed.

Lemma zeros_good seg :
  0 <= _idx seg -> 0 < #(_data seg) -> seg_end seg <= Z.of_nat n -> good W (blank_seg seg).
Proof.
  intros H1 H2 H3. assert (#W = Z.of_nat n) as HW by (unfold Zlen; by rewrite length_replicate).
  unfold good. rewrite HW, blank_end. cbn [_idx _data blank_seg]. rewrite Zlen_zeros. split_and!; try done.
  unfold slice, zeros, seg_end in *. rewrite drop_replicate, take_replicate. f_equal. unfold Zlen in *. lia.
Qed.

(** What is stored of a substring that begins inside the window. *)
Lemma handle_substring_any st seg :
  sound st -> 0 <= _idx seg -> 0 < #(_data seg) -> first_unacceptable st + #(_data seg) <= Z.of_nat n ->
  exists k b, _handle_substring seg st = Ok (set_buf k b st) /\ core W (blank (set_buf k b st)) /\
    chain (first_unassembled st) b (Z.of_nat n) /\
    Forall (fun b => seg_end b <= first_unacceptable st \/ _idx b <= first_unassembled st) b.
Proof.
  intros [Hc Hch] Hi Hd Hn. destruct (Z.le_gt_cases (first_unacceptable st) (_idx seg)) as [Hout|Hin].
  { exists (_unassembled_bytes st), (_buf st). split_and!.
    - unfold _handle_substring. rewrite (proj2 (Z.geb_le _ _)) by lia. simpl. by destruct st.
    - by destruct st.
    - eapply chain_weaken; [exact Hch|lia|lia].
    - eapply Forall_impl; [|exact (chain_bounds _ _ _ Hch)]. simpl. lia. }
  pose proof (zeros_good seg Hi Hd ltac:(unfold seg_end; lia)) as Hg.
  destruct (handle_substring_spec W (blank st) (blank_seg seg) Hc) as (b' & E & G1 & G2 & G3 & _);
    [by apply blank_chain|done|].
  pose proof (handle_substring_similar seg st (blank st) (blank_similar st)) as HA. rewrite E in HA.
  destruct (_handle_substring seg st) as [st1| |]; try done. destruct HA as [[Hb _ _ _] [k Ek]].
  exists k, (_buf st1). split; [by rewrite <- Ek|]. simpl in Hb. subst b'. split_and!.
  - pose proof (set_buf_core W (blank st) (map blank_seg (_buf st1))) as HS.
    rewrite blank_total in HS. by apply HS.
  - rewrite blank_chain in G2. unfold Zlen in G2. by rewrite length_replicate in G2.
  - rewrite Forall_map in G3. eapply Forall_impl; [|exact G3]. intros s. simpl. by rewrite blank_end.
Qed.

(** The assembly loop of an open stream, without the bytes. *)
Lemma write_blank d o k o' :
  input_ended o = false -> ByteStream.write d o = (k, o') ->
  ByteStream.write (zeros d) (blank_out o) = (k, blank_out o') /\ input_ended o' = false /\
  _buff o `prefix_of` _buff o' /\ bytes_r o' = bytes_r o.
Proof.
  intros Ho. unfold ByteStream.write, remaining_capacity, input_ended in *. rewrite Ho. intros [= <- <-].
  cbn [blank_out _end_input _buff capacity bytes_r bytes_w]. rewrite !Zlen_zeros, !push_loop_app.
  split_and!; try done; [|by eexists]. unfold blank_out. cbn [_buff capacity bytes_r bytes_w].
  by rewrite zeros_app, zeros_take.
Qed.

Lemma assemble_open k : forall st,
  core W (blank st) -> chain (first_unassembled st) (_buf st) (Z.of_nat n) -> input_ended (_output st) = false ->
  blank (assemble_loop k st) = assemble_loop k (blank st) /\
  input_ended (_output (assemble_loop k st)) = false /\
  _buff (_output st) `prefix_of` _buff (_output (assemble_loop k st)).
Proof.
  assert (#W = Z.of_nat n) as HW by (unfold Zlen; by rewrite length_replicate).
  induction k as [|k IH]; intros st Hc Hch Ho; [done|]. cbn [assemble_loop].
  change (_buf (blank st)) with (map blank_seg (_buf st)).
  destruct (_buf st) as [|s r] eqn:Eb; [done|]. cbn [map].
  change (first_unassembled (blank st)) with (first_unassembled st). cbn [blank_seg _idx].
  change (_output (blank st)) with (blank_out (_output st)). change (_data (blank_seg s)) with (zeros (_data s)).
  case_if; [|done].
  destruct (ByteStream.write (_data s) (_output st)) as [j o] eqn:Ew.
  destruct (write_blank _ _ _ _ Ho Ew) as (Ew' & Ho' & Hp & _). rewrite Ew'.
  destruct (assemble_step W (blank st) (blank_seg s) (map blank_seg r) Hc) as (o2 & E2 & E3 & H1 & H2 & _).
  { rewrite HW. simpl. rewrite Eb. by apply (blank_chain _ (s :: r)). }
  { simpl. by rewrite Eb. } { by apply Z.eqb_eq. }
  change (ByteStream.write (_data (blank_seg s)) (_output (blank st)))
    with (ByteStream.write (zeros (_data s)) (blank_out (_output st))) in E2. rewrite Ew' in E2.
  injection E2 as _ <-. cbv zeta in E3, H1, H2. rewrite E3 in *.
  set (st1 := _buf_erase 0 (set_output o st)).
  assert (mkReassembler (blank_out o) (StreamReassembler._capacity (blank st)) (_eof_index (blank st))
    (total (map blank_seg r)) (_eof (blank st)) (map blank_seg r) = blank st1) as Est1.
  { unfold st1, _buf_erase, blank. simpl. rewrite Eb. simpl. by rewrite blank_total. }
  rewrite Est1 in *. assert (_buf st1 = r) as Er by (unfold st1, _buf_erase; simpl; by rewrite Eb).
  assert (_output st1 = o) as Eo by (unfold st1, _buf_erase; simpl; by rewrite Eb).
  destruct (IH st1) as (R1 & R2 & R3); [done| |by rewrite Eo|].
  { destruct Hch as (C1 & C2 & C3). rewrite Er. eapply chain_weaken; [exact C3| |lia].
    change (first_unassembled (blank st1)) with (first_unassembled st1) in H2. rewrite H2.
    rewrite blank_end. lia. }
  split_and!; try done. rewrite Eo in R3. by etransitivity.
Qed.

Lemma chain_inside lo l hi fa fu :
  chain lo l hi -> fu < lo -> Forall (fun b => seg_end b <= fa \/ _idx b <= fu) l -> chain lo l fa.
Proof.
  revert lo. induction l as [|b l IH]; intros lo; [done|]. simpl. intros (C1 & C2 & C3) Hlo HF.
  apply Forall_cons_1 in HF as [HF1 HF2]. split_and!; try lia. apply IH; [done|lia|done].
Qed.

(** After the end of the stream the loop drops what it would have written. *)
Lemma assemble_ended k st :
  input_ended (_output st) = true ->
  chain (first_unassembled st) (_buf st) (Z.of_nat n) ->
  Forall (fun b => seg_end b <= first_unacceptable st \/ _idx b <= first_unassembled st) (_buf st) ->
  (length (_buf st) <= k)%nat ->
  only_buf st (assemble_loop k st) /\ (exists j, _buf (assemble_loop k st) = drop j (_buf st)) /\
  chain (first_unassembled st + 1) (_buf (assemble_loop k st)) (first_unacceptable st).
Proof.
  assert (only_buf st st) as Hrefl by (exists (_unassembled_bytes st); by destruct st).
  intros Ho Hch HF Hk. destruct k as [|k]; simpl.
  { assert (_buf st = []) as E by (destruct (_buf st); simpl in *; [done|lia]).
    split; [done|]. split; [by exists 0%nat|]. by rewrite E. }
  destruct (_buf st) as [|s r] eqn:Eb; [split; [done|]; split; [by exists 0%nat; rewrite Eb|by rewrite Eb]|].
  pose proof Hch as (C1 & C2 & C3). pose proof HF as [HF1 HF2]%Forall_cons_1. case_if.
  - unfold ByteStream.write. rewrite Ho. set (st1 := _buf_erase 0 (set_output (_output st) st)).
    assert (only_buf st st1 /\ _buf st1 = r) as [H1 H2].
    { unfold st1, _buf_erase. simpl. rewrite Eb. split; [|done]. by eexists. }
    assert (assemble_loop k st1 = st1) as ->.
    { destruct k as [|k]; [done|]. simpl. rewrite H2. destruct r as [|s2 r]; [done|].
      destruct H1 as [j ->]. change (first_unassembled (set_buf j (_buf st1) st)) with (first_unassembled st).
      destruct C3 as (C4 & _). by rewrite (proj2 (Z.eqb_neq _ _)) by lia. }
    split; [done|]. rewrite H2. split; [by exists 1%nat|].
    apply (chain_weaken (seg_end s) _ _ (first_unacceptable st)); [|lia|lia].
    apply (chain_inside _ _ _ _ (first_unassembled st) C3); [lia|done].
  - split; [done|]. rewrite Eb. split; [by exists 0%nat|].
    apply (chain_inside _ _ (Z.of_nat n) _ (first_unassembled st)); [|lia|done].
    apply Z.eqb_neq in Heqb. simpl. split_and!; lia || done.
Qed.

(** What holds of the stream the reassembler writes to, whatever arrives. *)
Definition extends (st st' : StreamReassembler) : Prop :=
  _buff (_output st) `prefix_of` _buff (_output st') /\ first_unread st' = first_unread st /\
  StreamReassembler._capacity st' = StreamReassembler._capacity st /\
  first_unassembled st <= first_unassembled st' <= first_unacceptable st /\
  (input_ended (_output st) = true -> input_ended (_output st') = true) /\
  ByteStream.error (_output st') = ByteStream.error (_output st).

Lemma assemble_error k st : ByteStream.error (_output (assemble_loop k st)) = ByteStream.error (_output st).
Proof.
  revert st. induction k as [|k IH]; intros st; [done|]. simpl.
  destruct (_buf st) as [|s r] eqn:Eb; [done|]. case_if; [|done].
  destruct (ByteStream.write _ _) as [j o] eqn:Ew. rewrite IH. unfold _buf_erase. simpl. rewrite Eb. simpl.
  unfold ByteStream.write in Ew. case_if_in Ew; by injection Ew as <- <-.
Qed.

Lemma assemble_any st :
  core W (blank st) -> chain (first_unassembled st) (_buf st) (Z.of_nat n) ->
  Forall (fun b => seg_end b <= first_unacceptable st \/ _idx b <= first_unassembled st) (_buf st) ->
  let st' := assemble_loop (length (_buf st)) st in sound st' /\ extends st st'.
Proof.
  assert (#W = Z.of_nat n) as HW by (unfold Zlen; by rewrite length_replicate).
  intros Hc Hch HF st'. pose proof (window_bounds W (blank st) Hc) as Hw.
  change (first_unacceptable (blank st)) with (first_unacceptable st) in Hw.
  change (first_unassembled (blank st)) with (first_unassembled st) in Hw.
  destruct (input_ended (_output st)) eqn:Ho.
  - destruct (assemble_ended (length (_buf st)) st Ho Hch HF) as ([j E] & [i Hd] & H2); [done|]. fold st' in E, Hd, H2.
    rewrite E. split; [split; [|exact H2]|split_and!; try done; change (first_unassembled (set_buf _ _ _)) with (first_unassembled st); lia].
    destruct Hc. constructor; try done.
    + simpl. rewrite Hd. apply Forall_map, Forall_drop. exact (proj1 (Forall_map _ _ (_buf st)) core_good).
    + simpl. by rewrite blank_total.
  - destruct (assemble_open (length (_buf st)) st Hc Hch Ho) as (E1 & E2 & E3). fold st' in E1, E2, E3.
    destruct (assemble_spec W (length (_buf st)) (blank st)) as (R1 & R2 & R3 & R4 & _ & _ & _ & _ & R5 & _);
      [simpl; by rewrite length_map|done|rewrite HW; simpl; by apply blank_chain| |].
    { simpl. apply Forall_map. eapply Forall_impl; [|exact HF]. intros b. simpl. by rewrite blank_end. }
    rewrite <- E1 in R1, R2, R3, R4, R5. pose proof (window_bounds W (blank st') R1) as Hw'.
    assert (first_unacceptable st' = first_unacceptable st) as Hfa.
    { change (first_unread st' = first_unread st) in R3.
      change (StreamReassembler._capacity st' = StreamReassembler._capacity st) in R4.
      unfold first_unacceptable. by rewrite R3, R4. }
    split; [split; [done|]|].
    + exact (proj1 (blank_chain _ (_buf st') _) R2).
    + split_and!; try done.
      * change (first_unassembled st' <= first_unacceptable st). rewrite <- Hfa. apply Hw'.
      * by rewrite Ho.
      * apply assemble_error.
Qed.

(** [push_substring] of anything anywhere. *)
Lemma push_substring_any st data index eof :
  sound st -> 0 <= index -> first_unacceptable st + #data <= Z.of_nat n ->
  exists st', push_substring data index eof st = Ok st' /\ sound st' /\ extends st st'.
Proof.
  intros Hs Hi Hn. unfold push_substring. set (st0 := if eof then _ else st).
  assert (sound st0 /\ first_unacceptable st0 = first_unacceptable st /\ (forall st', extends st0 st' -> extends st st'))
    as (Hs0 & Hfa & Hext) by (unfold st0; by destruct eof; destruct Hs).
  assert (exists st1, match data with [] => Ok st0 | _ => _handle_substring (mkSegment index data) st0 end = Ok st1 /\
    core W (blank st1) /\ chain (first_unassembled st1) (_buf st1) (Z.of_nat n) /\
    Forall (fun b => seg_end b <= first_unacceptable st1 \/ _idx b <= first_unassembled st1) (_buf st1) /\
    (forall st', extends st1 st' -> extends st0 st')) as (st1 & -> & H1 & H2 & H3 & H4).
  { rewrite <- Hfa in Hn. destruct data as [|x d] eqn:Ed.
    - exists st0. destruct Hs0 as [Hc Hch]. rewrite Zlen_nil in Hn. split_and!; try done.
      + eapply chain_weaken; [exact Hch|lia|lia].
      + eapply Forall_impl; [|exact (chain_bounds _ _ _ Hch)]. simpl. lia.
    - rewrite <- Ed in *. destruct (handle_substring_any st0 (mkSegment index data)) as (k & b & E & G1 & G2 & G3); try done.
      { simpl. subst data. rewrite Zlen_cons. pose proof (Zlen_nonneg d). lia. }
      exists (set_buf k b st0). by split_and!. }
  rewrite result_bind_Ok. destruct (assemble_any st1 H1 H2 H3) as [H5 H6]. set (st2 := assemble_loop _ _) in *.
  case_if; (eexists; split; [done|]); [|by split; [|apply Hext, H4]].
  destruct H5 as [[] Hch]. split.
  - split; [|done]. constructor; try done.
  - apply Hext, H4. by destruct H6 as (? & ? & ? & ? & ? & ?).
Qed.

Lemma sound_wf st : sound st <-> StreamReassembler.wf W (blank st).
Proof.
  split; [intros [Hc Hch]; constructor; [done|by apply blank_chain|done]|].
  intros [Hc Hch _]. split; [done|]. by apply (blank_chain _ (_buf st)).
Qed.

Lemma sound_buffer st : sound st -> #(_buff (_output st)) <= StreamReassembler._capacity st.
Proof.
  intros [[] _]. destruct core_output as [_ Hf _ _ _]. simpl in *. rewrite Zlen_zeros in Hf. lia.
Qed.

Lemma total_blank l : total (map blank_seg l) = total l.
Proof. induction l as [|s l IH]; [done|]. cbn [map total]. rewrite IH. unfold seg_length. simpl. by rewrite Zlen_zeros. Qed.
Lemma sound_memory st : sound st -> #(_buff (_output st)) + total (_buf st) <= StreamReassembler._capacity st.
Proof.
  intros Hs. apply sound_wf in Hs. pose proof (StreamReassembler.core_count _ _ (StreamReassembler.wf_core _ _ Hs)) as Hc.
  apply wf_memory in Hs. unfold buffer_size, StreamReassembler.stream_out, StreamReassembler.unassembled_bytes in Hs.
  cbn in Hs. by rewrite Zlen_zeros in Hs.
Qed.

Lemma sound_unacceptable st :
  sound st -> first_unassembled st <= first_unacceptable st <= first_unassembled st + StreamReassembler._capacity st.
Proof.
  intros [Hc _]. pose proof (window_bounds W _ Hc) as Hw. pose proof (first_unacceptable_eq W _ Hc) as E.
  change (first_unacceptable (blank st)) with (first_unacceptable st) in *.
  change (first_unassembled (blank st)) with (first_unassembled st) in *.
  change (StreamReassembler._capacity (blank st)) with (StreamReassembler._capacity st) in E. lia.
Qed.

(** The reader takes bytes off the front. *)
Lemma pop_sound k st :
  sound st -> 0 <= k -> let st' := set_output (pop_output k (_output st)) st in
  sound st' /\ first_unassembled st' = first_unassembled st /\
  _buff (_output st) = peek_output k (_output st) ++ _buff (_output st') /\
  first_unread st' = first_unread st + #(peek_output k (_output st)).
Proof.
  intros Hs Hk st'. pose proof Hs as [[_ [W1 W2 W3 W4 W5] _ _ _ _ _ _ _] _]. split_and!.
  - apply sound_wf. apply sound_wf in Hs. destruct (read_output_wf W k (blank st) Hs Hk) as [Hr _].
    assert (blank st' = (read_output k (blank st)).2) as ->; [|done].
    unfold read_output, stream_out, ByteStream.read, blank, st'. simpl. f_equal.
    unfold blank_out, pop_output. simpl. by rewrite Zlen_zeros, !pop_loop_drop, zeros_drop.
  - done.
  - unfold st', pop_output, peek_output. simpl. by rewrite pop_loop_drop, take_drop.
  - simpl in W1, W3, W4, W5. rewrite Zlen_zeros in W4. unfold st', first_unread, bytes_read, pop_output, peek_output. simpl.
    pose proof (Zlen_nonneg (_buff (_output st))). rewrite Zlen_take by lia. rewrite u64_id; lia.
Qed.
End robust.

(** ** The receiver *)

Lemma segment_received_any n seg r :
  sound n (_reassembler r) -> first_unacceptable (_reassembler r) + #(str (payload seg)) <= Z.of_nat n ->
  exists r', segment_received seg r = Ok r' /\ sound n (_reassembler r') /\
    extends (_reassembler r) (_reassembler r').
Proof.
  intros Hs Hn. unfold segment_received, copy.
  assert (extends (_reassembler r) (_reassembler r)) as Hrefl.
  { pose proof (sound_unacceptable n _ Hs). split_and!; try done; lia. }
  case_if; [case_if; [by exists r|]|].
  - destruct (push_substring_any n (_reassembler r) (str (payload seg)) 0 (fin (header seg))) as (a & E & H1 & H2);
      [done..|]. cbn [_reassembler]. rewrite E, result_bind_Ok. by eexists.
  - set (i := u64 _). destruct (push_substring_any n (_reassembler r) (str (payload seg)) i (fin (header seg)))
      as (a & E & H1 & H2); [done|apply u64_range|done|]. rewrite E, result_bind_Ok. by eexists.
Qed.

(** What can happen to a receiver: any segment arrives, or the owner reads. *)
Inductive input :=
| Arrives (seg : TCPSegment)
| Reads (len : Z).

Definition any_input (i : input) : Prop :=
  match i with
  | Arrives seg => size (payload seg) < 4294967296
  | Reads len => 0 <= len
  end.

(** The receiver with the bytes that have been read from it. *)
Definition receive (i : input) (s : TCPReceiver * bytes) : result (TCPReceiver * bytes) :=
  match i with
  | Arrives seg => r ← segment_received seg s.1; Ok (r, s.2)
  | Reads len => let '(d, r) := read_stream len s.1 in Ok (r, s.2 ++ d)
  end.

Fixpoint receive_all (l : list input) (s : TCPReceiver * bytes) : result (TCPReceiver * bytes) :=
  match l with
  | [] => Ok s
  | i :: l => s ← receive i s; receive_all l s
  end.

(** All that the owner has read or can read. *)
Definition assembled (s : TCPReceiver * bytes) : bytes := s.2 ++ _buff (stream_out s.1).

Lemma receive_any n i s :
  sound n (_reassembler s.1) -> any_input i ->
  first_unacceptable (_reassembler s.1) + 4294967296 <= Z.of_nat n ->
  exists s', receive i s = Ok s' /\ sound n (_reassembler s'.1) /\ assembled s `prefix_of` assembled s' /\
    StreamReassembler._capacity (_reassembler s'.1) = StreamReassembler._capacity (_reassembler s.1) /\
    first_unassembled (_reassembler s'.1) <=
      first_unassembled (_reassembler s.1) + StreamReassembler._capacity (_reassembler s.1).
Proof.
  intros Hs Hi Hn. destruct s as [r d]. cbn [fst snd] in *. pose proof (sound_unacceptable n _ Hs) as Hu.
  destruct i as [seg|len]; cbn [receive fst snd any_input] in *.
  - destruct (segment_received_any n seg r Hs) as (r' & E & H1 & H2 & _ & H3 & H4 & _); [unfold size in Hi; lia|].
    rewrite E, result_bind_Ok. eexists; split_and!; [done|done|by apply prefix_app|done|simpl; lia].
  - destruct (pop_sound n len (_reassembler r) Hs Hi) as (H1 & H2 & H3 & _).
    eexists; split_and!; [done|done| |done|]; [|change (first_unassembled (_reassembler r) <=
      first_unassembled (_reassembler r) + StreamReassembler._capacity (_reassembler r)); lia].
    unfold assembled. cbn [fst snd]. unfold read_stream, read_output, ByteStream.read, stream_out. simpl.
    rewrite <- app_assoc. change (StreamReassembler.stream_out (_reassembler r)) with (_output (_reassembler r)).
    simpl in H3. by rewrite <- H3.
Qed.

(** No peer can harm the receiver. Whatever segments arrive, also ones that contradict each
    other or lie about their place or the end of the stream, and whenever the owner reads, no call
    throws, the bytes waiting for the owner stay within the capacity, and what has been
    assembled is never changed: later it is still there, perhaps with more after it. The only
    bound is on the product of the number of steps and the capacity, so that 64-bit
    counters do not overflow. *)
Theorem receiver_robust cap l l' :
  0 <= cap < 4294967296 -> Forall any_input (l ++ l') -> Z.of_nat (length (l ++ l')) * cap < 9223372036854775808 ->
  exists s s', receive_all l (make cap, []) = Ok s /\ receive_all l' s = Ok s' /\
    assembled s `prefix_of` assembled s' /\ buffer_size (stream_out s'.1) <= cap.
Proof.
  intros Hc Hl Hb. remember (Z.of_nat (length (l ++ l')) * cap + cap + 4294967296) as N eqn:EN.
  assert (forall l s j, sound (Z.to_nat N) (_reassembler s.1) -> Forall any_input l ->
    StreamReassembler._capacity (_reassembler s.1) = cap ->
    first_unassembled (_reassembler s.1) <= j * cap -> 0 <= j -> (j + Z.of_nat (length l)) * cap + cap + 4294967296 <= N ->
    exists s', receive_all l s = Ok s' /\ sound (Z.to_nat N) (_reassembler s'.1) /\
      StreamReassembler._capacity (_reassembler s'.1) = cap /\ assembled s `prefix_of` assembled s' /\
      first_unassembled (_reassembler s'.1) <= (j + Z.of_nat (length l)) * cap) as Hall.
  { clear l l' Hl Hb EN. induction l as [|i l IH]; intros s j Hs Hl Ecap Hj Hj0 HN.
    - exists s. rewrite Z.add_0_r. by split_and!.
    - apply Forall_cons_1 in Hl as [Hi Hl]. pose proof (sound_unacceptable _ _ Hs) as Hu.
      destruct (receive_any _ i s Hs Hi) as (s1 & E1 & H1 & H2 & H3 & H4).
      { rewrite Z2Nat.id by nia. rewrite length_cons in HN. nia. }
      cbn [receive_all]. rewrite E1, result_bind_Ok. rewrite length_cons in HN |- *.
      destruct (IH s1 (j + 1)) as (s' & E' & G1 & G2 & G3 & G4); [done|done|by rewrite H3|nia|lia|nia|].
      exists s'. split_and!; try done; [by etransitivity|nia]. }
  rewrite length_app in *. apply Forall_app in Hl as [Hl1 Hl2].
  assert (sound (Z.to_nat N) (_reassembler (make cap))) as H0.
  { apply sound_wf. apply (make_reassembler_wf _ cap); [lia|]. unfold Zlen. rewrite length_replicate. lia. }
  destruct (Hall l (make cap, []) 0) as (s & E & H1 & H2 & H3 & H4); [done..|simpl; lia|subst N; nia|].
  destruct (Hall l' s (Z.of_nat (length l))) as (s' & E' & G1 & G2 & G3 & G4); [done..|lia|subst N; nia|].
  exists s, s'. split_and!; try done. pose proof (sound_buffer _ _ G1). unfold buffer_size. rewrite G2 in *. done.
Qed.

(** Contradictory data, a FIN in the middle, data after it and a segment far away. *)
Definition hostile_segment (s : Z) (is_syn is_fin : bool) (d : bytes) : TCPSegment :=
  mkTCPSegment (mkTCPHeader 0 0 (WrappingInt32_of s) (WrappingInt32_of 0) 5 false false false false is_syn is_fin 0 0 0)
    (Buffer_of d).
Definition hostile_inputs : list input :=
  [Arrives (hostile_segment 100 true false [x01]); Arrives (hostile_segment 101 false false [x02; x03]);
   Arrives (hostile_segment 102 false true [x04; x05; x06; x07])].
Definition hostile_inputs_later : list input :=
  [Reads 1; Arrives (hostile_segment 100 false true [x08; x09]); Arrives (hostile_segment 104 false false [x0a; x0b; x0c; x0d; x0e])].

Lemma receiver_robust_witness :
  exists s s', receive_all hostile_inputs (make 4, []) = Ok s /\ receive_all hostile_inputs_later s = Ok s' /\
    assembled s = [x01; x03; x05; x06] /\
    assembled s `prefix_of` assembled s' /\ buffer_size (stream_out s'.1) <= 4.
Proof.
  destruct (receiver_robust 4 hostile_inputs hostile_inputs_later) as (s & s' & E & E' & H);
    [lia|repeat (constructor; [by_compute|]); constructor|vm_compute; reflexivity|].
  exists s, s'. split_and!; [exact E|exact E'| |exact (proj1 H)|exact (proj2 H)].
  revert E. vm_compute. by intros [= <-].
Defined.
