(* ===== verification/TCPSender.v ===== *)
(** * The sender (src/libsponge/tcp_sender.hh, tcp_sender.cc, tcp_helpers/tcp_config.hh)

    Cuts the outgoing byte stream into segments that fit the peer's window, keeps
    them until they are acknowledged, and retransmits the oldest one when its
    timer expires. *)

From S2P Require Import Prelude WrappingIntegers ByteStream Buffer TCPHeader TCPSegment TCPReceiver.

(** ** Configuration (class TCPConfig) *)

Definition DEFAULT_CAPACITY : Z := 64000.
Definition MAX_PAYLOAD_SIZE : Z := 1000.
Definition TIMEOUT_DFLT : Z := 1000.
Definition MAX_RETX_ATTEMPTS : Z := 8.

Record TCPConfig := mkTCPConfig {
  rt_timeout : Z;
  recv_capacity : Z;
  send_capacity : Z;
  fixed_isn : option WrappingInt32
}.

Definition default_config : TCPConfig :=
  mkTCPConfig TIMEOUT_DFLT DEFAULT_CAPACITY DEFAULT_CAPACITY None.

(** ** RetransmissionTimer *)

Record RetransmissionTimer := mkTimer {
  _remaining_time : Z;
  _is_expired : bool;
  _is_started : bool
}.

Definition new_timer : RetransmissionTimer := mkTimer 0 false false.
Definition is_start (t : RetransmissionTimer) : bool := _is_started t.
Definition is_expired (t : RetransmissionTimer) : bool := _is_expired t && _is_started t.
Definition timer_start (rto : Z) (t : RetransmissionTimer) : RetransmissionTimer :=
  mkTimer rto false true.
Definition timer_stop (t : RetransmissionTimer) : RetransmissionTimer := mkTimer 0 false false.
Definition timer_tick (ms_since_last_tick : Z) (t : RetransmissionTimer) : RetransmissionTimer :=
  if negb (is_start t) then t
  else if ms_since_last_tick >=? _remaining_time t
  then mkTimer (_remaining_time t) true (_is_started t)
  else mkTimer (u32 (_remaining_time t - ms_since_last_tick)) (_is_expired t) (_is_started t).

(** ** TCPSender *)

Record TCPSender := mkTCPSender {
  _isn : WrappingInt32;
  _segments_out : list TCPSegment;
  _initial_retransmission_timeout : Z;
  _stream : ByteStream;
  _next_seqno : Z;
  _RTO : Z;
  _retransmission_count : Z;
  _last_ackno : Z;
  _last_win : Z;
  _timer : RetransmissionTimer;
  _outstanding_seg : list TCPSegment
}.

(** The constructor; [random] is the value of [random_device()()]. *)
Definition make (capacity retx_timeout : Z) (fixed_isn : option WrappingInt32) (random : Z)
  : TCPSender :=
  mkTCPSender (default (WrappingInt32_of random) fixed_isn) [] retx_timeout
    (ByteStream.make capacity) 0 retx_timeout 0 0 1 new_timer [].

(** Assignments to some of the members. *)
Definition set_out (q : list TCPSegment) (s : TCPSender) : TCPSender :=
  mkTCPSender (_isn s) q (_initial_retransmission_timeout s) (_stream s) (_next_seqno s) (_RTO s)
    (_retransmission_count s) (_last_ackno s) (_last_win s) (_timer s) (_outstanding_seg s).
Definition set_stream (b : ByteStream) (s : TCPSender) : TCPSender :=
  mkTCPSender (_isn s) (_segments_out s) (_initial_retransmission_timeout s) b (_next_seqno s) (_RTO s)
    (_retransmission_count s) (_last_ackno s) (_last_win s) (_timer s) (_outstanding_seg s).
Definition set_next_seqno (n : Z) (s : TCPSender) : TCPSender :=
  mkTCPSender (_isn s) (_segments_out s) (_initial_retransmission_timeout s) (_stream s) n (_RTO s)
    (_retransmission_count s) (_last_ackno s) (_last_win s) (_timer s) (_outstanding_seg s).
Definition set_backoff (rto count : Z) (s : TCPSender) : TCPSender :=
  mkTCPSender (_isn s) (_segments_out s) (_initial_retransmission_timeout s) (_stream s) (_next_seqno s)
    rto count (_last_ackno s) (_last_win s) (_timer s) (_outstanding_seg s).
Definition set_last_ackno (a : Z) (s : TCPSender) : TCPSender :=
  mkTCPSender (_isn s) (_segments_out s) (_initial_retransmission_timeout s) (_stream s) (_next_seqno s)
    (_RTO s) (_retransmission_count s) a (_last_win s) (_timer s) (_outstanding_seg s).
Definition set_last_win (w : Z) (s : TCPSender) : TCPSender :=
  mkTCPSender (_isn s) (_segments_out s) (_initial_retransmission_timeout s) (_stream s) (_next_seqno s)
    (_RTO s) (_retransmission_count s) (_last_ackno s) w (_timer s) (_outstanding_seg s).
Definition set_timer (t : RetransmissionTimer) (s : TCPSender) : TCPSender :=
  mkTCPSender (_isn s) (_segments_out s) (_initial_retransmission_timeout s) (_stream s) (_next_seqno s)
    (_RTO s) (_retransmission_count s) (_last_ackno s) (_last_win s) t (_outstanding_seg s).
Definition set_outstanding (q : list TCPSegment) (s : TCPSender) : TCPSender :=
  mkTCPSender (_isn s) (_segments_out s) (_initial_retransmission_timeout s) (_stream s) (_next_seqno s)
    (_RTO s) (_retransmission_count s) (_last_ackno s) (_last_win s) (_timer s) q.

Definition stream_in (s : TCPSender) : ByteStream := _stream s.
Definition segments_out (s : TCPSender) : list TCPSegment := _segments_out s.
Definition next_seqno_absolute (s : TCPSender) : Z := _next_seqno s.
Definition next_seqno (s : TCPSender) : WrappingInt32 := wrap (_next_seqno s) (_isn s).
Definition consecutive_retransmissions (s : TCPSender) : Z := _retransmission_count s.

Definition bytes_in_flight (s : TCPSender) : Z := u64 (_next_seqno s - _last_ackno s).

(** Assignments to parts of a segment. *)
Definition on_header (f : TCPHeader -> TCPHeader) (seg : TCPSegment) : TCPSegment :=
  mkTCPSegment (f (header seg)) (payload seg).
Definition set_payload (b : Buffer) (seg : TCPSegment) : TCPSegment :=
  mkTCPSegment (header seg) b.

(** [send_segment]: its argument is a reference, so the segment with its sequence
    number is returned too. *)
Definition send_segment (seg : TCPSegment) (s : TCPSender) : TCPSegment * TCPSender :=
  let seg := on_header (set_seqno (next_seqno s)) seg in
  let s := set_next_seqno (u64 (_next_seqno s + length_in_sequence_space seg)) s in
  let s := set_out (_segments_out s ++ [seg]) s in
  let s := set_outstanding (_outstanding_seg s ++ [seg]) s in
  let s := if negb (is_start (_timer s)) then set_timer (timer_start (_RTO s) (_timer s)) s else s in
  (seg, s).

(** The loop of [fill_window]. The segment object is declared before the loop, so
    what one turn stores in it is still there in the next. *)
Fixpoint fill_loop (fuel : nat) (cur_win : Z) (seg : TCPSegment) (s : TCPSender) : result TCPSender :=
  match fuel with
  | O => Diverge
  | S fuel =>
      let remaining_win := u64 (cur_win - bytes_in_flight s) in
      if remaining_win =? 0 then Ok s
      else if negb (eof (stream_in s)) && (next_seqno_absolute s >? bytes_in_flight s) then
        let payload_size := Z.min MAX_PAYLOAD_SIZE remaining_win in
        let '(data, b) := ByteStream.read payload_size (stream_in s) in
        let s := set_stream b s in
        let seg := set_payload (Buffer_of data) seg in
        let seg := if eof (stream_in s) && (length_in_sequence_space seg <? remaining_win)
                   then on_header (set_fin true) seg else seg in
        if length_in_sequence_space seg =? 0 then Ok s
        else
          let '(seg, s) := send_segment seg s in
          fill_loop fuel cur_win seg s
      else if eof (stream_in s) then
        if next_seqno_absolute s <? u64 (bytes_written (stream_in s) + 2) then
          let seg := on_header (set_fin true) seg in
          Ok (send_segment seg s).2
        else Ok s
      else fill_loop fuel cur_win seg s
  end.

(** Every turn of the loop that is not the last reads at least one byte. *)
Definition fill_fuel (s : TCPSender) : nat := length (_buff (stream_in s)) + 2.

Definition fill_window (s : TCPSender) : result TCPSender :=
  let seg := default_segment in
  if next_seqno_absolute s =? 0 then
    Ok (send_segment (on_header (set_syn true) seg) s).2
  else if (next_seqno_absolute s >? 0) && (next_seqno_absolute s =? bytes_in_flight s) then Ok s
  else
    let cur_win := if _last_win s =? 0 then 1 else _last_win s in
    fill_loop (fill_fuel s) cur_win seg s.

(** The loop of [ack_received], which pops the front of the outstanding queue. *)
Fixpoint pop_acked (ackno : WrappingInt32) (q : list TCPSegment) : list TCPSegment :=
  match q with
  | [] => []
  | seg :: r =>
      if u64 (raw_value (seqno (header seg)) + length_in_sequence_space seg) <=? raw_value ackno
      then pop_acked ackno r else q
  end.

Definition ack_received (ackno : WrappingInt32) (window_size : Z) (s : TCPSender) : result TCPSender :=
  let abs_ack := unwrap ackno (_isn s) (_last_ackno s) in
  if abs_ack >? _next_seqno s then Ok s
  else
    let s :=
      if abs_ack >? _last_ackno s then
        let s := set_last_ackno abs_ack s in
        let s := set_outstanding (pop_acked ackno (_outstanding_seg s)) s in
        let s := set_backoff (_initial_retransmission_timeout s) 0 s in
        match _outstanding_seg s with
        | _ :: _ => set_timer (timer_start (_RTO s) (_timer s)) s
        | [] => set_timer (timer_stop (_timer s)) s
        end
      else s in
    let s := set_last_win window_size s in
    fill_window s.

Definition tick (ms_since_last_tick : Z) (s : TCPSender) : TCPSender :=
  let s := set_timer (timer_tick ms_since_last_tick (_timer s)) s in
  match _outstanding_seg s with
  | seg :: _ =>
      if is_expired (_timer s) then
        let s := set_out (_segments_out s ++ [seg]) s in
        let s := if _last_win s >? 0
                 then set_backoff (u32 (_RTO s * 2)) (u32 (_retransmission_count s + 1)) s else s in
        set_timer (timer_start (_RTO s) (_timer s)) s
      else s
  | [] => set_timer (timer_stop (_timer s)) s
  end.

Definition send_empty_segment (s : TCPSender) : TCPSender :=
  let seg := on_header (set_seqno (next_seqno s)) default_segment in
  set_out (_segments_out s ++ [seg]) s.

(** ** Invariant *)

(** Segment [seg] was cut from the stream [W] at absolute number [x], and lies before
    number [n]; a FIN is sent only when the input has [ended]. *)
Definition emitted (W : bytes) (isn : WrappingInt32) (n : Z) (ended : bool) (x : Z)
    (seg : TCPSegment) : Prop :=
  carries W isn x seg /\ x + length_in_sequence_space seg <= n /\
  #(str (payload seg)) <= MAX_PAYLOAD_SIZE /\ (fin (header seg) = true -> ended = true) /\
  wf_segment seg.

(** Segments without gaps or overlaps from number [x] to number [n]. *)
Fixpoint chain (W : bytes) (isn : WrappingInt32) (n : Z) (ended : bool) (x : Z)
    (l : list TCPSegment) : Prop :=
  match l with
  | [] => x = n
  | seg :: r =>
      emitted W isn n ended x seg /\ 0 < length_in_sequence_space seg /\
      chain W isn n ended (x + length_in_sequence_space seg) r
  end.

(** The unacknowledged segments [q] reach from some number at or below the last
    acknowledged number [la] to the next number [n]: no byte that is sent and not
    acknowledged is missing from the queue. *)
Definition retained (W : bytes) (isn : WrappingInt32) (la n : Z) (ended : bool)
    (q : list TCPSegment) : Prop :=
  exists x, 0 <= x <= la /\ raw_value isn + x < 4294967296 /\ chain W isn n ended x q.

(** The part of the invariant that holds also between reading bytes and sending them. *)
Record core (W : bytes) (s : TCPSender) : Prop := {
  core_stream : ByteStream.wf (_stream s);
  core_contents : contents W (_stream s);
  core_size : #W + 2 < 18446744073709551616 - 4294967296;
  core_isn : wf_wrapping (_isn s);
  core_ack : 0 <= _last_ackno s <= _next_seqno s;
  core_next : _next_seqno s <= #W + 2;
  core_win : 0 <= _last_win s < 65536;
  core_outstanding :
    retained W (_isn s) (_last_ackno s) (_next_seqno s) (input_ended (_stream s)) (_outstanding_seg s);
  core_queue : Forall (fun seg => exists x,
    emitted W (_isn s) (_next_seqno s) (input_ended (_stream s)) x seg) (_segments_out s);
  core_timer : _outstanding_seg s <> [] -> is_start (_timer s) = true;
  core_timeout : 0 <= _initial_retransmission_timeout s < 65536
}.

(** The position of the sender: nothing sent, or the SYN and every byte read, or also the FIN. *)
Definition position (s : TCPSender) : Prop :=
  (_next_seqno s = 0 /\ bytes_read (_stream s) = 0) \/
  _next_seqno s = 1 + bytes_read (_stream s) \/
  (_next_seqno s = 2 + bytes_read (_stream s) /\ eof (_stream s) = true).

(** [W] is the sequence of all bytes ever written to the sender's stream. *)
Record wf (W : bytes) (s : TCPSender) : Prop := {
  wf_core : core W s;
  wf_position : position s
}.

(** ** Lemmas *)

Lemma seg_length seg :
  #(str (payload seg)) <= MAX_PAYLOAD_SIZE ->
  length_in_sequence_space seg =
    #(str (payload seg)) + (if syn (header seg) then 1 else 0) + (if fin (header seg) then 1 else 0).
Proof.
  unfold MAX_PAYLOAD_SIZE. intros. pose proof (Zlen_nonneg (str (payload seg))).
  unfold length_in_sequence_space. apply u64_id. repeat case_if; lia.
Qed.

Lemma seg_length_nonneg seg : 0 <= length_in_sequence_space seg.
Proof. apply u64_range. Qed.
#[export] Hint Resolve seg_length_nonneg : sponge.

Lemma emitted_mono W isn n n' e e' x seg :
  emitted W isn n e x seg -> n <= n' -> (e = true -> e' = true) -> emitted W isn n' e' x seg.
Proof. intros (? & ? & ? & ? & ?) ??. unfold emitted. split_and!; try done; [lia|auto]. Qed.

Lemma emitted_grow W d isn n e x seg :
  emitted W isn n e x seg -> (e = true -> d = []) -> emitted (W ++ d) isn n e x seg.
Proof. intros (? & ? & ? & ? & ?) ?. unfold emitted. split_and!; try done. apply carries_grow; auto. Qed.

Lemma chain_app W isn n e x l seg :
  chain W isn n e x l -> 0 < length_in_sequence_space seg ->
  emitted W isn (n + length_in_sequence_space seg) e n seg ->
  chain W isn (n + length_in_sequence_space seg) e x (l ++ [seg]).
Proof.
  intros Hl Hp Hs. revert x Hl. induction l as [|a l IH]; intros x; simpl.
  - intros ->. done.
  - intros (H1 & H2 & H3). split_and!; [|done|by apply IH].
    eapply emitted_mono; [done|lia|done].
Qed.

Lemma chain_grow W d isn n e e' x l :
  chain W isn n e x l -> (e = true -> d = []) -> (e = true -> e' = true) ->
  chain (W ++ d) isn n e' x l.
Proof.
  intros Hl Hd He. revert x Hl. induction l as [|a l IH]; intros x; simpl; [done|].
  intros (H1 & H2 & H3). split_and!; [|done|by apply IH].
  apply emitted_mono with n e; [by apply emitted_grow|lia|done].
Qed.

Lemma chain_start W isn n e x l : chain W isn n e x l -> x <= n.
Proof. destruct l; simpl; [lia|]. intros ((? & ? & ?) & ? & ?). lia. Qed.

(** Popping acknowledged segments keeps all that is not acknowledged by [a]: a segment
    that reaches the end of the 32-bit space is never popped, so the raw numbers compared
    belong to the same turn of the sequence space. *)
Lemma chain_pop W isn n e a l x :
  wf_wrapping isn -> 0 <= a -> chain W isn n e x l -> raw_value isn + x < 4294967296 -> 0 <= x ->
  exists y, x <= y <= Z.max x a /\ raw_value isn + y < 4294967296 /\
    chain W isn n e y (pop_acked (wrap a isn) l).
Proof.
  intros Hi Ha. revert x. induction l as [|seg l IH]; intros x Hc Hr Hx; [exists x; by split_and!; [lia..|]|].
  cbn [pop_acked]. pose proof Hc as (((_ & Hs & _) & _ & Hm & _) & H2 & H3). rewrite Hs, !raw_wrap.
  pose proof (Zlen_nonneg (str (payload seg))). pose proof (seg_length seg Hm) as Hl.
  unfold MAX_PAYLOAD_SIZE in Hm. unfold wf_wrapping in Hi. rewrite (u32_id (raw_value isn + x)) by lia.
  assert (length_in_sequence_space seg <= 1002) by (rewrite Hl; repeat case_if; lia).
  rewrite u64_id by lia. case_if.
  - assert (x + length_in_sequence_space seg <= a /\
      raw_value isn + (x + length_in_sequence_space seg) < 4294967296) as [] by words_lia.
    destruct (IH _ H3) as (y & ? & ? & ?); [lia..|]. exists y. split_and!; try done; lia.
  - exists x. by split_and!; [lia..|].
Qed.

Lemma bytes_in_flight_eq W s : core W s -> bytes_in_flight s = _next_seqno s - _last_ackno s.
Proof. intros []. apply u64_id. lia. Qed.

Lemma wf_on_header f seg :
  wf_segment seg -> wf_header (f (header seg)) -> doff (f (header seg)) = doff (header seg) ->
  wf_segment (on_header f seg).
Proof. intros (? & ? & ?) ? E. unfold wf_segment; simpl. rewrite E. done. Qed.

Lemma wf_set_seqno v seg : wf_wrapping v -> wf_segment seg -> wf_segment (on_header (set_seqno v) seg).
Proof. intros ? Hs. apply wf_on_header; [done| |done]. destruct Hs as ((? & ? & ? & ? & ?) & _). done. Qed.

Lemma wf_set_flag f seg : f = set_fin \/ f = set_syn \/ f = set_rst -> forall b,
  wf_segment seg -> wf_segment (on_header (f b) seg).
Proof. intros [->|[->| ->]] b Hs; (apply wf_on_header; [done|by destruct Hs as [? _]|done]). Qed.

Lemma wf_set_payload d seg : #d <= MAX_PAYLOAD_SIZE -> wf_segment seg -> wf_segment (set_payload (Buffer_of d) seg).
Proof.
  intros Hd (? & ? & ?). split; [done|]. split; [done|]. apply Buffer_of_wf.
  unfold MAX_PAYLOAD_SIZE in Hd. lia.
Qed.

Lemma default_segment_wf : wf_segment default_segment.
Proof. by_compute. Qed.

(** The segment as [send_segment] queues it. *)
Definition stamped (seg : TCPSegment) (s : TCPSender) : TCPSegment :=
  on_header (set_seqno (next_seqno s)) seg.

Lemma send_segment_core W seg s :
  core W s -> let k := length_in_sequence_space seg in
  0 < k -> _next_seqno s + k <= #W + 2 ->
  emitted W (_isn s) (_next_seqno s + k) (input_ended (_stream s)) (_next_seqno s) (stamped seg s) ->
  core W (send_segment seg s).2.
Proof.
  intros [] k Hk Hn He. unfold send_segment. fold (stamped seg s).
  change (length_in_sequence_space (stamped seg s)) with k in *. cbn [fst snd].
  rewrite (u64_id (_next_seqno s + k)) by lia.
  destruct core_outstanding0 as (x & Hx1 & Hx2 & Hx).
  assert (chain W (_isn s) (_next_seqno s + k) (input_ended (_stream s)) x
            (_outstanding_seg s ++ [stamped seg s])) as Hc
    by (by apply (chain_app _ _ _ _ _ _ (stamped seg s))).
  assert (Forall (fun seg => exists x, emitted W (_isn s) (_next_seqno s + k)
            (input_ended (_stream s)) x seg) (_segments_out s ++ [stamped seg s])) as Hq.
  { apply Forall_app. split; [|repeat constructor; eauto].
    eapply Forall_impl; [|exact core_queue0]. intros a [y Hy]. exists y.
    eapply emitted_mono; [done|lia|done]. }
  case_if; constructor; simpl in *; try done; try lia; try (exists x; split_and!; done || lia).
  by apply negb_false_iff in Heqb.
Qed.

(** The members that [send_segment] leaves alone. *)
Lemma send_segment_frame seg s :
  let s' := (send_segment seg s).2 in
  (send_segment seg s).1 = stamped seg s /\
  _isn s' = _isn s /\ _stream s' = _stream s /\ _last_ackno s' = _last_ackno s /\
  _last_win s' = _last_win s /\ _RTO s' = _RTO s /\
  _retransmission_count s' = _retransmission_count s /\
  _next_seqno s' = u64 (_next_seqno s + length_in_sequence_space seg) /\
  _segments_out s' = _segments_out s ++ [stamped seg s] /\
  _outstanding_seg s' = _outstanding_seg s ++ [stamped seg s] /\
  _initial_retransmission_timeout s' = _initial_retransmission_timeout s.
Proof. unfold send_segment. cbn [fst snd]. case_if; simpl; split_and!; done. Qed.

Lemma set_stream_core W b s :
  core W s -> ByteStream.wf b -> contents W b -> input_ended b = input_ended (_stream s) ->
  core W (set_stream b s).
Proof. intros [] ?? E. constructor; simpl; rewrite ?E; done. Qed.

(** One turn of the loop that sends data: [n] bytes are read, and sent with a FIN if [f]. *)
Lemma data_turn W n f seg s :
  wf W s -> _next_seqno s = 1 + bytes_r (_stream s) -> 0 <= n <= MAX_PAYLOAD_SIZE ->
  syn (header seg) = false -> fin (header seg) = f -> wf_segment seg ->
  let r := ByteStream.read n (_stream s) in
  (f = true -> eof r.2 = true) ->
  let seg1 := set_payload (Buffer_of r.1) seg in
  let k := #(r.1) + (if f then 1 else 0) in
  0 < k ->
  length_in_sequence_space seg1 = k /\
  wf W (send_segment seg1 (set_stream r.2 s)).2 /\
  _next_seqno (send_segment seg1 (set_stream r.2 s)).2 = _next_seqno s + k.
Proof.
  intros [Hc Hp] Hnext Hn Hsyn Hfin Hseg r Heof seg1 k Hk.
  pose proof Hc as []. pose proof core_contents0 as [HW Hb].
  destruct (read_spec W n (_stream s)) as (R1 & R2 & R3 & R4 & R5 & R6 & R7 & R8 & R9 & R10);
    try done; [lia|]. fold r in R1, R2, R3, R4, R5, R6, R7, R8, R9, R10.
  set (m := Z.min n _) in *. pose proof (Zlen_nonneg (_buff (_stream s))). clearbody r.
  assert (length_in_sequence_space seg1 = k) as Hlen.
  { rewrite seg_length; simpl; rewrite str_Buffer_of; [|lia]. rewrite Hsyn, Hfin. lia. }
  assert (f = true -> bytes_r r.2 = bytes_w r.2) as Hf by (intros; apply eof_read_all; auto).
  pose proof R3 as []. pose proof core_stream0 as []. pose proof (Zlen_nonneg (_buff r.2)). pose proof R4 as [HW2 HB2].
  assert (_next_seqno s + k <= #W + 2) as Hle by (unfold k; destruct f; lia).
  assert (core W (set_stream r.2 s)) as Hc1 by (by apply set_stream_core).
  split; [done|]. pose proof (send_segment_frame seg1 (set_stream r.2 s)) as (_ & F1 & F2 & F3 & F4 & F5 & F6 & F7 & _).
  cbn zeta in *. rewrite Hlen in F7. change (_next_seqno (set_stream r.2 s)) with (_next_seqno s) in F7.
  rewrite u64_id in F7 by lia. split; [|done].
  split.
  - apply send_segment_core; rewrite ?Hlen; [done|done|done|].
    split; [|split; [|split; [|split]]]; simpl; rewrite ?str_Buffer_of; try lia.
    + split_and!; simpl; rewrite ?str_Buffer_of; [lia|done|congruence|]. right.
      rewrite R2. split_and!; try lia.
      * rewrite R1. f_equal; lia.
      * intros Ht. rewrite Hfin in Ht. specialize (Hf Ht). lia.
    + change (length_in_sequence_space (stamped seg1 (set_stream r.2 s)))
        with (length_in_sequence_space seg1). lia.
    + intros Ht. rewrite Hfin in Ht. specialize (Heof Ht). apply eof_spec in Heof. tauto.
    + apply wf_set_seqno; [apply wf_wrap|]. apply wf_set_payload; [lia|done].
  - unfold position, bytes_read. rewrite F2, F7. simpl. unfold k. destruct f.
    + right; right. split; [lia|auto].
    + right; left. lia.
Qed.

(** What sending keeps, and that the new segments go to both queues. *)
Record filled (s s' : TCPSender) : Prop := {
  filled_isn : _isn s' = _isn s;
  filled_init : _initial_retransmission_timeout s' = _initial_retransmission_timeout s;
  filled_rto : _RTO s' = _RTO s;
  filled_count : _retransmission_count s' = _retransmission_count s;
  filled_ack : _last_ackno s' = _last_ackno s;
  filled_win : _last_win s' = _last_win s;
  filled_written : bytes_w (_stream s') = bytes_w (_stream s);
  filled_ended : input_ended (_stream s') = input_ended (_stream s);
  filled_error : error (_stream s') = error (_stream s);
  filled_capacity : capacity (_stream s') = capacity (_stream s);
  filled_next : _next_seqno s <= _next_seqno s';
  filled_queues : exists new, _segments_out s' = _segments_out s ++ new /\
    _outstanding_seg s' = _outstanding_seg s ++ new
}.

#[global] Instance filled_preorder : PreOrder filled.
Proof.
  split.
  - intros s. constructor; try done. exists []. by rewrite !app_nil_r.
  - intros a b c [] []. constructor; try congruence; [lia|].
    destruct filled_queues0 as (n1 & E1 & E2), filled_queues1 as (n2 & E3 & E4).
    exists (n1 ++ n2). rewrite E3, E1, E4, E2, !app_assoc. done.
Qed.

Lemma send_filled seg s :
  _next_seqno s <= _next_seqno (send_segment seg s).2 -> filled s (send_segment seg s).2.
Proof.
  pose proof (send_segment_frame seg s) as (_ & F1 & F2 & F3 & F4 & F5 & F6 & F7 & F8 & F9 & F10).
  cbn zeta in *. intros. constructor; try congruence. by exists [stamped seg s].
Qed.

(** Nothing is left to send. *)
Definition exhausted (s : TCPSender) : Prop :=
  _buff (_stream s) = [] /\
  (input_ended (_stream s) = true -> _next_seqno s = bytes_written (_stream s) + 2).

(** The last turn of the loop at the end of the stream sends a bare FIN. *)
Lemma fin_turn W seg s :
  wf W s -> eof (_stream s) = true -> _next_seqno s = 1 + bytes_r (_stream s) ->
  syn (header seg) = false -> str (payload seg) = [] -> wf_segment seg ->
  let s' := (send_segment (on_header (set_fin true) seg) s).2 in
  wf W s' /\ filled s s' /\ exhausted s' /\ _next_seqno s' = _next_seqno s + 1.
Proof.
  intros [Hc Hp] He Hn Hs Hpay Hseg s'. pose proof Hc as []. pose proof core_contents0 as [HW Hb].
  pose proof core_stream0 as []. apply eof_spec in He as [He1 He2].
  rewrite He2, Zlen_nil in *.
  assert (length_in_sequence_space (on_header (set_fin true) seg) = 1) as Hlen
    by (unfold length_in_sequence_space; simpl; by rewrite Hs, Hpay).
  pose proof (send_segment_frame (on_header (set_fin true) seg) s) as (_ & F1 & F2 & _ & _ & _ & _ & F7 & _).
  fold s' in F1, F2, F7. cbn zeta in *. rewrite Hlen, u64_id in F7 by lia.
  assert (core W s') as Hc'.
  { apply send_segment_core; rewrite ?Hlen; [done|lia|lia|].
    split; [|split; [|split; [|split]]]; simpl; rewrite ?Hpay, ?Zlen_nil.
    - split_and!; simpl; rewrite ?Hpay, ?Zlen_nil; [lia|done|congruence|]. right.
      split_and!; try lia. rewrite slice_empty by lia. done.
    - change (_next_seqno s + length_in_sequence_space (on_header (set_fin true) seg) <= _next_seqno s + 1). lia.
    - by unfold MAX_PAYLOAD_SIZE.
    - done.
    - apply wf_set_seqno; [apply wf_wrap|]. apply wf_set_flag; auto. }
  split_and!; [|apply send_filled; fold s'; lia| |done].
  - split; [done|]. right; right. unfold bytes_read. rewrite F2, F7. split; [lia|].
    by apply eof_spec.
  - unfold exhausted. rewrite F2, F7. split; [done|]. unfold bytes_written. lia.
Qed.

(** The segment object between two turns of the loop: no SYN; a FIN only if it was sent; and
    no old payload where a bare FIN could still be sent. *)
Definition clean (cur_win : Z) (seg : TCPSegment) (s : TCPSender) : Prop :=
  wf_segment seg /\ syn (header seg) = false /\
  (fin (header seg) = true -> eof (_stream s) = true /\ _next_seqno s = 2 + bytes_r (_stream s)) /\
  (eof (_stream s) = true -> _next_seqno s = 1 + bytes_r (_stream s) ->
   bytes_in_flight s <> cur_win -> str (payload seg) = []).

Lemma remaining_zero W cur_win s :
  core W s -> 1 <= cur_win < 65536 ->
  (u64 (cur_win - bytes_in_flight s) =? 0) = (bytes_in_flight s =? cur_win).
Proof. intros Hc Hw. rewrite (bytes_in_flight_eq W s Hc). destruct Hc. words_lia. Qed.

(** The segment that a turn with data sends: the bytes read, with a FIN if it fits. *)
Definition cut (rem : Z) (data : bytes) (b : ByteStream) (seg : TCPSegment) : TCPSegment :=
  let seg := set_payload (Buffer_of data) seg in
  if eof b && (length_in_sequence_space seg <? rem) then on_header (set_fin true) seg else seg.

Lemma cut_spec rem data b seg :
  #data <= MAX_PAYLOAD_SIZE -> syn (header seg) = false -> fin (header seg) = false ->
  let f := eof b && (#data <? rem) in
  let seg1 := if f then on_header (set_fin true) seg else seg in
  cut rem data b seg = set_payload (Buffer_of data) seg1 /\
  syn (header seg1) = false /\ fin (header seg1) = f /\
  length_in_sequence_space (cut rem data b seg) = #data + (if f then 1 else 0).
Proof.
  intros Hd Hs Hf f seg1.
  assert (length_in_sequence_space (set_payload (Buffer_of data) seg) = #data) as Hl.
  { rewrite seg_length; simpl; rewrite str_Buffer_of; [|done]. rewrite Hs, Hf. lia. }
  unfold cut. rewrite Hl. fold f. unfold seg1. destruct f; split_and!; try done; [|by rewrite Hl; lia].
  rewrite seg_length; simpl; rewrite str_Buffer_of; [|done]. rewrite Hs. lia.
Qed.

(** A turn before the end of the stream: it finds no byte and stops, or sends a segment. *)
Lemma fill_turn W cur_win seg s :
  wf W s -> 0 < _last_ackno s -> 1 <= cur_win < 65536 -> clean cur_win seg s ->
  bytes_in_flight s <> cur_win -> eof (_stream s) = false ->
  let rem := u64 (cur_win - bytes_in_flight s) in
  let r := ByteStream.read (Z.min MAX_PAYLOAD_SIZE rem) (_stream s) in
  let seg1 := cut rem r.1 r.2 seg in
  let s1 := set_stream r.2 s in
  let s2 := (send_segment seg1 s1).2 in
  if length_in_sequence_space seg1 =? 0 then
    wf W s1 /\ filled s s1 /\ exhausted s1 /\ bytes_in_flight s1 = bytes_in_flight s
  else
    wf W s2 /\ filled s s2 /\ clean cur_win (send_segment seg1 s1).1 s2 /\
    (length (_buff (_stream s2)) < length (_buff (_stream s)))%nat /\
    (bytes_in_flight s <= cur_win -> bytes_in_flight s2 <= cur_win).
Proof.
  intros Hwf Hla Hcw (Hseg & Hsyn & Hfin & Hpay) Hbn He. cbn zeta.
  pose proof Hwf as [Hc Hp]. pose proof (bytes_in_flight_eq W s Hc) as Hbif.
  pose proof (remaining_zero W cur_win s Hc Hcw) as Hrz. set (rem := u64 _) in *.
  pose proof (u64_range (cur_win - bytes_in_flight s)) as Hru. fold rem in Hru.
  pose proof Hc as []. pose proof core_contents0 as [HW Hb]. pose proof core_stream0 as [].
  assert (_next_seqno s = 1 + bytes_r (_stream s)) as Hn.
  { destruct Hp as [?|[?|[? E]]]; [lia|done|congruence]. }
  assert (fin (header seg) = false) as Hf.
  { destruct (fin (header seg)); [|done]. destruct Hfin; [done|congruence]. }
  set (n := Z.min MAX_PAYLOAD_SIZE rem). assert (1 <= n <= MAX_PAYLOAD_SIZE) by (unfold MAX_PAYLOAD_SIZE in *; lia).
  pose proof (data_turn W n) as HT. pose proof (Zlen_nonneg (_buff (_stream s))).
  destruct (read_spec W n (_stream s)) as (_ & R2 & R3 & R4 & R5 & R6 & R7 & R8 & R9 & R10);
    try done; [lia|].
  set (data := (ByteStream.read n (_stream s)).1) in *. set (b := (ByteStream.read n (_stream s)).2) in *.
  set (m := Z.min n _) in *.
  assert (eof b = true -> 0 < #data) as Hne.
  { intros [E1 E2]%eof_spec. rewrite R7 in E1. unfold eof in He. rewrite E1, buffer_empty_size in He.
    unfold buffer_size in He. simpl in He. lia. }
  destruct (cut_spec rem data b seg) as (C1 & C2 & C3 & C4); [lia|done..|]. rewrite C4.
  set (f := eof b && _) in *. set (seg1 := if f then _ else _) in *.
  assert (f = true -> eof b = true) as Hfe by (unfold f; intros [? ?]%andb_prop; done).
  assert (wf_segment seg1) as Hseg1 by (unfold seg1; case_if; [apply wf_set_flag|]; auto).
  case_if.
  - assert (_buff b = []) as Hbb by (apply Zlen_zero; unfold Zlen in *; destruct f; lia).
    split_and!; [| |split|done]; try done.
    + split; [by apply set_stream_core|]. right; left. unfold bytes_read; cbn [set_stream _stream _next_seqno].
      destruct f; lia.
    + constructor; cbn [set_stream _stream _next_seqno]; try done. exists []. by rewrite !app_nil_r.
    + intros Hie. assert (0 < #data) by (apply Hne, eof_spec; done).
      destruct f; lia.
  - rewrite C1. specialize (HT f seg1 s Hwf Hn ltac:(lia) C2 C3 Hseg1). cbn zeta in HT. fold data b in HT.
    destruct (HT Hfe ltac:(destruct f; lia)) as (T1 & T2 & T3). clear HT.
    pose proof (send_segment_frame (set_payload (Buffer_of data) seg1) (set_stream b s))
      as (F0 & F1 & F2 & F3 & F4 & F5 & F6 & F7 & F8 & F9 & F10). rewrite F0.
    set (s2 := (send_segment _ _).2) in *. cbn [_stream set_stream _last_ackno] in F2, F3.
    pose proof (bytes_in_flight_eq W s2 (wf_core _ _ T2)) as Hbif2. rewrite F3, T3 in Hbif2.
    assert (#data + (if f then 1 else 0) <= rem) as Hk by (unfold f; case_if; lia).
    split_and!; [done| | | |].
    + constructor; rewrite ?F2; try done; [destruct f; lia|]. by eexists [_].
    + split; [apply wf_set_seqno; [apply wf_wrap|by apply wf_set_payload; [lia|]]|].
      split_and!; simpl; [done|rewrite C3, F2, T3|rewrite F2, T3].
      { intros Hft. rewrite Hft. split; [auto|lia]. }
      { intros Heb Hnx Hne2. exfalso. apply Hne2. rewrite Hbif2.
        unfold f in *. rewrite Heb in *. simpl in *. unfold rem in *. case_if; words_lia. }
    + rewrite F2. unfold Zlen in *. destruct f; [specialize (Hne (Hfe eq_refl))|]; lia.
    + intros Hle. rewrite Hbif2. unfold rem in Hk. rewrite u64_id in Hk by lia. lia.
Qed.

(** The loop returns, and stops only when the window is full or nothing is left. *)
Lemma fill_loop_spec W cur_win fuel : forall seg s,
  wf W s -> 0 < _last_ackno s -> 1 <= cur_win < 65536 ->
  (length (_buff (_stream s)) < fuel)%nat -> clean cur_win seg s ->
  exists s', fill_loop fuel cur_win seg s = Ok s' /\ wf W s' /\ filled s s' /\
    (bytes_in_flight s' = cur_win \/ exhausted s') /\
    (bytes_in_flight s <= cur_win -> bytes_in_flight s' <= cur_win).
Proof.
  induction fuel as [|fuel IH]; intros seg s Hwf Hla Hcw Hfuel Hclean; [lia|].
  pose proof Hwf as [Hc Hp]. pose proof (bytes_in_flight_eq W s Hc) as Hbif.
  cbn [fill_loop]. rewrite (remaining_zero W) by done.
  case_if; [apply Z.eqb_eq in Heqb; exists s; split_and!; try done; by left|]. apply Z.eqb_neq in Heqb.
  unfold next_seqno_absolute. assert ((_next_seqno s >? bytes_in_flight s) = true) as -> by lia.
  rewrite andb_true_r. unfold stream_in. destruct (eof (_stream s)) eqn:He; cbn [negb].
  - pose proof Hc as []. pose proof (eof_read_all _ core_stream0 He) as Hrw.
    destruct core_contents0 as [HW _].
    unfold position, bytes_read in Hp. unfold bytes_written. rewrite u64_id by lia. case_if.
    + assert (_next_seqno s = 1 + bytes_r (_stream s)) as Hn by lia.
      destruct (fin_turn W seg s) as (T1 & T2 & T3 & T4); try done; [apply Hclean|by apply Hclean|apply Hclean|].
      eexists; split; [done|]. split_and!; try done; [by right|].
      intros. pose proof (bytes_in_flight_eq W _ (wf_core _ _ T1)) as ->. rewrite T4.
      destruct T2. lia.
    + exists s. split_and!; try done. right. apply eof_spec in He as [? ?].
      split; [done|]. intros _. unfold bytes_written. lia.
  - pose proof (fill_turn W cur_win seg s Hwf Hla Hcw Hclean Heqb He) as HT. cbn zeta in HT.
    destruct (ByteStream.read _ _) as [data b]. cbn [fst snd] in HT.
    change (_stream (set_stream b s)) with b. fold (cut (u64 (cur_win - bytes_in_flight s)) data b seg).
    case_if; [|destruct (send_segment _ _) as [seg2 s2]; cbn [fst snd] in HT].
    + destruct HT as (T1 & T2 & T3 & T4). exists (set_stream b s).
      split_and!; [done|done|done|by right|by rewrite T4].
    + destruct HT as (T1 & T2 & T3 & T4 & T5).
      destruct (IH seg2 s2) as (s' & E & H1 & H2 & H3 & H4); try done; [by rewrite (filled_ack _ _ T2)|lia|].
      exists s'. split_and!; auto. by transitivity s2.
Qed.

(** The window [fill_window] works with: a zero window is probed with one byte. *)
Definition effective_win (s : TCPSender) : Z := if _last_win s =? 0 then 1 else _last_win s.

Lemma effective_win_range W s : core W s -> 1 <= effective_win s < 65536.
Proof. intros []. unfold effective_win. case_if; lia. Qed.

(** The first call sends the SYN alone. *)
Lemma syn_turn W s :
  wf W s -> _next_seqno s = 0 ->
  let s' := (send_segment (on_header (set_syn true) default_segment) s).2 in
  wf W s' /\ filled s s' /\ _next_seqno s' = 1.
Proof.
  intros [Hc Hp] Hn s'. pose proof Hc as []. pose proof (Zlen_nonneg W).
  assert (bytes_r (_stream s) = 0) as Hr by (unfold position, bytes_read in Hp; destruct core_stream0; lia).
  pose proof (send_segment_frame (on_header (set_syn true) default_segment) s)
    as (_ & F1 & F2 & _ & _ & _ & _ & F7 & _).
  fold s' in F1, F2, F7. cbn zeta in *. rewrite Hn in F7. change (u64 (0 + _)) with 1 in F7.
  split_and!; [split| |done].
  - apply send_segment_core; [done|by_compute|rewrite Hn; change (0 + 1 <= #W + 2); lia|].
    rewrite Hn. split; [|split; [|split; [|split]]]; [|done|done|done|apply wf_set_seqno; [apply wf_wrap|by_compute]].
    split_and!; [lia| |done|by left]. simpl. unfold next_seqno.
    by rewrite Hn.
  - right; left. unfold bytes_read. rewrite F7, F2, Hr. done.
  - apply send_filled. fold s'. lia.
Qed.

Lemma fill_window_spec W s :
  wf W s ->
  exists s', fill_window s = Ok s' /\ wf W s' /\ filled s s' /\
    0 < _next_seqno s' /\
    (0 < _last_ackno s -> bytes_in_flight s' = effective_win s \/ exhausted s') /\
    (bytes_in_flight s <= effective_win s -> bytes_in_flight s' <= effective_win s).
Proof.
  intros Hwf. pose proof Hwf as [Hc Hp]. pose proof (bytes_in_flight_eq W s Hc) as Hbif.
  pose proof (effective_win_range W s Hc) as Hw. pose proof Hc as [].
  unfold fill_window, next_seqno_absolute. case_if.
  - destruct (syn_turn W s) as (T1 & T2 & T3); [done|lia|].
    eexists; split; [done|]. rewrite (bytes_in_flight_eq W _ (wf_core _ _ T1)), T3, (filled_ack _ _ T2).
    split_and!; try done; lia.
  - case_if.
    + exists s. split_and!; try done; lia.
    + fold (effective_win s).
      destruct (fill_loop_spec W (effective_win s) (fill_fuel s) default_segment s)
        as (s' & E & H1 & H2 & H3 & H4); try done; [lia|unfold fill_fuel, stream_in; lia|].
      exists s'. split_and!; try done. destruct H2. lia.
Qed.

Lemma unwrap_nonneg n isn c : 0 <= unwrap n isn c.
Proof. unfold unwrap. case_if; apply u64_range. Qed.

(** The state of [ack_received] when it calls [fill_window]. *)
Definition acked (ackno : WrappingInt32) (window_size : Z) (s : TCPSender) : TCPSender :=
  let abs_ack := unwrap ackno (_isn s) (_last_ackno s) in
  set_last_win window_size
    (if abs_ack >? _last_ackno s then
       let q := pop_acked ackno (_outstanding_seg s) in
       set_timer (match q with
                  | _ :: _ => timer_start (_initial_retransmission_timeout s) (_timer s)
                  | [] => timer_stop (_timer s)
                  end)
         (set_backoff (_initial_retransmission_timeout s) 0 (set_outstanding q (set_last_ackno abs_ack s)))
     else s).

Lemma ack_received_eq ackno w s :
  ack_received ackno w s =
    if unwrap ackno (_isn s) (_last_ackno s) >? _next_seqno s then Ok s
    else fill_window (acked ackno w s).
Proof.
  unfold ack_received, acked. destruct (_ >? _next_seqno s); [done|]. destruct (_ >? _last_ackno s); [|done].
  cbn [_outstanding_seg set_outstanding set_last_ackno set_backoff]. by destruct (pop_acked _ _).
Qed.

Lemma acked_wf W ackno w s :
  wf W s -> wf_wrapping ackno -> 0 <= w < 65536 ->
  unwrap ackno (_isn s) (_last_ackno s) <= _next_seqno s ->
  wf W (acked ackno w s).
Proof.
  intros [[] Hp] Ha Hw Hle. pose proof (unwrap_nonneg ackno (_isn s) (_last_ackno s)).
  unfold acked. case_if; [|by split; [constructor|]].
  destruct core_outstanding0 as (x & Hx1 & Hx2 & Hx). set (a := unwrap _ _ _) in *.
  assert (wrap a (_isn s) = ackno) as Hwa by (apply wrap_unwrap; [done|lia]).
  destruct (chain_pop _ _ _ _ a _ _ core_isn0 H Hx Hx2) as (y & Hy1 & Hy2 & Hy); [lia|].
  rewrite Hwa in Hy. split; [|done]. 
  constructor; simpl; try done; [exists y; split_and!; try done; lia|].
  by destruct (pop_acked _ _).
Qed.

Lemma set_stream_wf W d b s :
  wf W s -> ByteStream.wf b -> contents (W ++ d) b -> bytes_r b = bytes_r (_stream s) ->
  (input_ended (_stream s) = true -> d = [] /\ input_ended b = true) ->
  #(W ++ d) + 2 < 18446744073709551616 - 4294967296 ->
  wf (W ++ d) (set_stream b s).
Proof.
  intros [[] Hp] Hb Hcb Hr He Hs. pose proof (Zlen_nonneg d).
  assert (forall x seg, emitted W (_isn s) (_next_seqno s) (input_ended (_stream s)) x seg ->
    emitted (W ++ d) (_isn s) (_next_seqno s) (input_ended b) x seg) as Hem.
  { intros x seg Hem. apply (emitted_mono _ _ (_next_seqno s) _ (input_ended (_stream s))); [|lia|tauto].
    apply emitted_grow; tauto. }
  split; [constructor; simpl; try done|].
  - rewrite Zlen_app. lia.
  - destruct core_outstanding0 as (x & Hx1 & Hx2 & Hx). exists x. split_and!; try lia.
    eapply chain_grow; [done|tauto|tauto].
  - eapply Forall_impl; [|exact core_queue0]. intros seg [x Hx]. eauto.
  - unfold position, bytes_read in *; simpl. rewrite Hr. destruct Hp as [?|[?|[? Heof]]]; [by left|auto|].
    right; right. split; [done|]. pose proof (eof_read_all _ core_stream0 Heof) as Hrw.
    apply eof_spec in Heof as [E1 E2]. destruct (He E1) as [-> E3]. rewrite app_nil_r in *.
    apply eof_spec. split; [done|]. destruct Hcb as [C1 C2], core_contents0 as [D1 D2].
    rewrite C2. apply slice_empty. lia.
Qed.

(** The owner's operations on [stream_in()]. *)
Definition write_stream (data : bytes) (s : TCPSender) : Z * TCPSender :=
  let '(n, b) := ByteStream.write data (stream_in s) in (n, set_stream b s).
Definition end_stream (s : TCPSender) : TCPSender := set_stream (ByteStream.end_input (stream_in s)) s.
Definition set_stream_error (s : TCPSender) : TCPSender :=
  set_stream (ByteStream.set_error (stream_in s)) s.

Lemma write_stream_wf W data s :
  wf W s -> #W + #data + 2 < 18446744073709551616 - 4294967296 ->
  wf (W ++ take (Z.to_nat (write_stream data s).1) data) (write_stream data s).2 /\
  (input_ended (_stream s) = true -> take (Z.to_nat (write_stream data s).1) data = []).
Proof.
  intros Hwf Hb. pose proof Hwf as [[] _]. pose proof (core_contents0) as [HW _].
  pose proof (Zlen_nonneg data). unfold write_stream, stream_in.
  assert (bytes_w (_stream s) + #data < 18446744073709551616) as Hd by lia.
  pose proof (write_contents W data _ core_stream0 core_contents0 Hd) as Hc.
  pose proof (write_wf data _ core_stream0 Hd) as Hw.
  assert (input_ended (_stream s) = true -> ByteStream.write data (_stream s) = (0, _stream s)) as He
    by (intros He; unfold ByteStream.write; by rewrite He).
  assert (bytes_r (ByteStream.write data (_stream s)).2 = bytes_r (_stream s)) as Hr
    by (unfold ByteStream.write; by case_if).
  destruct (ByteStream.write data (_stream s)) as [n b]. cbn [fst snd] in *.
  split; [|intros [= -> ->]%He; done].
  apply set_stream_wf; try done.
  - intros E. specialize (He E). injection He as -> ->. done.
  - rewrite Zlen_app. unfold Zlen in *. rewrite length_take. lia.
Qed.

Lemma end_stream_wf W s : wf W s -> wf W (end_stream s).
Proof.
  intros Hwf. pose proof Hwf as [[] _]. rewrite <- (app_nil_r W). apply set_stream_wf; auto with sponge;
    by rewrite app_nil_r.
Qed.

Lemma set_stream_error_wf W s : wf W s -> wf W (set_stream_error s).
Proof.
  intros Hwf. pose proof Hwf as [[] _]. rewrite <- (app_nil_r W). apply set_stream_wf; auto with sponge;
    by rewrite app_nil_r.
Qed.

Lemma ack_received_spec W ackno w s :
  wf W s -> wf_wrapping ackno -> 0 <= w < 65536 ->
  exists s', ack_received ackno w s = Ok s' /\ wf W s' /\
    _isn s' = _isn s /\ bytes_w (_stream s') = bytes_w (_stream s) /\
    input_ended (_stream s') = input_ended (_stream s) /\ error (_stream s') = error (_stream s) /\
    _next_seqno s <= _next_seqno s' /\ _last_ackno s <= _last_ackno s' /\ capacity (_stream s') = capacity (_stream s).
Proof.
  intros Hwf Ha Hw. rewrite ack_received_eq. case_if.
  { exists s. split_and!; done || lia. }
  destruct (fill_window_spec W (acked ackno w s)) as (s' & E & H1 & [] & _); [by apply acked_wf; [..|lia]|].
  assert (_isn (acked ackno w s) = _isn s /\ _stream (acked ackno w s) = _stream s /\
    _next_seqno (acked ackno w s) = _next_seqno s /\ _last_ackno s <= _last_ackno (acked ackno w s))
    as (E1 & E2 & E3 & E4).
  { unfold acked. case_if; simpl; split_and!; done || lia. }
  rewrite E2 in *. exists s'. split_and!; try done; try congruence; lia.
Qed.

Lemma tick_wf W ms s : wf W s -> wf W (tick ms s).
Proof.
  intros [[] Hp]. unfold tick. cbn [set_timer _outstanding_seg].
  assert (is_start (timer_tick ms (_timer s)) = is_start (_timer s)) as Ht
    by (unfold timer_tick, is_start; by repeat case_if).
  destruct (_outstanding_seg s) as [|seg q] eqn:Eq.
  { split; [|done]. by constructor; simpl; rewrite ?Eq. }
  case_if.
  - assert (Forall (fun seg => exists x, emitted W (_isn s) (_next_seqno s) (input_ended (_stream s)) x seg)
              (_segments_out s ++ [seg])) as Hq.
    { apply Forall_app. split; [done|]. repeat constructor. destruct core_outstanding0 as (x & _ & _ & Hx). exists x. apply Hx. }
    cbn [_last_win set_out set_timer]. case_if; (split; [|done]); by constructor; simpl; rewrite ?Eq.
  - split; [|done]. by constructor; simpl; rewrite ?Ht, ?Eq.
Qed.

(** [send_empty_segment] queues a segment that carries nothing. *)
Lemma send_empty_segment_wf W s : wf W s -> wf W (send_empty_segment s).
Proof.
  intros [[] Hp]. split; [|done]. constructor; simpl; try done. apply Forall_app. split; [done|].
  repeat constructor. exists (_next_seqno s).
  split; [|split; [|split; [|split]]]; try done;
    [|change (_next_seqno s + 0 <= _next_seqno s); lia|apply wf_set_seqno; [apply wf_wrap|by_compute]].
  split_and!; [lia|done|done|by left].
Qed.

Lemma set_out_wf W q s :
  wf W s -> Forall (fun seg => exists x, emitted W (_isn s) (_next_seqno s) (input_ended (_stream s)) x seg) q ->
  wf W (set_out q s).
Proof. intros [[] Hp] Hq. split; [|done]. by constructor. Qed.

Lemma make_sender_wf cap timeout isn rnd :
  0 <= cap < 18446744073709551616 -> 0 <= timeout < 65536 ->
  (forall i, isn = Some i -> wf_wrapping i) -> wf [] (make cap timeout isn rnd).
Proof.
  intros. assert (wf_wrapping (default (WrappingInt32_of rnd) isn)) as Hw
    by (destruct isn; simpl; [auto|apply u32_range]).
  split; [|by left]. constructor; simpl; rewrite ?Zlen_nil; try done; try lia; auto with sponge.
  exists 0. unfold wf_wrapping in Hw. split_and!; done || lia.
Qed.

(** The sequence numbers a list of segments occupies. *)
Fixpoint span (l : list TCPSegment) : Z :=
  match l with [] => 0 | seg :: r => length_in_sequence_space seg + span r end.

(** Before the 32-bit numbers wrap, exactly the segments that [a] covers are popped. *)
Lemma pop_acked_exact W isn n e a l x :
  wf_wrapping isn -> 0 <= x -> 0 <= a <= n -> chain W isn n e x l -> raw_value isn + n < 4294967296 ->
  x <= a ->
  exists popped, l = popped ++ pop_acked (wrap a isn) l /\ x + span popped <= a /\
    match pop_acked (wrap a isn) l with
    | [] => True
    | seg :: _ => a < x + span popped + length_in_sequence_space seg
    end.
Proof.
  intros Hi Hx Ha. revert x Hx. induction l as [|seg l IH]; intros x Hx Hc Hn Hle; [exists []; simpl; split_and!; done || lia|].
  pose proof Hc as (((_ & Hs & _) & Hb & Hm & _) & H2 & H3). pose proof (chain_start _ _ _ _ _ _ H3).
  cbn [pop_acked]. rewrite Hs, !raw_wrap. unfold wf_wrapping in Hi. unwrap_words. case_if.
  - destruct (IH (x + length_in_sequence_space seg)) as (popped & E & H4 & H5); [lia|done|done|lia|].
    exists (seg :: popped). split; [simpl; by rewrite <- E|]. cbn [span]. split; [lia|].
    destruct (pop_acked _ l); [done|lia].
  - exists []. simpl. split_and!; [done|lia|lia].
Qed.

(** A segment that reaches the end of the 32-bit space stays, whatever is acknowledged. *)
Lemma pop_acked_stuck ackno seg l :
  wf_wrapping ackno -> wf_wrapping (seqno (header seg)) ->
  #(str (payload seg)) <= MAX_PAYLOAD_SIZE ->
  4294967296 <= raw_value (seqno (header seg)) + length_in_sequence_space seg ->
  pop_acked ackno (seg :: l) = seg :: l.
Proof.
  intros Ha Hs Hm Hw. pose proof (seg_length seg Hm) as Hl. unfold wf_wrapping, MAX_PAYLOAD_SIZE in *.
  cbn [pop_acked]. rewrite u64_id; [case_if; [lia|done]|].
  rewrite Hl in *. pose proof (Zlen_nonneg (str (payload seg))). repeat case_if; lia.
Qed.

(** ** Sequences of operations *)

Inductive sender_op :=
| Write (data : bytes)
| EndInput
| FillWindow
| AckReceived (ackno : WrappingInt32) (window_size : Z)
| Tick (ms_since_last_tick : Z)
| EmptySegment
| Dequeue.

(** A sender with the bytes its stream accepted and the segments its owner dequeued. *)
Record trace := mkTrace { sender : TCPSender; written : bytes; sent : list TCPSegment }.

Definition exec_op (op : sender_op) (t : trace) : result trace :=
  let s := sender t in
  match op with
  | Write data =>
      let '(n, s') := write_stream data s in
      Ok (mkTrace s' (written t ++ take (Z.to_nat n) data) (sent t))
  | EndInput => Ok (mkTrace (end_stream s) (written t) (sent t))
  | FillWindow => s' ← fill_window s; Ok (mkTrace s' (written t) (sent t))
  | AckReceived ackno w => s' ← ack_received ackno w s; Ok (mkTrace s' (written t) (sent t))
  | Tick ms => Ok (mkTrace (tick ms s) (written t) (sent t))
  | EmptySegment => Ok (mkTrace (send_empty_segment s) (written t) (sent t))
  | Dequeue =>
      match _segments_out s with
      | [] => Ok t
      | seg :: q => Ok (mkTrace (set_out q s) (written t) (sent t ++ [seg]))
      end
  end.

Fixpoint run_ops (ops : list sender_op) (t : trace) : result trace :=
  match ops with [] => Ok t | op :: ops => t ← exec_op op t; run_ops ops t end.

Fixpoint offered_to_sender (ops : list sender_op) : Z :=
  match ops with
  | [] => 0
  | Write data :: ops => #data + offered_to_sender ops
  | _ :: ops => offered_to_sender ops
  end.

Definition valid_sender_op (op : sender_op) : Prop :=
  match op with AckReceived ackno w => wf_wrapping ackno /\ 0 <= w < 65536 | _ => True end.

Definition emitted_by (W : bytes) (s : TCPSender) (seg : TCPSegment) : Prop :=
  exists x, emitted W (_isn s) (_next_seqno s) (input_ended (_stream s)) x seg.

Definition trace_ok (t : trace) : Prop :=
  wf (written t) (sender t) /\ Forall (emitted_by (written t) (sender t)) (sent t).

(** What was sent stays true of a later state of the sender. *)
Lemma emitted_by_mono W d s s' seg :
  emitted_by W s seg -> _isn s' = _isn s -> _next_seqno s <= _next_seqno s' ->
  (input_ended (_stream s) = true -> input_ended (_stream s') = true /\ d = []) ->
  emitted_by (W ++ d) s' seg.
Proof.
  intros [x Hx] Hi Hn He. exists x. rewrite Hi.
  apply (emitted_mono _ _ (_next_seqno s) _ (input_ended (_stream s))); [|done|tauto].
  apply emitted_grow; tauto.
Qed.

Lemma tick_frame ms s :
  _isn (tick ms s) = _isn s /\ _next_seqno (tick ms s) = _next_seqno s /\ _stream (tick ms s) = _stream s /\
  _last_ackno (tick ms s) = _last_ackno s /\ _last_win (tick ms s) = _last_win s /\
  _outstanding_seg (tick ms s) = _outstanding_seg s /\
  _initial_retransmission_timeout (tick ms s) = _initial_retransmission_timeout s.
Proof.
  unfold tick. cbn [set_timer _outstanding_seg]. destruct (_outstanding_seg s) eqn:E;
    repeat case_if; simpl; rewrite ?E; done.
Qed.

(** A step that leaves the written bytes alone. *)
Lemma trace_step W s s' l :
  wf W s' -> Forall (emitted_by W s) l -> _isn s' = _isn s -> _next_seqno s <= _next_seqno s' ->
  (input_ended (_stream s) = true -> input_ended (_stream s') = true) ->
  trace_ok (mkTrace s' W l).
Proof.
  intros Hwf Hl ???. split; [done|]. eapply Forall_impl; [|exact Hl]. intros seg Hs.
  rewrite <- (app_nil_r W). eapply emitted_by_mono; eauto.
Qed.

Lemma exec_op_ok op t :
  trace_ok t -> valid_sender_op op ->
  #(written t) + offered_to_sender [op] + 2 < 18446744073709551616 - 4294967296 ->
  exists t', exec_op op t = Ok t' /\ trace_ok t' /\
    #(written t') <= #(written t) + offered_to_sender [op] /\ _isn (sender t') = _isn (sender t).
Proof.
  destruct t as [s W l]. intros [Hwf Hl] Hv Hb. cbn [written sender sent] in *.
  destruct op; cbn [exec_op offered_to_sender sender written sent] in *.
  - destruct (write_stream_wf W data s Hwf) as [H1 H2]; [lia|].
    assert (_isn (write_stream data s).2 = _isn s /\ _next_seqno (write_stream data s).2 = _next_seqno s /\
      (input_ended (_stream s) = true -> input_ended (_stream (write_stream data s).2) = true)) as (F1 & F2 & F3).
    { unfold write_stream, ByteStream.write, stream_in. by case_if. }
    destruct (write_stream data s) as [n s']. cbn [fst snd] in *.
    eexists; split; [done|]. split; [|split; [|done]].
    + split; [done|]. eapply Forall_impl; [|exact Hl]. intros seg Hs. eapply emitted_by_mono; eauto. simpl. lia.
    + simpl. unfold Zlen. rewrite length_app, length_take. lia.
  - eexists; split; [done|]. split; [|simpl; split; [lia|done]].
    eapply trace_step; eauto; [by apply end_stream_wf|simpl; lia].
  - destruct (fill_window_spec W s Hwf) as (s' & E & H1 & [] & _). rewrite E, result_bind_Ok.
    eexists; split; [done|]. split; [|simpl; split; [lia|done]]. eapply trace_step; eauto; congruence.
  - destruct Hv as [Hv1 Hv2]. destruct (ack_received_spec W ackno window_size s) as (s' & E & H1 & H2 & H3 & H4 & H5 & H6 & H7);
      try done. rewrite E, result_bind_Ok.
    eexists; split; [done|]. split; [|simpl; split; [lia|done]]. eapply trace_step; eauto; congruence.
  - pose proof (tick_frame ms_since_last_tick s) as (F1 & F2 & F3 & _).
    eexists; split; [done|]. split; [|simpl; split; [lia|done]].
    eapply trace_step; eauto; [by apply tick_wf|lia|congruence].
  - eexists; split; [done|]. split; [|simpl; split; [lia|done]].
    eapply trace_step; eauto; [by apply send_empty_segment_wf|simpl; lia].
  - destruct (_segments_out s) as [|seg q] eqn:Eq; (eexists; split; [done|]; split; [|simpl; split; [lia|done]]).
    + by split.
    + pose proof Hwf as [[] _]. rewrite Eq in core_queue0. inversion core_queue0 as [|? ? Hseg Hq]; subst.
      eapply trace_step; [by apply set_out_wf| |done|simpl; lia|done].
      apply Forall_app. split; [done|]. by constructor.
Qed.

Lemma run_ops_ok ops t :
  trace_ok t -> Forall valid_sender_op ops ->
  #(written t) + offered_to_sender ops + 2 < 18446744073709551616 - 4294967296 ->
  exists t', run_ops ops t = Ok t' /\ trace_ok t' /\ _isn (sender t') = _isn (sender t).
Proof.
  intros Ht Hv. revert t Ht. induction Hv as [|op ops Ho Hv IH]; intros t Ht Hb; [by exists t|].
  cbn [run_ops].
  assert (offered_to_sender (op :: ops) = offered_to_sender [op] + offered_to_sender ops /\
    0 <= offered_to_sender ops) as [E1 E2].
  { split; [destruct op; simpl; lia|]. clear. induction ops as [|[] ops IH]; simpl; try lia.
    pose proof (Zlen_nonneg data). lia. }
  destruct (exec_op_ok op t) as (t1 & -> & H1 & H2 & H3); [done|done|lia|]. rewrite result_bind_Ok.
  destruct (IH t1) as (t' & E & H4 & H5); [done|lia|]. exists t'. split_and!; try done. congruence.
Qed.

(** ** Properties *)

(** C23: the sender never lies and never loses. Whatever the owner does (writing, ending the
    input, filling the window, delivering any acknowledgments and windows at all, letting time
    pass, dequeuing), no operation throws or fails to return; every segment dequeued or queued
    carries, at its sequence number, exactly the bytes that were written there, with at most
    [MAX_PAYLOAD_SIZE] of them and with a FIN only at the end of an ended input; the
    outstanding queue holds, without gaps, everything from a number that has been acknowledged
    to the next number; and while it is not empty the timer runs. *)
Theorem sender_safe cap timeout isn rnd ops
  (Hcap : 0 <= cap < 18446744073709551616) (Ht : 0 <= timeout < 65536)
  (Hisn : forall i, isn = Some i -> wf_wrapping i)
  (Hv : Forall valid_sender_op ops)
  (Hb : offered_to_sender ops + 2 < 18446744073709551616 - 4294967296) :
  exists s W l, run_ops ops (mkTrace (make cap timeout isn rnd) [] []) = Ok (mkTrace s W l) /\
    contents W (_stream s) /\
    Forall (emitted_by W s) (l ++ _segments_out s) /\
    retained W (_isn s) (_last_ackno s) (_next_seqno s) (input_ended (_stream s)) (_outstanding_seg s) /\
    (_outstanding_seg s <> [] -> is_start (_timer s) = true).
Proof.
  destruct (run_ops_ok ops (mkTrace (make cap timeout isn rnd) [] [])) as ([s W l] & E & [Hwf Hl] & _);
    [split; [by apply make_sender_wf|done]|done|done|].
  exists s, W, l. destruct Hwf as [[] _]. split_and!; try done. by apply Forall_app.
Qed.

Definition sample_ops : list sender_op :=
  [FillWindow; AckReceived (WrappingInt32_of 8) 3; Write [x61; x62; x63; x64; x65]; FillWindow; Dequeue;
   Tick 1000; AckReceived (WrappingInt32_of 11) 1000; EndInput; FillWindow; Dequeue; Dequeue].

Lemma sender_safe_witness :
  exists s W l, run_ops sample_ops (mkTrace (make 100 1000 (Some (WrappingInt32_of 7)) 0) [] []) = Ok (mkTrace s W l) /\
    contents W (_stream s) /\
    Forall (emitted_by W s) (l ++ _segments_out s) /\
    retained W (_isn s) (_last_ackno s) (_next_seqno s) (input_ended (_stream s)) (_outstanding_seg s) /\
    (_outstanding_seg s <> [] -> is_start (_timer s) = true).
Proof.
  apply (sender_safe 100 1000 (Some (WrappingInt32_of 7)) 0 sample_ops); [by_compute|by_compute| | |by_compute].
  - intros i [= <-]. by_compute.
  - repeat constructor; by_compute.
Defined.

(** C24: [fill_window] fills the window. It always returns; after the SYN has been acknowledged
    it stops only when the peer's window (or one probe byte for a zero window) is used up, or
    when every byte, and the FIN of an ended input, has been sent; the bytes in flight never
    exceed the window if they did not before; and the new segments go to both queues. *)
Theorem fill_window_fills W s (Hwf : wf W s) :
  exists s', fill_window s = Ok s' /\ wf W s' /\
    (_next_seqno s = 0 -> _next_seqno s' = 1) /\
    (0 < _next_seqno s -> _last_ackno s = 0 -> s' = s) /\
    (0 < _last_ackno s -> bytes_in_flight s' = effective_win s \/ exhausted s') /\
    (bytes_in_flight s <= effective_win s -> bytes_in_flight s' <= effective_win s) /\
    exists new, _segments_out s' = _segments_out s ++ new /\ _outstanding_seg s' = _outstanding_seg s ++ new.
Proof.
  destruct (fill_window_spec W s Hwf) as (s' & E & H1 & [] & H3 & H4 & H5).
  exists s'. split_and!; try done.
  - intros Hn. destruct (syn_turn W s Hwf Hn) as (_ & _ & T).
    unfold fill_window, next_seqno_absolute in E. rewrite Hn in E. simpl in E. injection E as <-. exact T.
  - intros Hn Ha. pose proof (bytes_in_flight_eq W s (wf_core _ _ Hwf)) as Hbif. rewrite Ha in Hbif.
    unfold fill_window, next_seqno_absolute in E.
    assert (((_next_seqno s >? 0) && (_next_seqno s =? bytes_in_flight s)) = true) as Eb by lia.
    rewrite Eb in E. case_if_in E; [lia|]. by injection E.
Qed.

(** A sender that has sent its SYN and five bytes, with three of them acknowledged. *)
Definition sample_trace : trace :=
  match run_ops sample_ops (mkTrace (make 100 1000 (Some (WrappingInt32_of 7)) 0) [] []) with
  | Ok t => t
  | _ => mkTrace (make 0 0 None 0) [] []
  end.

Lemma sample_trace_wf : wf (written sample_trace) (sender sample_trace).
Proof.
  destruct (run_ops_ok sample_ops (mkTrace (make 100 1000 (Some (WrappingInt32_of 7)) 0) [] []))
    as (t & E & [Hwf _] & _).
  - split; [apply make_sender_wf; [by_compute|by_compute|intros i [= <-]; by_compute]|done].
  - repeat constructor; by_compute.
  - by_compute.
  - unfold sample_trace. rewrite E. exact Hwf.
Qed.

Lemma fill_window_fills_witness :
  exists s', fill_window (sender sample_trace) = Ok s' /\ wf (written sample_trace) s' /\
    (_next_seqno (sender sample_trace) = 0 -> _next_seqno s' = 1) /\
    (0 < _next_seqno (sender sample_trace) -> _last_ackno (sender sample_trace) = 0 -> s' = sender sample_trace) /\
    (0 < _last_ackno (sender sample_trace) ->
       bytes_in_flight s' = effective_win (sender sample_trace) \/ exhausted s') /\
    (bytes_in_flight (sender sample_trace) <= effective_win (sender sample_trace) ->
       bytes_in_flight s' <= effective_win (sender sample_trace)) /\
    exists new, _segments_out s' = _segments_out (sender sample_trace) ++ new /\
      _outstanding_seg s' = _outstanding_seg (sender sample_trace) ++ new.
Proof. apply (fill_window_fills (written sample_trace) (sender sample_trace)), sample_trace_wf. Defined.

(** C26: a new acknowledgment. While the sequence numbers in use have not passed 2^32, an
    acknowledgment [a] of something new drops exactly the outstanding segments that it covers
    completely, records the number and the window, and resets the backoff. Then the window is filled: new
    segments are appended to both queues until the announced window (one byte for a zero window) is used up
    or every byte, and the FIN of an ended input, has been sent; and the bytes in flight stay within the
    window if what [a] leaves unacknowledged fits into it. *)
Theorem ack_received_exact W ackno w s
  (Hwf : wf W s) (Ha : wf_wrapping ackno) (Hw : 0 <= w < 65536)
  (Hnew : _last_ackno s < unwrap ackno (_isn s) (_last_ackno s) <= _next_seqno s)
  (Hraw : raw_value (_isn s) + _next_seqno s < 4294967296) :
  let a := unwrap ackno (_isn s) (_last_ackno s) in
  exists s' x popped rest new, ack_received ackno w s = Ok s' /\ wf W s' /\
    _last_ackno s' = a /\ _last_win s' = w /\ _retransmission_count s' = 0 /\
    _RTO s' = _initial_retransmission_timeout s /\
    chain W (_isn s) (_next_seqno s) (input_ended (_stream s)) x (_outstanding_seg s) /\
    _outstanding_seg s = popped ++ rest /\ x + span popped <= a /\
    match rest with [] => True | seg :: _ => a < x + span popped + length_in_sequence_space seg end /\
    _outstanding_seg s' = rest ++ new /\ _segments_out s' = _segments_out s ++ new /\
    (bytes_in_flight s' = Z.max 1 w \/ exhausted s') /\
    (_next_seqno s - a <= Z.max 1 w -> bytes_in_flight s' <= Z.max 1 w).
Proof.
  intros a. pose proof Hwf as [[] _]. fold a in Hnew.
  assert (wrap a (_isn s) = ackno) as Hwa by (apply wrap_unwrap; [done|lia]).
  destruct core_outstanding0 as (x & Hx1 & Hx2 & Hx).
  destruct (pop_acked_exact W (_isn s) (_next_seqno s) (input_ended (_stream s)) a (_outstanding_seg s) x)
    as (popped & E1 & E2 & E3); [done|lia|lia|done|done|lia|]. rewrite Hwa in *.
  assert (wf W (acked ackno w s)) as Hacked by (by apply acked_wf; [..|lia]).
  pose proof (bytes_in_flight_eq W _ (wf_core _ _ Hacked)) as Hbif.
  destruct (fill_window_spec W (acked ackno w s) Hacked) as (s' & E & H1 & [] & _ & Hf1 & Hf2).
  assert (effective_win (acked ackno w s) = Z.max 1 w) as Eeff
    by (unfold effective_win, acked; cbn [_last_win set_last_win]; case_if; lia).
  rewrite Eeff in Hf1, Hf2. clear Eeff. destruct filled_queues0 as (new & Q1 & Q2).
  exists s', x, popped, (pop_acked ackno (_outstanding_seg s)), new.
  rewrite ack_received_eq. fold a. assert ((a >? _next_seqno s) = false) as -> by lia.
  unfold acked in *. fold a in filled_rto0, filled_count0, filled_ack0, filled_win0, Q1, Q2, E, Hf1, Hf2, Hbif |- *.
  assert ((a >? _last_ackno s) = true) as Ea by lia. rewrite Ea in *. simpl in *.
  split_and!; try done; [apply Hf1|intros; apply Hf2; rewrite Hbif]; lia.
Qed.

(** One byte in flight, after the SYN and three bytes were acknowledged. *)
Definition one_in_flight : trace :=
  match run_ops (firstn 4 sample_ops) (mkTrace (make 100 1000 (Some (WrappingInt32_of 7)) 0) [] []) with
  | Ok t => t
  | _ => mkTrace (make 0 0 None 0) [] []
  end.

Lemma one_in_flight_wf : wf (written one_in_flight) (sender one_in_flight).
Proof.
  destruct (run_ops_ok (firstn 4 sample_ops) (mkTrace (make 100 1000 (Some (WrappingInt32_of 7)) 0) [] []))
    as (t & E & [Hwf _] & _).
  - split; [apply make_sender_wf; [by_compute|by_compute|intros i [= <-]; by_compute]|done].
  - repeat constructor; by_compute.
  - by_compute.
  - unfold one_in_flight. rewrite E. exact Hwf.
Qed.

Lemma ack_received_exact_witness :
  let s := sender one_in_flight in
  let ackno := WrappingInt32_of 11 in
  let a := unwrap ackno (_isn s) (_last_ackno s) in
  exists s' x popped rest new, ack_received ackno 10 s = Ok s' /\ wf (written one_in_flight) s' /\
    _last_ackno s' = a /\ _last_win s' = 10 /\ _retransmission_count s' = 0 /\
    _RTO s' = _initial_retransmission_timeout s /\
    chain (written one_in_flight) (_isn s) (_next_seqno s) (input_ended (_stream s)) x (_outstanding_seg s) /\
    _outstanding_seg s = popped ++ rest /\ x + span popped <= a /\
    match rest with [] => True | seg :: _ => a < x + span popped + length_in_sequence_space seg end /\
    _outstanding_seg s' = rest ++ new /\ _segments_out s' = _segments_out s ++ new /\
    (bytes_in_flight s' = Z.max 1 10 \/ exhausted s') /\
    (_next_seqno s - a <= Z.max 1 10 -> bytes_in_flight s' <= Z.max 1 10).
Proof.
  apply (ack_received_exact (written one_in_flight) (WrappingInt32_of 11) 10 (sender one_in_flight));
    [apply one_in_flight_wf|by_compute..].
Defined.

(** C33: the queue blocks when the sequence numbers wrap. The test that pops acknowledged
    segments compares raw 32-bit numbers, so once the oldest outstanding segment reaches the
    end of the 32-bit space no acknowledgment removes it: even an acknowledgment of everything
    sent leaves it at the front with the timer running. *)
Theorem wrap_blocks_queue W ackno w s seg q
  (Hwf : wf W s) (Ha : wf_wrapping ackno) (Hw : 0 <= w < 65536)
  (Hq : _outstanding_seg s = seg :: q) (Hs : wf_wrapping (seqno (header seg)))
  (Hend : 4294967296 <= raw_value (seqno (header seg)) + length_in_sequence_space seg) :
  exists s' new, ack_received ackno w s = Ok s' /\ _outstanding_seg s' = (seg :: q) ++ new /\
    is_start (_timer s') = true.
Proof.
  assert (#(str (payload seg)) <= MAX_PAYLOAD_SIZE) as Hm.
  { destruct Hwf as [[] _]. destruct core_outstanding0 as (x & _ & _ & Hx). rewrite Hq in Hx. apply Hx. }
  rewrite ack_received_eq. case_if.
  { exists s, []. rewrite app_nil_r. destruct Hwf as [[] _]. split_and!; try done. apply core_timer0. by rewrite Hq. }
  destruct (fill_window_spec W (acked ackno w s)) as (s' & E & H1 & [] & _); [by apply acked_wf; [..|lia]|].
  destruct filled_queues0 as (new & Q1 & Q2). exists s', new.
  assert (_outstanding_seg (acked ackno w s) = seg :: q) as Eq.
  { unfold acked. case_if; simpl; rewrite Hq; [|done]. by apply pop_acked_stuck. }
  rewrite Eq in Q2. split_and!; try done. destruct H1 as [[] _]. apply core_timer0. by rewrite Q2.
Qed.

(** A sender whose first number is the last of the 32-bit space, after it sent its SYN. *)
Definition last_isn : trace :=
  match run_ops [FillWindow] (mkTrace (make 100 1000 (Some (WrappingInt32_of 4294967295)) 0) [] []) with
  | Ok t => t
  | _ => mkTrace (make 0 0 None 0) [] []
  end.

Lemma last_isn_wf : wf (written last_isn) (sender last_isn).
Proof.
  destruct (run_ops_ok [FillWindow] (mkTrace (make 100 1000 (Some (WrappingInt32_of 4294967295)) 0) [] []))
    as (t & E & [Hwf _] & _).
  - split; [apply make_sender_wf; [by_compute|by_compute|intros i [= <-]; by_compute]|done].
  - repeat constructor.
  - by_compute.
  - unfold last_isn. rewrite E. exact Hwf.
Qed.

Lemma wrap_blocks_queue_witness :
  exists seg, _outstanding_seg (sender last_isn) = [seg] /\
    unwrap (WrappingInt32_of 0) (_isn (sender last_isn)) (_last_ackno (sender last_isn)) =
      _next_seqno (sender last_isn) /\
    exists s' new, ack_received (WrappingInt32_of 0) 10 (sender last_isn) = Ok s' /\
      _outstanding_seg s' = [seg] ++ new /\ is_start (_timer s') = true.
Proof.
  eexists. split; [reflexivity|]. split; [reflexivity|].
  eapply (wrap_blocks_queue (written last_isn) (WrappingInt32_of 0) 10 (sender last_isn));
    [apply last_isn_wf|by_compute|by_compute|reflexivity|by_compute|by_compute].
Defined.

(** C34: a shrunken window is overrun. The space left is computed as an unsigned difference:
    when the peer announces a window smaller than the bytes already in flight it wraps around,
    and [fill_window] sends everything that is buffered, and the FIN, whatever the window. *)
Theorem shrunk_window_overrun W s
  (Hwf : wf W s) (Ha : 0 < _last_ackno s) (Hwin : effective_win s < bytes_in_flight s) :
  exists s', fill_window s = Ok s' /\ exhausted s' /\ effective_win s < bytes_in_flight s'.
Proof.
  destruct (fill_window_spec W s Hwf) as (s' & E & H1 & [] & H3 & H4 & H5).
  exists s'. rewrite (bytes_in_flight_eq W s (wf_core _ _ Hwf)) in Hwin.
  rewrite (bytes_in_flight_eq W s' (wf_core _ _ H1)) in *.
  split_and!; [done|destruct (H4 Ha); [lia|done]|lia].
Qed.

(** Three bytes in flight, two more buffered, and the window shrinks to one. *)
Definition shrunk : trace :=
  match run_ops [FillWindow; AckReceived (WrappingInt32_of 8) 3; Write [x61; x62; x63]; FillWindow;
                 AckReceived (WrappingInt32_of 8) 1; Write [x64; x65]]
          (mkTrace (make 100 1000 (Some (WrappingInt32_of 7)) 0) [] []) with
  | Ok t => t
  | _ => mkTrace (make 0 0 None 0) [] []
  end.

Lemma shrunk_wf : wf (written shrunk) (sender shrunk).
Proof.
  destruct (run_ops_ok [FillWindow; AckReceived (WrappingInt32_of 8) 3; Write [x61; x62; x63]; FillWindow;
                        AckReceived (WrappingInt32_of 8) 1; Write [x64; x65]]
              (mkTrace (make 100 1000 (Some (WrappingInt32_of 7)) 0) [] [])) as (t & E & [Hwf _] & _).
  - split; [apply make_sender_wf; [by_compute|by_compute|intros i [= <-]; by_compute]|done].
  - repeat constructor; by_compute.
  - by_compute.
  - unfold shrunk. rewrite E. exact Hwf.
Qed.

Lemma shrunk_window_overrun_witness :
  effective_win (sender shrunk) = 1 /\ bytes_in_flight (sender shrunk) = 3 /\
  exists s', fill_window (sender shrunk) = Ok s' /\ exhausted s' /\
    effective_win (sender shrunk) < bytes_in_flight s'.
Proof.
  split; [reflexivity|]. split; [reflexivity|].
  apply (shrunk_window_overrun (written shrunk) (sender shrunk)); [apply shrunk_wf|by_compute|by_compute].
Defined.

Fixpoint elapsed (l : list Z) : Z := match l with [] => 0 | ms :: l => ms + elapsed l end.

Lemma timer_ticks l t :
  Forall (fun ms => 0 <= ms) l -> _is_started t = true -> 0 <= _remaining_time t < 4294967296 ->
  let t' := foldl (fun t ms => timer_tick ms t) t l in
  is_start t' = true /\
  is_expired t' = _is_expired t || (negb (bool_decide (l = [])) && (_remaining_time t <=? elapsed l)).
Proof.
  intros Hl. revert t. induction Hl as [|ms l Hms Hl IH]; intros [r e st] Hst Hr; simpl in *; subst st.
  { unfold is_expired; simpl. by rewrite andb_true_r, orb_false_r. }
  assert (0 <= elapsed l) by (clear IH; induction Hl; simpl; lia).
  unfold timer_tick, is_start; simpl. destruct (ms >=? r) eqn:E; simpl.
  - destruct (IH (mkTimer r true true) eq_refl Hr) as [I1 I2].
    split; [exact I1|]. etransitivity; [exact I2|]. simpl.
    rewrite (proj2 (Z.leb_le r (ms + elapsed l))) by lia. by destruct e.
  - rewrite u32_id by lia.
    destruct (IH (mkTimer (r - ms) e true) eq_refl ltac:(simpl; lia)) as [I1 I2].
    split; [exact I1|]. etransitivity; [exact I2|]. simpl. f_equal. destruct l as [|m l]; [simpl; lia|]. simpl in *. lia.
Qed.

(** the retransmission timer. Started with a timeout and ticked any number of times, it
    has expired exactly when the elapsed time has reached the timeout; until then it runs. *)
Theorem timer_expires rto t ms l
  (Hr : 0 <= rto < 4294967296) (Hms : 0 <= ms) (Hl : Forall (fun ms => 0 <= ms) l) :
  let t' := foldl (fun t ms => timer_tick ms t) (timer_start rto t) (ms :: l) in
  is_start t' = true /\ is_expired t' = (rto <=? elapsed (ms :: l)).
Proof. apply (timer_ticks (ms :: l) (timer_start rto t)); [by constructor|done..]. Qed.

Lemma timer_expires_witness :
  let t' := foldl (fun t ms => timer_tick ms t) (timer_start 1000 new_timer) [300; 600; 99] in
  is_start t' = true /\ is_expired t' = (1000 <=? elapsed [300; 600; 99]).
Proof. apply (timer_expires 1000 new_timer 300 [600; 99]); [by_compute|lia|repeat constructor; lia]. Defined.

(** [tick]. With segments outstanding, an expired timer retransmits the oldest one once
    and restarts with the new timeout, which is doubled, and counted, only if the peer's window
    was not zero; an unexpired timer sends nothing; with nothing outstanding the timer stops.
    Nothing else of the sender changes. *)
Theorem tick_retransmits ms s :
  let t := timer_tick ms (_timer s) in
  _stream (tick ms s) = _stream s /\ _next_seqno (tick ms s) = _next_seqno s /\
  _last_ackno (tick ms s) = _last_ackno s /\ _outstanding_seg (tick ms s) = _outstanding_seg s /\
  match _outstanding_seg s with
  | [] => _segments_out (tick ms s) = _segments_out s /\ _timer (tick ms s) = timer_stop t /\
          _RTO (tick ms s) = _RTO s /\ _retransmission_count (tick ms s) = _retransmission_count s
  | seg :: _ =>
      if is_expired t then
        _segments_out (tick ms s) = _segments_out s ++ [seg] /\
        _RTO (tick ms s) = (if 0 <? _last_win s then u32 (_RTO s * 2) else _RTO s) /\
        _retransmission_count (tick ms s) =
          (if 0 <? _last_win s then u32 (_retransmission_count s + 1) else _retransmission_count s) /\
        _timer (tick ms s) = mkTimer (_RTO (tick ms s)) false true
      else
        _segments_out (tick ms s) = _segments_out s /\ _timer (tick ms s) = t /\
        _RTO (tick ms s) = _RTO s /\ _retransmission_count (tick ms s) = _retransmission_count s
  end.
Proof.
  cbn zeta. pose proof (tick_frame ms s) as (_ & F2 & F3 & F4 & _ & F6 & _). split_and!; try done.
  unfold tick. cbn [set_timer _outstanding_seg _timer]. destruct (_outstanding_seg s); [done|].
  case_if; [|done]. cbn [set_out _last_win set_timer]. rewrite Z.gtb_ltb. case_if; done.
Qed.
