(* ===== verification/TCPState.v ===== *)
(** * Summaries of a connection's state (src/libsponge/tcp_helpers/tcp_state.hh, tcp_state.cc) *)

From stdpp Require Import strings.
From S2P Require Import Prelude ByteStream TCPReceiver TCPSender.

Module TCPReceiverStateSummary.
Definition ERROR : string := "error (connection was reset)"%string.
Definition LISTEN : string := "waiting for SYN: ackno is empty"%string.
Definition SYN_RECV : string := "SYN received (ackno exists), and input to stream hasn't ended"%string.
Definition FIN_RECV : string := "input to stream has ended"%string.
End TCPReceiverStateSummary.

Module TCPSenderStateSummary.
Definition ERROR : string := "error (connection was reset)"%string.
Definition CLOSED : string := "waiting for stream to begin (no SYN sent)"%string.
Definition SYN_SENT : string := "stream started but nothing acknowledged"%string.
Definition SYN_ACKED : string := "stream ongoing"%string.
Definition FIN_SENT : string := "stream finished (FIN sent) but not fully acknowledged"%string.
Definition FIN_ACKED : string := "stream finished and fully acknowledged"%string.
End TCPSenderStateSummary.

(** [state_summary] of a receiver and of a sender. *)
Definition receiver_summary (receiver : TCPReceiver) : string :=
  if ByteStream.error (stream_out receiver) then TCPReceiverStateSummary.ERROR
  else match ackno receiver with
       | None => TCPReceiverStateSummary.LISTEN
       | Some _ =>
           if input_ended (stream_out receiver) then TCPReceiverStateSummary.FIN_RECV
           else TCPReceiverStateSummary.SYN_RECV
       end.

Definition sender_summary (sender : TCPSender) : string :=
  if ByteStream.error (stream_in sender) then TCPSenderStateSummary.ERROR
  else if next_seqno_absolute sender =? 0 then TCPSenderStateSummary.CLOSED
  else if next_seqno_absolute sender =? bytes_in_flight sender then TCPSenderStateSummary.SYN_SENT
  else if negb (eof (stream_in sender)) then TCPSenderStateSummary.SYN_ACKED
  else if next_seqno_absolute sender <? u64 (bytes_written (stream_in sender) + 2)
  then TCPSenderStateSummary.SYN_ACKED
  else if negb (bytes_in_flight sender =? 0) then TCPSenderStateSummary.FIN_SENT
  else TCPSenderStateSummary.FIN_ACKED.

(** Class TCPState. *)
Record TCPState := mkTCPState {
  _sender : string;
  _receiver : string;
  _active : bool;
  _linger_after_streams_finish : bool
}.

Definition state_eq (s other : TCPState) : bool :=
  eqb (_active s) (_active other) &&
  eqb (_linger_after_streams_finish s) (_linger_after_streams_finish other) &&
  String.eqb (_sender s) (_sender other) && String.eqb (_receiver s) (_receiver other).

Definition state_neq (s other : TCPState) : bool := negb (state_eq s other).

(** [to_string] of a bool, which is converted to an int. *)
Definition bool_to_string (b : bool) : string := (if b then "1" else "0")%string.

Definition name (s : TCPState) : string :=
  ("sender=`" +:+ _sender s +:+ "`, receiver=`" +:+ _receiver s +:+ "`, active=" +:+
  bool_to_string (_active s) +:+ ", linger_after_streams_finish=" +:+
  bool_to_string (_linger_after_streams_finish s))%string.

Inductive State :=
| LISTEN | SYN_RCVD | SYN_SENT | ESTABLISHED | CLOSE_WAIT | LAST_ACK
| FIN_WAIT_1 | FIN_WAIT_2 | CLOSING | TIME_WAIT | CLOSED | RESET.

(** The constructor from an official state. *)
Definition TCPState_of (state : State) : TCPState :=
  match state with
  | LISTEN => mkTCPState TCPSenderStateSummary.CLOSED TCPReceiverStateSummary.LISTEN true true
  | SYN_RCVD => mkTCPState TCPSenderStateSummary.SYN_SENT TCPReceiverStateSummary.SYN_RECV true true
  | SYN_SENT => mkTCPState TCPSenderStateSummary.SYN_SENT TCPReceiverStateSummary.LISTEN true true
  | ESTABLISHED => mkTCPState TCPSenderStateSummary.SYN_ACKED TCPReceiverStateSummary.SYN_RECV true true
  | CLOSE_WAIT => mkTCPState TCPSenderStateSummary.SYN_ACKED TCPReceiverStateSummary.FIN_RECV true false
  | LAST_ACK => mkTCPState TCPSenderStateSummary.FIN_SENT TCPReceiverStateSummary.FIN_RECV true false
  | CLOSING => mkTCPState TCPSenderStateSummary.FIN_SENT TCPReceiverStateSummary.FIN_RECV true true
  | FIN_WAIT_1 => mkTCPState TCPSenderStateSummary.FIN_SENT TCPReceiverStateSummary.SYN_RECV true true
  | FIN_WAIT_2 => mkTCPState TCPSenderStateSummary.FIN_ACKED TCPReceiverStateSummary.SYN_RECV true true
  | TIME_WAIT => mkTCPState TCPSenderStateSummary.FIN_ACKED TCPReceiverStateSummary.FIN_RECV true true
  | RESET => mkTCPState TCPSenderStateSummary.ERROR TCPReceiverStateSummary.ERROR false false
  | CLOSED => mkTCPState TCPSenderStateSummary.FIN_ACKED TCPReceiverStateSummary.FIN_RECV false false
  end.

(** The constructor from the parts of a connection. *)
Definition TCPState_from (sender : TCPSender) (receiver : TCPReceiver) (active linger : bool) : TCPState :=
  mkTCPState (sender_summary sender) (receiver_summary receiver) active (if active then linger else false).

(** ** What the summaries say *)

(** Between calls, in a state that satisfies the sender's invariant. *)
Lemma fin_acked_spec W s :
  TCPSender.wf W s -> sender_summary s = TCPSenderStateSummary.FIN_ACKED ->
  eof (_stream s) = true /\ _next_seqno s = #W + 2 /\ _last_ackno s = #W + 2.
Proof.
  intros [Hc Hp] H. pose proof (bytes_in_flight_eq W s Hc) as Hb. destruct Hc, core_contents as [HW _].
  unfold sender_summary, stream_in, next_seqno_absolute, bytes_written in H. rewrite Hb in H.
  rewrite u64_id in H by lia. repeat case_if_in H; try done. rewrite negb_false_iff in *.
  split_and!; [done|lia|lia].
Qed.

Lemma fin_recv_spec W isn r :
  TCPReceiver.wf W isn r -> receiver_summary r = TCPReceiverStateSummary.FIN_RECV ->
  input_ended (stream_out r) = true /\ _syn r = true.
Proof.
  intros [_ _ _] H. unfold receiver_summary in H. destruct (ByteStream.error _); [done|].
  unfold ackno in *. destruct (_syn r); simpl in H; [|done].
  destruct (input_ended (stream_out r)); done.
Qed.

(** the official states can be told apart: [operator==] identifies two official states
    only if they are the same, and so do their names. *)
Theorem states_distinct a b :
  (state_eq (TCPState_of a) (TCPState_of b) = true <-> a = b) /\
  (name (TCPState_of a) = name (TCPState_of b) <-> a = b).
Proof.
  split.
  - by destruct a, b; vm_compute.
  - assert (String.eqb (name (TCPState_of a)) (name (TCPState_of b)) = true <-> a = b) as H
      by (by destruct a, b; vm_compute).
    rewrite <- H. symmetry. apply String.eqb_eq.
Qed.
