(* ===== verification/TCPConnection.v ===== *)
(** * A TCP endpoint (src/libsponge/tcp_connection.hh, tcp_connection.cc)

    A sender and a receiver, the queue of segments to put on the wire, and the
    rules for answering, resetting and closing. *)

From stdpp Require Import strings.
From S2P Require Import Prelude WrappingIntegers ByteStream StreamReassembler Buffer TCPHeader.
From S2P Require Import TCPSegment TCPReceiver TCPSender TCPState.

(** ** Definitions *)

Record TCPConnection := mkTCPConnection {
  _cfg : TCPConfig;
  _receiver : TCPReceiver;
  _sender : TCPSender;
  _segments_out : list TCPSegment;
  _linger_after_streams_finish : bool;
  _isactive : bool;
  _time_since_last_segment_received : Z
}.

(** The constructor; [random] is used for the initial sequence number if none is fixed. *)
Definition make (cfg : TCPConfig) (random : Z) : TCPConnection :=
  mkTCPConnection cfg (TCPReceiver.make (recv_capacity cfg))
    (TCPSender.make (send_capacity cfg) (rt_timeout cfg) (fixed_isn cfg) random) [] true true 0.

Definition set_receiver (r : TCPReceiver) (c : TCPConnection) : TCPConnection :=
  mkTCPConnection (_cfg c) r (_sender c) (_segments_out c) (_linger_after_streams_finish c)
    (_isactive c) (_time_since_last_segment_received c).
Definition set_sender (s : TCPSender) (c : TCPConnection) : TCPConnection :=
  mkTCPConnection (_cfg c) (_receiver c) s (_segments_out c) (_linger_after_streams_finish c)
    (_isactive c) (_time_since_last_segment_received c).
Definition set_out (q : list TCPSegment) (c : TCPConnection) : TCPConnection :=
  mkTCPConnection (_cfg c) (_receiver c) (_sender c) q (_linger_after_streams_finish c)
    (_isactive c) (_time_since_last_segment_received c).
Definition set_linger (b : bool) (c : TCPConnection) : TCPConnection :=
  mkTCPConnection (_cfg c) (_receiver c) (_sender c) (_segments_out c) b
    (_isactive c) (_time_since_last_segment_received c).
Definition set_active (b : bool) (c : TCPConnection) : TCPConnection :=
  mkTCPConnection (_cfg c) (_receiver c) (_sender c) (_segments_out c) (_linger_after_streams_finish c)
    b (_time_since_last_segment_received c).
Definition set_time (t : Z) (c : TCPConnection) : TCPConnection :=
  mkTCPConnection (_cfg c) (_receiver c) (_sender c) (_segments_out c) (_linger_after_streams_finish c)
    (_isactive c) t.

Definition remaining_outbound_capacity (c : TCPConnection) : Z :=
  remaining_capacity (stream_in (_sender c)).
Definition bytes_in_flight (c : TCPConnection) : Z := TCPSender.bytes_in_flight (_sender c).
Definition unassembled_bytes (c : TCPConnection) : Z := TCPReceiver.unassembled_bytes (_receiver c).
Definition time_since_last_segment_received (c : TCPConnection) : Z :=
  _time_since_last_segment_received c.
Definition active (c : TCPConnection) : bool := _isactive c.
Definition state (c : TCPConnection) : TCPState :=
  TCPState_from (_sender c) (_receiver c) (active c) (_linger_after_streams_finish c).
Definition inbound_stream (c : TCPConnection) : ByteStream := stream_out (_receiver c).

(** [numeric_limits<uint16_t>::max()]. *)
Definition uint16_max : Z := 65535.

(** The receiver's fields of an outgoing segment. *)
Definition fill_header (r : TCPReceiver) (seg : TCPSegment) : TCPSegment :=
  match ackno r with
  | Some a =>
      on_header (set_ack true a
        (u16 (if window_size r <=? uint16_max then window_size r else uint16_max))) seg
  | None => seg
  end.

(** The loop of [send_segment]; [n] segments are queued. *)
Fixpoint send_loop (n : nat) (c : TCPConnection) : TCPConnection :=
  match n, segments_out (_sender c) with
  | S n', seg :: q =>
      let c := set_sender (TCPSender.set_out q (_sender c)) c in
      let seg := fill_header (_receiver c) seg in
      send_loop n' (set_out (_segments_out c ++ [seg]) c)
  | _, _ => c
  end.

Definition send_segment (c : TCPConnection) : TCPConnection :=
  send_loop (length (segments_out (_sender c))) c.

Definition connect (c : TCPConnection) : result TCPConnection :=
  s ← fill_window (_sender c);
  Ok (send_segment (set_sender s c)).

Definition end_input_stream (c : TCPConnection) : result TCPConnection :=
  let c := set_sender (end_stream (_sender c)) c in
  s ← fill_window (_sender c);
  Ok (send_segment (set_sender s c)).

Definition write (data : bytes) (c : TCPConnection) : result (Z * TCPConnection) :=
  if negb (_isactive c) || bool_decide (data = []) then Ok (0, c)
  else
    let '(len, s) := write_stream data (_sender c) in
    s ← fill_window s;
    Ok (len, send_segment (set_sender s c)).

Definition send_rst_segment (c : TCPConnection) : result TCPConnection :=
  s ← fill_window (_sender c);
  let c := set_sender s c in
  match segments_out (_sender c) with
  | [] => Ok (set_sender (send_empty_segment (_sender c)) c)
  | seg :: q =>
      let c := set_sender (TCPSender.set_out q (_sender c)) c in
      let seg := fill_header (_receiver c) seg in
      let seg := on_header (set_rst true) seg in
      Ok (set_out (_segments_out c ++ [seg]) c)
  end.

Definition unclean_shutdown (c : TCPConnection) : TCPConnection :=
  let c := set_sender (TCPSender.set_stream_error (_sender c)) c in
  let c := set_receiver (TCPReceiver.set_stream_error (_receiver c)) c in
  set_active false c.

Definition clean_shutdown (c : TCPConnection) : TCPConnection :=
  if input_ended (stream_out (_receiver c)) && negb (eof (stream_in (_sender c))) then
    set_linger false c
  else if String.eqb (sender_summary (_sender c)) TCPSenderStateSummary.FIN_ACKED &&
          String.eqb (receiver_summary (_receiver c)) TCPReceiverStateSummary.FIN_RECV then
    if negb (_linger_after_streams_finish c) ||
       (_time_since_last_segment_received c >=? 10 * rt_timeout (_cfg c))
    then set_active false c else c
  else c.

Definition segment_received (seg : TCPSegment) (c : TCPConnection) : result TCPConnection :=
  if negb (_isactive c) then Ok c
  else
    let c := set_time 0 c in
    if rst (header seg) then Ok (unclean_shutdown c)
    else
      r ← TCPReceiver.segment_received seg (_receiver c);
      let c := set_receiver r c in
      if String.eqb (receiver_summary (_receiver c)) TCPReceiverStateSummary.SYN_RECV &&
         String.eqb (sender_summary (_sender c)) TCPSenderStateSummary.CLOSED
      then connect c
      else
        c ← (if ack (header seg)
             then s ← ack_received (TCPHeader.ackno (header seg)) (win (header seg)) (_sender c);
                  Ok (set_sender s c)
             else Ok c);
        let c := if (length_in_sequence_space seg >? 0) && bool_decide (segments_out (_sender c) = [])
                 then set_sender (send_empty_segment (_sender c)) c else c in
        let c := match ackno (_receiver c) with
                 | Some a =>
                     if (length_in_sequence_space seg =? 0) && wi_eq (seqno (header seg)) (wi_minus_n a 1)
                     then set_sender (send_empty_segment (_sender c)) c else c
                 | None => c
                 end in
        let c := send_segment c in
        Ok (clean_shutdown c).

Definition tick (ms_since_last_tick : Z) (c : TCPConnection) : result TCPConnection :=
  if negb (active c) then Ok c
  else
    let c := set_sender (TCPSender.tick ms_since_last_tick (_sender c)) c in
    let c := set_time (u64 (_time_since_last_segment_received c + ms_since_last_tick)) c in
    if consecutive_retransmissions (_sender c) >? MAX_RETX_ATTEMPTS then
      c ← send_rst_segment c;
      Ok (unclean_shutdown c)
    else
      let c := send_segment c in
      Ok (clean_shutdown c).

(** The destructor. An exception is caught; what is left of the object then is not used again. *)
Definition destroy (c : TCPConnection) : result TCPConnection :=
  match
    (if active c then
       c ← send_rst_segment c;
       Ok (unclean_shutdown c)
     else Ok c)
  with
  | Throw (undefined what) => Throw (undefined what)
  | Throw _ => Ok c
  | r => r
  end.

(** ** Invariant *)

(** The fields the receiver adds do not change what a segment carries. *)
Lemma emitted_fill_header W isn n e x r seg :
  emitted W isn n e x seg -> emitted W isn n e x (fill_header r seg).
Proof.
  intros (H1 & H2 & H3 & H4 & H5). unfold fill_header. destruct (ackno r) as [a|] eqn:Ea; [|done].
  assert (wf_wrapping a) as Ha.
  { unfold ackno in Ea. destruct (_syn r); [|done]. injection Ea as <-. apply wf_wrap. }
  do 4 (split; [done|]). apply wf_on_header; [done| |done].
  destruct H5 as ((? & ? & ? & ? & ? & ? & ?) & _).
  do 5 (split; [done|]). split; [apply u16_range|done].
Qed.

Lemma emitted_by_fill W s r seg : emitted_by W s seg -> emitted_by W s (fill_header r seg).
Proof. intros [x Hx]. exists x. by apply emitted_fill_header. Qed.

Lemma emitted_by_rst W s seg : emitted_by W s seg -> emitted_by W s (on_header (set_rst true) seg).
Proof.
  intros [x (H1 & H2 & H3 & H4 & H5)]. exists x. do 4 (split; [done|]). apply wf_set_flag; auto.
Qed.

(** A later state of a sender. *)
Record later (s s' : TCPSender) : Prop := {
  later_isn : _isn s' = _isn s;
  later_next : _next_seqno s <= _next_seqno s';
  later_ended : input_ended (_stream s) = true -> input_ended (_stream s') = true;
  later_capacity : capacity (_stream s') = capacity (_stream s)
}.

#[global] Instance later_preorder : PreOrder later.
Proof.
  split; [intros s; by constructor|].
  intros a b c [] []. constructor; [congruence|lia|auto|congruence].
Qed.

Lemma emitted_by_later W s s' seg : emitted_by W s seg -> later s s' -> emitted_by W s' seg.
Proof. intros H []. rewrite <- (app_nil_r W). eapply emitted_by_mono; eauto. Qed.

Lemma filled_later s s' : filled s s' -> later s s'.
Proof. intros []. constructor; [done|done|congruence|done]. Qed.

(** What is the same for the reader of a receiver. *)
Record same_reads (r r' : TCPReceiver) : Prop := {
  same_unread : first_unread (_reassembler r') = first_unread (_reassembler r);
  same_capacity : StreamReassembler._capacity (_reassembler r') = StreamReassembler._capacity (_reassembler r);
  same_eof : StreamReassembler._eof (_reassembler r') = StreamReassembler._eof (_reassembler r);
  same_assembled : first_unassembled (_reassembler r') = first_unassembled (_reassembler r)
}.

#[global] Instance same_reads_preorder : PreOrder same_reads.
Proof. split; [intros r; by constructor|]. intros a b c [] []. constructor; congruence. Qed.

(** What is known about a receiver, and still known when its stream is flagged. *)
Class ReceiverInv (R : TCPReceiver -> Prop) :=
  receiver_error : forall r, R r -> R (TCPReceiver.set_stream_error r).

(** The configurations for which the theorems hold: the fields have their types, and the
    capacity of the receiver is one the window can describe. *)
Definition valid_config (cfg : TCPConfig) : Prop :=
  0 <= recv_capacity cfg < 4294967296 /\ 0 <= send_capacity cfg < 18446744073709551616 /\
  0 <= rt_timeout cfg < 65536 /\ (forall i, fixed_isn cfg = Some i -> wf_wrapping i).

(** [W] was written to the connection, and [R] is known about its receiver. *)
Record inv_with (R : TCPReceiver -> Prop) (W : bytes) (c : TCPConnection) : Prop := {
  inv_sender : TCPSender.wf W (_sender c);
  inv_receiver : R (_receiver c);
  inv_out : Forall (emitted_by W (_sender c)) (_segments_out c)
}.

(** The receiver of the stream [V] of a peer whose initial sequence number is [isn]. *)
Abbreviation inv W V isn := (inv_with (TCPReceiver.wf V isn) W).

#[global] Instance wf_receiver_inv V isn : ReceiverInv (TCPReceiver.wf V isn).
Proof. intros r Hr. by apply set_stream_error_wf_receiver. Qed.
#[global] Instance any_receiver_inv : ReceiverInv (fun _ => True).
Proof. done. Qed.

Section connection.
Context (R : TCPReceiver -> Prop) `{!ReceiverInv R}.

Lemma inv_set_sender W s c :
  inv_with R W c -> TCPSender.wf W s -> later (_sender c) s -> inv_with R W (set_sender s c).
Proof.
  intros [] Hs Hl. constructor; simpl; try done.
  eapply Forall_impl; [|exact inv_out0]. intros seg Hseg. by eapply emitted_by_later.
Qed.

Lemma send_loop_eq n c :
  (length (segments_out (_sender c)) <= n)%nat ->
  send_loop n c = set_out (_segments_out c ++ map (fill_header (_receiver c)) (segments_out (_sender c)))
                    (set_sender (TCPSender.set_out [] (_sender c)) c).
Proof.
  unfold segments_out. revert c. induction n as [|n IH]; intros [cfg r s q l a t] Hn;
    destruct s as [i qs init b nx rto cnt la lw tm o]; simpl in *.
  - destruct qs; [by rewrite app_nil_r|simpl in Hn; lia].
  - destruct qs as [|seg qs]; [by rewrite app_nil_r|]. unfold segments_out; simpl. rewrite IH; simpl in *; [|lia].
    by rewrite <- app_assoc.
Qed.

Lemma send_segment_eq c :
  send_segment c = set_out (_segments_out c ++ map (fill_header (_receiver c)) (segments_out (_sender c)))
                     (set_sender (TCPSender.set_out [] (_sender c)) c).
Proof. by apply send_loop_eq. Qed.

(** [send_segment] moves every queued segment to the wire. *)
Lemma send_segment_inv W c :
  inv_with R W c -> inv_with R W (send_segment c) /\ later (_sender c) (_sender (send_segment c)).
Proof.
  intros [Hs Hr Ho]. rewrite send_segment_eq. split; [|by constructor].
  constructor; simpl; [by apply set_out_wf|done|].
  apply Forall_app. split.
  - exact Ho.
  - apply Forall_map. destruct Hs as [[] _]. eapply Forall_impl; [|exact core_queue].
    intros seg Hseg. by apply emitted_by_fill.
Qed.

(** From [c] to [c'] nothing was received. *)
Definition advances (c c' : TCPConnection) : Prop :=
  later (_sender c) (_sender c') /\ same_reads (_receiver c) (_receiver c').

#[local] Instance advances_preorder : PreOrder advances.
Proof. split; [by intros c|]. intros a b c [] []. by split; etransitivity. Qed.

Lemma conn_send_frame c :
  _receiver (send_segment c) = _receiver c /\ _isactive (send_segment c) = _isactive c /\
  _linger_after_streams_finish (send_segment c) = _linger_after_streams_finish c /\
  _cfg (send_segment c) = _cfg c /\
  _time_since_last_segment_received (send_segment c) = _time_since_last_segment_received c.
Proof. by rewrite send_segment_eq. Qed.

Lemma send_segment_advances W c :
  inv_with R W c -> inv_with R W (send_segment c) /\ advances c (send_segment c).
Proof.
  intros Hc. destruct (send_segment_inv W c Hc) as [H1 H2]. split; [done|]. split; [done|].
  by rewrite (proj1 (conn_send_frame c)).
Qed.

(** Filling the window and sending what it queues. *)
Lemma fill_and_send W c :
  inv_with R W c ->
  exists s, fill_window (_sender c) = Ok s /\ TCPSender.wf W s /\ filled (_sender c) s /\
    0 < _next_seqno s /\
    inv_with R W (send_segment (set_sender s c)) /\ advances c (send_segment (set_sender s c)).
Proof.
  intros Hc. destruct (fill_window_spec W (_sender c)) as (s & E & H1 & H2 & H3 & _); [apply Hc|].
  assert (later (_sender c) s) as Hl by (by apply filled_later).
  assert (inv_with R W (set_sender s c)) as Hc1 by (by apply inv_set_sender).
  destruct (send_segment_advances W _ Hc1) as [H4 H5]. exists s. split_and!; try done.
  etransitivity; [|exact H5]. by split.
Qed.

Lemma connect_inv W c :
  inv_with R W c -> exists c', connect c = Ok c' /\ inv_with R W c' /\ advances c c'.
Proof.
  intros Hc. unfold connect. destruct (fill_and_send W c Hc) as (s & -> & _ & _ & _ & H1 & H2).
  rewrite result_bind_Ok. eauto.
Qed.

Lemma end_input_stream_inv W c :
  inv_with R W c -> exists c', end_input_stream c = Ok c' /\ inv_with R W c' /\ advances c c'.
Proof.
  intros Hc. unfold end_input_stream. set (c1 := set_sender _ c).
  assert (later (_sender c) (_sender c1)) as Hl by (constructor; simpl; done || lia).
  assert (inv_with R W c1) as Hc1 by (apply inv_set_sender; [done|apply end_stream_wf, Hc|done]).
  destruct (fill_and_send W c1 Hc1) as (s & -> & _ & _ & _ & H1 & H2).
  rewrite result_bind_Ok. eexists; split_and!; try done. etransitivity; [|exact H2]. by split.
Qed.

Lemma write_inv W data c :
  inv_with R W c -> #W + #data + 2 < 18446744073709551616 - 4294967296 ->
  exists n c', write data c = Ok (n, c') /\ inv_with R (W ++ take (Z.to_nat n) data) c' /\ advances c c' /\
    (input_ended (_stream (_sender c)) = true -> take (Z.to_nat n) data = []).
Proof.
  intros [Hs Hr Ho] Hb. unfold write. case_if.
  { exists 0, c. simpl. rewrite app_nil_r. split_and!; try done; by constructor. }
  destruct (write_stream_wf W data (_sender c) Hs Hb) as [H1 H2].
  assert (later (_sender c) (write_stream data (_sender c)).2) as Hl.
  { unfold write_stream, ByteStream.write, stream_in. case_if; constructor; simpl; try done; lia. }
  destruct (write_stream data (_sender c)) as [n s]. cbn [fst snd] in *.
  assert (inv_with R (W ++ take (Z.to_nat n) data) (set_sender s c)) as Hc1.
  { constructor; simpl; try done. eapply Forall_impl; [|exact Ho]. intros seg Hseg.
    destruct Hl. eapply emitted_by_mono; eauto. }
  destruct (fill_and_send _ _ Hc1) as (s' & E & _ & _ & _ & H3 & H4).
  cbn [_sender set_sender] in E. rewrite E, result_bind_Ok.
  change (set_sender s' (set_sender s c)) with (set_sender s' c) in *.
  exists n. eexists; split_and!; try done. etransitivity; [|exact H4]. by split.
Qed.

Lemma unclean_shutdown_inv W c :
  inv_with R W c -> inv_with R W (unclean_shutdown c) /\ advances c (unclean_shutdown c).
Proof.
  intros [Hs Hr Ho]. split; [|by split].
  constructor; [by apply set_stream_error_wf|by apply receiver_error|].
  eapply Forall_impl; [|exact Ho]. intros seg Hseg. by eapply emitted_by_later.
Qed.

Lemma clean_shutdown_frame c :
  _sender (clean_shutdown c) = _sender c /\ _receiver (clean_shutdown c) = _receiver c /\
  _segments_out (clean_shutdown c) = _segments_out c /\ _cfg (clean_shutdown c) = _cfg c.
Proof. unfold clean_shutdown. by repeat case_if. Qed.

Lemma clean_shutdown_inv W c :
  inv_with R W c -> inv_with R W (clean_shutdown c) /\ advances c (clean_shutdown c).
Proof.
  intros []. pose proof (clean_shutdown_frame c) as (E1 & E2 & E3 & _).
  split; [constructor|split]; rewrite ?E1, ?E2, ?E3; done.
Qed.

Lemma send_rst_segment_inv W c :
  inv_with R W c -> exists c', send_rst_segment c = Ok c' /\ inv_with R W c' /\ advances c c'.
Proof.
  intros Hc. unfold send_rst_segment.
  destruct (fill_window_spec W (_sender c)) as (s & -> & H1 & H2%filled_later & _); [apply Hc|].
  rewrite result_bind_Ok. assert (inv_with R W (set_sender s c)) as [Hs Hr Ho] by (by apply inv_set_sender).
  pose proof H1 as [[] _]. cbn [_sender set_sender]. unfold segments_out.
  destruct (TCPSender._segments_out s) as [|seg q] eqn:Eq; (eexists; split; [done|]).
  - split; [apply inv_set_sender; [by constructor|by apply send_empty_segment_wf|]|split; [|done]]; by constructor; destruct H2.
  - inversion core_queue as [|? ? Hseg Hq]; subst. split; [|split; [by constructor; destruct H2|done]].
    constructor; simpl; [by apply set_out_wf|done|]. apply Forall_app. split; [exact Ho|].
    constructor; [|done]. by apply emitted_by_rst, emitted_by_fill.
Qed.

Lemma tick_inv W ms c :
  inv_with R W c -> exists c', tick ms c = Ok c' /\ inv_with R W c' /\ advances c c'.
Proof.
  intros Hc. unfold tick. case_if; [by exists c|].
  set (c1 := set_time _ _). pose proof (tick_frame ms (_sender c)) as (F1 & F2 & F3 & _).
  assert (inv_with R W c1 /\ advances c c1) as [Hc1 Ha].
  { assert (later (_sender c) (TCPSender.tick ms (_sender c))) as Hl
      by (constructor; rewrite ?F1, ?F2, ?F3; done || lia).
    split; [|by split].
    destruct (inv_set_sender W _ c Hc (tick_wf W ms _ (inv_sender _ _ _ Hc)) Hl). by constructor. }
  clearbody c1. case_if.
  - destruct (send_rst_segment_inv W c1 Hc1) as (c2 & -> & H1 & H2). rewrite result_bind_Ok.
    destruct (unclean_shutdown_inv W c2 H1) as [H3 H4]. eexists; split_and!; try done.
    by do 2 (etransitivity; [|done]).
  - destruct (send_segment_advances W c1 Hc1) as [H1 H2].
    destruct (clean_shutdown_inv W _ H1) as [H3 H4]. eexists; split_and!; try done.
    by do 2 (etransitivity; [|done]).
Qed.

Lemma destroy_inv W c :
  inv_with R W c -> exists c', destroy c = Ok c' /\ inv_with R W c' /\ advances c c'.
Proof.
  intros Hc. unfold destroy. case_if; [|by exists c].
  destruct (send_rst_segment_inv W c Hc) as (c2 & -> & H1 & H2). rewrite result_bind_Ok.
  destruct (unclean_shutdown_inv W c2 H1) as [H3 H4]. eexists; split_and!; try done. by etransitivity.
Qed.

Lemma send_empty_inv W c :
  inv_with R W c -> inv_with R W (set_sender (send_empty_segment (_sender c)) c) /\
    advances c (set_sender (send_empty_segment (_sender c)) c).
Proof.
  intros Hc. assert (later (_sender c) (send_empty_segment (_sender c))) as Hl by (by constructor).
  split; [apply inv_set_sender; [done|apply send_empty_segment_wf, Hc|done]|by split].
Qed.

(** The part of [segment_received] after the receiver has seen the segment. *)
Definition answer (seg : TCPSegment) (c : TCPConnection) : result TCPConnection :=
  c ← (if ack (header seg)
       then s ← ack_received (TCPHeader.ackno (header seg)) (win (header seg)) (_sender c);
            Ok (set_sender s c)
       else Ok c);
  let c := if (length_in_sequence_space seg >? 0) && bool_decide (segments_out (_sender c) = [])
           then set_sender (send_empty_segment (_sender c)) c else c in
  let c := match ackno (_receiver c) with
           | Some a =>
               if (length_in_sequence_space seg =? 0) && wi_eq (seqno (header seg)) (wi_minus_n a 1)
               then set_sender (send_empty_segment (_sender c)) c else c
           | None => c
           end in
  Ok (clean_shutdown (send_segment c)).

Lemma answer_inv W seg c :
  inv_with R W c -> wf_wrapping (TCPHeader.ackno (header seg)) -> 0 <= win (header seg) < 65536 ->
  exists c', answer seg c = Ok c' /\ inv_with R W c' /\ advances c c'.
Proof.
  intros Hc Ha Hw. unfold answer.
  assert (exists c1, (if ack (header seg)
       then s ← ack_received (TCPHeader.ackno (header seg)) (win (header seg)) (_sender c);
            Ok (set_sender s c)
       else Ok c) = Ok c1 /\ inv_with R W c1 /\ advances c c1) as (c1 & -> & H1 & H2).
  { destruct (ack (header seg)); [|by exists c].
    destruct (ack_received_spec W (TCPHeader.ackno (header seg)) (win (header seg)) (_sender c))
      as (s & -> & R1 & R2 & R3 & R4 & R5 & R6 & R7 & R8); [apply Hc|done..|]. rewrite result_bind_Ok.
    assert (later (_sender c) s) as Hl by (constructor; [done|done|congruence|done]).
    eexists; split_and!; [done|by apply inv_set_sender|by split]. }
  rewrite result_bind_Ok. set (c2 := if _ && _ then _ else c1).
  assert (inv_with R W c2 /\ advances c c2) as [H3 H4].
  { unfold c2. case_if; [|done]. destruct (send_empty_inv W c1 H1). split; [done|]. by etransitivity. }
  clearbody c2. set (c3 := match ackno _ with Some _ => _ | None => _ end).
  assert (inv_with R W c3 /\ advances c c3) as [H5 H6].
  { unfold c3. destruct (ackno (_receiver c2)); [|done]. case_if; [|done].
    destruct (send_empty_inv W c2 H3). split; [done|]. by etransitivity. }
  clearbody c3. destruct (send_segment_advances W c3 H5) as [H7 H8].
  destruct (clean_shutdown_inv W _ H7) as [H9 H10].
  eexists; split_and!; try done. by do 2 (etransitivity; [|done]).
Qed.

End connection.

Section peer.
Variables (V : bytes) (isn : WrappingInt32).
Hypothesis Hisn : wf_wrapping isn.
Hypothesis HV : #V < 18446744073709551616 - 4294967296.

(** What a segment of the peer does to a connection. *)
Lemma segment_received_inv W x seg c :
  inv W V isn c -> carries V isn x seg -> near (_receiver c) x ->
  wf_wrapping (TCPHeader.ackno (header seg)) -> 0 <= win (header seg) < 65536 ->
  exists c', segment_received seg c = Ok c' /\ inv W V isn c' /\ later (_sender c) (_sender c') /\
    first_unread (_reassembler (_receiver c')) = first_unread (_reassembler (_receiver c)) /\
    StreamReassembler._capacity (_reassembler (_receiver c')) =
      StreamReassembler._capacity (_reassembler (_receiver c)) /\
    (StreamReassembler._eof (_reassembler (_receiver c')) = true ->
     StreamReassembler._eof (_reassembler (_receiver c)) = true \/ fin (header seg) = true).
Proof.
  intros Hc Hs Hn Ha Hw. unfold segment_received. case_if; [exists c; split_and!; try done; by left|].
  assert (inv W V isn (set_time 0 c)) as Hc0 by (by destruct Hc).
  case_if.
  { destruct (unclean_shutdown_inv _ W _ Hc0) as [H1 [H2 []]]. eexists; split_and!; try done.
    rewrite same_eof0. by left. }
  destruct (segment_received_spec V isn Hisn HV (_receiver c) x seg) as (r & E & R1 & R2);
    [apply Hc|done..|]. cbn [_receiver set_time]. rewrite E, result_bind_Ok.
  destruct R2 as (_ & R3 & R4 & _ & _ & R5 & _). set (c1 := set_receiver r (set_time 0 c)).
  assert (inv W V isn c1) as Hc1 by (destruct Hc; by constructor).
  fold (answer seg c1).
  assert (forall c', inv W V isn c' -> advances c1 c' -> inv W V isn c' /\ later (_sender c) (_sender c') /\
    first_unread (_reassembler (_receiver c')) = first_unread (_reassembler (_receiver c)) /\
    StreamReassembler._capacity (_reassembler (_receiver c')) =
      StreamReassembler._capacity (_reassembler (_receiver c)) /\
    (StreamReassembler._eof (_reassembler (_receiver c')) = true ->
     StreamReassembler._eof (_reassembler (_receiver c)) = true \/ fin (header seg) = true)) as Hfin.
  { intros c' H1 [H2 []]. cbn [c1 _receiver set_receiver] in *. split_and!; try done; try congruence.
    rewrite same_eof0, R5, orb_true_iff, andb_true_iff. tauto. }
  case_if.
  - destruct (connect_inv _ W c1 Hc1) as (c' & E' & H1 & H2). exists c'. split; [done|]. by apply Hfin.
  - destruct (answer_inv (TCPReceiver.wf V isn) W seg c1) as (c' & E' & H1 & H2); try done.
    exists c'. split; [done|]. by apply Hfin.
Qed.
End peer.

(** ** Between calls of an active connection *)

(** The timeout is the initial one doubled once per consecutive retransmission. *)
Definition backoff (s : TCPSender) : Prop :=
  0 <= _retransmission_count s <= MAX_RETX_ATTEMPTS /\
  _RTO s = _initial_retransmission_timeout s * 2 ^ _retransmission_count s.

(** Every segment of an active connection's sender is on the wire, and the sender has
    not used up its retransmissions. *)
Definition live (c : TCPConnection) : Prop :=
  _isactive c = true -> TCPSender._segments_out (_sender c) = [] /\ backoff (_sender c).

Lemma make_live cfg rnd : live (make cfg rnd).
Proof. intros _. split; [done|]. unfold backoff, MAX_RETX_ATTEMPTS. simpl. lia. Qed.

Lemma filled_backoff s s' : filled s s' -> backoff s -> backoff s'.
Proof. intros [] [H1 H2]. unfold backoff. by rewrite filled_rto, filled_count, filled_init. Qed.

Lemma send_segment_live c :
  (_isactive c = true -> backoff (_sender c)) -> live (send_segment c).
Proof. intros Hb. rewrite send_segment_eq. intros Ha. split; [done|]. by apply Hb. Qed.

Lemma clean_shutdown_live c : live c -> live (clean_shutdown c).
Proof. intros Hl. unfold clean_shutdown. repeat case_if; try done. Qed.

Lemma fill_and_send_live W s c c' :
  TCPSender.wf W (_sender c) -> (_isactive c = true -> backoff (_sender c)) ->
  fill_window (_sender c) = Ok s -> c' = send_segment (set_sender s c) -> live c'.
Proof.
  intros Hs Hb E ->. destruct (fill_window_spec W (_sender c) Hs) as (s' & E' & _ & Hf & _).
  assert (s' = s) as -> by congruence. apply send_segment_live. intros Ha. simpl in *.
  eapply filled_backoff; eauto.
Qed.

Lemma ack_received_backoff W ackno w s s' :
  TCPSender.wf W s -> wf_wrapping ackno -> 0 <= w < 65536 -> backoff s ->
  ack_received ackno w s = Ok s' -> backoff s'.
Proof.
  intros Hs Ha Hw Hb. rewrite ack_received_eq. case_if; [by intros [= <-]|]. intros E.
  destruct (fill_window_spec W (acked ackno w s)) as (s1 & E1 & _ & Hf & _); [by apply acked_wf; [..|lia]|].
  assert (s1 = s') as -> by congruence. eapply filled_backoff; [done|].
  unfold acked. case_if; [|done]. unfold backoff, MAX_RETX_ATTEMPTS; simpl. lia.
Qed.

(** A tick counts at most one more retransmission, without wrapping. *)
Lemma tick_backoff ms s :
  0 <= _initial_retransmission_timeout s < 65536 -> backoff s ->
  let s' := TCPSender.tick ms s in
  0 <= _retransmission_count s' <= MAX_RETX_ATTEMPTS + 1 /\
  _RTO s' = _initial_retransmission_timeout s' * 2 ^ _retransmission_count s'.
Proof.
  intros Hi [H1 H2] s'. unfold s', TCPSender.tick, MAX_RETX_ATTEMPTS in *. cbn [set_timer _outstanding_seg].
  destruct (_outstanding_seg s); [simpl; lia|]. repeat case_if; simpl; try lia.
  assert (2 ^ _retransmission_count s <= 2 ^ 8) by (apply Z.pow_le_mono_r; lia).
  assert (0 <= 2 ^ _retransmission_count s) by (apply Z.pow_nonneg; lia).
  rewrite H2. rewrite !u32_id by nia. split; [lia|]. rewrite Z.pow_add_r by lia. lia.
Qed.

Lemma tick_live W V isn ms c c' :
  inv W V isn c -> live c -> tick ms c = Ok c' -> live c'.
Proof.
  intros Hc Hl. unfold tick. case_if; [by intros [= <-]|]. apply negb_false_iff in Heqb.
  destruct (Hl Heqb) as [_ Hb].
  destruct (tick_backoff ms (_sender c)) as [T1 T2]; [apply Hc|done|].
  set (c1 := set_time _ _). case_if.
  - destruct (send_rst_segment c1); cbn [mbind result_bind]; [|done..]. intros [= <-]. done.
  - intros [= <-]. apply clean_shutdown_live, send_segment_live. intros _.
    unfold consecutive_retransmissions in *. subst c1. cbn [_sender set_time set_sender] in *.
    split; [lia|done].
Qed.

Lemma segment_received_live W V isn seg c c' :
  inv W V isn c -> live c ->
  wf_wrapping (TCPHeader.ackno (header seg)) -> 0 <= win (header seg) < 65536 ->
  segment_received seg c = Ok c' -> live c'.
Proof.
  intros [Hs _ _] Hl Ha Hw. unfold segment_received. case_if; [by intros [= <-]|].
  apply negb_false_iff in Heqb. destruct (Hl Heqb) as [_ Hb]. case_if; [by intros [= <-]|].
  destruct (TCPReceiver.segment_received _ _) as [r| |]; [|done..]. rewrite result_bind_Ok.
  set (c1 := set_receiver _ _). case_if.
  - unfold connect. destruct (fill_window (_sender c1)) as [s| |] eqn:E; [|done..]. rewrite result_bind_Ok.
    intros [= <-]. by eapply (fill_and_send_live W s c1).
  - fold (answer seg c1). unfold answer. change (_sender c1) with (_sender c). clear Heqb0 Heqb1.
    destruct (if ack (header seg) then _ else Ok c1) as [c2| |] eqn:E; [|done..]. rewrite result_bind_Ok.
    intros [= <-]. apply clean_shutdown_live, send_segment_live. intros _.
    assert (backoff (_sender c2)) as Hb2.
    { destruct (ack (header seg)); [|by injection E as <-].
      destruct (ack_received _ _ _) as [s| |] eqn:E1; [|done..]. rewrite result_bind_Ok in E.
      injection E as <-. by eapply ack_received_backoff. }
    destruct (ackno _); repeat case_if; done.
Qed.

Lemma connect_live W V isn c c' : inv W V isn c -> live c -> connect c = Ok c' -> live c'.
Proof.
  intros [Hs _ _] Hl. unfold connect. destruct (fill_window (_sender c)) as [s| |] eqn:E; [|done..].
  rewrite result_bind_Ok. intros [= <-]. eapply fill_and_send_live; eauto. apply Hl.
Qed.

Lemma end_input_stream_live W V isn c c' : inv W V isn c -> live c -> end_input_stream c = Ok c' -> live c'.
Proof.
  intros [Hs _ _] Hl. unfold end_input_stream. set (c1 := set_sender _ c).
  destruct (fill_window (_sender c1)) as [s| |] eqn:E; [|done..].
  rewrite result_bind_Ok. intros [= <-]. eapply (fill_and_send_live W s c1); [by apply end_stream_wf|apply Hl|done|done].
Qed.

Lemma write_live W V isn data n c c' :
  inv W V isn c -> #W + #data + 2 < 18446744073709551616 - 4294967296 ->
  live c -> write data c = Ok (n, c') -> live c'.
Proof.
  intros [Hs _ _] Hb Hl. unfold write. case_if; [by intros [= <- <-]|].
  destruct (write_stream_wf W data (_sender c) Hs Hb) as [H1 _].
  assert (backoff (_sender c) -> backoff (write_stream data (_sender c)).2) as H2
    by (unfold write_stream; by destruct (ByteStream.write _ _)).
  destruct (write_stream data (_sender c)) as [m s]. cbn [fst snd] in *.
  destruct (fill_window s) as [s'| |] eqn:E; [|done..]. rewrite result_bind_Ok. intros [= <- <-].
  eapply (fill_and_send_live _ s' (set_sender s c)); [done| |done|done]. intros Ha. by apply H2, Hl.
Qed.

Lemma make_inv cfg rnd isn :
  0 <= recv_capacity cfg < 4294967296 -> 0 <= send_capacity cfg < 18446744073709551616 ->
  0 <= rt_timeout cfg < 65536 -> (forall i, fixed_isn cfg = Some i -> wf_wrapping i) ->
  inv [] [] isn (make cfg rnd).
Proof.
  intros. constructor; [by apply make_sender_wf|apply make_receiver_wf|done]; rewrite ?Zlen_nil; lia.
Qed.

(** What it takes for [clean_shutdown] to close. *)
Lemma clean_shutdown_closes c :
  active c = true -> active (clean_shutdown c) = false ->
  sender_summary (_sender c) = TCPSenderStateSummary.FIN_ACKED /\
  receiver_summary (_receiver c) = TCPReceiverStateSummary.FIN_RECV /\
  clean_shutdown c = set_active false c /\
  (_linger_after_streams_finish c = false \/
   10 * rt_timeout (_cfg c) <= _time_since_last_segment_received c).
Proof.
  unfold active, clean_shutdown. intros Ha. case_if; [simpl; congruence|]. case_if; [|congruence].
  apply andb_prop in Heqb0 as [E1%String.eqb_eq E2%String.eqb_eq]. case_if; [|congruence].
  intros _. split_and!; try done. apply orb_prop in Heqb0 as [H|H]; [left; by apply negb_true_iff|right; lia].
Qed.

(** A call that leaves the connection open, closes it in error, or ends in [clean_shutdown]. *)
Definition ends_clean (c' : TCPConnection) : Prop :=
  active c' = true \/ ByteStream.error (stream_in (_sender c')) = true \/
  exists c2, active c2 = true /\ c' = clean_shutdown c2.

Lemma tick_ends ms c c' : active c = true -> tick ms c = Ok c' -> ends_clean c'.
Proof.
  intros Ha. unfold tick. rewrite Ha. cbn [negb]. set (c1 := set_time _ _). case_if.
  - destruct (send_rst_segment c1); [|done..]. rewrite result_bind_Ok. intros [= <-]. right. by left.
  - intros [= <-]. right; right. eexists; split; [|done]. unfold active.
    by rewrite (proj1 (proj2 (conn_send_frame c1))).
Qed.

Lemma segment_received_ends seg c c' :
  active c = true -> segment_received seg c = Ok c' -> ends_clean c'.
Proof.
  intros Ha. unfold segment_received. unfold active in Ha. rewrite Ha. cbn [negb].
  case_if; [intros [= <-]; right; by left|].
  destruct (TCPReceiver.segment_received _ _) as [r| |]; [|done..]. rewrite result_bind_Ok.
  set (c1 := set_receiver _ _). case_if.
  - unfold connect. destruct (fill_window (_sender c1)); [|done..]. rewrite result_bind_Ok.
    intros [= <-]. left. unfold active. by rewrite send_segment_eq.
  - destruct (if ack (header seg) then _ else Ok c1) as [c2| |] eqn:E; [|done..].
    rewrite result_bind_Ok. intros [= <-]. right; right. eexists; split; [|done].
    assert (_isactive c2 = true) as H2.
    { destruct (ack (header seg)); [|by injection E as <-].
      destruct (ack_received _ _ _); [|done..]. rewrite result_bind_Ok in E. by injection E as <-. }
    unfold active. rewrite (proj1 (proj2 (conn_send_frame _))).
    destruct (ackno _); repeat case_if; done.
Qed.

(** ** Properties *)

(** C28: a reset from the peer. An active connection that receives a segment with RST closes
    at once: both streams are in error, nothing is sent, and the state is the official RESET. This is so
    whatever the segment's numbers are and in every state, LISTEN and SYN_SENT included, in which the comments of the strict test of
    the repository (tests/fsm_ack_rst.cc) want a RST ignored. *)
Theorem rst_resets seg c (Ha : active c = true) (Hr : rst (header seg) = true) :
  exists c', segment_received seg c = Ok c' /\ active c' = false /\
    ByteStream.error (inbound_stream c') = true /\ ByteStream.error (stream_in (_sender c')) = true /\
    _segments_out c' = _segments_out c /\ state_eq (state c') (TCPState_of RESET) = true.
Proof.
  unfold active in Ha. unfold segment_received. rewrite Ha, Hr. simpl. by eexists.
Qed.

Definition sample_conn : TCPConnection :=
  make (mkTCPConfig 1000 8 20 (Some (WrappingInt32_of 7))) 0.

(** The connection after its handshake. *)
Definition handshake_answer : TCPSegment :=
  mkTCPSegment (mkTCPHeader 0 0 (WrappingInt32_of 99) (WrappingInt32_of 8) 5 false true false false true false 100 0 0) empty_buffer.
Definition established_conn : TCPConnection := Eval vm_compute in
  match (c ← connect sample_conn; segment_received handshake_answer c) with Ok c => c | _ => sample_conn end.

Lemma rst_resets_witness :
  state_eq (state established_conn) (TCPState_of ESTABLISHED) = true /\
  exists c', segment_received (on_header (set_rst true) default_segment) established_conn = Ok c' /\
    active c' = false /\
    ByteStream.error (inbound_stream c') = true /\ ByteStream.error (stream_in (_sender c')) = true /\
    _segments_out c' = _segments_out established_conn /\ state_eq (state c') (TCPState_of RESET) = true.
Proof.
  split; [vm_compute; reflexivity|].
  apply (rst_resets (on_header (set_rst true) default_segment) established_conn); reflexivity.
Defined.

(** giving up. When the timer of an active connection expires with a segment outstanding,
    an open window and all retransmissions used up, [tick] puts one more segment on the wire,
    the oldest outstanding one with the RST flag, and closes the connection with both streams
    in error; with fewer retransmissions it does not reset. *)
Theorem retransmissions_exhausted W V isn ms c seg q
  (Hc : inv W V isn c) (Hl : live c) (Ha : active c = true)
  (Hq : _outstanding_seg (_sender c) = seg :: q)
  (He : is_expired (timer_tick ms (_timer (_sender c))) = true) (Hw : 0 < _last_win (_sender c)) :
  exists c', tick ms c = Ok c' /\
    if _retransmission_count (_sender c) =? MAX_RETX_ATTEMPTS then
      _segments_out c' = _segments_out c ++ [on_header (set_rst true) (fill_header (_receiver c) seg)] /\
      active c' = false /\ state_eq (state c') (TCPState_of RESET) = true
    else
      _segments_out c' = _segments_out c ++ [fill_header (_receiver c) seg] /\
      ByteStream.error (inbound_stream c') = ByteStream.error (inbound_stream c) /\
      ByteStream.error (stream_in (_sender c')) = ByteStream.error (stream_in (_sender c)).
Proof.
  destruct (Hl Ha) as [Hout [Hb1 Hb2]]. unfold tick. rewrite Ha. cbn [negb].
  pose proof (tick_frame ms (_sender c)) as (_ & _ & F3 & _).
  assert (TCPSender._segments_out (TCPSender.tick ms (_sender c)) = [seg] /\
    _retransmission_count (TCPSender.tick ms (_sender c)) = _retransmission_count (_sender c) + 1) as [T1 T2].
  { unfold TCPSender.tick, MAX_RETX_ATTEMPTS in *. cbn [set_timer _outstanding_seg _timer]. rewrite Hq, He.
    cbn [TCPSender.set_out _last_win set_timer]. rewrite (proj2 (Z.gtb_lt _ _)) by lia. simpl.
    rewrite Hout. split; [done|]. apply u32_id. lia. }
  assert (TCPSender.wf W (TCPSender.tick ms (_sender c))) as Hwf by (apply tick_wf, Hc).
  set (s1 := TCPSender.tick ms (_sender c)) in *. clearbody s1.
  unfold consecutive_retransmissions. cbn [_sender set_time set_sender]. rewrite T2.
  unfold MAX_RETX_ATTEMPTS in *. destruct (_retransmission_count (_sender c) =? 8) eqn:E.
  - rewrite (proj2 (Z.gtb_lt _ _)) by lia. unfold send_rst_segment. cbn [_sender set_time set_sender].
    destruct (fill_window_spec W s1 Hwf) as (s2 & -> & _ & [] & _). rewrite result_bind_Ok.
    destruct filled_queues as (new & Q & _). rewrite T1 in Q. simpl. unfold segments_out. rewrite Q. by eexists.
  - rewrite Z.gtb_ltb, (proj2 (Z.ltb_ge _ _)) by lia.
    eexists; split; [done|].
    match goal with |- context [clean_shutdown ?x] => pose proof (clean_shutdown_frame x) as (E1 & E2 & E3 & _) end.
    unfold inbound_stream. rewrite E1, E2, E3, send_segment_eq. unfold segments_out. simpl. rewrite T1, F3.
    done.
Qed.

(** Time passes in several steps. *)
Fixpoint ticks (l : list Z) (c : TCPConnection) : result TCPConnection :=
  match l with [] => Ok c | ms :: l => c ← tick ms c; ticks l c end.

Lemma ticks_inv W V isn l c :
  inv W V isn c -> live c -> exists c', ticks l c = Ok c' /\ inv W V isn c' /\ live c'.
Proof.
  revert c. induction l as [|ms l IH]; intros c Hc Hl; [by exists c|]. cbn [ticks].
  destruct (tick_inv _ W ms c Hc) as (c1 & E & H1 & _). pose proof (tick_live _ _ _ _ _ _ Hc Hl E).
  rewrite E, result_bind_Ok. by apply IH.
Qed.

(** The SYN has been sent, and retransmitted eight times. *)
Definition unanswered : TCPConnection :=
  match connect sample_conn with
  | Ok c => match ticks (replicate 8 300000) c with Ok c => c | _ => sample_conn end
  | _ => sample_conn
  end.

Lemma unanswered_ok : inv [] [] (WrappingInt32_of 0) unanswered /\ live unanswered.
Proof.
  assert (inv [] [] (WrappingInt32_of 0) sample_conn) as H0.
  { apply make_inv; [by_compute..|]. intros i [= <-]. by_compute. }
  destruct (connect_inv _ [] sample_conn H0) as (c & E & H1 & _).
  pose proof (connect_live _ _ _ _ _ H0 (make_live _ _) E) as H2.
  destruct (ticks_inv [] [] (WrappingInt32_of 0) (replicate 8 300000) c H1 H2) as (c' & E' & H3).
  unfold unanswered. rewrite E, E'. exact H3.
Qed.

Lemma retransmissions_exhausted_witness :
  exists seg, _outstanding_seg (_sender unanswered) = [seg] /\
  exists c', tick 300000 unanswered = Ok c' /\
    if _retransmission_count (_sender unanswered) =? MAX_RETX_ATTEMPTS then
      _segments_out c' = _segments_out unanswered ++ [on_header (set_rst true) (fill_header (_receiver unanswered) seg)] /\
      active c' = false /\ state_eq (state c') (TCPState_of RESET) = true
    else
      _segments_out c' = _segments_out unanswered ++ [fill_header (_receiver unanswered) seg] /\
      ByteStream.error (inbound_stream c') = ByteStream.error (inbound_stream unanswered) /\
      ByteStream.error (stream_in (_sender c')) = ByteStream.error (stream_in (_sender unanswered)).
Proof.
  eexists. split; [vm_compute; reflexivity|].
  eapply (retransmissions_exhausted [] [] (WrappingInt32_of 0));
    [apply unanswered_ok|apply unanswered_ok|vm_compute; reflexivity..].
Defined.

(** C27: a connection that closes cleanly is complete. If a tick or a segment closes an active
    connection without an error, then the whole outbound stream and its FIN have been sent and
    acknowledged, the inbound stream has ended with all of the peer's bytes, and the connection
    had no reason to linger or has lingered for ten initial timeouts. *)
Theorem clean_close_complete W V isn c c' op
  (Hop : (exists ms, op = tick ms) \/ (exists seg, op = segment_received seg))
  (Hc' : inv W V isn c') (E : op c = Ok c') (Ha : active c = true) (Ha' : active c' = false)
  (Herr : ByteStream.error (stream_in (_sender c')) = false) :
  eof (_stream (_sender c')) = true /\ _next_seqno (_sender c') = #W + 2 /\
  _last_ackno (_sender c') = #W + 2 /\
  input_ended (inbound_stream c') = true /\ first_unassembled (_reassembler (_receiver c')) = #V /\
  (_linger_after_streams_finish c' = false \/
   10 * rt_timeout (_cfg c') <= time_since_last_segment_received c').
Proof.
  assert (ends_clean c') as [H|[H|(c2 & H2 & Hcs)]].
  { destruct Hop as [[ms ->]|[seg ->]]; [by eapply tick_ends|by eapply segment_received_ends]. }
  { congruence. } { congruence. }
  rewrite Hcs in Ha'. destruct (clean_shutdown_closes c2 H2 Ha') as (S1 & S2 & S3 & S4).
  rewrite S3 in Hcs. subst c'. destruct Hc' as [Hs Hr _]. simpl in *.
  destruct (fin_acked_spec W _ Hs S1) as (F1 & F2 & F3). destruct (fin_recv_spec V isn _ Hr S2) as [F4 _].
  split_and!; try done. destruct Hr as [[[] _ _] _ _]. apply core_ended. done.
Qed.
