(* ===== verification/AnyPeer.v ===== *)
(** * A connection with any peer

    The invariant of a connection whose peer may send anything: the sender's part of
    [TCPConnection.inv_with], which does not depend on the peer, with the receiver's part of
    Robust.v. *)

From S2P Require Import Prelude WrappingIntegers ByteStream StreamReassembler Buffer TCPHeader.
From S2P Require Import TCPSegment TCPReceiver Robust TCPSender TCPState TCPConnection.

(** ** The receiver *)

(** After [j] segments of a peer, a receiver with room for [cap] bytes. The owner has taken the
    bytes [taken], and [old] has been assembled. *)
Record recv_ok (n : nat) (cap j : Z) (old taken : bytes) (r : TCPReceiver) : Prop := {
  recv_sound : sound n (_reassembler r);
  recv_cap : StreamReassembler._capacity (_reassembler r) = cap;
  recv_count : first_unassembled (_reassembler r) <= j * cap;
  recv_old : old `prefix_of` taken ++ _buff (stream_out r);
  recv_taken : first_unread (_reassembler r) = #taken
}.

#[global] Instance recv_ok_error n cap j old taken : ReceiverInv (recv_ok n cap j old taken).
Proof. intros r [[Hc Hch] H2 H3 H4 H5]. constructor; [split; [done|exact Hch]|done..]. Qed.

Lemma recv_ok_mono n cap j j' old taken r :
  0 <= cap -> j <= j' -> recv_ok n cap j old taken r -> recv_ok n cap j' old taken r.
Proof. intros Hc Hj []. constructor; try done. nia. Qed.

Lemma recv_ok_make n cap : 0 <= cap -> Z.of_nat n + cap < 18446744073709551616 -> recv_ok n cap 0 [] [] (TCPReceiver.make cap).
Proof.
  intros H1 H2. constructor; [|done|by rewrite Z.mul_0_l|apply prefix_nil|done].
  apply sound_wf. apply (make_reassembler_wf _ cap); [lia|]. unfold Zlen. by rewrite length_replicate.
Qed.

Lemma recv_ok_segment n cap j old taken seg r :
  0 <= cap -> recv_ok n cap j old taken r -> size (payload seg) < 4294967296 ->
  (j + 1) * cap + 4294967296 <= Z.of_nat n ->
  exists r', TCPReceiver.segment_received seg r = Ok r' /\ recv_ok n cap (j + 1) old taken r'.
Proof.
  intros Hc [H1 H2 H3 H4 H5] Hp Hn. pose proof (sound_unacceptable n _ H1) as Hu.
  destruct (segment_received_any n seg r H1) as (r' & E & G1 & G2 & G3 & G4 & G5 & _); [unfold size in Hp; nia|].
  exists r'. split; [done|]. constructor; [done|congruence|nia| |congruence].
  etransitivity; [exact H4|]. by apply prefix_app.
Qed.

(** [inbound_stream()] is read. *)
Lemma recv_ok_pop n cap j old taken k r :
  0 <= k -> recv_ok n cap j old taken r ->
  recv_ok n cap j old (taken ++ peek_output k (stream_out r))
    (set_reassembler (set_output (pop_output k (stream_out r)) (_reassembler r)) r).
Proof.
  intros Hk [H1 H2 H3 H4 H5]. destruct (pop_sound n k _ H1 Hk) as (G1 & G2 & G3 & G4).
  unfold stream_out in *. change (StreamReassembler.stream_out (_reassembler r)) with (_output (_reassembler r)) in *.
  constructor; [done|done|exact H3| |rewrite Zlen_app, <- H5; exact G4].
  rewrite <- app_assoc. simpl in G3 |- *. by rewrite <- G3.
Qed.

(** ** The connection *)

Lemma segment_received_with (R R' : TCPReceiver -> Prop) `{!ReceiverInv R'} W seg c :
  inv_with R W c -> parsed seg ->
  (forall r, R r -> R' r) ->
  (forall r, R r -> exists r', TCPReceiver.segment_received seg r = Ok r' /\ R' r') ->
  exists c', segment_received seg c = Ok c' /\ inv_with R' W c' /\ later (_sender c) (_sender c').
Proof.
  intros [Hs Hr Ho] (Ha & Hw & _) Hmono Hstep.
  assert (inv_with R' W (set_time 0 c)) as Hc0 by (constructor; auto).
  unfold segment_received. case_if; [exists c; split_and!; [done|constructor; auto|done]|]. case_if.
  { eexists; split; [done|]. destruct (unclean_shutdown_inv R' W _ Hc0) as [H1 [H2 _]]. by split. }
  destruct (Hstep _ Hr) as (r & E & Hr'). cbn [_receiver set_time]. rewrite E, result_bind_Ok.
  set (c1 := set_receiver r (set_time 0 c)). assert (inv_with R' W c1) as Hc1 by (by constructor).
  fold (answer seg c1). case_if.
  - destruct (connect_inv R' W c1 Hc1) as (c' & E' & H1 & [H2 _]). by exists c'.
  - destruct (answer_inv R' W seg c1 Hc1 Ha Hw) as (c' & E' & H1 & [H2 _]). by exists c'.
Qed.

(** Reading the inbound stream. *)
Definition read_inbound (len : Z) (c : TCPConnection) : bytes * TCPConnection :=
  let '(d, r) := read_stream len (_receiver c) in (d, set_receiver r c).

(** What can happen to a connection: a call of its owner, a tick, or any segment. *)
Inductive call :=
| Connects
| Writes (data : bytes)
| Ends
| Ticks (ms : Z)
| Hears (seg : TCPSegment)
| Takes (len : Z).

Definition any_call (x : call) : Prop :=
  match x with
  | Hears seg => parsed seg
  | Takes len => 0 <= len
  | _ => True
  end.

Definition data_of (x : call) : bytes := match x with Writes d => d | _ => [] end.

(** The connection with the bytes its owner has read. *)
Definition do_call (x : call) (s : TCPConnection * bytes) : result (TCPConnection * bytes) :=
  let '(c, d) := s in
  match x with
  | Connects => c ← connect c; Ok (c, d)
  | Writes data => p ← write data c; Ok (p.2, d)
  | Ends => c ← end_input_stream c; Ok (c, d)
  | Ticks ms => c ← tick ms c; Ok (c, d)
  | Hears seg => c ← segment_received seg c; Ok (c, d)
  | Takes len => let '(x, c) := read_inbound len c in Ok (c, d ++ x)
  end.

Fixpoint do_calls (l : list call) (s : TCPConnection * bytes) : result (TCPConnection * bytes) :=
  match l with
  | [] => Ok s
  | x :: l => s ← do_call x s; do_calls l s
  end.

Definition written_by (l : list call) : bytes := concat (map data_of l).

Lemma do_call_ok n cap j old x W s :
  0 <= cap -> any_call x -> inv_with (recv_ok n cap j old s.2) W s.1 ->
  (j + 1) * cap + 4294967296 <= Z.of_nat n -> #W + #(data_of x) + 2 < 18446744073709551616 - 4294967296 ->
  exists s' W', do_call x s = Ok s' /\ inv_with (recv_ok n cap (j + 1) old s'.2) (W ++ W') s'.1 /\ #W' <= #(data_of x) /\
    later (_sender s.1) (_sender s'.1).
Proof.
  intros Hcap Hx Hc Hn HW. destruct s as [c d]. cbn [fst snd] in *.
  assert (forall c' W', inv_with (recv_ok n cap j old d) W' c' -> inv_with (recv_ok n cap (j + 1) old d) W' c') as Hm.
  { intros c' W' []. constructor; try done. eapply recv_ok_mono; [done| |done]. lia. }
  assert (forall c', inv_with (recv_ok n cap j old d) W c' -> inv_with (recv_ok n cap (j + 1) old d) (W ++ []) c') as Hm'
    by (intros c' Hc'; rewrite app_nil_r; by apply Hm).
  destruct x; cbn [do_call data_of any_call] in *.
  - destruct (connect_inv _ W c Hc) as (c' & E & H1 & H2 & _). rewrite E, result_bind_Ok. exists (c', d), []. by split_and!; [|apply Hm'| |].
  - destruct (write_inv _ W data c Hc HW) as (k & c' & E & H1 & [H2 _] & _). rewrite E, result_bind_Ok.
    exists (c', d), (take (Z.to_nat k) data). split_and!; [done|by apply Hm| |done]. unfold Zlen. rewrite length_take. lia.
  - destruct (end_input_stream_inv _ W c Hc) as (c' & E & H1 & H2 & _). rewrite E, result_bind_Ok. exists (c', d), []. by split_and!; [|apply Hm'| |].
  - destruct (tick_inv _ W ms c Hc) as (c' & E & H1 & H2 & _). rewrite E, result_bind_Ok. exists (c', d), []. by split_and!; [|apply Hm'| |].
  - destruct (segment_received_with (recv_ok n cap j old d) (recv_ok n cap (j + 1) old d) W seg c) as (c' & E & H1 & H2); try done.
    { intros r. apply recv_ok_mono; [done|lia]. }
    { intros r Hr. apply recv_ok_segment; try done. apply Hx. }
    rewrite E, result_bind_Ok. exists (c', d), []. by rewrite app_nil_r.
  - destruct Hc as [Hs Hr Ho]. eexists (_, _), []. split_and!; [done| |done|done]. rewrite app_nil_r.
    constructor; [done| |done]. eapply recv_ok_mono; [done| |by apply (recv_ok_pop _ _ j)]. lia.
Qed.

Lemma do_calls_ok n cap old l : forall j W s,
  0 <= cap -> 0 <= j -> Forall any_call l -> inv_with (recv_ok n cap j old s.2) W s.1 ->
  (j + Z.of_nat (length l)) * cap + 4294967296 <= Z.of_nat n ->
  #W + #(written_by l) + 2 < 18446744073709551616 - 4294967296 ->
  exists s' W', do_calls l s = Ok s' /\ inv_with (recv_ok n cap (j + Z.of_nat (length l)) old s'.2) (W ++ W') s'.1 /\
    #W' <= #(written_by l) /\ later (_sender s.1) (_sender s'.1).
Proof.
  induction l as [|x l IH]; intros j W s Hcap Hj Hl Hc Hn HW.
  { exists s, []. rewrite Z.add_0_r, app_nil_r. by split_and!. }
  apply Forall_cons_1 in Hl as [Hx Hl]. rewrite length_cons in *.
  change (written_by (x :: l)) with (data_of x ++ written_by l) in *. rewrite Zlen_app in *.
  pose proof (Zlen_nonneg (written_by l)). pose proof (Zlen_nonneg (data_of x)).
  destruct (do_call_ok n cap j old x W s Hcap Hx Hc) as (s1 & W1 & E & H1 & H2 & H3); [nia|lia|].
  cbn [do_calls]. rewrite E, result_bind_Ok.
  destruct (IH (j + 1) (W ++ W1) s1) as (s' & W' & E' & G1 & G2 & G3); [done|lia|done|done|nia|rewrite Zlen_app; lia|].
  exists s', (W1 ++ W'). split_and!; [done| |rewrite Zlen_app; lia|by etransitivity]. rewrite app_assoc.
  by replace (j + Z.of_nat (S (length l))) with (j + 1 + Z.of_nat (length l)) by lia.
Qed.

(** Everything the owner has read or could read. *)
Definition inbound_bytes (s : TCPConnection * bytes) : bytes := s.2 ++ _buff (inbound_stream s.1).

(** C8: No peer can break a connection. Whatever segments arrive, in whatever order, between any
    calls of the owner and of the clock: no call of TCPConnection throws or runs forever, nor does its
    destructor; the bytes waiting for the owner and those stored for reassembly stay within the capacity of the receiver,
    those waiting to be sent within that of the sender; bytes once assembled are never changed or lost, and
    every segment put on the wire is well formed with at most MAX_PAYLOAD_SIZE bytes. (The calls times the
    capacity, and the bytes written, stay below 2^63, so that the 64-bit counters do not overflow.) *)
Theorem connection_robust cfg rnd l l' :
  valid_config cfg -> Forall any_call (l ++ l') ->
  Z.of_nat (length (l ++ l')) * recv_capacity cfg < 9223372036854775808 ->
  #(written_by (l ++ l')) < 9223372036854775808 ->
  exists s s', do_calls l (make cfg rnd, []) = Ok s /\ do_calls l' s = Ok s' /\
    inbound_bytes s `prefix_of` inbound_bytes s' /\
    buffer_size (inbound_stream s'.1) + total (_buf (_reassembler (_receiver s'.1))) <= recv_capacity cfg /\
    buffer_size (stream_in (_sender s'.1)) <= send_capacity cfg /\ (exists c, destroy s'.1 = Ok c) /\
    Forall (fun seg => wf_segment seg /\ size (payload seg) <= MAX_PAYLOAD_SIZE) (_segments_out s'.1).
Proof.
  intros (Hc1 & Hc2 & Hc3 & Hc4) Hl Hn HW. set (cap := recv_capacity cfg) in *.
  remember (Z.to_nat (Z.of_nat (length (l ++ l')) * cap + 4294967296)) as n eqn:En.
  assert (Z.of_nat n = Z.of_nat (length (l ++ l')) * cap + 4294967296) as EN by nia. clear En.
  unfold written_by in HW. rewrite map_app, concat_app, Zlen_app in HW. rewrite length_app in *.
  pose proof (Zlen_nonneg (concat (map data_of l))) as Hz. pose proof (Zlen_nonneg (concat (map data_of l'))) as Hz'.
  apply Forall_app in Hl as [Hl1 Hl2].
  assert (inv_with (recv_ok n cap 0 [] []) [] (make cfg rnd)) as Hmake.
  { constructor; [by apply make_sender_wf|apply recv_ok_make; lia|done]. }
  destruct (do_calls_ok n cap [] l 0 [] (make cfg rnd, [])) as (s & W & E & H1 & H2 & L1);
    [lia|lia|done|done|nia|rewrite Zlen_nil; unfold written_by; lia|].
  assert (inv_with (recv_ok n cap (0 + Z.of_nat (length l)) (inbound_bytes s) s.2) W s.1) as H3.
  { destruct H1 as [G1 [] G3]. by constructor. }
  destruct (do_calls_ok n cap (inbound_bytes s) l' (0 + Z.of_nat (length l)) W s) as (s' & W' & E' & G1 & G2 & L2);
    [lia|lia|done|done|nia|unfold written_by in *; lia|].
  destruct (destroy_inv _ _ _ G1) as (c & Ed & _). exists s, s'. destruct G1 as [Hs' [] G3]. split_and!; try done; [|..].
  - pose proof (sound_memory _ _ recv_sound0) as Hmem. rewrite recv_cap0 in Hmem. exact Hmem.
  - pose proof (ByteStream.wf_fits _ (core_stream _ _ (wf_core _ _ Hs'))) as Hfit.
    rewrite (later_capacity _ _ L2), (later_capacity _ _ L1) in Hfit. exact Hfit.
  - by exists c.
  - eapply Forall_impl; [|exact G3]. intros seg [x (_ & _ & ? & _ & ?)]. done.
Qed.

(** A connection that is reset, sent garbage and written to in between. *)
Definition hostile_calls : list call :=
  [Connects; Writes [x41; x42]; Hears (hostile_segment 100 true false [x01]);
   Hears (hostile_segment 101 false false [x02; x03])].
Definition hostile_calls_later : list call :=
  [Takes 1; Ends; Hears (hostile_segment 7 true true [x08]); Ticks 5000;
   Hears (on_header (set_rst true) (hostile_segment 0 false false [])); Writes [x43]; Ticks 1].

Lemma connection_robust_witness :
  let cfg := mkTCPConfig 1000 4 8 None in
  exists s s', do_calls hostile_calls (make cfg 17, []) = Ok s /\ do_calls hostile_calls_later s = Ok s' /\
    inbound_bytes s = [x01; x03] /\ inbound_bytes s `prefix_of` inbound_bytes s' /\ active s'.1 = false.
Proof.
  intros cfg. destruct (connection_robust cfg 17 hostile_calls hostile_calls_later) as (s & s' & E & E' & H & _);
    [split; [by_compute|split; [by_compute|split; [by_compute|done]]]|repeat (constructor; [by_compute|]); constructor|
     vm_compute; reflexivity|vm_compute; reflexivity|].
  exists s, s'. split_and!; [exact E|exact E'| |exact H|].
  - clear E' H. revert E. vm_compute. by intros [= <-].
  - assert (match (s ← do_calls hostile_calls (make cfg 17, []); do_calls hostile_calls_later s) with
            | Ok s' => active s'.1 | _ => true end = false) as HA by (vm_compute; reflexivity).
    rewrite E, result_bind_Ok, E' in HA. exact HA.
Defined.
