(* ===== verification/System.v ===== *)
(** * Two connections and the network between them

    Two TCPConnections (src/libsponge/tcp_connection.cc) exchange segments over a
    network that may lose, reorder, delay and duplicate them. The network of a
    direction is the set of all segments ever put on the wire; delivering one
    leaves it there. *)

From S2P Require Import Prelude WrappingIntegers ByteStream StreamReassembler Buffer TCPHeader.
From S2P Require Import TCPSegment TCPReceiver TCPSender TCPState TCPConnection.

(** ** Definitions *)

(** An endpoint: the connection, with the bytes its stream has accepted, the bytes its
    owner has read, and the segments it has put on the wire. *)
Record endpoint := mkEndpoint {
  conn : TCPConnection;
  written : bytes;
  delivered : bytes;
  wire : list TCPSegment
}.

Inductive action :=
| Connect
| Write (data : bytes)
| EndInput
| Read (len : Z)
| Elapse (ms : Z)
| Flush
| Deliver (i : nat)
| Destroy.

Definition set_conn (c : TCPConnection) (e : endpoint) : endpoint :=
  mkEndpoint c (written e) (delivered e) (wire e).

(** The owner of an endpoint acts; [peer] is only read, for the segments it sent. *)
Definition act (a : action) (e peer : endpoint) : result endpoint :=
  match a with
  | Connect => c ← connect (conn e); Ok (set_conn c e)
  | Write data =>
      r ← TCPConnection.write data (conn e);
      Ok (mkEndpoint r.2 (written e ++ take (Z.to_nat r.1) data) (delivered e) (wire e))
  | EndInput => c ← end_input_stream (conn e); Ok (set_conn c e)
  | Read len =>
      let '(d, r) := read_stream len (_receiver (conn e)) in
      Ok (mkEndpoint (set_receiver r (conn e)) (written e) (delivered e ++ d) (wire e))
  | Elapse ms => c ← tick ms (conn e); Ok (set_conn c e)
  | Flush =>
      Ok (mkEndpoint (TCPConnection.set_out [] (conn e)) (written e) (delivered e)
            (wire e ++ TCPConnection._segments_out (conn e)))
  | Deliver i =>
      match wire peer !! i with
      | Some seg => c ← TCPConnection.segment_received seg (conn e); Ok (set_conn c e)
      | None => Ok e
      end
  | Destroy => c ← destroy (conn e); Ok (set_conn c e)
  end.

Record system := mkSystem { left : endpoint; right : endpoint }.

(** An action of the left or the right owner. *)
Definition step (who : bool) (a : action) (y : system) : result system :=
  if who then e ← act a (left y) (right y); Ok (mkSystem e (right y))
  else e ← act a (right y) (left y); Ok (mkSystem (left y) e).

Definition new_endpoint (cfg : TCPConfig) (rnd : Z) : endpoint :=
  mkEndpoint (TCPConnection.make cfg rnd) [] [] [].

(** The number of bytes a stream may have in all. *)
Definition stream_limit : Z := 18446744073709551616 - 2 * 4294967296.

(** The segment arrives before it is half the sequence space old: it carries its bytes at
    some number that is near the receiver's position. *)
Definition timely (seg : TCPSegment) (e peer : endpoint) : Prop :=
  exists x : Z, emitted (written peer) (_isn (_sender (conn peer))) (_next_seqno (_sender (conn peer)))
              (input_ended (_stream (_sender (conn peer)))) x seg /\
    near (_receiver (conn e)) x.

Definition valid_action (a : action) (e peer : endpoint) : Prop :=
  match a with
  | Write data => #(written e) + #data < stream_limit
  | Read len => 0 <= len
  | Deliver i => forall seg : TCPSegment, wire peer !! i = Some seg -> timely seg e peer
  | _ => True
  end.

Inductive reachable (cfg1 cfg2 : TCPConfig) : system -> Prop :=
| reachable_start rnd1 rnd2 :
    reachable cfg1 cfg2 (mkSystem (new_endpoint cfg1 rnd1) (new_endpoint cfg2 rnd2))
| reachable_step (who : bool) (a : action) (y y' : system) :
    reachable cfg1 cfg2 y ->
    valid_action a (if who then left y else right y) (if who then right y else left y) ->
    step who a y = Ok y' ->
    reachable cfg1 cfg2 y'.

(** ** Invariant *)

(** The reassembler behind an endpoint's inbound stream, and its sender. *)
Definition inbound (e : endpoint) : StreamReassembler := _reassembler (_receiver (conn e)).
Definition snd_of (e : endpoint) : TCPSender := _sender (conn e).

Record ep_ok (e peer : endpoint) : Prop := {
  ok_inv : inv (written e) (written peer) (_isn (snd_of peer)) (conn e);
  ok_wire : Forall (emitted_by (written e) (snd_of e)) (wire e);
  ok_delivered : delivered e = slice 0 (first_unread (inbound e)) (written peer);
  ok_eof : StreamReassembler._eof (inbound e) = true -> input_ended (_stream (snd_of peer)) = true;
  ok_capacity : 0 <= StreamReassembler._capacity (inbound e) < 4294967296;
  ok_limit : #(written e) < stream_limit;
  ok_live : live (conn e)
}.

(** What the peer has proved stays true when the endpoint moves on. *)
Lemma peer_ok e e' d peer :
  ep_ok peer e -> ep_ok e peer -> later (snd_of e) (snd_of e') -> written e' = written e ++ d ->
  (input_ended (_stream (snd_of e)) = true -> d = []) -> #(written e') < stream_limit ->
  ep_ok peer e'.
Proof.
  intros [[Hs Hr Ho] Hw Hd He Hc Hlim Hlive] _ [] E Hnil Hl'.
  pose proof (StreamReassembler.wf_core _ _ (TCPReceiver.wf_reassembler _ _ _ Hr)) as Hcore.
  pose proof (window_bounds _ _ Hcore) as Hb. fold (inbound peer) in Hb, Hcore.
  constructor; try done; rewrite ?E, ?later_isn.
  - constructor; try done. apply wf_grow_receiver; [done|auto|].
    rewrite <- E. fold (inbound peer). unfold stream_limit in Hl'. lia.
  - rewrite Hd. unfold first_unread, bytes_read. symmetry. apply slice_app_l; lia.
  - auto.
Qed.

(** A step of an endpoint that wrote [d] and received nothing new. *)
Lemma own_ok e peer c d :
  ep_ok e peer -> inv (written e ++ d) (written peer) (_isn (snd_of peer)) c ->
  advances (conn e) c -> live c -> (input_ended (_stream (snd_of e)) = true -> d = []) ->
  #(written e ++ d) < stream_limit ->
  ep_ok (mkEndpoint c (written e ++ d) (delivered e) (wire e)) peer.
Proof.
  intros [] Hc [Hl []] Hlive Hnil Hlim. unfold inbound in *. constructor; unfold inbound; simpl; try done.
  - eapply Forall_impl; [|exact ok_wire0]. intros seg Hseg. destruct Hl. eapply emitted_by_mono; eauto.
  - rewrite same_unread. done.
  - rewrite same_eof. done.
  - rewrite same_capacity. done.
Qed.

Lemma own_step e peer c :
  ep_ok e peer -> ep_ok peer e -> inv (written e) (written peer) (_isn (snd_of peer)) c ->
  advances (conn e) c -> live c ->
  ep_ok (set_conn c e) peer /\ ep_ok peer (set_conn c e).
Proof.
  intros He Hp Hc Ha Hl. split.
  - rewrite <- (app_nil_r (written e)) in Hc. pose proof (own_ok e peer c [] He Hc Ha Hl ltac:(done)) as H.
    rewrite app_nil_r in H. apply H. apply He.
  - apply (peer_ok e _ []); try done; [apply Ha|by rewrite app_nil_r|apply He].
Qed.

Lemma peer_isn e peer : ep_ok e peer -> wf_wrapping (_isn (snd_of e)) /\ #(written e) + 2 < 18446744073709551616 - 4294967296.
Proof. intros [[[[] _] _ _] _ _ _ _ _ _]. done. Qed.

Lemma deliver_ok e peer seg :
  ep_ok e peer -> ep_ok peer e -> timely seg e peer ->
  exists c, TCPConnection.segment_received seg (conn e) = Ok c /\
    ep_ok (set_conn c e) peer /\ ep_ok peer (set_conn c e).
Proof.
  intros He Hp (x & Hx & Hn). destruct (peer_isn peer e Hp) as [Hisn HV].
  pose proof Hx as (Hcar & _ & _ & Hfin & Hseg & _).
  assert (wf_wrapping (TCPHeader.ackno (header seg)) /\ 0 <= win (header seg) < 65536) as [Ha Hw]
    by (destruct Hseg as (? & ? & ? & ? & ? & ? & ?); done).
  pose proof He as [].
  destruct (segment_received_inv (written peer) (_isn (snd_of peer)) Hisn ltac:(lia) (written e) x seg (conn e))
    as (c & E & H1 & H2 & H3 & H4 & H5); try done.
  exists c. split; [done|]. split.
  - constructor; unfold inbound, snd_of; simpl; try done.
    + eapply Forall_impl; [|exact ok_wire0]. intros s Hs. by eapply emitted_by_later.
    + rewrite H3. done.
    + intros Hf. destruct (H5 Hf); [by apply ok_eof0|by apply Hfin].
    + rewrite H4. done.
    + by apply (segment_received_live (written e) (written peer) (_isn (snd_of peer)) seg (conn e)).
  - apply (peer_ok e _ []); try done. by rewrite app_nil_r.
Qed.

Lemma read_ok e peer len :
  ep_ok e peer -> ep_ok peer e -> 0 <= len ->
  exists e', act (Read len) e peer = Ok e' /\ ep_ok e' peer /\ ep_ok peer e'.
Proof.
  intros He Hp Hlen. pose proof He as [[Hs Hr Ho] Hw Hd Heof Hc Hlim Hl]. cbn [act].
  destruct (read_stream_spec (written peer) (_isn (snd_of peer)) len _ Hr Hlen)
    as (R1 & R2 & R3 & R4 & R5 & R6 & R7).
  pose proof (StreamReassembler.wf_core _ _ (TCPReceiver.wf_reassembler _ _ _ Hr)) as Hcore.
  pose proof (window_bounds _ _ Hcore) as Hb.
  destruct (read_stream len (_receiver (conn e))) as [d r]. cbn [fst snd] in *.
  eexists; split; [done|]. split.
  - constructor; unfold inbound, snd_of; cbn [conn written delivered wire set_receiver _receiver _sender]; try done.
    + rewrite Hd, R2. unfold inbound. rewrite <- slice_split; [done|unfold first_unread, bytes_read; lia|done].
    + rewrite R7. done.
    + rewrite R5. done.
  - apply (peer_ok e _ []); try done. by rewrite app_nil_r.
Qed.

Lemma flush_ok e peer :
  ep_ok e peer -> ep_ok peer e ->
  exists e', act Flush e peer = Ok e' /\ ep_ok e' peer /\ ep_ok peer e'.
Proof.
  intros He Hp. pose proof He as [[Hs Hr Ho] Hw Hd Heof Hc Hlim Hl]. eexists; split; [done|]. split.
  - constructor; unfold inbound, snd_of; simpl; try done. apply Forall_app. by split.
  - apply (peer_ok e _ []); try done. by rewrite app_nil_r.
Qed.

(** Every action of an owner returns and keeps the invariant of both ends. *)
Lemma act_ok a e peer :
  ep_ok e peer -> ep_ok peer e -> valid_action a e peer ->
  exists e', act a e peer = Ok e' /\ ep_ok e' peer /\ ep_ok peer e'.
Proof.
  intros He Hp Hv. destruct (peer_isn peer e Hp) as [Hisn HV].
  pose proof (ok_inv _ _ He) as Hinv. pose proof (ok_live _ _ He) as Hl.
  destruct a; cbn [act valid_action] in *.
  - destruct (connect_inv _ _ _ Hinv) as (c & E & H1 & H2).
    pose proof (connect_live _ _ _ _ _ Hinv Hl E). rewrite E, result_bind_Ok. eexists; split; [done|].
    by apply own_step.
  - pose proof (Zlen_nonneg data). unfold stream_limit in Hv.
    destruct (write_inv (TCPReceiver.wf (written peer) (_isn (snd_of peer))) (written e) data (conn e)) as (n & c & E & H1 & H2 & H3);
      [done|lia|].
    assert (live c) as Hlc by (eapply (write_live _ _ _ data n _ _ Hinv); [lia|done|done]).
    rewrite E, result_bind_Ok. eexists; split; [done|]. cbn [fst snd].
    assert (#(written e ++ take (Z.to_nat n) data) < stream_limit) as Hlim.
    { unfold stream_limit, Zlen in *. rewrite length_app, length_take. lia. }
    split; [by apply own_ok|]. apply (peer_ok e _ (take (Z.to_nat n) data)); try done. apply H2.
  - destruct (end_input_stream_inv _ _ _ Hinv) as (c & E & H1 & H2).
    pose proof (end_input_stream_live _ _ _ _ _ Hinv Hl E). rewrite E, result_bind_Ok. eexists; split; [done|].
    by apply own_step.
  - by apply read_ok.
  - destruct (tick_inv _ (written e) ms _ Hinv) as (c & E & H1 & H2).
    pose proof (tick_live _ _ _ _ _ _ Hinv Hl E). rewrite E, result_bind_Ok. eexists; split; [done|].
    by apply own_step.
  - by apply flush_ok.
  - destruct (wire peer !! i) as [seg|] eqn:Ei; [|by exists e].
    destruct (deliver_ok e peer seg) as (c & -> & H1 & H2); auto. rewrite result_bind_Ok. eauto.
  - destruct (destroy_inv _ (written e) _ Hinv) as (c & E & H1 & H2).
    assert (live c) as Hlc.
    { unfold destroy in E. destruct (active (conn e)); [|by injection E as <-].
      destruct (send_rst_segment (conn e)) as [c2|[]|]; [|by first [done|injection E as <-]..].
      rewrite result_bind_Ok in E. injection E as <-. done. }
    rewrite E, result_bind_Ok. eexists; split; [done|]. by apply own_step.
Qed.

Definition sys_ok (y : system) : Prop := ep_ok (left y) (right y) /\ ep_ok (right y) (left y).

Lemma step_ok (who : bool) a y :
  sys_ok y -> valid_action a (if who then left y else right y) (if who then right y else left y) ->
  exists y', step who a y = Ok y' /\ sys_ok y'.
Proof.
  intros [H1 H2] Hv. unfold step. destruct who.
  - destruct (act_ok a (left y) (right y)) as (e & -> & H3 & H4); try done. rewrite result_bind_Ok.
    eexists; split; [done|]. by split.
  - destruct (act_ok a (right y) (left y)) as (e & -> & H3 & H4); try done. rewrite result_bind_Ok.
    eexists; split; [done|]. by split.
Qed.

Lemma new_endpoint_ok cfg rnd e : valid_config cfg -> written e = [] -> input_ended (_stream (snd_of e)) = false ->
  ep_ok (new_endpoint cfg rnd) e.
Proof.
  intros (H1 & H2 & H3 & H4) Hw He. constructor; unfold snd_of in *; simpl; rewrite ?Hw; try done.
  - by apply make_inv.
  - apply make_live.
Qed.

Lemma reachable_ok cfg1 cfg2 y :
  valid_config cfg1 -> valid_config cfg2 -> reachable cfg1 cfg2 y -> sys_ok y.
Proof.
  intros H1 H2. induction 1 as [rnd1 rnd2|who a y y' Hr IH Hv E].
  - split; by apply new_endpoint_ok.
  - destruct (step_ok who a y IH Hv) as (y2 & E2 & H). assert (y2 = y') as -> by congruence. done.
Qed.

(** ** Schedules *)

Fixpoint run (acts : list (bool * action)) (y : system) : result system :=
  match acts with
  | [] => Ok y
  | (who, a) :: acts => y ← step who a y; run acts y
  end.

(** The bytes one owner offers in a schedule. *)
Fixpoint volume (who : bool) (acts : list (bool * action)) : Z :=
  match acts with
  | [] => 0
  | (w, Write data) :: acts => (if eqb w who then #data else 0) + volume who acts
  | _ :: acts => volume who acts
  end.

Definition plain_action (p : bool * action) : Prop :=
  match p.2 with Read len => 0 <= len | _ => True end.

Lemma volume_cons who w a acts :
  volume who ((w, a) :: acts) = volume who [(w, a)] + volume who acts.
Proof. destruct a; simpl; lia. Qed.

Lemma volume_nonneg who acts : 0 <= volume who acts.
Proof.
  induction acts as [|[w a] acts IH]; [simpl; lia|]. rewrite volume_cons.
  destruct a; simpl; try lia. pose proof (Zlen_nonneg data). case_if; lia.
Qed.

(** While a stream is shorter than half the sequence space, every segment is in time. *)
Lemma short_timely e peer seg :
  ep_ok e peer -> ep_ok peer e -> #(written peer) + 2 <= 2147483648 ->
  emitted_by (written peer) (snd_of peer) seg -> timely seg e peer.
Proof.
  intros He Hp Hs [x Hx]. exists x. split; [done|].
  pose proof (ok_inv _ _ He) as [_ Hr _].
  pose proof (StreamReassembler.wf_core _ _ (TCPReceiver.wf_reassembler _ _ _ Hr)) as Hcore.
  pose proof (window_bounds _ _ Hcore) as Hb.
  destruct Hx as ((Hx0 & _) & Hx1 & _). pose proof (seg_length_nonneg seg).
  destruct (ok_inv _ _ Hp) as [[[] _] _ _]. unfold snd_of in *. unfold near. lia.
Qed.

Lemma act_written a e peer e' :
  act a e peer = Ok e' -> #(written e') <= #(written e) + volume true [(true, a)].
Proof.
  assert (forall (m : result TCPConnection),
    (c ← m; Ok (set_conn c e)) = Ok e' -> #(written e') <= #(written e) + 0) as Hset.
  { intros [c| |]; [|done..]. rewrite result_bind_Ok. intros [= <-]. simpl. lia. }
  destruct a; cbn [act volume eqb Z.add]; try apply Hset.
  - destruct (TCPConnection.write data (conn e)) as [[n c]| |]; [|done..]. rewrite result_bind_Ok.
    intros [= <-]. simpl. unfold Zlen. rewrite length_app, length_take. lia.
  - destruct (read_stream len _). intros [= <-]. simpl. lia.
  - intros [= <-]. simpl. lia.
  - destruct (wire peer !! i); [apply Hset|]. intros [= <-]. lia.
Qed.

Lemma short_valid a e peer :
  ep_ok e peer -> ep_ok peer e -> plain_action (true, a) ->
  #(written peer) + 2 <= 2147483648 -> #(written e) + volume true [(true, a)] + 2 <= 2147483648 ->
  valid_action a e peer.
Proof.
  intros He Hp Hpl H1 H2. destruct a; try done; cbn [valid_action volume eqb] in *.
  - unfold stream_limit. lia.
  - intros seg Hseg. apply short_timely; try done.
    pose proof (ok_wire _ _ Hp) as Hw. rewrite Forall_lookup in Hw. by eapply Hw.
Qed.

Lemma run_ok acts y :
  sys_ok y -> Forall plain_action acts ->
  #(written (left y)) + volume true acts + 2 <= 2147483648 ->
  #(written (right y)) + volume false acts + 2 <= 2147483648 ->
  exists y', run acts y = Ok y' /\ sys_ok y'.
Proof.
  intros Hy Ha. revert y Hy. induction Ha as [|[who a] acts Hp Ha IH]; intros y Hy H1 H2; [by exists y|].
  rewrite volume_cons in H1, H2. pose proof (volume_nonneg true acts). pose proof (volume_nonneg false acts).
  pose proof (volume_nonneg true [(who, a)]). pose proof (volume_nonneg false [(who, a)]).
  assert (volume who [(who, a)] = volume true [(true, a)]) as Hvol
    by (destruct a; simpl; rewrite ?eqb_reflx; done).
  cbn [run]. destruct (step_ok who a y Hy) as (y1 & E & Hy1).
  { destruct Hy as [Hl Hr]. destruct who; apply short_valid; try done; lia. }
  rewrite E, result_bind_Ok. apply IH; [done|..]; unfold step in E; destruct who.
  - destruct (act a (left y) (right y)) as [e| |] eqn:Ea; [|done..]. rewrite result_bind_Ok in E.
    injection E as <-. apply act_written in Ea. simpl. lia.
  - destruct (act a (right y) (left y)) as [e| |] eqn:Ea; [|done..]. rewrite result_bind_Ok in E.
    injection E as <-. simpl. lia.
  - destruct (act a (left y) (right y)) as [e| |] eqn:Ea; [|done..]. rewrite result_bind_Ok in E.
    injection E as <-. simpl. lia.
  - destruct (act a (right y) (left y)) as [e| |] eqn:Ea; [|done..]. rewrite result_bind_Ok in E.
    injection E as <-. apply act_written in Ea. simpl. lia.
Qed.

(** ** What an owner may rely on *)

(** What was read, followed by what waits to be read, is a prefix of what the peer wrote,
    and all of it when the inbound stream has ended. *)
Definition faithful (e peer : endpoint) : Prop :=
  (delivered e ++ _buff (inbound_stream (conn e))) `prefix_of` written peer /\
  (input_ended (inbound_stream (conn e)) = true ->
   delivered e ++ _buff (inbound_stream (conn e)) = written peer /\
   input_ended (_stream (snd_of peer)) = true).

Lemma ok_faithful e peer : ep_ok e peer -> faithful e peer.
Proof.
  intros [[_ [Hr _ _] _] _ Hd He _ _ _]. unfold faithful, inbound_stream, TCPReceiver.stream_out.
  rewrite Hd. unfold inbound in *. rewrite (wf_prefix _ _ Hr).
  pose proof (window_bounds _ _ (StreamReassembler.wf_core _ _ Hr)) as Hb. split.
  - exists (slice (first_unassembled (_reassembler (_receiver (conn e)))) (#(written peer)) (written peer)).
    rewrite <- slice_split by lia. by rewrite slice_full.
  - intros Hend. destruct Hr as [[] _ Hen]. specialize (core_ended Hend).
    unfold first_unassembled, bytes_written. rewrite core_ended, slice_full. split; [done|].
    apply He. unfold StreamReassembler.stream_out in Hend. rewrite Hend in Hen.
    symmetry in Hen. by apply andb_prop in Hen as [? _].
Qed.

(** ** Properties *)

(** C3: end-to-end safety. Two connections, any initial sequence numbers, any capacities, and
    any schedule of connecting, writing, ending, reading, ticking, transmitting and destroying,
    over a network that loses, reorders, delays and duplicates segments: nothing throws and every
    call returns, and on both sides what the application has read, followed by what waits for it,
    is a prefix of what the peer's application wrote, and all of it if the inbound stream has
    ended. (Streams here are shorter than half the sequence space.) *)
Theorem tcp_end_to_end cfg1 cfg2 rnd1 rnd2 acts
  (H1 : valid_config cfg1) (H2 : valid_config cfg2) (Ha : Forall plain_action acts)
  (Hl : volume true acts + 2 <= 2147483648) (Hr : volume false acts + 2 <= 2147483648) :
  exists y, run acts (mkSystem (new_endpoint cfg1 rnd1) (new_endpoint cfg2 rnd2)) = Ok y /\
    faithful (left y) (right y) /\ faithful (right y) (left y).
Proof.
  destruct (run_ok acts (mkSystem (new_endpoint cfg1 rnd1) (new_endpoint cfg2 rnd2)))
    as (y & E & Hy1 & Hy2); [split; by apply new_endpoint_ok|done..|].
  exists y. split_and!; [done|by apply ok_faithful..].
Qed.

Definition cfg_a : TCPConfig := mkTCPConfig 1000 8 20 (Some (WrappingInt32_of 4294967294)).
Definition cfg_b : TCPConfig := mkTCPConfig 1000 64000 64000 (Some (WrappingInt32_of 77)).

(** The left side connects, sends "hello!" and closes; the third segment of the right side is
    delivered twice; the left side retransmits. *)
Definition sample_schedule : list (bool * action) :=
  [(true, Connect); (true, Flush); (false, Deliver 0); (false, Flush); (true, Deliver 0);
   (true, Flush); (false, Deliver 1); (true, Write [x68; x65; x6c; x6c; x6f; x21]); (true, EndInput);
   (true, Flush); (false, Deliver 3); (true, Elapse 5000); (true, Flush); (false, Deliver 2);
   (false, Deliver 2); (false, Read 4); (false, Flush); (true, Deliver 1); (true, Deliver 2);
   (true, Deliver 2); (false, Read 10)].

Lemma sample_schedule_delivers :
  match run sample_schedule (mkSystem (new_endpoint cfg_a 0) (new_endpoint cfg_b 0)) with
  | Ok y => delivered (right y) = [x68; x65; x6c; x6c; x6f; x21] /\
            input_ended (inbound_stream (conn (right y))) = true
  | _ => False
  end.
Proof. vm_compute. done. Qed.

Lemma tcp_end_to_end_witness :
  exists y, run sample_schedule (mkSystem (new_endpoint cfg_a 0) (new_endpoint cfg_b 0)) = Ok y /\
    faithful (left y) (right y) /\ faithful (right y) (left y).
Proof.
  apply (tcp_end_to_end cfg_a cfg_b 0 0 sample_schedule); [..|by_compute|by_compute].
  - split; [by_compute|]. split; [by_compute|]. split; [by_compute|]. intros i [= <-]. by_compute.
  - split; [by_compute|]. split; [by_compute|]. split; [by_compute|]. intros i [= <-]. by_compute.
  - repeat constructor; by_compute.
Defined.

(** C4: end-to-end safety without a bound on the streams. In every state that the system can
    reach with deliveries that are in time (less than half the sequence space late), both sides
    are faithful, and every valid action returns normally: no exception, no endless loop. *)
Theorem tcp_reachable_safe cfg1 cfg2 y
  (H1 : valid_config cfg1) (H2 : valid_config cfg2) (Hr : reachable cfg1 cfg2 y) :
  faithful (left y) (right y) /\ faithful (right y) (left y) /\
  forall (who : bool) a,
    valid_action a (if who then left y else right y) (if who then right y else left y) ->
    exists y', step who a y = Ok y'.
Proof.
  pose proof (reachable_ok cfg1 cfg2 y H1 H2 Hr) as Hy. pose proof Hy as [Hl Hrt].
  split_and!; [by apply ok_faithful..|]. intros who a Hv.
  destruct (step_ok who a y Hy Hv) as (y' & E & _). by exists y'.
Qed.

Definition started : system := mkSystem (new_endpoint cfg_a 0) (new_endpoint cfg_b 0).
Definition connected : system :=
  match step true Connect started with Ok y => y | _ => started end.

Lemma connected_reachable : reachable cfg_a cfg_b connected.
Proof. eapply (reachable_step _ _ true Connect started); [constructor|done|]. vm_compute. reflexivity. Qed.

Lemma cfg_a_valid : valid_config cfg_a.
Proof. split; [by_compute|]. split; [by_compute|]. split; [by_compute|]. intros i [= <-]. by_compute. Qed.
Lemma cfg_b_valid : valid_config cfg_b.
Proof. split; [by_compute|]. split; [by_compute|]. split; [by_compute|]. intros i [= <-]. by_compute. Qed.

Lemma tcp_reachable_safe_witness :
  faithful (left connected) (right connected) /\ faithful (right connected) (left connected) /\
  forall (who : bool) a,
    valid_action a (if who then left connected else right connected)
      (if who then right connected else left connected) ->
    exists y', step who a connected = Ok y'.
Proof.
  apply (tcp_reachable_safe cfg_a cfg_b connected);
    [apply cfg_a_valid|apply cfg_b_valid|apply connected_reachable].
Defined.

(** The resources of one side. *)
Definition bounded (e : endpoint) : Prop :=
  buffer_size (inbound_stream (conn e)) + TCPConnection.unassembled_bytes (conn e) <=
    StreamReassembler._capacity (inbound e) /\
  buffer_size (_stream (snd_of e)) <= capacity (_stream (snd_of e)) /\
  Forall (fun seg => #(str (payload seg)) <= MAX_PAYLOAD_SIZE)
    (wire e ++ TCPConnection._segments_out (conn e)) /\
  (active (conn e) = true ->
   segments_out (snd_of e) = [] /\
   consecutive_retransmissions (snd_of e) <= MAX_RETX_ATTEMPTS /\
   _RTO (snd_of e) =
     _initial_retransmission_timeout (snd_of e) * 2 ^ consecutive_retransmissions (snd_of e) /\
   0 <= _RTO (snd_of e) < 4294967296).

Lemma ok_bounded e peer : ep_ok e peer -> bounded e.
Proof.
  intros [[[[] _] [Hr _ _] Ho] Hw _ _ _ _ Hl]. split_and!.
  - apply (wf_memory _ _ Hr).
  - apply core_stream.
  - apply Forall_app. split; (eapply Forall_impl; [|done]); intros seg [x Hx]; apply Hx.
  - intros Ha. destruct (Hl Ha) as [Hd [Hb1 Hb2]]. unfold consecutive_retransmissions, MAX_RETX_ATTEMPTS in *.
    unfold snd_of in *.
    assert (0 <= 2 ^ _retransmission_count (_sender (conn e)) <= 2 ^ 8)
      by (split; [apply Z.pow_nonneg; lia|apply Z.pow_le_mono_r; lia]).
    rewrite Hb2. split_and!; [done|lia|done|nia|nia].
Qed.

(** C5: bounded resources. In every reachable state, on both sides, the bytes stored for the
    reader and for reassembly stay within the receive capacity, the bytes accepted from the
    writer within the send capacity, no segment on the wire carries more than
    [MAX_PAYLOAD_SIZE] bytes, and while a connection is active nothing is stuck in the sender's
    queue, at most [MAX_RETX_ATTEMPTS] consecutive retransmissions have happened, and the
    timeout is the initial one doubled once for each of them, without overflow. *)
Theorem tcp_resources_bounded cfg1 cfg2 y
  (H1 : valid_config cfg1) (H2 : valid_config cfg2) (Hr : reachable cfg1 cfg2 y) :
  bounded (left y) /\ bounded (right y).
Proof.
  destruct (reachable_ok cfg1 cfg2 y H1 H2 Hr). split; by eapply ok_bounded.
Qed.

Lemma tcp_resources_bounded_witness : bounded (left connected) /\ bounded (right connected).
Proof.
  apply (tcp_resources_bounded cfg_a cfg_b connected);
    [apply cfg_a_valid|apply cfg_b_valid|apply connected_reachable].
Defined.

(** Both sides close without data: the right side after it has received the left side's FIN. *)
Definition closing_schedule : list (bool * action) :=
  [(true, Connect); (true, Flush); (false, Deliver 0); (false, Flush); (true, Deliver 0);
   (true, Flush); (false, Deliver 1); (true, EndInput); (true, Flush); (false, Deliver 2);
   (false, EndInput); (false, Flush); (true, Deliver 1); (true, Deliver 2); (true, Flush)].

Definition closing : system :=
  match run closing_schedule started with Ok y => y | _ => started end.

Lemma closing_ok : sys_ok closing.
Proof.
  destruct (run_ok closing_schedule started) as (y & E & Hy).
  - split; apply new_endpoint_ok; try done; [apply cfg_a_valid|apply cfg_b_valid].
  - repeat constructor.
  - by_compute.
  - by_compute.
  - unfold closing. rewrite E. exact Hy.
Qed.

Definition last_ack : TCPSegment := default default_segment (wire (left closing) !! 3%nat).
Definition closed : TCPConnection :=
  match TCPConnection.segment_received last_ack (conn (right closing)) with
  | Ok c => c
  | _ => conn (right closing)
  end.

Lemma closed_inv :
  TCPConnection.segment_received last_ack (conn (right closing)) = Ok closed /\
  inv (written (right closing)) (written (left closing)) (_isn (snd_of (left closing))) closed.
Proof.
  destruct closing_ok as [Hl Hr].
  destruct (deliver_ok (right closing) (left closing) last_ack) as (c & E & H & _);
    [exact Hr|exact Hl| |].
  - apply short_timely; [exact Hr|exact Hl|vm_compute; discriminate|]. pose proof (ok_wire _ _ Hl) as Hw. rewrite Forall_lookup in Hw.
    apply (Hw 3%nat). vm_compute. reflexivity.
  - unfold closed. rewrite E. split; [reflexivity|]. exact (ok_inv _ _ H).
Qed.

Lemma clean_close_complete_witness :
  eof (_stream (_sender closed)) = true /\ _next_seqno (_sender closed) = #(written (right closing)) + 2 /\
  _last_ackno (_sender closed) = #(written (right closing)) + 2 /\
  input_ended (inbound_stream closed) = true /\
  first_unassembled (_reassembler (_receiver closed)) = #(written (left closing)) /\
  (_linger_after_streams_finish closed = false \/
   10 * rt_timeout (_cfg closed) <= time_since_last_segment_received closed).
Proof.
  apply (clean_close_complete (written (right closing)) (written (left closing)) (_isn (snd_of (left closing)))
    (conn (right closing)) closed (TCPConnection.segment_received last_ack));
    [right; exists last_ack; reflexivity|exact (proj2 closed_inv)|exact (proj1 closed_inv)|vm_compute; reflexivity..].
Defined.
