(* ===== verification/Progress.v ===== *)
(** * Losses are repaired

    What the network of System.v has lost comes again: when the timer of a connection has run out, the
    oldest segment that is not acknowledged goes on the wire once more, and when it arrives
    the peer has its bytes and answers. *)

From S2P Require Import Prelude WrappingIntegers ByteStream StreamReassembler Buffer TCPHeader.
From S2P Require Import TCPSegment TCPReceiver TCPSender TCPState TCPConnection System.

(** ** Segments that are kept carry no reset *)

Definition plain (seg : TCPSegment) : Prop := rst (header seg) = false.
Definition keeps_plain (s : TCPSender) : Prop := Forall plain (_outstanding_seg s).

Lemma send_segment_plain seg s : plain seg -> keeps_plain s -> plain (TCPSender.send_segment seg s).1 /\ keeps_plain (TCPSender.send_segment seg s).2.
Proof.
  intros Hseg Hs. unfold keeps_plain, TCPSender.send_segment. split; [done|]. case_if; cbn; (apply Forall_app_2; [done|by constructor]).
Qed.

Lemma fill_loop_plain fuel : forall w seg s s',
  plain seg -> keeps_plain s -> fill_loop fuel w seg s = Ok s' -> keeps_plain s'.
Proof.
  induction fuel as [|fuel IH]; intros w seg s s' Hseg Hs; cbn [fill_loop]; [done|]. case_if; [by intros [= <-]|]. case_if.
  - destruct (ByteStream.read _ _) as [data b]. set (seg1 := if _ && _ then _ else _).
    assert (plain seg1) as H1 by (unfold seg1; by case_if). case_if; [by intros [= <-]|].
    pose proof (send_segment_plain seg1 (set_stream b s) H1 Hs) as [H2 H3]. destruct (TCPSender.send_segment seg1 _) as [seg2 s2]. by apply IH.
  - case_if; [|by apply IH]. case_if; [|by intros [= <-]]. intros [= <-]. by apply send_segment_plain.
Qed.

Lemma fill_window_plain s s' : keeps_plain s -> fill_window s = Ok s' -> keeps_plain s'.
Proof.
  intros Hs. unfold fill_window. case_if; [intros [= <-]; by apply send_segment_plain|]. case_if; [by intros [= <-]|].
  by apply fill_loop_plain.
Qed.

Lemma pop_acked_plain a q : Forall plain q -> Forall plain (pop_acked a q).
Proof. induction 1 as [|seg q Hseg Hq IH]; simpl; [done|]. case_if; [done|by constructor]. Qed.

Lemma ack_received_plain a w s s' : keeps_plain s -> ack_received a w s = Ok s' -> keeps_plain s'.
Proof.
  intros Hs. rewrite ack_received_eq. case_if; [by intros [= <-]|]. apply fill_window_plain. unfold acked, keeps_plain. case_if; [|done].
  by apply pop_acked_plain.
Qed.

Definition conn_plain (c : TCPConnection) : Prop := keeps_plain (_sender c).

Lemma conn_send_plain c : conn_plain c -> conn_plain (TCPConnection.send_segment c).
Proof. by rewrite send_segment_eq. Qed.
Lemma clean_shutdown_plain c : conn_plain c -> conn_plain (clean_shutdown c).
Proof. intros Hc. unfold clean_shutdown. by repeat case_if. Qed.
Lemma filled_send_plain s c c' :
  keeps_plain s -> (s ← fill_window s; Ok (TCPConnection.send_segment (set_sender s c))) = Ok c' -> conn_plain c'.
Proof.
  intros Hc E. destruct (fill_window s) as [s1| |] eqn:Ef; [|done..]. rewrite result_bind_Ok in E. injection E as <-.
  apply conn_send_plain. by apply (fill_window_plain s).
Qed.

Lemma write_plain d n c c' : conn_plain c -> TCPConnection.write d c = Ok (n, c') -> conn_plain c'.
Proof.
  intros Hc. unfold TCPConnection.write. case_if; [by intros [= _ <-]|]. unfold write_stream. destruct (ByteStream.write _ _) as [k b].
  intros E. destruct (fill_window (set_stream b (_sender c))) as [s| |] eqn:Ef; [|done..]. rewrite result_bind_Ok in E. injection E as <- <-.
  apply conn_send_plain. by apply (fill_window_plain (set_stream b (_sender c))).
Qed.

Lemma send_rst_plain c c' : conn_plain c -> send_rst_segment c = Ok c' -> conn_plain c'.
Proof.
  intros Hc. unfold send_rst_segment. intros E. destruct (fill_window (_sender c)) as [s| |] eqn:Ef; [|done..].
  rewrite result_bind_Ok in E. apply fill_window_plain in Ef; [|done]. cbn [_sender set_sender] in E.
  destruct (segments_out s); by injection E as <-.
Qed.

Lemma tick_plain ms c c' : conn_plain c -> tick ms c = Ok c' -> conn_plain c'.
Proof.
  intros Hc. unfold tick. case_if; [by intros [= <-]|]. set (c1 := set_time _ _).
  assert (conn_plain c1) as H1.
  { unfold c1, conn_plain, keeps_plain. cbn [_sender set_time set_sender].
    destruct (tick_retransmits ms (_sender c)) as (_ & _ & _ & -> & _). exact Hc. }
  case_if.
  - destruct (send_rst_segment c1) as [c2| |] eqn:Er; [|done..]. rewrite result_bind_Ok. intros [= <-]. by apply send_rst_plain in Er.
  - intros [= <-]. by apply clean_shutdown_plain, conn_send_plain.
Qed.

Lemma answer_plain seg c c' : conn_plain c -> answer seg c = Ok c' -> conn_plain c'.
Proof.
  intros Hc. unfold answer. destruct (if ack (header seg) then _ else _) as [c1| |] eqn:E1; [|done..].
  assert (conn_plain c1) as H1.
  { case_if_in E1; [|by injection E1 as <-]. destruct (ack_received _ _ _) as [s| |] eqn:Ea; [|done..].
    rewrite result_bind_Ok in E1. injection E1 as <-. by apply ack_received_plain in Ea. }
  rewrite result_bind_Ok. intros [= <-]. apply clean_shutdown_plain, conn_send_plain.
  assert (conn_plain (if (length_in_sequence_space seg >? 0) && bool_decide (segments_out (_sender c1) = [])
    then set_sender (send_empty_segment (_sender c1)) c1 else c1)) as H2 by (by case_if).
  destruct (ackno _); [|done]. by case_if.
Qed.

Lemma segment_received_plain seg c c' : conn_plain c -> TCPConnection.segment_received seg c = Ok c' -> conn_plain c'.
Proof.
  intros Hc. unfold TCPConnection.segment_received. case_if; [by intros [= <-]|]. case_if; [by intros [= <-]|].
  destruct (TCPReceiver.segment_received _ _) as [r| |]; [|done..]. rewrite result_bind_Ok.
  set (c1 := set_receiver r (set_time 0 c)). fold (answer seg c1). assert (conn_plain c1) as H1 by done.
  case_if; [by apply filled_send_plain|by apply answer_plain].
Qed.

Lemma act_plain a e peer e' : conn_plain (conn e) -> act a e peer = Ok e' -> conn_plain (conn e').
Proof.
  intros He. assert (forall m : result TCPConnection,
    (forall c, m = Ok c -> conn_plain c) -> (c ← m; Ok (set_conn c e)) = Ok e' -> conn_plain (conn e')) as Hset.
  { intros [c| |] Hm; [|done..]. rewrite result_bind_Ok. intros [= <-]. by apply Hm. }
  destruct a; cbn [act].
  - apply Hset. intros c. by apply (filled_send_plain (_sender (conn e)) (conn e)).
  - destruct (TCPConnection.write data (conn e)) as [[n c]| |] eqn:E; [|done..]. rewrite result_bind_Ok. intros [= <-].
    by apply write_plain in E.
  - apply Hset. intros c.
    by apply (filled_send_plain (end_stream (_sender (conn e))) (set_sender (end_stream (_sender (conn e))) (conn e))).
  - destruct (read_stream len _) as [d r]. by intros [= <-].
  - apply Hset. intros c. by apply tick_plain.
  - by intros [= <-].
  - destruct (wire peer !! i) as [seg|]; [|by intros [= <-]]. apply Hset. intros c. by apply segment_received_plain.
  - apply Hset. intros c. unfold destroy. destruct (active (conn e)); [|by intros [= <-]].
    destruct (send_rst_segment (conn e)) as [c1|[]|] eqn:E; cbn [mbind result_bind]; try done; try (by intros [= <-]).
    intros [= <-]. by apply send_rst_plain in E.
Qed.

Lemma reachable_plain cfg1 cfg2 y : reachable cfg1 cfg2 y -> conn_plain (conn (left y)) /\ conn_plain (conn (right y)).
Proof.
  induction 1 as [rnd1 rnd2|who a y y' _ [H1 H2] _ E]; [by split; constructor|]. unfold step in E. destruct who.
  - destruct (act a (left y) (right y)) as [e| |] eqn:Ea; [|done..]. rewrite result_bind_Ok in E. injection E as <-.
    split; [exact (act_plain _ _ _ _ H1 Ea)|done].
  - destruct (act a (right y) (left y)) as [e| |] eqn:Ea; [|done..]. rewrite result_bind_Ok in E. injection E as <-.
    split; [done|exact (act_plain _ _ _ _ H2 Ea)].
Qed.

(** ** The retransmission *)

(** When the timer has run out the oldest segment is queued again. *)
Lemma tick_resends ms c seg rest :
  active c = true -> TCPSender._segments_out (_sender c) = [] -> _outstanding_seg (_sender c) = seg :: rest ->
  is_expired (timer_tick ms (_timer (_sender c))) = true ->
  0 <= consecutive_retransmissions (_sender c) < MAX_RETX_ATTEMPTS ->
  exists c', tick ms c = Ok c' /\
    TCPConnection._segments_out c' = TCPConnection._segments_out c ++ [fill_header (_receiver c) seg].
Proof.
  intros Ha Hq Ho Ht Hc. unfold tick. rewrite Ha. cbn [negb]. set (c1 := set_time _ _).
  pose proof (tick_retransmits ms (_sender c)) as HT. cbv zeta in HT. rewrite Ho, Ht in HT.
  destruct HT as (_ & _ & _ & _ & Hs & _ & Hn & _). rewrite Hq in Hs. cbn [app] in Hs.
  assert (consecutive_retransmissions (_sender c1) <= MAX_RETX_ATTEMPTS) as Hle.
  { unfold c1, consecutive_retransmissions in *. cbn [_sender set_time set_sender]. rewrite Hn. unfold MAX_RETX_ATTEMPTS in *.
    case_if; [rewrite u32_id; lia|lia]. }
  case_if; [lia|]. eexists. split; [done|].
  assert (forall c, TCPConnection._segments_out (clean_shutdown c) = TCPConnection._segments_out c) as Hcs
    by (intros c0; unfold clean_shutdown; by repeat case_if).
  rewrite Hcs, send_segment_eq. unfold c1, segments_out.
  cbn [_sender _receiver set_sender set_time TCPConnection.set_out TCPConnection._segments_out]. by rewrite Hs.
Qed.

(** ** The arrival *)

Lemma clean_shutdown_receiver c : _receiver (clean_shutdown c) = _receiver c.
Proof. unfold clean_shutdown. by repeat case_if. Qed.
Lemma clean_shutdown_out c : TCPConnection._segments_out (clean_shutdown c) = TCPConnection._segments_out c.
Proof. unfold clean_shutdown. by repeat case_if. Qed.

Lemma sent_nonempty c : segments_out (_sender c) <> [] -> TCPConnection._segments_out (TCPConnection.send_segment c) <> [].
Proof.
  intros Hn. rewrite send_segment_eq. cbn. intros [_ E]%app_eq_nil. by apply map_eq_nil in E.
Qed.

(** The receiver gets the segment, and the connection answers it. *)
Lemma answer_effect seg c c' :
  answer seg c = Ok c' -> 0 < length_in_sequence_space seg ->
  _receiver c' = _receiver c /\ TCPConnection._segments_out c' <> [].
Proof.
  intros E Hl. unfold answer in E. destruct (if ack (header seg) then _ else _) as [c1| |] eqn:E1; [|done..].
  assert (_receiver c1 = _receiver c) as Hr.
  { case_if_in E1; [|by injection E1 as <-]. destruct (ack_received _ _ _) as [s| |]; [|done..].
    rewrite result_bind_Ok in E1. by injection E1 as <-. }
  rewrite result_bind_Ok in E. injection E as <-. rewrite clean_shutdown_receiver, clean_shutdown_out.
  rewrite (proj1 (conn_send_frame _)). rewrite (proj2 (Z.gtb_lt _ _) Hl). cbn [andb].
  rewrite (proj2 (Z.eqb_neq (length_in_sequence_space seg) 0)) by lia. cbn [andb].
  set (c2 := if bool_decide _ then _ else c1).
  assert (_receiver c2 = _receiver c /\ segments_out (_sender c2) <> []) as [R2 N2].
  { unfold c2. case_bool_decide as Hq; [|done]. split; [done|]. unfold segments_out. cbn. unfold segments_out in Hq. by rewrite Hq. }
  clearbody c2. destruct (ackno (_receiver c2)); (split; [exact R2|by apply sent_nonempty]).
Qed.

Lemma segment_received_effect seg c c' :
  active c = true -> plain seg -> TCPConnection.segment_received seg c = Ok c' -> 0 < length_in_sequence_space seg ->
  TCPReceiver.segment_received seg (_receiver c) = Ok (_receiver c') /\ TCPConnection._segments_out c' <> [].
Proof.
  intros Ha Hp E Hl. unfold TCPConnection.segment_received in E. unfold active in Ha. rewrite Ha, Hp in E. cbn [negb] in E.
  cbn [_receiver set_time] in E. destruct (TCPReceiver.segment_received seg (_receiver c)) as [r| |] eqn:Er; [|done..].
  rewrite result_bind_Ok in E. set (c1 := set_receiver r (set_time 0 c)) in *. fold (answer seg c1) in E. case_if_in E.
  - apply andb_prop in Heqb as [_ Hs%String.eqb_eq]. unfold connect, sender_summary, next_seqno_absolute in *.
    repeat case_if_in Hs; try done. unfold fill_window, next_seqno_absolute in E. rewrite Heqb0, result_bind_Ok in E. injection E as <-.
    rewrite (proj1 (conn_send_frame _)). split; [done|]. apply sent_nonempty. unfold segments_out. cbn [_sender set_sender].
    unfold TCPSender.send_segment. case_if; cbn; by intros [_ ?]%app_eq_nil.
  - destruct (answer_effect seg c1 c' E Hl) as [-> H2]. by split.
Qed.

(** A segment of a short stream that arrives. *)
Lemma arrives e peer x seg :
  ep_ok e peer -> ep_ok peer e -> #(written e) + 2 <= 2147483648 ->
  emitted (written e) (_isn (snd_of e)) (_next_seqno (snd_of e)) (input_ended (_stream (snd_of e))) x seg ->
  plain seg -> 0 < length_in_sequence_space seg -> active (conn peer) = true ->
  exists c, TCPConnection.segment_received seg (conn peer) = Ok c /\
    received x seg (_receiver (conn peer)) (_receiver c) /\ TCPConnection._segments_out c <> [].
Proof.
  intros He Hp Hs Hem Hplain Hlen Ha. destruct (peer_isn e peer He) as [Hisn HV]. pose proof Hem as (Hcar & Hend & _ & _ & Hseg & _).
  pose proof (ok_inv _ _ Hp) as Hinv. pose proof Hinv as [_ Hr _]. destruct (ok_inv _ _ He) as [[[] _] _ _].
  pose proof (window_bounds _ _ (StreamReassembler.wf_core _ _ (TCPReceiver.wf_reassembler _ _ _ Hr))) as Hb.
  assert (near (_receiver (conn peer)) x) as Hn by (destruct Hcar; unfold near, snd_of in *; lia).
  assert (wf_wrapping (TCPHeader.ackno (header seg)) /\ 0 <= win (header seg) < 65536) as [Hack Hw]
    by (destruct Hseg as (? & ? & ? & ? & ? & ? & ?); done).
  destruct (segment_received_inv (written e) (_isn (snd_of e)) Hisn ltac:(lia) (written peer) x seg (conn peer)) as (c & E & _); try done.
  destruct (segment_received_effect seg (conn peer) c) as [Er Ho]; try done. exists c. split; [done|].
  destruct (segment_received_spec (written e) (_isn (snd_of e)) Hisn ltac:(lia) (_receiver (conn peer)) x seg) as (r & Er' & _ & Hrec); try done.
  rewrite Er in Er'. injection Er' as <-. done.
Qed.

(** A schedule with short streams stays within the reachable states. *)
Lemma run_reachable cfg1 cfg2 acts : forall y y',
  valid_config cfg1 -> valid_config cfg2 -> reachable cfg1 cfg2 y -> Forall plain_action acts ->
  #(written (left y)) + volume true acts + 2 <= 2147483648 -> #(written (right y)) + volume false acts + 2 <= 2147483648 ->
  run acts y = Ok y' -> reachable cfg1 cfg2 y'.
Proof.
  induction acts as [|[who a] acts IH]; intros y y' H1 H2 Hy Hacts Hl Hr E; [by injection E as <-|].
  apply Forall_cons_1 in Hacts as [Ha Hacts]. rewrite volume_cons in Hl, Hr. cbn [run] in E.
  pose proof (volume_nonneg true acts). pose proof (volume_nonneg false acts).
  pose proof (volume_nonneg true [(who, a)]). pose proof (volume_nonneg false [(who, a)]).
  destruct (reachable_ok cfg1 cfg2 y H1 H2 Hy) as [Hyl Hyr].
  assert (volume who [(who, a)] = volume true [(true, a)]) as Hvol by (destruct a; simpl; rewrite ?eqb_reflx; done).
  destruct (step who a y) as [y1| |] eqn:E1; [|done..]. rewrite result_bind_Ok in E.
  assert (reachable cfg1 cfg2 y1) as Hy1.
  { eapply reachable_step; [exact Hy| |exact E1]. destruct who; apply short_valid; try done; lia. }
  unfold step in E1. destruct who.
  - destruct (act a (left y) (right y)) as [e| |] eqn:Ea; [|done..]. rewrite result_bind_Ok in E1. injection E1 as <-.
    apply act_written in Ea. eapply IH; [done..| | |exact E]; cbn [left right]; lia.
  - destruct (act a (right y) (left y)) as [e| |] eqn:Ea; [|done..]. rewrite result_bind_Ok in E1. injection E1 as <-.
    apply act_written in Ea. eapply IH; [done..| | |exact E]; cbn [left right]; lia.
Qed.

(** ** Properties *)

(** C6: losses are repaired. In every state that two connections can reach over a network that loses, delays,
    reorders and repeats segments: when the timer of a connection with unacknowledged segments has
    run out, and it has not used up its retransmissions, the oldest of them goes on
    the wire again; when it arrives at a peer that is active, the peer has the SYN if it carries
    one, knows every byte of it that its window admits, and answers. (The stream is shorter than half
    of the sequence space.) *)
Theorem loss_repaired cfg1 cfg2 y ms seg rest
  (H1 : valid_config cfg1) (H2 : valid_config cfg2) (Hr : reachable cfg1 cfg2 y)
  (Hshort : #(written (left y)) + 2 <= 2147483648)
  (Ha : active (conn (left y)) = true) (Hb : active (conn (right y)) = true)
  (Hq : _outstanding_seg (snd_of (left y)) = seg :: rest)
  (Ht : is_expired (timer_tick ms (_timer (snd_of (left y)))) = true)
  (Hc : consecutive_retransmissions (snd_of (left y)) < MAX_RETX_ATTEMPTS) :
  let again := (length (wire (left y)) + length (TCPConnection._segments_out (conn (left y))))%nat in
  exists x y', run [(true, Elapse ms); (true, Flush); (false, Deliver again)] y = Ok y' /\
    x <= _last_ackno (snd_of (left y)) /\ carries (written (left y)) (_isn (snd_of (left y))) x seg /\
    (syn (header seg) = true -> _syn (_receiver (conn (right y'))) = true) /\
    (_syn (_receiver (conn (right y))) = true ->
     forall i, x - 1 <= i < x - 1 + #(str (payload seg)) -> i < first_unacceptable (inbound (right y)) ->
       known (inbound (right y')) i) /\
    TCPConnection._segments_out (conn (right y')) <> [].
Proof.
  intros again. destruct (reachable_ok cfg1 cfg2 y H1 H2 Hr) as [Hl Hrt]. destruct (reachable_plain cfg1 cfg2 y Hr) as [Hp _].
  destruct y as [e peer]. cbn [left right] in *. pose proof (ok_live _ _ Hl Ha) as [Hout [Hcount _]].
  destruct (tick_resends ms (conn e) seg rest) as (c1 & E1 & O1); [done..|split; [apply Hcount|done]|].
  set (sent := fill_header (_receiver (conn e)) seg) in *.
  destruct (ok_inv _ _ Hl) as [Hsw _ _]. destruct (core_outstanding _ _ (TCPSender.wf_core _ _ Hsw)) as (x & Hx & _ & Hchain).
  unfold snd_of in Hq. rewrite Hq in Hchain. destruct Hchain as (Hem & Hlen & _).
  assert (plain sent /\ payload sent = payload seg /\ syn (header sent) = syn (header seg) /\
    length_in_sequence_space sent = length_in_sequence_space seg) as (P1 & P2 & P3 & P4).
  { unfold conn_plain, keeps_plain in Hp. rewrite Hq in Hp. apply Forall_cons_1 in Hp as [Hp _]. unfold sent, fill_header.
    by destruct (ackno (_receiver (conn e))). }
  destruct (arrives e peer x sent Hl Hrt Hshort) as (c2 & E2 & Hrec & Hans);
    [by apply emitted_fill_header|done|by rewrite P4|done|].
  assert (wire (mkEndpoint (TCPConnection.set_out [] c1) (written e) (delivered e) (wire e ++ TCPConnection._segments_out c1)) !! again = Some sent) as Hwire.
  { cbn [wire]. rewrite O1, app_assoc. unfold again. rewrite <- length_app. by apply list_lookup_middle. }
  exists x. eexists. split.
  { cbn [run]. unfold step. cbn [left right act]. rewrite E1, !result_bind_Ok. cbn [left right set_conn conn written delivered wire].
    cbn [wire] in Hwire. rewrite Hwire, E2, !result_bind_Ok. done. }
  cbn [right conn set_conn]. destruct Hrec as (R1 & _ & _ & _ & _ & _ & R2). unfold inbound. cbn [conn set_conn].
  split_and!; [apply Hx|apply Hem| |intros Hsyn i Hi Hwin; apply R2; right; by rewrite P2|done].
  intros Hsyn. by rewrite R1, P3, Hsyn, orb_true_r.
Qed.

(** The left side has sent six bytes, and the network has lost them. *)
Definition losing_schedule : list (bool * action) :=
  [(true, Connect); (true, Flush); (false, Deliver 0); (false, Flush); (true, Deliver 0); (true, Flush); (false, Deliver 1);
   (true, Write [x68; x65; x6c; x6c; x6f; x21]); (true, Flush)].
Definition lost : system := match run losing_schedule started with Ok y => y | _ => started end.

Lemma lost_reachable : reachable cfg_a cfg_b lost.
Proof.
  apply (run_reachable cfg_a cfg_b losing_schedule started); [apply cfg_a_valid|apply cfg_b_valid|apply reachable_start|..].
  - repeat constructor; by_compute.
  - by_compute.
  - by_compute.
  - vm_compute. reflexivity.
Qed.

Lemma loss_repaired_witness :
  exists y', run [(true, Elapse 1000); (true, Flush); (false, Deliver 3)] lost = Ok y' /\
    _buff (inbound_stream (conn (right lost))) = [] /\
    _buff (inbound_stream (conn (right y'))) = [x68; x65; x6c; x6c; x6f; x21] /\
    TCPConnection._segments_out (conn (right y')) <> [].
Proof.
  assert (exists seg, _outstanding_seg (snd_of (left lost)) = [seg]) as [seg Hq] by (vm_compute; eauto).
  destruct (loss_repaired cfg_a cfg_b lost 1000 seg []) as (x & y' & E & _ & _ & _ & _ & Hans);
    [apply cfg_a_valid|apply cfg_b_valid|apply lost_reachable|by_compute|by_compute|by_compute|exact Hq|by_compute|by_compute|].
  exists y'. split; [exact E|]. split; [by_compute|]. split; [|exact Hans].
  assert (match run [(true, Elapse 1000); (true, Flush); (false, Deliver 3)] lost with
    | Ok y => _buff (inbound_stream (conn (right y))) = [x68; x65; x6c; x6c; x6f; x21] | _ => False end) as HV by (vm_compute; reflexivity).
  change (length (wire (left lost)) + length (TCPConnection._segments_out (conn (left lost))))%nat with 3%nat in E.
  rewrite E in HV. exact HV.
Defined.
