(* ===== verification/Kernel.v ===== *)
(** * The operating system

    The system calls the library makes are an interface: a state [K] of the kernel (which
    includes the other processes and the owner's thread behind a socket pair) and one function per
    call, which returns the value of the call, [errno] and what the call writes to memory. The
    laws say what POSIX says about them, as far as the code relies on it, in terms of the data
    the process has exchanged so far ([observed]).

    [SystemCall] is the wrapper of src/libsponge/util/util.cc. *)

From S2P Require Import Prelude IO.

(** ** Constants of Linux *)

Definition POLLIN : Z := 1.
Definition POLLOUT : Z := 4.
Definition POLLERR : Z := 8.
Definition POLLHUP : Z := 16.
Definition POLLNVAL : Z := 32.
Definition EINTR : Z := 4.
Definition O_NONBLOCK : Z := 2048.
Definition SHUT_RD : Z := 0.
Definition SHUT_WR : Z := 1.
Definition SHUT_RDWR : Z := 2.
Definition AF_UNIX : Z := 1.
Definition SOCK_STREAM : Z := 1.
Definition SOCK_DGRAM : Z := 2.
Definition SOL_SOCKET : Z := 1.
Definition SO_REUSEADDR : Z := 2.
Definition SO_TYPE : Z := 3.
Definition SO_DOMAIN : Z := 39.
Definition MSG_TRUNC : Z := 32.
Definition O_RDWR : Z := 2.
Definition IFF_TUN : Z := 1.
Definition IFF_TAP : Z := 2.
Definition IFF_NO_PI : Z := 4096.
Definition IFNAMSIZ : Z := 16.
Definition TUNSETIFF : Z := 1074025674.

(** ** System calls *)

Record sysret (A : Type) := mkSysret { ret : Z; errno : Z; out : A }.
Arguments mkSysret {A}.
Arguments ret {A}.
Arguments errno {A}.
Arguments out {A}.

(** [struct pollfd] as it is passed to poll; the call fills in [revents]. *)
Record pollfd := mkPollfd { poll_fd : Z; poll_events : Z; poll_revents : Z }.

(** The fields of [struct ifreq] that a request to a TUN or TAP device uses. *)
Record ifreq := mkIfreq { ifr_name : bytes; ifr_flags : Z }.

(** Data that a descriptor has delivered to, or taken from, the process. *)
Inductive event :=
| Received (fd : Z) (data : bytes)
| Sent (fd : Z) (data : bytes).

Class Kernel (K : Type) := {
  sys_read : Z -> Z -> K -> sysret bytes * K;
  sys_writev : Z -> list bytes -> K -> sysret unit * K;
  sys_close : Z -> K -> sysret unit * K;
  sys_getfl : Z -> K -> sysret unit * K;
  sys_setfl : Z -> Z -> K -> sysret unit * K;
  sys_poll : list pollfd -> Z -> K -> sysret (list Z) * K;
  sys_socket : Z -> Z -> K -> sysret unit * K;
  sys_socketpair : Z -> Z -> K -> sysret (Z * Z) * K;
  sys_getsockopt : Z -> Z -> Z -> K -> sysret (Z * Z) * K;
  sys_setsockopt : Z -> Z -> Z -> Z -> K -> sysret unit * K;
  sys_getsockname : Z -> Z -> K -> sysret (bytes * Z) * K;
  sys_getpeername : Z -> Z -> K -> sysret (bytes * Z) * K;
  sys_bind : Z -> bytes -> Z -> K -> sysret unit * K;
  sys_connect : Z -> bytes -> Z -> K -> sysret unit * K;
  sys_listen : Z -> Z -> K -> sysret unit * K;
  sys_accept : Z -> K -> sysret unit * K;
  sys_shutdown : Z -> Z -> K -> sysret unit * K;
  sys_recvfrom : Z -> Z -> Z -> Z -> K -> sysret (bytes * bytes * Z) * K;
  sys_sendmsg : Z -> bytes -> Z -> list bytes -> K -> sysret unit * K;
  sys_open : bytes -> Z -> K -> sysret unit * K;
  sys_ioctl : Z -> Z -> ifreq -> K -> sysret unit * K;
  sys_clock_ms : K -> Z * K;
  observed : K -> list event
}.

(** A call that fails transfers nothing. *)
Definition failed {A K} `{Kernel K} (r : sysret A) (k k' : K) : Prop :=
  ret r = -1 /\ 0 < errno r /\ observed k' = observed k.

(** Calls that transfer no data. *)
Definition quiet {A K} `{Kernel K} (call : K -> sysret A * K) : Prop :=
  forall k, observed (call k).2 = observed k.

Class KernelLaws (K : Type) `{Kernel K} := {
  read_law : forall fd n k, 0 <= n ->
    let '(r, k') := sys_read fd n k in
    failed r k k' \/
    (0 <= ret r <= n /\ #(out r) = ret r /\ observed k' = observed k ++ [Received fd (out r)]);
  writev_law : forall fd iov k,
    let '(r, k') := sys_writev fd iov k in
    failed r k k' \/
    (0 <= ret r <= #(concat iov) /\ ret r < 2147483648 /\
     observed k' = observed k ++ [Sent fd (take (Z.to_nat (ret r)) (concat iov))]);
  recvfrom_law : forall fd n flags m k, 0 <= n ->
    let '(r, k') := sys_recvfrom fd n flags m k in
    failed r k k' \/
    (0 <= ret r < 2147483648 /\ #(out r).1.1 = Z.min n (ret r) /\
     observed k' = observed k ++ [Received fd (out r).1.1]);
  sendmsg_law : forall fd a n iov k,
    let '(r, k') := sys_sendmsg fd a n iov k in
    failed r k k' \/
    (0 <= ret r <= #(concat iov) /\ ret r < 2147483648 /\
     observed k' = observed k ++ [Sent fd (take (Z.to_nat (ret r)) (concat iov))]);
  poll_law : forall fds t k, length (out (sys_poll fds t k).1) = length fds;
  poll_quiet : forall fds t, quiet (sys_poll fds t);
  close_quiet : forall fd, quiet (sys_close fd);
  getfl_quiet : forall fd, quiet (sys_getfl fd);
  setfl_quiet : forall fd flags, quiet (sys_setfl fd flags);
  shutdown_quiet : forall fd how, quiet (sys_shutdown fd how);
  socket_quiet : forall domain type, quiet (sys_socket domain type);
  getsockopt_quiet : forall fd level option, quiet (sys_getsockopt fd level option);
  setsockopt_quiet : forall fd level option value, quiet (sys_setsockopt fd level option value);
  bind_quiet : forall fd a n, quiet (sys_bind fd a n);
  connect_quiet : forall fd a n, quiet (sys_connect fd a n);
  listen_quiet : forall fd n, quiet (sys_listen fd n);
  accept_quiet : forall fd, quiet (sys_accept fd);
  open_quiet : forall path flags, quiet (sys_open path flags);
  ioctl_quiet : forall fd request arg, quiet (sys_ioctl fd request arg);
  clock_quiet : forall k, observed (sys_clock_ms k).2 = observed k
}.

(** A descriptor that sends a message as a whole or not at all, as a datagram socket does
    with [sendmsg] and a TUN device with [writev]. *)
Definition sendmsg_whole {K} `{Kernel K} (fd : Z) : Prop := forall a n iov (k : K),
  let r := (sys_sendmsg fd a n iov k).1 in ret r = -1 \/ ret r = #(concat iov).
Definition writev_whole {K} `{Kernel K} (fd : Z) : Prop := forall iov (k : K),
  let r := (sys_writev fd iov k).1 in ret r = -1 \/ ret r = #(concat iov).
Arguments sendmsg_whole K {_} fd.
Arguments writev_whole K {_} fd.

(** ** [SystemCall] *)

(** The value is narrowed to [int]; an error is accepted if [errno] is [errno_mask]. *)
Definition SystemCall {A} (r : sysret A) (errno_mask : Z) : result Z :=
  let return_value := s32 (ret r) in
  if (0 <=? return_value) || (errno r =? errno_mask) then Ok return_value
  else Throw (unix_error (errno r)).

Lemma SystemCall_failed {A} (r : sysret A) :
  ret r = -1 -> 0 < errno r -> SystemCall r 0 = Throw (unix_error (errno r)).
Proof.
  intros Hr He. unfold SystemCall. rewrite Hr. change (s32 (-1)) with (-1). simpl.
  by rewrite (proj2 (Z.eqb_neq (errno r) 0)) by lia.
Qed.

Lemma SystemCall_ok {A} (r : sysret A) mask : 0 <= ret r < 2147483648 -> SystemCall r mask = Ok (ret r).
Proof.
  intros Hr. unfold SystemCall. assert (s32 (ret r) = ret r) as ->
    by (unfold s32; rewrite u32_id by lia; case_if; lia).
  by rewrite (proj2 (Z.leb_le 0 (ret r))) by lia.
Qed.

(** ** Data exchanged with one descriptor *)

Definition received_of (fd : Z) (e : event) : bytes :=
  match e with
  | Received fd' d => if fd =? fd' then d else []
  | Sent _ _ => []
  end.
Definition sent_of (fd : Z) (e : event) : bytes :=
  match e with
  | Sent fd' d => if fd =? fd' then d else []
  | Received _ _ => []
  end.

Definition received (fd : Z) (l : list event) : bytes := concat (map (received_of fd) l).
Definition sent (fd : Z) (l : list event) : bytes := concat (map (sent_of fd) l).

Lemma received_app fd l k : received fd (l ++ k) = received fd l ++ received fd k.
Proof. unfold received. by rewrite map_app, concat_app. Qed.
Lemma sent_app fd l k : sent fd (l ++ k) = sent fd l ++ sent fd k.
Proof. unfold sent. by rewrite map_app, concat_app. Qed.
Lemma received_one fd e : received fd [e] = received_of fd e.
Proof. unfold received. simpl. apply app_nil_r. Qed.
Lemma sent_one fd e : sent fd [e] = sent_of fd e.
Proof. unfold sent. simpl. apply app_nil_r. Qed.
