(* ===== verification/SimKernel.v ===== *)
(** * A kernel to run the code on

    An instance of the interface of Kernel.v that keeps the promised laws: each descriptor has a
    script of inputs, writes accept a bounded number of bytes, and poll reports what is ready or
    fails as the script says. A message that is too long is refused. Concrete runs of the code evaluate on it. *)

From S2P Require Import Prelude IO Kernel.

(** An input is data or an error. *)
Record sim := mkSim {
  inputs : list (Z * (bytes + Z));
  accepts : Z;
  poll_errors : list Z;
  clock : Z;
  events : list event
}.

Definition set_inputs (l : list (Z * (bytes + Z))) (es : list event) (k : sim) : sim :=
  mkSim l (accepts k) (poll_errors k) (clock k) es.

Definition sim_fail {A} (e : Z) (a : A) : sysret A := mkSysret (-1) (Z.max 1 e) a.

(** The first input for [fd], and the inputs without it. *)
Fixpoint next_input (fd : Z) (l : list (Z * (bytes + Z))) : option ((bytes + Z) * list (Z * (bytes + Z))) :=
  match l with
  | [] => None
  | (fd', i) :: l =>
      if fd =? fd' then Some (i, l)
      else match next_input fd l with
           | Some (j, l) => Some (j, (fd', i) :: l)
           | None => None
           end
  end.

(** At most 65536 bytes are delivered at once; what is left can be read later, unless the input
    is a datagram. After the last input a read returns nothing, as at the end of a file. *)
Definition sim_take (datagram : bool) (fd n : Z) (k : sim) : sysret bytes * sim :=
  match next_input fd (inputs k) with
  | None => (mkSysret 0 0 [], set_inputs (inputs k) (events k ++ [Received fd []]) k)
  | Some (inr e, l) => (sim_fail e [], set_inputs l (events k) k)
  | Some (inl d, l) =>
      let c := Z.to_nat (Z.min n 65536) in
      let got := take c d in
      let rest := drop c d in
      let l := if datagram || bool_decide (rest = []) then l else (fd, inl rest) :: l in
      (mkSysret (#got) 0 got, set_inputs l (events k ++ [Received fd got]) k)
  end.

Definition sim_send (fd : Z) (iov : list bytes) (most : Z) (k : sim) : sysret unit * sim :=
  let d := take (Z.to_nat (Z.min most 65536)) (concat iov) in
  (mkSysret (#d) 0 tt, set_inputs (inputs k) (events k ++ [Sent fd d]) k).

Definition sim_ready (k : sim) (p : pollfd) : Z :=
  let readable := match next_input (poll_fd p) (inputs k) with Some _ => POLLIN | None => 0 end in
  Z.land (poll_events p) (Z.lor readable POLLOUT).

Definition sim_poll (fds : list pollfd) (k : sim) : sysret (list Z) * sim :=
  match poll_errors k with
  | e :: l => (sim_fail e (map (fun _ => 0) fds), mkSim (inputs k) (accepts k) l (clock k) (events k))
  | [] => let r := map (sim_ready k) fds in (mkSysret (Z.of_nat (length (filter (fun x => x <> 0) r))) 0 r, k)
  end.

Definition sim_ok {A} (a : A) (k : sim) : sysret A * sim := (mkSysret 0 0 a, k).

(** The address that datagrams come from: 10.0.0.2 port 2000. *)
Definition sim_peer : bytes := map byte_of_Z [2; 0; 7; 208; 10; 0; 0; 2; 0; 0; 0; 0; 0; 0; 0; 0].

#[global] Instance sim_kernel : Kernel sim := {
  sys_read fd n k := sim_take false fd n k;
  sys_writev fd iov k := sim_send fd iov (accepts k) k;
  sys_close fd k := sim_ok tt k;
  sys_getfl fd k := (mkSysret 2 0 tt, k);
  sys_setfl fd flags k := sim_ok tt k;
  sys_poll fds t k := sim_poll fds k;
  sys_socket d t k := (mkSysret 3 0 tt, k);
  sys_socketpair d t k := sim_ok (3, 4) k;
  sys_getsockopt fd l o k := sim_ok (if o =? SO_DOMAIN then (AF_UNIX, 4) else (SOCK_STREAM, 4)) k;
  sys_setsockopt fd l o v k := sim_ok tt k;
  sys_getsockname fd n k := sim_ok (sim_peer, 16) k;
  sys_getpeername fd n k := sim_ok (sim_peer, 16) k;
  sys_bind fd a n k := sim_ok tt k;
  sys_connect fd a n k := sim_ok tt k;
  sys_listen fd n k := sim_ok tt k;
  sys_accept fd k := (mkSysret 5 0 tt, k);
  sys_shutdown fd how k := sim_ok tt k;
  sys_recvfrom fd n flags m k := let '(r, k) := sim_take true fd n k in
    (mkSysret (ret r) (errno r) (out r, sim_peer, 16), k);
  sys_sendmsg fd a n iov k :=
    if #(concat iov) <=? 65536 then sim_send fd iov 65536 k else (sim_fail 90 tt, k);
  sys_open path flags k := (mkSysret 6 0 tt, k);
  sys_ioctl fd request arg k := sim_ok tt k;
  sys_clock_ms k := (clock k, mkSim (inputs k) (accepts k) (poll_errors k) (clock k + 10) (events k));
  observed := events
}.

Lemma sim_take_law b fd n k : 0 <= n ->
  let '(r, k') := sim_take b fd n k in
  failed r k k' \/
  (0 <= ret r <= n /\ ret r < 2147483648 /\ #(out r) = ret r /\ events k' = events k ++ [Received fd (out r)]).
Proof.
  intros Hn. unfold sim_take. destruct (next_input fd (inputs k)) as [[[d|e] l]|].
  - right. pose proof (Zlen_nonneg (take (Z.to_nat (Z.min n 65536)) d)).
    assert (#(take (Z.to_nat (Z.min n 65536)) d) <= Z.min n 65536) by (unfold Zlen; rewrite length_take; lia).
    simpl. split_and!; [lia..|done|done].
  - left. unfold failed. simpl. split_and!; [done|lia|done].
  - right. simpl. rewrite Zlen_nil. split_and!; [lia..|done].
Qed.

Lemma sim_send_law fd iov n k :
  let '(r, k') := sim_send fd iov n k in
  0 <= ret r <= #(concat iov) /\ ret r < 2147483648 /\
  events k' = events k ++ [Sent fd (take (Z.to_nat (ret r)) (concat iov))].
Proof.
  unfold sim_send. simpl. set (c := Z.to_nat _). assert (Z.of_nat c <= 65536) by (unfold c; lia).
  pose proof (Zlen_nonneg (take c (concat iov))). unfold Zlen in *. rewrite length_take in *.
  split_and!; [lia..|]. by rewrite Nat2Z.id, <- take_take, (take_ge (concat iov) (length _)).
Qed.

#[global] Instance sim_laws : KernelLaws sim.
Proof.
  split; try done.
  - intros fd n k Hn. pose proof (sim_take_law false fd n k Hn) as HL. simpl. destruct (sim_take _ _ _ _).
    destruct HL as [HL|(? & ? & ? & ?)]; [by left|right; split_and!; done || lia].
  - intros fd iov k. right. apply (sim_send_law fd iov (accepts k) k).
  - intros fd n flags m k Hn. pose proof (sim_take_law true fd n k Hn) as HL. simpl.
    destruct (sim_take _ _ _ _) as [r k']. destruct HL as [HL|(? & ? & ? & ?)]; [by left|].
    right. simpl. split_and!; [lia..|done].
  - intros fd a n iov k. simpl. case_if; [right; apply (sim_send_law fd iov 65536 k)|left].
    unfold failed. simpl. split_and!; [done|lia|done].
  - intros fds t k. simpl. unfold sim_poll. destruct (poll_errors k); simpl; by rewrite length_map.
  - intros fds t k. simpl. unfold sim_poll. by destruct (poll_errors k).
Qed.

Lemma sim_sendmsg_whole fd : sendmsg_whole sim fd.
Proof.
  intros a n iov k. simpl. case_if; [right|by left]. simpl. rewrite Zlen_take; [|lia]. lia.
Qed.
