(* ===== verification/FileDescriptor.v ===== *)
(** * Reference-counted file descriptors
    (src/libsponge/util/file_descriptor.hh, file_descriptor.cc)

    A [FileDescriptor] is a [shared_ptr] to an [FDWrapper]; copies made with [duplicate] share it.
    So the wrappers live in a heap, and a FileDescriptor is an index in it; a cell records the
    number of FileDescriptors that point to it, and the wrapper is destroyed with the last. *)

From stdpp Require Import strings.
From S2P Require Import Prelude IO Buffer Parser Kernel SimKernel.

(** ** State *)

Record FDWrapper := mkFDWrapper {
  _fd : Z;
  _eof : bool;
  _closed : bool;
  _read_count : Z;
  _write_count : Z;
  use_count : nat
}.

Abbreviation FileDescriptor := nat (only parsing).

Record machine (K : Type) := mkMachine { kernel : K; heap : list FDWrapper }.
Arguments mkMachine {K}.
Arguments kernel {K}.
Arguments heap {K}.

(** What a handle that points nowhere would give. *)
Definition no_wrapper : FDWrapper := mkFDWrapper 0 true true 0 0 0.

Section file_descriptor.
Context {K : Type} `{Kernel K}.

Definition wrapper (h : FileDescriptor) (m : machine K) : FDWrapper := default no_wrapper (heap m !! h).

(** Make a system call, and change the object a descriptor points to. *)
Definition sys {A} (call : K -> A * K) : io (machine K) A := fun m =>
  let '(r, k) := call (kernel m) in (Ok r, mkMachine k (heap m)).
Definition update (h : FileDescriptor) (f : FDWrapper -> FDWrapper) : io (machine K) unit :=
  modify (fun m => mkMachine (kernel m) (alter f h (heap m))).

Definition system_call {A} (call : K -> sysret A * K) : io (machine K) Z :=
  r ← sys call; of_result (SystemCall r 0).

(** ** Accessors *)

Definition fd_num (h : FileDescriptor) (m : machine K) : Z := _fd (wrapper h m).
Definition fd_eof (h : FileDescriptor) (m : machine K) : bool := _eof (wrapper h m).
Definition fd_closed (h : FileDescriptor) (m : machine K) : bool := _closed (wrapper h m).
Definition read_count (h : FileDescriptor) (m : machine K) : Z := _read_count (wrapper h m).
Definition write_count (h : FileDescriptor) (m : machine K) : Z := _write_count (wrapper h m).

(** ** Construction and destruction *)

(** [make_shared<FDWrapper>(fd)]. *)
Definition FileDescriptor_of (fd : Z) : io (machine K) FileDescriptor :=
  if fd <? 0 then throw runtime_error
  else
    h ← gets (fun m => length (heap m));
    _ ← modify (fun m => mkMachine (kernel m) (heap m ++ [mkFDWrapper fd false false 0 0 1]));
    mret h.

Definition set_use_count (n : nat) (w : FDWrapper) : FDWrapper :=
  mkFDWrapper (_fd w) (_eof w) (_closed w) (_read_count w) (_write_count w) n.

Definition duplicate (h : FileDescriptor) : io (machine K) FileDescriptor :=
  _ ← update h (fun w => set_use_count (S (use_count w)) w);
  mret h.

Definition set_closed (w : FDWrapper) : FDWrapper :=
  mkFDWrapper (_fd w) true true (_read_count w) (_write_count w) (use_count w).

(** [FDWrapper::close]. *)
Definition close (h : FileDescriptor) : io (machine K) unit :=
  fd ← gets (fd_num h);
  _ ← system_call (sys_close fd);
  update h set_closed.

(** [~FDWrapper], whose message to cerr is left out. *)
Definition destroy_wrapper (h : FileDescriptor) : io (machine K) unit :=
  catch (c ← gets (fd_closed h); if (c : bool) then mret tt else close h) (fun _ => mret tt).

(** [~FileDescriptor]: the last one destroys the wrapper. *)
Definition release (h : FileDescriptor) : io (machine K) unit :=
  n ← gets (fun m => use_count (wrapper h m));
  _ ← update h (set_use_count (pred n));
  if (n <=? 1)%nat then destroy_wrapper h else mret tt.

(** ** Reading and writing *)

Definition register_read (h : FileDescriptor) : io (machine K) unit :=
  update h (fun w => mkFDWrapper (_fd w) (_eof w) (_closed w) (u32 (_read_count w + 1)) (_write_count w) (use_count w)).
Definition register_write (h : FileDescriptor) : io (machine K) unit :=
  update h (fun w => mkFDWrapper (_fd w) (_eof w) (_closed w) (_read_count w) (u32 (_write_count w + 1)) (use_count w)).

Definition set_eof (w : FDWrapper) : FDWrapper :=
  mkFDWrapper (_fd w) true (_closed w) (_read_count w) (_write_count w) (use_count w).

(** [std::string::resize] by a value converted to [size_t]. *)
Definition resize_to (n : Z) (s : bytes) : result bytes :=
  if n <? 0 then Throw length_error else Ok (resize n s).

Definition BUFFER_SIZE : Z := 1048576.

(** The call writes its bytes over the front of the zeroed string. *)
Definition fd_read (h : FileDescriptor) (limit : Z) : io (machine K) bytes :=
  let size_to_read := Z.min BUFFER_SIZE limit in
  let str := resize size_to_read [] in
  fd ← gets (fd_num h);
  r ← sys (sys_read fd size_to_read);
  bytes_read ← of_result (SystemCall r 0);
  let str := out r ++ drop (length (out r)) str in
  _ ← when ((limit >? 0) && (bytes_read =? 0)) (update h set_eof);
  if bytes_read >? size_to_read then throw runtime_error
  else
    str ← of_result (resize_to bytes_read str);
    _ ← register_read h;
    mret str.

(** One turn of the loop of [write]. *)
Definition write_turn (h : FileDescriptor) (write_all : bool) (s : BufferViewList * Z)
  : io (machine K) (BufferViewList * Z + Z) :=
  let '(buffer, total_bytes_written) := s in
  let iovecs := as_iovecs buffer in
  fd ← gets (fd_num h);
  bytes_written ← system_call (sys_writev fd iovecs);
  if (bytes_written =? 0) && negb (views_size buffer =? 0) then
    throw (runtime_error_of "write returned 0 given non-empty input buffer"%string)
  else if bytes_written >? s64 (views_size buffer) then throw runtime_error
  else
    _ ← register_write h;
    buffer ← of_result (views_remove_prefix (u64 bytes_written) buffer);
    let total_bytes_written := u64 (total_bytes_written + bytes_written) in
    if write_all && negb (views_size buffer =? 0) then mret (inl (buffer, total_bytes_written))
    else mret (inr total_bytes_written).

(** Every turn but the last writes at least one byte. *)
Definition fd_write (h : FileDescriptor) (buffer : BufferViewList) (write_all : bool) : io (machine K) Z :=
  iterate (S (Z.to_nat (views_size buffer))) (write_turn h write_all) (buffer, 0).

Definition fd_write_string (h : FileDescriptor) (str : bytes) (write_all : bool) : io (machine K) Z :=
  fd_write h (view_of_string str) write_all.

(** ** Blocking mode *)

Definition set_blocking (h : FileDescriptor) (blocking_state : bool) : io (machine K) unit :=
  fd ← gets (fd_num h);
  flags ← system_call (sys_getfl fd);
  let flags := if blocking_state then Z.lxor flags (Z.land flags O_NONBLOCK) else Z.lor flags O_NONBLOCK in
  fd ← gets (fd_num h);
  _ ← system_call (sys_setfl fd flags);
  mret tt.
End file_descriptor.

(** ** Lemmas *)

Lemma views_size_concat l : #(concat l) < 18446744073709551616 -> views_size l = #(concat l).
Proof.
  unfold views_size.
  assert (forall (l : list bytes) n, 0 <= n -> n + #(concat l) < 18446744073709551616 ->
    foldl (fun ret v => u64 (ret + #v)) n l = n + #(concat l)) as Hl.
  { clear. induction l as [|v l IH]; intros n Hn Hb; simpl in *; [rewrite Zlen_nil; lia|].
    rewrite Zlen_app in *. pose proof (Zlen_nonneg v). pose proof (Zlen_nonneg (concat l)).
    rewrite u64_id by lia. rewrite IH by lia. lia. }
  intros Hb. apply (Hl l 0); lia.
Qed.

Section laws.
Context {K : Type} `{KernelLaws K}.
Implicit Types m : machine K.

Definition log m : list event := observed (kernel m).

Lemma wrapper_alter f h m (k : K) : (h < length (heap m))%nat ->
  wrapper h (mkMachine k (alter f h (heap m))) = f (wrapper h m).
Proof.
  intros Hh. unfold wrapper. cbn [heap]. rewrite list_lookup_alter_eq.
  destruct (lookup_lt_is_Some_2 _ _ Hh) as [w Hw]. by rewrite Hw.
Qed.

Lemma wrapper_alter_ne f h h' m (k : K) : h <> h' -> wrapper h' (mkMachine k (alter f h (heap m))) = wrapper h' m.
Proof. intros Hh. unfold wrapper. cbn [heap]. by rewrite list_lookup_alter_ne. Qed.

Lemma wp_sys {A} (call : K -> A * K) Q E m :
  Q (call (kernel m)).1 (mkMachine (call (kernel m)).2 (heap m)) -> wp (sys call) Q E m.
Proof. unfold wp, sys. by destruct (call (kernel m)). Qed.

Lemma wp_update h f Q E m : Q tt (mkMachine (kernel m) (alter f h (heap m))) -> wp (update h f) Q E m.
Proof. done. Qed.

Lemma wp_SystemCall {A} (r : sysret A) mask (Q : Z -> machine K -> Prop) (E : exn -> machine K -> Prop) m :
  (forall z, Q z m) -> (forall n, E (unix_error n) m) -> wp (of_result (SystemCall r mask)) Q E m.
Proof. intros HQ HE. unfold wp, of_result, SystemCall. destruct (_ || _); auto. Qed.

(** A call that transfers no data: it returns or throws an error of the system. *)
Lemma wp_system_call {A} (call : K -> sysret A * K) (Q : Z -> machine K -> Prop) (E : exn -> machine K -> Prop) m :
  quiet call ->
  (forall r k, observed k = log m -> Q r (mkMachine k (heap m))) ->
  (forall n k, observed k = log m -> E (unix_error n) (mkMachine k (heap m))) ->
  wp (system_call call) Q E m.
Proof.
  intros Hq HQ HE. unfold system_call. wp_step. apply wp_sys. specialize (Hq (kernel m)).
  unfold wp, of_result, SystemCall. destruct (_ || _); auto.
Qed.

(** ** What the operations do *)

Definition event_fd (e : event) : Z :=
  match e with
  | Received fd _ | Sent fd _ => fd
  end.

(** Only the descriptor [h] and its object have been used. *)
Definition touches (h : FileDescriptor) m m' : Prop :=
  (exists es, log m' = log m ++ es /\ Forall (fun e => event_fd e = fd_num h m) es) /\
  exists f, heap m' = alter f h (heap m) /\ forall w, _fd (f w) = _fd w.

Lemma touches_refl h m : touches h m m.
Proof.
  split; [exists []; by rewrite app_nil_r|]. exists id. split; [|done]. symmetry. apply list_alter_id. done.
Qed.

(** The object of [h] may have changed; nothing was transferred. *)
Definition silent (h : FileDescriptor) m m' : Prop :=
  log m' = log m /\ exists f, heap m' = alter f h (heap m) /\ forall w, _fd (f w) = _fd w.

Lemma silent_touches h m m' : silent h m m' -> touches h m m'.
Proof. intros [L HH]. split; [|done]. exists []. by rewrite app_nil_r. Qed.

(** Releasing a descriptor transfers nothing and throws nothing. *)
Lemma release_spec h m : wp (release h) (fun _ m' => silent h m m') (fun _ _ => False) m.
Proof.
  unfold release. wp_steps. apply wp_update. set (f := set_use_count _).
  assert (silent h m (mkMachine (kernel m) (alter f h (heap m)))) as H1 by (split; [done|by exists f]).
  case_if; [|done]. unfold destroy_wrapper. wp_steps. case_if; [done|].
  unfold close. wp_steps. apply wp_system_call; [apply close_quiet| |].
  - intros r k Hk. apply wp_update. split; [done|]. cbn [heap]. exists (set_closed ∘ f).
    by rewrite list_alter_alter_eq.
  - intros n k Hk. wp_step. split; [done|]. by exists f.
Qed.

(** A wrapper after it has been read or written [n] times. *)
Definition after_read (at_end : bool) (w : FDWrapper) : FDWrapper :=
  mkFDWrapper (_fd w) (_eof w || at_end) (_closed w) (u32 (_read_count w + 1)) (_write_count w) (use_count w).
Definition after_writes (n : nat) (w : FDWrapper) : FDWrapper :=
  mkFDWrapper (_fd w) (_eof w) (_closed w) (_read_count w) (u32 (_write_count w + Z.of_nat n)) (use_count w).

Definition sys_error (e : exn) : Prop := exists n, e = unix_error n.

(** The rest of the buffer is cut off. *)
Lemma resize_to_app d x : resize_to (#d) (d ++ x) = Ok d.
Proof.
  unfold resize_to. rewrite (proj2 (Z.ltb_ge _ _)) by apply Zlen_nonneg. f_equal. unfold resize, Zlen.
  rewrite Nat2Z.id, take_app_le, take_ge, length_app by lia.
  match goal with |- _ ++ replicate ?j _ = _ => replace j with 0%nat by lia end. apply app_nil_r.
Qed.

Lemma fd_read_spec h limit m :
  0 <= limit ->
  wp (fd_read h limit)
    (fun d m' => #d <= Z.min BUFFER_SIZE limit /\ log m' = log m ++ [Received (fd_num h m) d] /\
       heap m' = alter (after_read ((limit >? 0) && bool_decide (d = []))) h (heap m))
    (fun e m' => sys_error e /\ log m' = log m /\ heap m' = heap m) m.
Proof.
  intros Hl. unfold fd_read. set (n := Z.min BUFFER_SIZE limit).
  assert (0 <= n <= limit /\ n <= 1048576) as Hn by (unfold n, BUFFER_SIZE; lia).
  wp_steps. apply wp_sys. pose proof (read_law (fd_num h m) n (kernel m) ltac:(lia)) as Hr.
  destruct (sys_read _ _ _) as [r k]. simpl. wp_step.
  destruct Hr as [(H1 & H2 & H3)|(H1 & H2 & H3)].
  - unfold wp, of_result. rewrite SystemCall_failed by done. split; [by eexists|done].
  - apply wp_of_result with (ret r); [apply SystemCall_ok; lia|]. wp_step.
    assert (resize_to (ret r) (out r ++ drop (length (out r)) (resize n [])) = Ok (out r)) as Hs.
    { rewrite <- H2. apply resize_to_app. }
    assert (bool_decide (out r = []) = (ret r =? 0)) as Hz.
    { rewrite <- H2. destruct (out r) as [|b l]; [done|]. rewrite bool_decide_eq_false_2 by done.
      rewrite Zlen_cons. pose proof (Zlen_nonneg l). lia. }
    apply wp_when; intros Hc; [apply wp_update|]; (case_if; [lia|]); wp_step;
      (apply wp_of_result with (out r); [exact Hs|]); wp_steps; apply wp_update; wp_step;
      (split; [lia|]; split; [exact H3|]; cbn [heap]; rewrite Hz, Hc).
    + rewrite list_alter_alter_eq. apply list_alter_ext; [|done]. intros w _. unfold compose, after_read, set_eof. simpl.
      by rewrite orb_true_r.
    + apply list_alter_ext; [|done]. intros w _. unfold after_read. by rewrite orb_false_r.
Qed.

Definition write_zero : exn := runtime_error_of "write returned 0 given non-empty input buffer".

(** One turn sends a prefix, and continues with the rest. *)
Lemma write_turn_spec h all buffer total m :
  #(concat buffer) < 9223372036854775808 -> 0 <= total -> total + #(concat buffer) < 18446744073709551616 ->
  wp (write_turn h all (buffer, total))
    (fun r m' => exists d rest, concat buffer = d ++ rest /\ (writev_whole K (fd_num h m) -> rest = []) /\
       log m' = log m ++ [Sent (fd_num h m) d] /\ heap m' = alter (after_writes 1) h (heap m) /\
       match r with
       | inl (buffer', total') => all = true /\ concat buffer' = rest /\ rest <> [] /\ d <> [] /\ total' = total + #d
       | inr total' => total' = total + #d /\ (all = true -> rest = [])
       end)
    (fun e m' => heap m' = heap m /\
       (sys_error e /\ log m' = log m \/
        e = write_zero /\ log m' = log m ++ [Sent (fd_num h m) []] /\ ~ writev_whole K (fd_num h m))) m.
Proof.
  intros Hb Ht Htb. unfold write_turn. wp_steps. unfold system_call. wp_step. apply wp_sys.
  pose proof (writev_law (fd_num h m) (as_iovecs buffer) (kernel m)) as Hr.
  assert (writev_whole K (fd_num h m) -> ret (sys_writev (fd_num h m) (as_iovecs buffer) (kernel m)).1 = -1 \/
    ret (sys_writev (fd_num h m) (as_iovecs buffer) (kernel m)).1 = #(concat buffer)) as Hwh by (intros Hwh; apply Hwh).
  destruct (sys_writev _ _ _) as [r k]. simpl in *. destruct Hr as [(H1 & H2 & H3)|(H1 & H2 & H3)].
  { unfold wp, of_result. rewrite SystemCall_failed by done. split; [done|left]. split; [by eexists|done]. }
  apply wp_of_result with (ret r); [apply SystemCall_ok; lia|]. unfold as_iovecs in *.
  pose proof (Zlen_nonneg (concat buffer)). rewrite views_size_concat by lia.
  assert (s64 (#(concat buffer)) = #(concat buffer)) as -> by (unfold s64; rewrite u64_id by lia; case_if; lia).
  case_if.
  { apply andb_prop in Heqb as [E1%Z.eqb_eq E2%negb_true_iff]. apply Z.eqb_neq in E2. wp_step. split; [done|right].
    split; [done|]. split; [unfold log; cbn [kernel]; by rewrite H3, E1|]. intros Hw%Hwh. lia. }
  case_if; [lia|]. wp_steps. apply wp_update. wp_step.
  pose proof (views_remove_prefix_spec (ret r) buffer ltac:(lia)) as Hv.
  rewrite (proj2 (Z.leb_le _ _)) in Hv by lia. destruct Hv as (buffer' & E & Hd).
  apply wp_of_result with buffer'; [by rewrite u64_id by lia|].
  set (d := take (Z.to_nat (ret r)) (concat buffer)) in *.
  assert (#d = ret r) as Hdl by (unfold d; rewrite Zlen_take by lia; lia).
  rewrite views_size_concat by (rewrite Hd, Zlen_drop by lia; lia). rewrite Hd.
  assert (concat buffer = d ++ drop (Z.to_nat (ret r)) (concat buffer)) as Hcat by (unfold d; by rewrite take_drop).
  assert (#(drop (Z.to_nat (ret r)) (concat buffer)) = #(concat buffer) - ret r) as Hl
    by (rewrite Zlen_drop by lia; lia). rewrite u64_id by lia.
  case_if; wp_step; exists d, (drop (Z.to_nat (ret r)) (concat buffer)); (split; [exact Hcat|]);
    (split; [intros Hw%Hwh; apply Zlen_zero; lia|]); (split; [exact H3|]); (split; [done|]).
  - apply andb_prop in Heqb1 as [-> E2%negb_true_iff]. apply Z.eqb_neq in E2.
    split_and!; [done|done|intros E3; rewrite E3, Zlen_nil in *; lia| |lia].
    intros E3. rewrite E3, Zlen_nil in *. apply andb_false_iff in Heqb as [?|Hz%negb_false_iff]; lia.
  - split; [lia|]. intros ->. apply Zlen_zero. simpl in Heqb1. lia.
Qed.

(** [write] without [write_all]: one call, which takes a prefix. *)
Lemma fd_write_some h buffer m :
  #(concat buffer) < 9223372036854775808 ->
  wp (fd_write h buffer false)
    (fun n m' => exists d rest, concat buffer = d ++ rest /\ n = #d /\
       log m' = log m ++ [Sent (fd_num h m) d] /\ heap m' = alter (after_writes 1) h (heap m))
    (fun e m' => heap m' = heap m /\
       (sys_error e /\ log m' = log m \/ e = write_zero /\ log m' = log m ++ [Sent (fd_num h m) []])) m.
Proof.
  intros Hb. unfold fd_write. cbn [iterate]. wp_step. eapply wp_mono; [apply write_turn_spec; lia| |].
  2: { intros e m' [He [?|(? & ? & _)]]; auto. }
  intros [[b t]|n] m' (d & rest & H1 & _ & H2 & H3 & H4); [by destruct H4|]. apply wp_ret.
  exists d, rest. destruct H4. by split_and!.
Qed.

(** The calls of a complete write: pieces that make up the data. *)
Definition sends_all (h : FileDescriptor) (data : bytes) (m m' : machine K) : Prop :=
  exists parts, concat parts = data /\ log m' = log m ++ map (Sent (fd_num h m)) parts /\
    heap m' = alter (after_writes (length parts)) h (heap m).

Lemma after_writes_app i j w : after_writes i (after_writes j w) = after_writes (j + i) w.
Proof. unfold after_writes. simpl. f_equal. words_lia. Qed.

Lemma sends_all_one h d m m' :
  log m' = log m ++ [Sent (fd_num h m) d] -> heap m' = alter (after_writes 1) h (heap m) -> sends_all h d m m'.
Proof. intros. exists [d]. simpl. by rewrite app_nil_r. Qed.

Lemma fd_num_alter f h h' m m' :
  (forall w, _fd (f w) = _fd w) -> heap m' = alter f h' (heap m) -> fd_num h m' = fd_num h m.
Proof.
  intros Hf E. unfold fd_num, wrapper. rewrite E, list_lookup_alter.
  destruct (decide (h' = h)) as [->|]; [|done]. destruct (heap m !! h); [apply Hf|done].
Qed.

Lemma touches_trans h m1 m2 m3 : touches h m1 m2 -> touches h m2 m3 -> touches h m1 m3.
Proof.
  intros [(e1 & L1 & F1) (f1 & H1 & G1)] [(e2 & L2 & F2) (f2 & H2 & G2)].
  rewrite (fd_num_alter f1 h h m1 m2) in F2 by done. split.
  - exists (e1 ++ e2). rewrite L2, L1, app_assoc. split; [done|]. by apply Forall_app.
  - exists (f2 ∘ f1). rewrite H2, H1, list_alter_alter_eq. split; [done|]. intros w. simpl. by rewrite G2.
Qed.

Lemma touches_one h f m m' e :
  log m' = log m ++ [e] -> event_fd e = fd_num h m -> heap m' = alter f h (heap m) ->
  (forall w, _fd (f w) = _fd w) -> touches h m m'.
Proof. intros ? ? ? ?. split; [exists [e]; split; [done|by repeat constructor]|by exists f]. Qed.

Lemma touches_silent h m m' : log m' = log m -> heap m' = heap m -> touches h m m'.
Proof.
  intros E1 E2. destruct (touches_refl h m) as [(es & L & F) (f & HH & G)].
  split; [exists es; by rewrite E1|exists f; by rewrite E2].
Qed.

(** A call that has sent data but left the object as it was. *)
Lemma touches_sent h m m' e :
  log m' = log m ++ [e] -> event_fd e = fd_num h m -> heap m' = heap m -> touches h m m'.
Proof.
  intros ? ? E. eapply (touches_one h id); [done..| |done]. rewrite E. symmetry. by apply list_alter_id.
Qed.

Lemma sends_all_app h d d' m m' m'' : sends_all h d m m' -> sends_all h d' m' m'' -> sends_all h (d ++ d') m m''.
Proof.
  intros (p1 & <- & L1 & H1) (p2 & <- & L2 & H2). exists (p1 ++ p2).
  rewrite (fd_num_alter (after_writes (length p1)) h h m m') in L2 by done.
  rewrite concat_app, map_app, L2, L1, H2, H1, list_alter_alter_eq, app_assoc, length_app. split_and!; try done.
  apply list_alter_ext; [|done]. intros w _. apply after_writes_app.
Qed.

(** Data sent before an error: a prefix. *)
Definition sends_prefix (h : FileDescriptor) (data : bytes) (m m' : machine K) : Prop :=
  touches h m m' /\
  exists parts rest, concat parts ++ rest = data /\ log m' = log m ++ map (Sent (fd_num h m)) parts.

Lemma sends_all_touches h d m m' : sends_all h d m m' -> touches h m m'.
Proof.
  intros (parts & _ & L & HH). split; [|by eexists]. eexists; split; [done|].
  apply Forall_map, Forall_true. done.
Qed.

Lemma sends_prefix_app h d d' m m' m'' : sends_all h d m m' -> sends_prefix h d' m' m'' -> sends_prefix h (d ++ d') m m''.
Proof.
  intros Hs [Ht (p2 & rest & <- & L2)]. split; [eapply touches_trans; [by eapply sends_all_touches|done]|].
  destruct Hs as (p1 & <- & L1 & H1). exists (p1 ++ p2), rest.
  rewrite (fd_num_alter (after_writes (length p1)) h h m m') in L2 by done.
  by rewrite concat_app, map_app, L2, L1, !app_assoc.
Qed.

Definition write_error (e : exn) : Prop := sys_error e \/ e = write_zero.

Lemma write_loop_spec h fuel : forall buffer total m,
  (length (concat buffer) < fuel)%nat -> #(concat buffer) < 9223372036854775808 ->
  0 <= total -> total + #(concat buffer) < 18446744073709551616 ->
  wp (iterate fuel (write_turn h true) (buffer, total))
    (fun n m' => n = total + #(concat buffer) /\ sends_all h (concat buffer) m m' /\
       (writev_whole K (fd_num h m) -> log m' = log m ++ [Sent (fd_num h m) (concat buffer)]))
    (fun e m' => write_error e /\ sends_prefix h (concat buffer) m m' /\
       (writev_whole K (fd_num h m) -> log m' = log m)) m.
Proof.
  induction fuel as [|fuel IH]; intros buffer total m Hf Hb Ht Htb; [lia|].
  cbn [iterate]. wp_step. eapply wp_mono; [by apply write_turn_spec|..].
  - intros [[b t]|n] m' (d & rest & E1 & Hw & H2 & H3 & H4); rewrite E1 in Hf, Hb, Htb |- *.
    + destruct H4 as (_ & <- & Hr & Hd & ->). rewrite length_app in Hf. rewrite Zlen_app in Hb, Htb.
      assert (0 < length d)%nat by (destruct d; [done|simpl; lia]). pose proof (Zlen_nonneg d).
      pose proof (sends_all_one h d m m' H2 H3) as Hs.
      eapply wp_mono; [apply IH; lia|simpl..].
      * intros n m'' (-> & Hs' & _). split_and!; [rewrite Zlen_app; lia|by apply sends_all_app with m'|by intros ?%Hw].
      * intros e m'' (He & Hp & _). split_and!; [done|by apply sends_prefix_app with m'|by intros ?%Hw].
    + apply wp_ret. destruct H4 as [-> Hr]. rewrite (Hr eq_refl), app_nil_r. split_and!; [done|by apply sends_all_one|done].
  - intros e m' [Hh [[He Hl]|(-> & Hl & Hw)]].
    + split_and!; [by left| |done]. split; [by apply touches_silent|]. exists [], (concat buffer). by rewrite Hl, app_nil_r.
    + split_and!; [by right| |done]. split; [by eapply touches_sent|]. by exists [[]], (concat buffer).
Qed.

(** [write] with [write_all] sends everything. *)
Lemma fd_write_all h buffer m :
  #(concat buffer) < 9223372036854775808 ->
  wp (fd_write h buffer true)
    (fun n m' => n = #(concat buffer) /\ sends_all h (concat buffer) m m' /\
       (writev_whole K (fd_num h m) -> log m' = log m ++ [Sent (fd_num h m) (concat buffer)]))
    (fun e m' => write_error e /\ sends_prefix h (concat buffer) m m' /\
       (writev_whole K (fd_num h m) -> log m' = log m)) m.
Proof.
  intros Hb. unfold fd_write. rewrite views_size_concat by lia.
  apply write_loop_spec; unfold Zlen in *; lia.
Qed.
End laws.

(** ** Properties *)

Lemma sent_map fd parts : sent fd (map (Sent fd) parts) = concat parts.
Proof.
  unfold sent. induction parts as [|d parts IH]; [done|]. simpl. by rewrite IH, Z.eqb_refl.
Qed.

(** C20: A complete write sends everything. For every kernel that keeps its promises and however
    little each call accepts, [write] with [write_all] ends. If it returns, the data has been
    sent in order and its length is the result; if it throws, because a call has failed or has
    accepted nothing, a prefix of the data has been sent. *)
Theorem write_all_sends {K} `{KernelLaws K} h buffer (m : machine K) :
  #(concat buffer) < 9223372036854775808 ->
  let fd := fd_num h m in
  match fd_write h buffer true m with
  | (Ok n, m') => n = #(concat buffer) /\ sent fd (log m') = sent fd (log m) ++ concat buffer
  | (Throw e, m') => write_error e /\
      exists done rest, concat buffer = done ++ rest /\ sent fd (log m') = sent fd (log m) ++ done
  | (Diverge, _) => False
  end.
Proof.
  intros Hb fd. pose proof (fd_write_all h buffer m Hb) as HW. unfold wp in HW.
  destruct (fd_write h buffer true m) as [[n|e|] m']; [| |done].
  - destruct HW as (-> & (parts & <- & L & _) & _). by rewrite L, sent_app, sent_map.
  - destruct HW as (He & (_ & parts & rest & <- & L) & _). split; [done|]. exists (concat parts), rest.
    by rewrite L, sent_app, sent_map.
Qed.

Lemma write_all_sends_witness :
  fd_write 0 [[x01; x02]; [x03; x04; x05]] true (mkMachine (mkSim [] 2 [] 0 []) [mkFDWrapper 7 false false 0 0 1]) =
    (Ok 5, mkMachine (mkSim [] 2 [] 0 [Sent 7 [x01; x02]; Sent 7 [x03; x04]; Sent 7 [x05]])
             [mkFDWrapper 7 false false 0 3 1]) /\
  sent 7 [Sent 7 [x01; x02]; Sent 7 [x03; x04]; Sent 7 [x05]] = sent 7 [] ++ [x01; x02; x03; x04; x05].
Proof.
  split; [by vm_compute|].
  exact (proj2 (write_all_sends 0 [[x01; x02]; [x03; x04; x05]]
    (mkMachine (mkSim [] 2 [] 0 []) [mkFDWrapper 7 false false 0 0 1]) ltac:(by_compute))).
Defined.

(** A read returns what the descriptor delivers. [read] ends; it returns at most [limit]
    bytes and at most a megabyte, those that the kernel has delivered, counts the read and marks the descriptor as at its
    end exactly if bytes were asked for and none came; if the call fails it throws the error and
    nothing changes. *)
Theorem read_delivers {K} `{KernelLaws K} h limit (m : machine K) :
  0 <= limit ->
  match fd_read h limit m with
  | (Ok d, m') => #d <= Z.min BUFFER_SIZE limit /\ log m' = log m ++ [Received (fd_num h m) d] /\
      heap m' = alter (after_read ((limit >? 0) && bool_decide (d = []))) h (heap m)
  | (Throw e, m') => sys_error e /\ log m' = log m /\ heap m' = heap m
  | (Diverge, _) => False
  end.
Proof.
  intros Hl. pose proof (fd_read_spec h limit m Hl) as HW. unfold wp in HW. by destruct (fd_read h limit m) as [[]].
Qed.

Lemma read_delivers_witness :
  let m := mkMachine (mkSim [(7, inl [x01; x02; x03])] 2 [] 0 []) [mkFDWrapper 7 false false 0 0 1] in
  match fd_read 0 2 m with
  | (Ok d, m') => d = [x01; x02] /\ log m' = log m ++ [Received (fd_num 0 m) d]
  | _ => False
  end.
Proof.
  intros m. split; [done|]. exact (proj1 (proj2 (read_delivers 0 2 m ltac:(lia)))).
Defined.

(** A copy of a descriptor shares its object. Releasing a copy that [duplicate] has made
    leaves everything as it was; only the last release closes the descriptor. *)
Theorem duplicate_release {K} `{KernelLaws K} h (m : machine K) :
  (0 < use_count (wrapper h m))%nat -> (h < length (heap m))%nat ->
  (c ← duplicate h; release c) m = (Ok tt, m) /\
  (use_count (wrapper h m) = 1%nat -> fd_closed h m = false ->
   forall k, sys_close (fd_num h m) (kernel m) = (mkSysret 0 0 tt, k) ->
   release h m = (Ok tt, mkMachine k (alter (fun w => set_closed (set_use_count 0 w)) h (heap m)))).
Proof.
  intros Hu Hh. destruct (lookup_lt_is_Some_2 _ _ Hh) as [w Hw].
  assert (wrapper h m = w) as Ew by (unfold wrapper; by rewrite Hw). rewrite Ew in *. split.
  - unfold duplicate, release, update, modify, gets, mret, io_ret. unfold mbind, io_bind. cbn [kernel heap].
    rewrite wrapper_alter, Ew by done. cbn [use_count set_use_count pred].
    destruct (S (use_count w) <=? 1)%nat eqn:El; [apply Nat.leb_le in El; lia|].
    destruct m as [k hp]. do 2 f_equal. cbn [heap] in *. rewrite list_alter_alter_eq.
    rewrite <- (list_alter_id id hp h) at 2 by done. apply list_alter_ext; [|done]. intros w' Hw'. rewrite Hw in Hw'. injection Hw' as <-. by destruct w.
  - intros E1 Hc k Ek. unfold fd_num, fd_closed in *. rewrite Ew in *.
    unfold release, destroy_wrapper, catch, close, update, modify, gets. unfold mbind, io_bind. cbn [kernel heap].
    rewrite Ew, E1. cbn [Nat.leb pred]. unfold fd_closed, fd_num. rewrite wrapper_alter, Ew by done.
    cbn [set_use_count _closed _fd]. rewrite Hc. unfold system_call, sys. unfold mbind, io_bind. cbn [kernel heap].
    rewrite wrapper_alter, Ew by done. cbn [_fd set_use_count]. rewrite Ek. cbn. by rewrite list_alter_alter_eq.
Qed.

Lemma duplicate_release_witness :
  let m := mkMachine (mkSim [] 2 [] 0 []) [mkFDWrapper 7 false false 3 4 1] in
  (c ← duplicate 0; release c) m = (Ok tt, m) /\
  release 0 m = (Ok tt, mkMachine (kernel m) [mkFDWrapper 7 true true 3 4 0]).
Proof.
  intros m. destruct (duplicate_release 0 m ltac:(simpl; lia) ltac:(simpl; lia)) as [H1 H2].
  split; [exact H1|]. exact (H2 eq_refl eq_refl (kernel m) eq_refl).
Defined.
