(* ===== verification/EventLoop.v ===== *)
(** * The event loop (src/libsponge/util/eventloop.hh, eventloop.cc)

    A list of rules, each with a descriptor, a direction and three functions; [wait_next_event]
    drops the rules that are over, polls the descriptors of the interested ones and calls back
    those that are ready. The functions of a rule work on the state of the machine and the state
    [S] of the program that made the rule; the list of rules is only changed by the loop. *)

From stdpp Require Import strings.
From S2P Require Import Prelude IO Parser Kernel SimKernel FileDescriptor.

(** ** Definitions *)

Inductive Direction := In | Out.
#[global] Instance direction_eq_dec : EqDecision Direction.
Proof. solve_decision. Defined.

(** The value of the enumerator. *)
Definition direction_events (d : Direction) : Z :=
  match d with
  | In => POLLIN
  | Out => POLLOUT
  end.

Inductive Result := Success | Timeout | Exit.
#[global] Instance result_eq_dec : EqDecision Result.
Proof. solve_decision. Defined.

Section eventloop.
Context {K : Type} `{Kernel K} {S : Type}.

(** The state that the functions of a rule work on. *)
Abbreviation world := (machine K * S)%type (only parsing).

Record Rule := mkRule {
  rule_fd : FileDescriptor;
  direction : Direction;
  callback : io world unit;
  interest : world -> bool;
  cancel : io world unit
}.

(** The loop's own state is its list of rules. *)
Abbreviation loop_state := (world * list Rule)%type (only parsing).

Definition service_count (r : Rule) (w : world) : Z :=
  match direction r with
  | In => read_count (rule_fd r) w.1
  | Out => write_count (rule_fd r) w.1
  end.

Definition add_rule (fd : FileDescriptor) (d : Direction) (callback : io world unit)
    (interest : world -> bool) (cancel : io world unit) : io loop_state unit :=
  fd ← on_fst (on_fst (duplicate fd));
  modify (fun s => (s.1, s.2 ++ [mkRule fd d callback interest cancel])).

(** [_rules.erase(it)], which destroys the rule and its descriptor. *)
Definition erase (i : nat) (r : Rule) : io loop_state unit :=
  _ ← modify (fun s => (s.1, delete i s.2));
  on_fst (on_fst (release (rule_fd r))).

(** [~EventLoop] destroys the rules. *)
Definition destroy_rules : io loop_state unit :=
  rules ← gets snd;
  _ ← foldr (fun r rest => _ ← on_fst (on_fst (release (rule_fd r))); rest) (mret tt) rules;
  modify (fun s => (s.1, [])).

Definition cancel_rule (i : nat) (r : Rule) : io loop_state unit :=
  _ ← on_fst (cancel r);
  erase i r.

(** The first loop, from the rule at position [i] on. *)
Fixpoint setup (rules : list Rule) (i : nat) (pollfds : list pollfd) (something_to_poll : bool)
  : io loop_state (list pollfd * bool) :=
  match rules with
  | [] => mret (pollfds, something_to_poll)
  | r :: rules =>
      eof ← gets (fun s => fd_eof (rule_fd r) s.1.1);
      if bool_decide (direction r = In) && (eof : bool) then
        _ ← cancel_rule i r; setup rules i pollfds something_to_poll
      else
      closed ← gets (fun s => fd_closed (rule_fd r) s.1.1);
      if (closed : bool) then
        _ ← cancel_rule i r; setup rules i pollfds something_to_poll
      else
      interested ← gets (fun s => interest r s.1);
      fd ← gets (fun s => fd_num (rule_fd r) s.1.1);
      if (interested : bool) then
        setup rules (i + 1) (pollfds ++ [mkPollfd fd (direction_events (direction r)) 0]) true
      else setup rules (i + 1) (pollfds ++ [mkPollfd fd 0 0]) something_to_poll
  end.

Definition poll_failed : exn := runtime_error_of "EventLoop: error on polled file descriptor".
Definition busy_wait : exn :=
  runtime_error_of "EventLoop: busy wait detected: callback did not read/write fd and is still interested".

(** The second loop, from the rule at position [i] on. *)
Fixpoint dispatch (rules : list Rule) (pollfds : list pollfd) (i : nat) : io loop_state unit :=
  match rules, pollfds with
  | r :: rules, p :: pollfds =>
      let poll_error := flag (poll_revents p) (Z.lor POLLERR POLLNVAL) in
      if poll_error then throw poll_failed
      else
        let poll_ready := flag (poll_revents p) (poll_events p) in
        let poll_hup := flag (poll_revents p) POLLHUP in
        if poll_hup && negb (poll_events p =? 0) && negb poll_ready then
          _ ← cancel_rule i r; dispatch rules pollfds i
        else
          _ ← when poll_ready (
            count_before ← gets (fun s => service_count r s.1);
            _ ← on_fst (callback r);
            busy ← gets (fun s => (count_before =? service_count r s.1) && interest r s.1);
            if (busy : bool) then throw busy_wait else mret tt);
          dispatch rules pollfds (i + 1)
  | _, _ => mret tt
  end.

(** What poll writes to the array. *)
Definition set_revents (p : pollfd) (revents : Z) : pollfd := mkPollfd (poll_fd p) (poll_events p) revents.
Definition poll_results (pollfds : list pollfd) (r : sysret (list Z)) : list pollfd :=
  if ret r <? 0 then pollfds else zip_with set_revents pollfds (out r).

Definition wait_next_event (timeout_ms : Z) : io loop_state Result :=
  rules ← gets snd;
  s ← setup rules 0 [] false;
  let '(pollfds, something_to_poll) := s in
  if negb something_to_poll then mret Exit
  else
    r ← on_fst (on_fst (sys (sys_poll pollfds timeout_ms)));
    let pollfds := poll_results pollfds r in
    let results :=
      rules ← gets snd;
      _ ← dispatch rules pollfds 0;
      mret Success in
    match SystemCall r 0 with
    | Ok n => if n =? 0 then mret Timeout else results
    | Throw (unix_error e) => if e =? EINTR then mret Exit else results
    | Throw e => throw e
    | Diverge => diverge
    end.
End eventloop.
Arguments Rule K S : clear implicits.

(** ** Invariants *)

Section invariant.
Context {K : Type} `{KernelLaws K} {S : Type}.
Implicit Types (w : machine K * S) (r : Rule K S).

(** [I i] holds after at most [i] calls of the functions of a rule, as long as there are not more
    than [limit]; [E] is what an exception may leave. Polling and releasing descriptors keep the
    invariant. *)
Context (limit : nat) (I : nat -> machine K * S -> Prop) (E : exn -> machine K * S -> Prop).

Definition grows : Prop := forall i j w, (i <= j)%nat -> I i w -> I j w.
Definition kept_by_release : Prop := forall i h m (s : S), I i (m, s) ->
  wp (release h) (fun _ m' => I i (m', s)) (fun e m' => E e (m', s)) m.
Definition kept_by_poll : Prop := forall i fds t w, I i w ->
  I i (mkMachine (sys_poll fds t (kernel w.1)).2 (heap w.1), w.2).

(** A rule whose functions keep the invariant, and whose callback serves the descriptor or loses
    interest. *)
Record rule_ok r : Prop := {
  callback_ok : forall i w, (i < limit)%nat -> I i w -> wp (callback r)
    (fun _ w' => I (i + 1) w' /\ (service_count r w' = service_count r w -> interest r w' = false)) E w;
  cancel_ok : forall i w, (i < limit)%nat -> I i w -> wp (cancel r) (fun _ w' => I (i + 1) w') E w
}.

Context (Hgrows : grows) (Hrelease : kept_by_release) (Hpoll : kept_by_poll).

(** An exception in the loop. *)
Definition loop_error (i : nat) (e : exn) (s : (machine K * S) * list (Rule K S)) : Prop :=
  E e s.1 \/ (e = poll_failed /\ I i s.1).

Lemma loop_error_grows i j e s : (i <= j)%nat -> loop_error i e s -> loop_error j e s.
Proof. intros Hij [He|[He Hi]]; [by left|right]. split; [done|]. by eapply Hgrows. Qed.

Lemma cancel_rule_spec i kept r rest w :
  (i < limit)%nat -> I i w -> rule_ok r ->
  wp (cancel_rule (length kept) r) (fun _ s => I (i + 1) s.1 /\ s.2 = kept ++ rest) (loop_error i) (w, kept ++ r :: rest).
Proof.
  intros Hi Hw Hr. unfold cancel_rule, erase. wp_steps. eapply wp_mono; [by apply (cancel_ok r Hr i)| |by left].
  intros [] [m s] Hw'. wp_steps. cbn [fst snd].
  eapply wp_mono; [by apply (Hrelease (i + 1)%nat (rule_fd r) m s)| |by left].
  intros [] m' Hm'. cbn [fst snd]. by rewrite delete_middle.
Qed.

(** The first loop keeps the invariant and leaves one entry for each rule that is left. *)
Lemma setup_spec rules : forall i kept fds b w,
  (i + length rules <= limit)%nat -> I i w -> Forall rule_ok rules ->
  wp (setup rules (length kept) fds b)
    (fun p s => I (i + length rules) s.1 /\ exists kept' fds', s.2 = kept ++ kept' /\ p.1 = fds ++ fds' /\
       length fds' = length kept' /\ kept' `sublist_of` rules)
    (loop_error (i + length rules)) (w, kept ++ rules).
Proof.
  induction rules as [|r rules IH]; intros i kept fds b w Hi Hw Hr.
  { apply wp_ret. rewrite Nat.add_0_r. split; [done|]. exists [], []. by rewrite !app_nil_r. }
  apply Forall_cons_1 in Hr as [Hr Hrs]. cbn [length] in *.
  assert (wp (_ ← cancel_rule (length kept) r; setup rules (length kept) fds b)
    (fun p s => I (i + Datatypes.S (length rules)) s.1 /\ exists kept' fds', s.2 = kept ++ kept' /\ p.1 = fds ++ fds' /\
       length fds' = length kept' /\ kept' `sublist_of` r :: rules)
    (loop_error (i + Datatypes.S (length rules))) (w, kept ++ r :: rules)) as Hcancel.
  { wp_step. eapply wp_mono; [apply (cancel_rule_spec i); [lia|done..]| |intros e s; apply loop_error_grows; lia].
    intros [] [w' rs] [Hw' E2]. simpl in E2. subst rs.
    eapply wp_mono; [apply (IH (i + 1)%nat); [lia|done..]| |intros e s; apply loop_error_grows; lia].
    intros p s (H1 & k & f & H2 & H3 & H4 & H5). split; [eapply Hgrows; [|exact H1]; lia|].
    exists k, f. split_and!; try done. by constructor. }
  assert (forall fds1 b1, length fds1 = 1%nat ->
    wp (setup rules (length kept + 1) (fds ++ fds1) b1)
    (fun p s => I (i + Datatypes.S (length rules)) s.1 /\ exists kept' fds', s.2 = kept ++ kept' /\ p.1 = fds ++ fds' /\
       length fds' = length kept' /\ kept' `sublist_of` r :: rules)
    (loop_error (i + Datatypes.S (length rules))) (w, kept ++ r :: rules)) as Hkeep.
  { intros fds1 b1 Hl. pose proof (IH i (kept ++ [r]) (fds ++ fds1) b1 w ltac:(lia) Hw Hrs) as IH'.
    rewrite length_app, <- app_assoc in IH'. eapply wp_mono; [exact IH'| |intros e s; apply loop_error_grows; lia].
    intros p s (H1 & k & f & H2 & H3 & H4 & H5). split; [eapply Hgrows; [|exact H1]; lia|]. exists (r :: k), (fds1 ++ f).
    rewrite H2, H3, length_app, <- !app_assoc. split_and!; try done; [simpl; lia|]. by constructor. }
  cbn [setup]. wp_steps. case_if; [exact Hcancel|]. wp_steps. case_if; [exact Hcancel|].
  wp_steps. case_if; by apply Hkeep.
Qed.

(** The second loop keeps the invariant and finds no busy wait. *)
Lemma dispatch_spec rules : forall i kept fds w,
  (i + length rules <= limit)%nat -> I i w -> Forall rule_ok rules ->
  wp (dispatch rules fds (length kept))
    (fun _ s => I (i + length rules) s.1 /\ exists kept', s.2 = kept ++ kept' /\ kept' `sublist_of` rules)
    (loop_error (i + length rules)) (w, kept ++ rules).
Proof.
  induction rules as [|r rules IH]; intros i kept fds w Hi Hw Hr.
  { rewrite Nat.add_0_r. destruct fds; (split; [done|]); exists []; by rewrite !app_nil_r. }
  destruct fds as [|p fds]; [split; [eapply Hgrows; [|exact Hw]; lia|]; by exists (r :: rules)|].
  apply Forall_cons_1 in Hr as [Hr Hrs]. cbn [dispatch length] in *.
  case_if; [wp_step; right; split; [done|]; eapply Hgrows; [|exact Hw]; lia|]. case_if.
  { wp_step. eapply wp_mono; [apply (cancel_rule_spec i); [lia|done..]| |intros e s; apply loop_error_grows; lia].
    intros [] [w' rs] [Hw' E2]. simpl in E2. subst rs.
    eapply wp_mono; [apply (IH (i + 1)%nat); [lia|done..]| |intros e s; apply loop_error_grows; lia].
    intros [] s (H1 & k & H2 & H3). split; [eapply Hgrows; [|exact H1]; lia|]. exists k. split; [done|]. by constructor. }
  assert (forall w', I (i + 1) w' -> wp (dispatch rules fds (length kept + 1))
    (fun _ s => I (i + Datatypes.S (length rules)) s.1 /\
       exists kept', s.2 = kept ++ kept' /\ kept' `sublist_of` r :: rules)
    (loop_error (i + Datatypes.S (length rules))) (w', kept ++ r :: rules)) as Hkeep.
  { intros w' Hw'. pose proof (IH (i + 1)%nat (kept ++ [r]) fds w' ltac:(lia) Hw' Hrs) as IH'.
    rewrite length_app, <- app_assoc in IH'. eapply wp_mono; [exact IH'| |intros e s; apply loop_error_grows; lia].
    intros [] s (H1 & k & H2 & H3). split; [eapply Hgrows; [|exact H1]; lia|]. exists (r :: k). rewrite H2, <- app_assoc.
    split; [done|]. by constructor. }
  wp_step. apply wp_when; intros Hp; [|apply Hkeep; eapply Hgrows; [|exact Hw]; lia]. wp_steps.
  eapply wp_mono; [apply (callback_ok r Hr i); [lia|done]| |by left]. intros [] w' [Hw' Hs]. wp_steps.
  cbn [fst snd] in *. rewrite (Z.eqb_sym (service_count r w)).
  destruct (service_count r w' =? service_count r w) eqn:Ec; cbn [andb]; [|apply wp_ret; by apply Hkeep].
  rewrite Hs by lia. apply wp_ret. by apply Hkeep.
Qed.

Lemma wait_next_event_spec i t rules w :
  (i + 2 * length rules <= limit)%nat -> I i w -> Forall rule_ok rules ->
  wp (wait_next_event t) (fun _ s => I (i + 2 * length rules) s.1 /\ s.2 `sublist_of` rules)
    (loop_error (i + 2 * length rules)) (w, rules).
Proof.
  intros Hi Hw Hr. unfold wait_next_event. wp_steps.
  eapply wp_mono; [apply (setup_spec rules i []); [lia|done..]| |intros e s; apply loop_error_grows; lia].
  intros [fds b] [w1 rs] (H1 & k & f & H2 & H3 & H4 & H5). simpl in H2, H3, H1. subst rs fds.
  pose proof (sublist_length _ _ H5) as Hlen.
  assert (forall w, I (i + length rules) w -> I (i + 2 * length rules) w) as Hup
    by (intros w'; apply Hgrows; lia).
  destruct b; cbn [negb]; [|apply wp_ret; split; [by apply Hup|done]]. wp_steps. apply wp_sys. cbn [fst snd].
  pose proof (Hpoll _ f t w1 H1) as Hw2. set (w2 := (_, _)) in *.
  assert (Forall rule_ok k) as Hk by (by eapply Forall_sublist).
  assert (wp (rules ← gets snd; _ ← dispatch rules (poll_results f (sys_poll f t (kernel w1.1)).1) 0; mret Success)
    (fun _ s => I (i + 2 * length rules) s.1 /\ s.2 `sublist_of` rules) (loop_error (i + 2 * length rules)) (w2, k)) as Hres.
  { wp_steps. eapply wp_mono; [apply (dispatch_spec k (i + length rules) []); [lia|done..]| |intros e s; apply loop_error_grows; lia].
    intros [] s (G1 & k' & G2 & G3). wp_step. split; [eapply Hgrows; [|exact G1]; lia|]. simpl in G2. rewrite G2. by etrans. }
  destruct (SystemCall _ _) as [n|e|] eqn:Es; [case_if; [apply wp_ret; by split; [apply Hup|]|exact Hres]| |].
  - unfold SystemCall in Es. case_if_in Es; [done|]. injection Es as <-.
    case_if; [apply wp_ret; by split; [apply Hup|]|exact Hres].
  - unfold SystemCall in Es. by case_if_in Es.
Qed.
End invariant.

(** ** A turn in which no rule is over *)

Section turn.
Context {K : Type} `{KernelLaws K} {S : Type}.
Implicit Types (w : machine K * S) (r : Rule K S).

(** A rule that the first loop keeps, and the entry it gets. *)
Definition live w r : Prop :=
  bool_decide (direction r = In) && fd_eof (rule_fd r) w.1 = false /\ fd_closed (rule_fd r) w.1 = false.
Definition poll_entry w r : pollfd :=
  mkPollfd (fd_num (rule_fd r) w.1) (if interest r w then direction_events (direction r) else 0) 0.

Lemma setup_live w rs rules : forall i fds b,
  Forall (live w) rules ->
  setup rules i fds b (w, rs) =
    (Ok (fds ++ map (poll_entry w) rules, b || existsb (fun r => interest r w) rules), (w, rs)).
Proof.
  induction rules as [|r rules IH]; intros i fds b Hl.
  { simpl. by rewrite app_nil_r, orb_false_r. }
  apply Forall_cons_1 in Hl as [[H1 H2] Hl]. cbn [setup map existsb].
  unfold mbind, io_bind at 1, gets. cbn [fst snd]. rewrite H1. unfold io_bind at 1. cbn [fst snd]. rewrite H2.
  unfold io_bind. cbn [fst snd]. unfold poll_entry at 1.
  destruct (interest r w); rewrite IH by done; rewrite <- app_assoc; cbn [app orb]; by rewrite ?orb_true_r.
Qed.

(** Nothing is done for descriptors without events. *)
Lemma dispatch_quiet rules : forall fds i s,
  Forall (fun p => poll_revents p = 0) fds -> dispatch (S := S) rules fds i s = (Ok tt, s).
Proof.
  induction rules as [|r rules IH]; intros [|p fds] i s Hf; try done.
  apply Forall_cons_1 in Hf as [Hp Hf]. cbn [dispatch]. rewrite Hp.
  unfold flag. rewrite !Z.land_0_l. cbn. unfold mbind, io_bind, when, mret, io_ret. by apply IH.
Qed.

(** The descriptor of the first rule is ready, and the callback serves it or loses interest. *)
Lemma wp_dispatch_ready r rules p fds i w rs (Q : unit -> (machine K * S) * list (Rule K S) -> Prop)
    (E : exn -> (machine K * S) * list (Rule K S) -> Prop) :
  flag (poll_revents p) (Z.lor POLLERR POLLNVAL) = false -> flag (poll_revents p) (poll_events p) = true ->
  wp (callback r) (fun _ w' => (service_count r w =? service_count r w') && interest r w' = false /\
    wp (dispatch rules fds (i + 1)) Q E (w', rs)) (fun e w' => E e (w', rs)) w ->
  wp (dispatch (r :: rules) (p :: fds) i) Q E (w, rs).
Proof.
  intros H1 H2 HC. cbn [dispatch]. rewrite H1, H2, andb_false_r. wp_step. apply wp_when; [intros _|done]. wp_steps. cbn [fst snd].
  eapply wp_mono; [exact HC| |done]. intros [] w' [Hb HD]. wp_steps. cbn [fst snd]. rewrite Hb. by wp_step.
Qed.

(** The turn up to the call of poll. *)
Lemma wait_next_event_live t rules w :
  Forall (live w) rules -> existsb (fun r => interest r w) rules = true ->
  let '(r, k) := sys_poll (map (poll_entry w) rules) t (kernel w.1) in
  let s := ((mkMachine k (heap w.1), w.2), rules) in
  wait_next_event t (w, rules) =
    match SystemCall r 0 with
    | Ok n => if n =? 0 then (Ok Timeout, s)
              else (_ ← dispatch rules (poll_results (map (poll_entry w) rules) r) 0; mret Success) s
    | Throw (unix_error e) =>
        if e =? EINTR then (Ok Exit, s)
        else (_ ← dispatch rules (poll_results (map (poll_entry w) rules) r) 0; mret Success) s
    | Throw e => (Throw e, s)
    | Diverge => (Diverge, s)
    end.
Proof.
  intros Hl Hi. destruct (sys_poll _ _ _) as [r k] eqn:Ep. cbv zeta.
  unfold wait_next_event. unfold mbind at 1, io_bind at 1, gets. cbn [fst snd].
  unfold mbind at 1, io_bind at 1. rewrite setup_live by done. rewrite Hi. cbn [orb app negb].
  unfold mbind at 1, io_bind at 1, on_fst, zoom, sys. cbn [fst snd]. rewrite Ep. cbn [fst snd].
  destruct (SystemCall r 0) as [n|[]|]; try done; by case_if.
Qed.
End turn.

(** ** Properties *)

(** C19: The event loop keeps what its rules keep. If the functions of every rule keep an invariant,
    which may count their calls up to a limit, as do polls and the release of a descriptor, and every
    callback reads or writes its descriptor or loses interest, then a turn of the loop ends, with
    the invariant after at most two calls for each rule, and with some of the rules in their
    order; it throws only what a rule throws, or that poll has reported an error on a
    descriptor; it never reports a busy wait of its own. *)
Theorem event_loop_safe {K} `{KernelLaws K} {S : Type} limit (I : nat -> machine K * S -> Prop)
    (E : exn -> machine K * S -> Prop) i t (rules : list (Rule K S)) w :
  grows I -> kept_by_release I E -> kept_by_poll I -> Forall (rule_ok limit I E) rules ->
  (i + 2 * length rules <= limit)%nat -> I i w ->
  match wait_next_event t (w, rules) with
  | (Ok _, (w', rules')) => I (i + 2 * length rules)%nat w' /\ rules' `sublist_of` rules
  | (Throw e, (w', _)) => E e w' \/ (e = poll_failed /\ I (i + 2 * length rules)%nat w')
  | (Diverge, _) => False
  end.
Proof.
  intros Hg Hr Hp Hok Hi Hw. pose proof (wait_next_event_spec limit I E Hg Hr Hp i t rules w Hi Hw Hok) as HW.
  unfold wp in HW. by destruct (wait_next_event t (w, rules)) as [[] []].
Qed.

(** An error of poll is lost. When poll fails, a turn in which no rule is over returns Exit
    after an interruption by a signal, and Success after any other error, without having called
    any rule back; nothing is thrown. *)
Theorem poll_error_ignored {K} `{KernelLaws K} {S : Type} t (rules : list (Rule K S)) w r k :
  Forall (live w) rules -> existsb (fun r => interest r w) rules = true ->
  sys_poll (map (poll_entry w) rules) t (kernel w.1) = (r, k) -> ret r = -1 -> 0 < errno r ->
  wait_next_event t (w, rules) =
    (Ok (if errno r =? EINTR then Exit else Success), ((mkMachine k (heap w.1), w.2), rules)).
Proof.
  intros Hl Hi Ep Hr He. pose proof (wait_next_event_live t rules w Hl Hi) as HW. rewrite Ep in HW.
  rewrite HW, SystemCall_failed by done. case_if; [done|]. unfold poll_results. rewrite Hr. cbn [Z.ltb Z.compare].
  unfold mbind, io_bind. rewrite dispatch_quiet; [done|]. apply Forall_map, Forall_true. done.
Qed.

(** A busy wait is detected. If the first rule is interested and ready, and its callback returns
    without having read or written the descriptor and still interested, the turn throws. *)
Theorem busy_wait_detected {K} `{KernelLaws K} {S : Type} t (r : Rule K S) rules w res k revents rest w' :
  Forall (live w) (r :: rules) -> interest r w = true ->
  sys_poll (map (poll_entry w) (r :: rules)) t (kernel w.1) = (res, k) ->
  0 < ret res < 2147483648 -> out res = revents :: rest ->
  flag revents (direction_events (direction r)) = true -> flag revents (Z.lor POLLERR POLLNVAL) = false ->
  callback r (mkMachine k (heap w.1), w.2) = (Ok tt, w') ->
  service_count r w' = service_count r (mkMachine k (heap w.1), w.2) -> interest r w' = true ->
  wait_next_event t (w, r :: rules) = (Throw busy_wait, (w', r :: rules)).
Proof.
  intros Hl Hi Ep Hr Ho Hready Herr Hc Hs Hi'.
  pose proof (wait_next_event_live t (r :: rules) w Hl) as HW. cbn [existsb] in HW. rewrite Hi in HW.
  specialize (HW eq_refl). rewrite Ep in HW. rewrite HW, SystemCall_ok by lia. case_if; [lia|].
  unfold poll_results. rewrite (proj2 (Z.ltb_ge _ _)), Ho by lia. cbn [map zip_with dispatch].
  assert (poll_events (set_revents (poll_entry w r) revents) = direction_events (direction r)) as -> by (simpl; by rewrite Hi).
  change (poll_revents (set_revents (poll_entry w r) revents)) with revents. rewrite Herr, Hready.
  rewrite andb_false_r. unfold mbind, io_bind, when, gets, on_fst, zoom. cbn [fst snd].
  rewrite Hc. cbn [fst snd]. by rewrite Hs, Z.eqb_refl, Hi'.
Qed.

(** ** Runs *)

(** A rule that collects what descriptor 5 delivers. *)
Definition collect_rule : Rule sim bytes := mkRule 0 In
  (d ← on_fst (fd_read 0 100); modify (fun w => (w.1, w.2 ++ d))) (fun _ => true) (mret tt).
Definition collect_inv (w : machine sim * bytes) : Prop :=
  heap w.1 !! 0%nat <> None /\ fd_num 0 w.1 = 5 /\ received 5 (log w.1) = w.2.
(** A rule whose callback does nothing. *)
Definition idle_rule : Rule sim bytes := mkRule 0 In (mret tt) (fun _ => true) (mret tt).

Definition collect_machine (l : list bytes) (errors : list Z) : machine sim :=
  mkMachine (mkSim (map (fun d => (5, inl d)) l) 10 errors 0 []) [mkFDWrapper 5 false false 0 0 2].

Lemma collect_kept_by_release : kept_by_release (fun _ => collect_inv) (fun e w => sys_error e /\ collect_inv w).
Proof.
  intros i h m s (H1 & H2 & H3). cbn [fst snd] in *. eapply wp_mono; [apply release_spec| |done].
  intros [] m' [L (f & Hh & Hf)]. split_and!; cbn [fst snd]; [|rewrite <- H2; by eapply fd_num_alter|by rewrite L].
  rewrite Hh, list_lookup_alter. destruct (decide _) as [->|]; [|done]. by destruct (heap m !! 0%nat).
Qed.

Lemma collect_rule_ok : rule_ok 2 (fun _ => collect_inv) (fun e w => sys_error e /\ collect_inv w) collect_rule.
Proof.
  split; [|done]. intros i [m s] _ (H1 & H2 & H3). cbn [callback collect_rule fst snd] in *. wp_steps.
  eapply wp_mono; [by apply (fd_read_spec 0 100)| |].
  - intros d m' (Hd & Hl & Hh). wp_step. cbn [fst snd] in *. split; [split_and!|].
    + cbn [fst]. rewrite Hh, list_lookup_alter_eq. by destruct (heap m !! 0%nat).
    + rewrite <- H2. eapply fd_num_alter; [|exact Hh]; done.
    + cbn [fst snd]. rewrite Hl, received_app, H3, received_one, H2. done.
    + unfold service_count, collect_rule. cbn [direction rule_fd fst]. unfold read_count.
      destruct m' as [k' hp]. cbn [heap] in Hh. subst hp. rewrite wrapper_alter.
      * intros E. by destruct (u32_succ_ne (_read_count (wrapper 0 m))).
      * apply lookup_lt_is_Some_1. destruct (heap m !! 0%nat); [done|by destruct H1].
  - intros e m' (He & Hl & Hh). split; [done|]. unfold collect_inv, fd_num, wrapper, log in *. cbn [fst snd] in *.
    by rewrite Hl, Hh.
Qed.

Lemma event_loop_safe_witness :
  match wait_next_event 10 ((collect_machine [[x01; x02]] [], []), [collect_rule]) with
  | (Ok _, (w', rules')) => collect_inv w' /\ rules' `sublist_of` [collect_rule]
  | (Throw e, (w', _)) => (sys_error e /\ collect_inv w') \/ (e = poll_failed /\ collect_inv w')
  | (Diverge, _) => False
  end.
Proof.
  apply (event_loop_safe 2 (fun _ => collect_inv) (fun e w => sys_error e /\ collect_inv w) 0).
  - intros i j w _ Hw. exact Hw.
  - exact collect_kept_by_release.
  - intros i fds t [m s] Hw. unfold collect_inv, log in *. cbn [fst snd kernel heap] in *.
    by rewrite (poll_quiet (K := sim) fds t (kernel m)).
  - constructor; [exact collect_rule_ok|constructor].
  - simpl. lia.
  - split_and!; by vm_compute.
Defined.

Lemma poll_error_ignored_witness :
  wait_next_event 10 ((collect_machine [[x01]] [22], []), [collect_rule]) =
    (Ok Success, ((collect_machine [[x01]] [], []), [collect_rule])).
Proof.
  apply (poll_error_ignored 10 [collect_rule] (collect_machine [[x01]] [22], [])
    (mkSysret (-1) 22 [0]) (kernel (collect_machine [[x01]] []))); [|done..].
  repeat constructor.
Defined.

Lemma busy_wait_detected_witness :
  wait_next_event 10 ((collect_machine [[x01]] [], []), [idle_rule]) =
    (Throw busy_wait, ((collect_machine [[x01]] [], []), [idle_rule])).
Proof.
  apply (busy_wait_detected 10 idle_rule [] (collect_machine [[x01]] [], []) (mkSysret 1 0 [POLLIN])
    (kernel (collect_machine [[x01]] [])) POLLIN []); [|done..].
  repeat constructor.
Defined.
