(* ===== verification/Socket.v ===== *)
(** * Sockets (src/libsponge/util/socket.hh, socket.cc)

    A [Socket] is a FileDescriptor; the subclasses differ in the domain and type they are made
    with. *)

From S2P Require Import Prelude IO Buffer Parser Address Kernel FileDescriptor.

Section socket.
Context {K : Type} `{Kernel K}.

(** ** Socket *)

Definition Socket_new (domain type : Z) : io (machine K) FileDescriptor :=
  fd ← system_call (sys_socket domain type);
  FileDescriptor_of fd.

(** [sizeof(int)]. *)
Definition sizeof_int : Z := 4.

(** The constructor from a descriptor checks its domain and type; if it throws, its base object,
    the descriptor, is destroyed. *)
Definition Socket_check (h : FileDescriptor) (domain type : Z) : io (machine K) FileDescriptor :=
  fd ← gets (fd_num h);
  r ← sys (sys_getsockopt fd SOL_SOCKET SO_DOMAIN);
  _ ← of_result (SystemCall r 0);
  let '(actual_value, len) := out r in
  if negb (len =? sizeof_int) || negb (actual_value =? domain) then throw runtime_error
  else
    fd ← gets (fd_num h);
    r ← sys (sys_getsockopt fd SOL_SOCKET SO_TYPE);
    _ ← of_result (SystemCall r 0);
    let '(actual_value, len) := out r in
    if negb (len =? sizeof_int) || negb (actual_value =? type) then throw runtime_error
    else mret h.

Definition Socket_of (h : FileDescriptor) (domain type : Z) : io (machine K) FileDescriptor :=
  unwinding (Socket_check h domain type) (release h).

(** [Address(address, size)] of what the call wrote. *)
Definition get_address (call : Z -> Z -> K -> sysret (bytes * Z) * K) (h : FileDescriptor) : io (machine K) Address :=
  fd ← gets (fd_num h);
  r ← sys (call fd sizeof_storage);
  _ ← of_result (SystemCall r 0);
  let '(address, size) := out r in
  of_result (Address_of_sockaddr address size).

Definition local_address (h : FileDescriptor) : io (machine K) Address := get_address sys_getsockname h.
Definition peer_address (h : FileDescriptor) : io (machine K) Address := get_address sys_getpeername h.

Definition bind (h : FileDescriptor) (a : Address) : io (machine K) unit :=
  fd ← gets (fd_num h);
  _ ← system_call (sys_bind fd (_address a) (_size a));
  mret tt.

Definition socket_connect (h : FileDescriptor) (a : Address) : io (machine K) unit :=
  fd ← gets (fd_num h);
  _ ← system_call (sys_connect fd (_address a) (_size a));
  mret tt.

Definition shutdown (h : FileDescriptor) (how : Z) : io (machine K) unit :=
  fd ← gets (fd_num h);
  _ ← system_call (sys_shutdown fd how);
  if how =? SHUT_RD then register_read h
  else if how =? SHUT_WR then register_write h
  else if how =? SHUT_RDWR then _ ← register_read h; register_write h
  else throw runtime_error.

Definition setsockopt (h : FileDescriptor) (level option option_value : Z) : io (machine K) unit :=
  fd ← gets (fd_num h);
  _ ← system_call (sys_setsockopt fd level option option_value);
  mret tt.

Definition set_reuseaddr (h : FileDescriptor) : io (machine K) unit := setsockopt h SOL_SOCKET SO_REUSEADDR 1.

(** ** UDPSocket *)

Definition UDPSocket_new : io (machine K) FileDescriptor := Socket_new AF_INET SOCK_DGRAM.

Record received_datagram := mkDatagram { source_address : Address; dgram_payload : bytes }.

(** [recv] into a datagram whose payload has been resized to [mtu]. *)
Definition recv (h : FileDescriptor) (mtu : Z) : io (machine K) received_datagram :=
  let payload := resize mtu [] in
  fd ← gets (fd_num h);
  r ← sys (sys_recvfrom fd mtu MSG_TRUNC sizeof_storage);
  recv_len ← of_result (SystemCall r 0);
  let '(data, address, fromlen) := out r in
  if recv_len >? s64 mtu then throw runtime_error
  else
    _ ← register_read h;
    source ← of_result (Address_of_sockaddr address fromlen);
    payload ← of_result (resize_to recv_len (data ++ drop (length data) payload));
    mret (mkDatagram source payload).

Definition sendmsg_helper (fd_num : Z) (destination_address : bytes) (destination_address_len : Z)
    (payload : BufferViewList) : io (machine K) unit :=
  bytes_sent ← system_call (sys_sendmsg fd_num destination_address destination_address_len (as_iovecs payload));
  if negb (u64 bytes_sent =? views_size payload) then throw runtime_error else mret tt.

Definition sendto (h : FileDescriptor) (destination : Address) (payload : BufferViewList) : io (machine K) unit :=
  fd ← gets (fd_num h);
  _ ← sendmsg_helper fd (_address destination) (_size destination) payload;
  register_write h.

Definition send (h : FileDescriptor) (payload : BufferViewList) : io (machine K) unit :=
  fd ← gets (fd_num h);
  _ ← sendmsg_helper fd [] 0 payload;
  register_write h.

(** ** TCPSocket and LocalStreamSocket *)

Definition TCPSocket_new : io (machine K) FileDescriptor := Socket_new AF_INET SOCK_STREAM.
Definition TCPSocket_of (h : FileDescriptor) : io (machine K) FileDescriptor := Socket_of h AF_INET SOCK_STREAM.

Definition listen (h : FileDescriptor) (backlog : Z) : io (machine K) unit :=
  fd ← gets (fd_num h);
  _ ← system_call (sys_listen fd backlog);
  mret tt.

Definition accept (h : FileDescriptor) : io (machine K) FileDescriptor :=
  _ ← register_read h;
  fd ← gets (fd_num h);
  fd ← system_call (sys_accept fd);
  h ← FileDescriptor_of fd;
  TCPSocket_of h.

Definition LocalStreamSocket_of (h : FileDescriptor) : io (machine K) FileDescriptor := Socket_of h AF_UNIX SOCK_STREAM.
End socket.

(** ** Lemmas *)

(** Shutting down the writing side counts as a write. *)
Lemma shutdown_write_spec {K} `{KernelLaws K} h (m : machine K) :
  wp (shutdown h SHUT_WR)
    (fun _ m' => silent h m m' /\ ((h < length (heap m))%nat -> write_count h m' = u32 (write_count h m + 1)))
    (fun e m' => sys_error e /\ log m' = log m /\ heap m' = heap m) m.
Proof.
  unfold shutdown. wp_steps. apply wp_system_call; [apply shutdown_quiet| |].
  - intros r k Hk. change (SHUT_WR =? SHUT_RD) with false. change (SHUT_WR =? SHUT_WR) with true. cbv iota.
    apply wp_update. cbn [kernel heap]. split.
    + split; [exact Hk|]. eexists; split; [reflexivity|]. done.
    + intros Hh. unfold write_count. by rewrite wrapper_alter.
  - intros e k Hk. split; [by eexists|done].
Qed.
