(* ===== verification/Tun.v ===== *)
(** * TUN and TAP devices (src/libsponge/util/tun.hh, tun.cc)

    A [TunTapFD] is a FileDescriptor to a device that exists already; its constructor opens the
    cloning device and names the one to attach to. *)

From stdpp Require Import strings.
From S2P Require Import Prelude IO Address Kernel FileDescriptor.

Definition CLONEDEV : bytes := String.list_byte_of_string "/dev/net/tun".

(** [strncpy(dst, src, n)]: the characters of the C string, and zeros up to [n]. *)
Definition strncpy (dst src : bytes) (n : Z) : bytes :=
  let copied := take (Z.to_nat n) (c_str src) in
  copied ++ replicate (Z.to_nat n - length copied) x00 ++ drop (Z.to_nat n) dst.

(** The request of the constructor: the structure is zeroed first. *)
Definition tun_request (devname : bytes) (is_tun : bool) : ifreq :=
  let flags := Z.lor (if is_tun then IFF_TUN else IFF_TAP) IFF_NO_PI in
  let name := strncpy (replicate (Z.to_nat IFNAMSIZ) x00) devname (IFNAMSIZ - 1) in
  mkIfreq (<[Z.to_nat (IFNAMSIZ - 1) := x00]> name) flags.

Section tun.
Context {K : Type} `{Kernel K}.

(** If the request fails the base object, the descriptor, is destroyed. *)
Definition TunTapFD_new (devname : bytes) (is_tun : bool) : io (machine K) FileDescriptor :=
  fd ← system_call (sys_open CLONEDEV O_RDWR);
  h ← FileDescriptor_of fd;
  unwinding (
    fd ← gets (fd_num h);
    _ ← system_call (sys_ioctl fd TUNSETIFF (tun_request devname is_tun));
    mret h) (release h).

Definition TunFD_new (devname : bytes) : io (machine K) FileDescriptor := TunTapFD_new devname true.
Definition TapFD_new (devname : bytes) : io (machine K) FileDescriptor := TunTapFD_new devname false.
End tun.

(** ** Lemmas *)

Lemma c_str_terminated p q : Forall (fun b => b <> x00) p -> c_str (p ++ x00 :: q) = p.
Proof. induction 1 as [|b l Hb _ IH]; simpl; [done|]. by rewrite bool_decide_eq_false_2, IH. Qed.

(** Whatever the name is, the request holds a terminated string of 16 characters: the first 15
    of the name, as a C string. *)
Lemma tun_request_name devname is_tun :
  length (ifr_name (tun_request devname is_tun)) = 16%nat /\
  c_str (ifr_name (tun_request devname is_tun)) = take 15 (c_str devname).
Proof.
  unfold tun_request, strncpy. cbn [ifr_name]. change (Z.to_nat (IFNAMSIZ - 1)) with 15%nat. change (Z.to_nat IFNAMSIZ) with 16%nat.
  change (drop 15 (replicate 16 x00)) with [x00]. set (p := take 15 (c_str devname)).
  assert (length p <= 15)%nat as Hp by (unfold p; rewrite length_take; lia).
  assert (Forall (fun b => b <> x00) p) as Hz.
  { apply Forall_take. clear p Hp. induction devname as [|b l IH]; simpl; [done|]. case_bool_decide; [done|]. by constructor. }
  rewrite insert_app_r_alt by lia. rewrite insert_app_r_alt by (rewrite length_replicate; lia).
  rewrite length_replicate. replace (15 - length p - (15 - length p))%nat with 0%nat by lia. split.
  - rewrite !length_app, length_replicate. simpl. lia.
  - change (<[0%nat:=x00]> [x00]) with [x00]. rewrite <- replicate_S_end. simpl. by apply c_str_terminated.
Qed.
