(* ===== verification/FdAdapter.v ===== *)
(** * Adapters on their descriptors
    (src/libsponge/tcp_helpers/fd_adapter.hh, fd_adapter.cc, tuntap_adapter.hh, lossy_fd_adapter.hh)

    The class [FdAdapter] is what a user of an adapter calls; the adapters of the library
    are its instances: TCP over UDP, TCP over IPv4 over a TUN device, and the lossy version of
    either. *)

From stdpp Require Import strings.
From S2P Require Import Prelude IO Buffer Parser TCPHeader TCPSegment IPv4 Address Adapter.
From S2P Require Import Kernel FileDescriptor Socket.

(** ** The interface *)

Class FdAdapter (K A : Type) `{Kernel K} := {
  ad_fd : A -> FileDescriptor;
  ad_config : A -> FdAdapterConfig;
  ad_config_mut : FdAdapterConfig -> A -> A;
  ad_set_listening : bool -> A -> A;
  ad_tick : Z -> A -> A;
  ad_read : A -> io (machine K) (option TCPSegment * A);
  ad_write : TCPSegment -> A -> io (machine K) (TCPSegment * A)
}.

Section adapters.
Context {K : Type} `{Kernel K} {R : Resolver}.

(** [numeric_limits<size_t>::max()]. *)
Definition size_max : Z := 18446744073709551615.

(** ** TCP over IPv4 over a TUN device *)

Record TunFdAdapter := mkTunFdAdapter { _tun : FileDescriptor; tun_base : FdAdapterBase }.

Definition tun_fd_read (a : TunFdAdapter) : io (machine K) (option TCPSegment * TunFdAdapter) :=
  packet ← fd_read (_tun a) size_max;
  r ← of_result (tun_read packet (tun_base a));
  mret (r.1, mkTunFdAdapter (_tun a) r.2).

Definition tun_fd_write (seg : TCPSegment) (a : TunFdAdapter) : io (machine K) (TCPSegment * TunFdAdapter) :=
  r ← of_result (tun_write seg (tun_base a));
  _ ← fd_write (_tun a) (views_of r.1) true;
  mret (r.2, a).

#[global] Instance tun_fd_adapter : FdAdapter K TunFdAdapter := {
  ad_fd := _tun;
  ad_config a := config (tun_base a);
  ad_config_mut c a := mkTunFdAdapter (_tun a) (config_mut c (tun_base a));
  ad_set_listening l a := mkTunFdAdapter (_tun a) (set_listening l (tun_base a));
  ad_tick ms a := mkTunFdAdapter (_tun a) (base_tick ms (tun_base a));
  ad_read := tun_fd_read;
  ad_write := tun_fd_write
}.

(** ** TCP over UDP *)

Record UDPFdAdapter := mkUDPFdAdapter { _sock : FileDescriptor; udp_base : FdAdapterBase }.

Definition udp_fd_read (a : UDPFdAdapter) : io (machine K) (option TCPSegment * UDPFdAdapter) :=
  datagram ← recv (_sock a) 65536;
  r ← of_result (udp_read (source_address datagram) (dgram_payload datagram) (udp_base a));
  mret (r.1, mkUDPFdAdapter (_sock a) r.2).

Definition udp_fd_write (seg : TCPSegment) (a : UDPFdAdapter) : io (machine K) (TCPSegment * UDPFdAdapter) :=
  r ← of_result (udp_write seg (udp_base a));
  _ ← sendto (_sock a) r.1.1 (views_of r.1.2);
  mret (r.2, a).

#[global] Instance udp_fd_adapter : FdAdapter K UDPFdAdapter := {
  ad_fd := _sock;
  ad_config a := config (udp_base a);
  ad_config_mut c a := mkUDPFdAdapter (_sock a) (config_mut c (udp_base a));
  ad_set_listening l a := mkUDPFdAdapter (_sock a) (set_listening l (udp_base a));
  ad_tick ms a := mkUDPFdAdapter (_sock a) (base_tick ms (udp_base a));
  ad_read := udp_fd_read;
  ad_write := udp_fd_write
}.

(** ** Losing segments *)

(** [std::mt19937]: the next number, and the state of the generator after it. *)
Class RandomGenerator (G : Type) := { next_random : G -> Z * G }.

Context {G A : Type} `{RandomGenerator G} `{FdAdapter K A}.

Record LossyFdAdapter := mkLossy { _rand : G; _adapter : A }.

(** The generator is asked only if segments can be lost. *)
Definition _should_drop (uplink : bool) (s : LossyFdAdapter) : bool * LossyFdAdapter :=
  let cfg := ad_config (_adapter s) in
  let loss := if uplink then loss_rate_up cfg else loss_rate_dn cfg in
  if negb (loss =? 0) then
    let '(x, g) := next_random (_rand s) in
    (u16 x <? loss, mkLossy g (_adapter s))
  else (false, s).

Definition lossy_read (s : LossyFdAdapter) : io (machine K) (option TCPSegment * LossyFdAdapter) :=
  r ← ad_read (_adapter s);
  let '(drop, s) := _should_drop false (mkLossy (_rand s) r.2) in
  if drop then mret (None, s) else mret (r.1, s).

(** A dropped segment is neither sent nor changed. *)
Definition lossy_write (seg : TCPSegment) (s : LossyFdAdapter) : io (machine K) (TCPSegment * LossyFdAdapter) :=
  let '(drop, s) := _should_drop true s in
  if drop then mret (seg, s)
  else r ← ad_write seg (_adapter s); mret (r.1, mkLossy (_rand s) r.2).

Definition lossy_set_listening (l : bool) (s : LossyFdAdapter) : LossyFdAdapter :=
  mkLossy (_rand s) (ad_set_listening l (_adapter s)).
Definition lossy_config (s : LossyFdAdapter) : FdAdapterConfig := ad_config (_adapter s).
Definition lossy_config_mut (c : FdAdapterConfig) (s : LossyFdAdapter) : LossyFdAdapter :=
  mkLossy (_rand s) (ad_config_mut c (_adapter s)).
Definition lossy_tick (ms_since_last_tick : Z) (s : LossyFdAdapter) : LossyFdAdapter :=
  mkLossy (_rand s) (ad_tick ms_since_last_tick (_adapter s)).

#[global] Instance lossy_fd_adapter : FdAdapter K LossyFdAdapter := {
  ad_fd s := ad_fd (_adapter s);
  ad_config := lossy_config;
  ad_config_mut := lossy_config_mut;
  ad_set_listening := lossy_set_listening;
  ad_tick := lossy_tick;
  ad_read := lossy_read;
  ad_write := lossy_write
}.
End adapters.
Arguments LossyFdAdapter : clear implicits.

(** ** What an adapter promises *)

Definition adapter_exn (e : exn) : Prop := tame_exn e \/ sys_error e \/ e = write_zero.

(** How an adapter puts segments on the wire. *)
Inductive wire_format := OverUDP | OverTun.
Class WireFormat (A : Type) := ad_format : wire_format.
Arguments ad_format A {_}.
#[global] Instance tun_format : WireFormat TunFdAdapter := OverTun.
#[global] Instance udp_format : WireFormat UDPFdAdapter := OverUDP.
#[global] Instance lossy_format {G A} `{WireFormat A} : WireFormat (LossyFdAdapter G A) := ad_format A.

(** The datagram [d] is what some adapter makes of a segment. *)
Definition encodes {R : Resolver} (f : wire_format) (seg : TCPSegment) (d : bytes) : Prop :=
  match f with
  | OverUDP => exists b dst l seg', udp_write seg b = Ok (dst, l, seg') /\ d = concatenate l
  | OverTun => exists b l seg', tun_write seg b = Ok (l, seg') /\ d = concatenate l
  end.

(** Some adapter reads the datagram [d] as a segment. *)
Definition decodes {R : Resolver} (f : wire_format) (d : bytes) (seg : TCPSegment) : Prop :=
  match f with
  | OverUDP => exists from b b', udp_read from d b = Ok (Some seg, b')
  | OverTun => exists b b', tun_read d b = Ok (Some seg, b')
  end.

(** The descriptor sends datagrams whole. *)
Definition sends_whole (K : Type) `{Kernel K} (f : wire_format) (fd : Z) : Prop :=
  match f with
  | OverUDP => sendmsg_whole K fd
  | OverTun => writev_whole K fd
  end.

(** Datagrams have been received, none sent. *)
Definition only_receives {K} `{Kernel K} (h : FileDescriptor) (m m' : machine K) : Prop :=
  exists es, log m' = log m ++ es /\ Forall (fun e => exists d, e = Received (fd_num h m) d) es.

Lemma only_receives_none {K} `{Kernel K} h (m m' : machine K) : log m' = log m -> only_receives h m m'.
Proof. intros E. exists []. by rewrite app_nil_r. Qed.
Lemma only_receives_one {K} `{Kernel K} h d (m m' : machine K) :
  log m' = log m ++ [Received (fd_num h m) d] -> only_receives h m m'.
Proof. intros E. eexists; split; [exact E|]. constructor; [by eexists|done]. Qed.

(** At most one datagram has been sent, which carries [seg]. *)
Definition puts_on_wire {K} `{Kernel K} {R : Resolver} (f : wire_format) (seg : TCPSegment) (h : FileDescriptor)
    (m m' : machine K) : Prop :=
  sends_whole K f (fd_num h m) ->
  log m' = log m \/ exists d, log m' = log m ++ [Sent (fd_num h m) d] /\ encodes f seg d.

(** A read serves the descriptor and gives a segment whose fields are in range, which the datagram it
    has received carries; a write sends a datagram that carries the segment, or nothing; they
    use no other descriptor, and throw no exception of the event loop. *)
Class FdAdapterLaws (K A : Type) `{FdAdapter K A} `{!WireFormat A} {R : Resolver} := {
  ad_read_law : forall a m,
    wp (ad_read a)
      (fun r m' => touches (ad_fd a) m m' /\ only_receives (ad_fd a) m m' /\ ad_fd r.2 = ad_fd a /\
         (forall seg, r.1 = Some seg -> parsed seg /\
            exists d, log m' = log m ++ [Received (fd_num (ad_fd a) m) d] /\ decodes (ad_format A) d seg) /\
         ((ad_fd a < length (heap m))%nat -> read_count (ad_fd a) m' <> read_count (ad_fd a) m))
      (fun e m' => touches (ad_fd a) m m' /\ only_receives (ad_fd a) m m' /\ adapter_exn e) m;
  ad_write_law : forall seg a m,
    5 <= doff (header seg) < 16 -> size (payload seg) < 4294967296 ->
    wp (ad_write seg a)
      (fun r m' => touches (ad_fd a) m m' /\ ad_fd r.2 = ad_fd a /\ puts_on_wire (ad_format A) seg (ad_fd a) m m')
      (fun e m' => touches (ad_fd a) m m' /\ adapter_exn e /\ puts_on_wire (ad_format A) seg (ad_fd a) m m') m;
  ad_fd_config_mut : forall c a, ad_fd (ad_config_mut c a) = ad_fd a;
  ad_fd_set_listening : forall l a, ad_fd (ad_set_listening l a) = ad_fd a;
  ad_fd_tick : forall ms a, ad_fd (ad_tick ms a) = ad_fd a
}.

Section laws.
Context {K : Type} `{KernelLaws K} {R : Resolver}.

Lemma tame_stoi s : tame (stoi s).
Proof. unfold stoi. tame_steps. Qed.
Lemma tame_ip_port a : tame (ip_port a).
Proof. unfold ip_port. destruct (getnameinfo _ _ _) as [|[]]; [done|]. apply tame_bind; [apply tame_stoi|done]. Qed.
Lemma tame_port a : tame (port a).
Proof. unfold port. apply tame_bind; [apply tame_ip_port|done]. Qed.
Lemma tame_ipv4_numeric a : tame (ipv4_numeric a).
Proof. unfold ipv4_numeric. tame_steps. Qed.
Lemma tame_Address_resolve node service hints : tame (Address_resolve node service hints).
Proof. unfold Address_resolve. destruct (getaddrinfo _ _ _) as [|[|[]]]; try done. unfold Address_of_sockaddr. tame_steps. Qed.
Lemma tame_Address_of_ip s p : tame (Address_of_ip s p).
Proof. apply tame_Address_resolve. Qed.
Lemma tame_Address_of_host s p : tame (Address_of_host s p).
Proof. apply tame_Address_resolve. Qed.

Hint Resolve tame_stoi tame_ip_port tame_port tame_ipv4_numeric tame_Address_of_ip tame_Address_of_host : sponge.

Lemma parse_segment_total b c old : wf_buffer b -> exists r seg, parse_segment b c old = Ok (r, seg).
Proof.
  intros Hb. unfold parse_segment. case_if; [by eauto|].
  destruct (parse_total (NetParser_of b) Hb) as (r & h & p' & E & _). rewrite E. by eauto.
Qed.
Lemma tame_parse_segment b c old : wf_buffer b -> tame (parse_segment b c old).
Proof. intros Hb. by destruct (parse_segment_total b c old Hb) as (r & seg & ->). Qed.

Lemma tame_udp_read from d b : #d < 18446744073709551616 -> tame (udp_read from d b).
Proof.
  intros Hd. unfold udp_read. case_if; [done|].
  apply tame_bind; [apply tame_parse_segment, Buffer_of_wf; lia|]. intros [res seg]. tame_steps.
Qed.

(** The datagram parser returns a payload of one sound buffer. *)
Lemma parse_datagram_sound d :
  #d < 18446744073709551616 ->
  exists r h b, parse_datagram (Buffer_of d) default_datagram = Ok (r, mkIPv4Datagram h [b]) /\ wf_buffer b /\
    size b <= #d.
Proof.
  intros Hd. unfold parse_datagram.
  destruct (parse_ip_total (ip_header default_datagram) (NetParser_of (Buffer_of d)))
    as (r & h & p' & E & H1 & _ & _ & _ & H5); [by apply Buffer_of_wf|done|by_compute|].
  assert (size (buffer p') <= #d) as Hs.
  { unfold size, buffer. rewrite H5. cbn [_buffer NetParser_of]. rewrite str_Buffer_of. unfold Zlen. rewrite length_drop. lia. }
  rewrite E, result_bind_Ok. case_if; by do 3 eexists.
Qed.

Lemma tame_tun_read d b : #d < 18446744073709551616 -> tame (tun_read d b).
Proof.
  intros Hd. unfold tun_read. destruct (parse_datagram_sound d Hd) as (r & h & buf & -> & Hb & _).
  rewrite result_bind_Ok. case_if; [done|]. unfold unwrap_tcp_in_ip, other_host.
  apply tame_bind; [tame_steps; auto with sponge|]. intros [|]; [done|].
  apply tame_bind; [tame_steps; auto with sponge|]. intros [|]; [done|]. case_if; [done|].
  cbn [ip_payload to_Buffer]. rewrite result_bind_Ok.
  apply tame_bind; [by apply tame_parse_segment|]. intros [res seg]. case_if; [done|].
  apply tame_bind; [auto with sponge|]. intros p. case_if; [done|].
  repeat first [done|apply tame_bind; [auto with sponge|intros ?]|case_if].
Qed.

(** The segments that the adapters pass on. *)
Lemma udp_read_segment from d b seg b' :
  udp_read from d b = Ok (Some seg, b') -> parse_segment (Buffer_of d) 0 default_segment = Ok (NoError, seg).
Proof.
  unfold udp_read. case_if; [done|]. intros ([r s] & E & Hf)%result_bind_inv.
  destruct (negb (bool_decide (r = NoError))) eqn:Er; [done|]. apply negb_false_iff, bool_decide_eq_true in Er as ->.
  rewrite E. repeat case_if_in Hf; try done; by injection Hf as <- <-.
Qed.

Lemma udp_read_parsed from d b seg b' :
  #d < 4294967296 -> udp_read from d b = Ok (Some seg, b') -> parsed seg.
Proof.
  intros Hd E%udp_read_segment. eapply parse_segment_parsed; [| |exact E|done]; [apply Buffer_of_wf; lia|].
  unfold size. by rewrite str_Buffer_of.
Qed.

Lemma tun_read_parsed d b seg b' :
  #d < 4294967296 -> tun_read d b = Ok (Some seg, b') -> parsed seg.
Proof.
  intros Hd (dg & buf & E1 & E2 & E3)%tun_read_segment.
  destruct (parse_datagram_sound d ltac:(lia)) as (r & h & buf' & E & Hb & Hs). rewrite E in E1. injection E1 as -> <-.
  cbn [ip_payload to_Buffer] in E2. injection E2 as ->. eapply parse_segment_parsed; [exact Hb| |exact E3|done]. lia.
Qed.

Lemma serialize_bound c seg :
  5 <= doff (header seg) < 16 -> size (payload seg) < 4294967296 ->
  exists l, serialize_segment c seg = Ok l /\ 0 <= #(concatenate l) < 4294967400.
Proof.
  intros Hd Hs. rewrite serialize_segment_ok by lia. eexists; split; [done|].
  rewrite concatenate_pair, str_Buffer_of. fold (segment_bytes c seg).
  rewrite Zlen_segment_bytes by lia. pose proof (Zlen_nonneg (str (payload seg))). unfold size in *. lia.
Qed.

Lemma udp_write_tame seg b :
  5 <= doff (header seg) < 16 -> size (payload seg) < 4294967296 ->
  tame (udp_write seg b).
Proof.
  intros Hd Hs. unfold udp_write. apply tame_bind; [auto with sponge|]. intros s.
  apply tame_bind; [auto with sponge|]. intros d.
  destruct (serialize_bound 0 (with_ports s d seg) Hd Hs) as (l & -> & _). done.
Qed.

Lemma udp_write_bound seg b r l seg' :
  5 <= doff (header seg) < 16 -> size (payload seg) < 4294967296 -> udp_write seg b = Ok (r, l, seg') ->
  #(concatenate l) < 18446744073709551616.
Proof.
  intros Hd Hs. unfold udp_write. intros (s & _ & (d & _ & Hf)%result_bind_inv)%result_bind_inv.
  destruct (serialize_bound 0 (with_ports s d seg) Hd Hs) as (l' & E & Hl).
  apply result_bind_inv in Hf as (l'' & El & Hf). injection Hf as _ <- _. assert (l'' = l') as -> by congruence. lia.
Qed.

Lemma serialize_ip_length h : ver h = 4 -> hlen h = 5 -> exists b, serialize_ip h = Ok b /\ length b = 20%nat.
Proof.
  intros Hv Hh. unfold serialize_ip. rewrite Hv, Hh. eexists; split; [done|]. unfold resize.
  rewrite length_app, length_take, length_replicate. change (Z.to_nat (4 * 5)) with 20%nat. lia.
Qed.

Lemma tun_write_bound seg b :
  5 <= doff (header seg) < 16 -> size (payload seg) < 4294967296 ->
  tame (tun_write seg b) /\
  forall l seg', tun_write seg b = Ok (l, seg') -> #(concatenate l) < 9223372036854775808.
Proof.
  intros Hd Hs. unfold tun_write, wrap_tcp_in_ip.
  pose proof (tame_port (source (config b))) as T1. destruct (port (source (config b))) as [s| |]; [|by split; [exact T1|]..].
  pose proof (tame_port (destination (config b))) as T2. destruct (port (destination (config b))) as [d| |]; [|by split; [exact T2|]..].
  pose proof (tame_ipv4_numeric (source (config b))) as T3.
  destruct (ipv4_numeric (source (config b))) as [ns| |]; [|by split; [exact T3|]..].
  pose proof (tame_ipv4_numeric (destination (config b))) as T4.
  destruct (ipv4_numeric (destination (config b))) as [nd| |]; [|by split; [exact T4|]..].
  rewrite !result_bind_Ok. set (h := mkIPv4Header _ _ _ _ _ _ _ _ _ _ _ _ _).
  destruct (serialize_bound (pseudo_cksum h) (with_ports s d seg) Hd Hs) as (l & -> & Hl).
  rewrite !result_bind_Ok. cbn beta iota. unfold serialize_datagram. cbn [ip_header ip_payload].
  destruct (negb (list_size l =? payload_length h)); [split; [exact I|done]|].
  destruct (serialize_ip_length (set_ip_cksum 0 h)) as (b1 & -> & _); [done..|]. rewrite result_bind_Ok. cbv zeta.
  match goal with |- context [serialize_ip ?x] => destruct (serialize_ip_length x) as (b2 & -> & Hb2); [done..|] end.
  split; [done|]. intros l' seg' [= <- <-]. rewrite concatenate_cons, str_Buffer_of, Zlen_app. unfold Zlen in *. lia.
Qed.

(** What is read from a datagram is what was written to it. *)
Lemma wire_codec f seg d seg' :
  wf_segment seg -> fits_ip seg -> encodes f seg d -> decodes f d seg' -> exists s p, same_segment s p seg seg'.
Proof.
  intros Hs Hf. pose proof Hs as (_ & Hd & _). pose proof (Zlen_nonneg (str (payload seg))). unfold fits_ip, size in Hf.
  destruct f; cbn [encodes decodes].
  - intros (b & dst & l & seg1 & E & ->) (from & b1 & b2 & E'%udp_read_segment).
    unfold udp_write in E. apply result_bind_inv in E as (s & Es%port_range & E).
    apply result_bind_inv in E as (p & Ep%port_range & E). apply result_bind_inv in E as (l' & El & E). injection E as _ <- _.
    assert (wf_segment (with_ports s p seg)) as Hs1 by (by apply wf_set_ports).
    rewrite serialize_segment_ok in El by apply Hs1. injection El as <-.
    rewrite concatenate_pair, str_Buffer_of in E'.
    destruct (parse_segment_bytes 0 (with_ports s p seg) (Buffer_of (segment_bytes 0 (with_ports s p seg))) default_segment)
      as (seg2 & E2 & G1 & G2); [done|split; unfold size; simpl; lia| |apply str_Buffer_of|].
    { apply Buffer_of_wf. rewrite Zlen_segment_bytes by apply Hd. unfold size. simpl. lia. }
    assert (Ok (NoError, seg2) = Ok (NoError, seg')) as [= <-] by (rewrite <- E2; exact E'). exists s, p. split; [done|]. eexists. exact G1.
  - intros (b & l & seg1 & E & ->) (b1 & b2 & E'). destruct (tun_write_numbers _ _ _ E) as (h & h' & Hn).
    destruct (tun_write_packet seg b h h' Hs Hf Hn) as (packet & k & buf & E1 & E2 & seg2 & E3 & Hsame).
    rewrite E1 in E. injection E as <- <-. destruct (tun_read_segment _ _ _ _ E') as (dg & buf' & G1 & G2 & G3).
    rewrite E2 in G1. injection G1 as <-. cbn [ip_payload to_Buffer ip_header] in *. injection G2 as <-.
    change (pseudo_cksum (set_ip_cksum k (carrier seg h.1 h'.1))) with (pseudo_cksum (carrier seg h.1 h'.1)) in G3.
    rewrite E3 in G3. injection G3 as <-. by exists h.2, h'.2.
Qed.

(** ** Datagrams *)

Lemma recv_spec h mtu m :
  0 <= mtu < 2147483648 ->
  wp (recv h mtu)
    (fun d m' => #(dgram_payload d) <= mtu /\ log m' = log m ++ [Received (fd_num h m) (dgram_payload d)] /\
       touches h m m' /\
       ((h < length (heap m))%nat -> read_count h m' <> read_count h m))
    (fun e m' => touches h m m' /\ only_receives h m m' /\ adapter_exn e) m.
Proof.
  intros Hm. unfold recv. wp_steps. apply wp_sys.
  pose proof (recvfrom_law (fd_num h m) mtu MSG_TRUNC sizeof_storage (kernel m) ltac:(lia)) as Hr.
  destruct (sys_recvfrom _ _ _ _ _) as [r k]. simpl. destruct Hr as [(H1 & H2 & H3)|(H1 & H2 & H3)].
  { wp_step. unfold wp, of_result. rewrite SystemCall_failed by done.
    split_and!; [by apply touches_silent|by apply only_receives_none|]. right; left. by eexists. }
  wp_step. apply wp_of_result with (ret r); [apply SystemCall_ok; lia|].
  destruct (out r) as [[data address] fromlen]. simpl in H2, H3.
  assert (s64 mtu = mtu) as -> by (unfold s64; rewrite u64_id by lia; case_if; lia).
  assert (forall m1, log m1 = log m ++ [Received (fd_num h m) data] -> heap m1 = alter (after_read false) h (heap m) ->
    touches h m m1) as Ht by (intros; by eapply (touches_one h (after_read false) m m1 (Received (fd_num h m) data))).
  case_if.
  { wp_step. split_and!; [by eapply touches_sent|by eapply only_receives_one|by left]. }
  wp_steps. apply wp_update. set (m1 := mkMachine _ _). assert (only_receives h m m1) as Ho by (by eapply only_receives_one).
  assert (touches h m m1) as Ht1.
  { apply Ht; [done|]. cbn [heap m1]. apply list_alter_ext; [|done]. intros w _. unfold after_read. by rewrite orb_false_r. }
  wp_step. apply wp_tame; [unfold Address_of_sockaddr; tame_steps| |by intros e He; split_and!; [..|left]].
  intros a _. wp_step. apply wp_tame; [unfold resize_to; tame_steps| |by intros e He; split_and!; [..|left]].
  assert (#data = ret r) as Hdl by lia. rewrite <- Hdl, resize_to_app. intros payload [= <-]. wp_step.
  split_and!; [cbn [dgram_payload]; lia|done|done|].
  - intros Hh. unfold read_count, m1. rewrite wrapper_alter by done. apply u32_succ_ne.
Qed.

Lemma sendto_spec h a payload m :
  #(concat payload) < 18446744073709551616 ->
  wp (sendto h a payload)
    (fun _ m' => touches h m m' /\
       (sendmsg_whole K (fd_num h m) -> log m' = log m ++ [Sent (fd_num h m) (concat payload)]))
    (fun e m' => touches h m m' /\ adapter_exn e /\ (sendmsg_whole K (fd_num h m) -> log m' = log m)) m.
Proof.
  intros Hlen. unfold sendto, sendmsg_helper, system_call. wp_steps. apply wp_sys.
  pose proof (sendmsg_law (fd_num h m) (_address a) (_size a) (as_iovecs payload) (kernel m)) as Hr.
  assert (sendmsg_whole K (fd_num h m) ->
    let r := (sys_sendmsg (fd_num h m) (_address a) (_size a) (as_iovecs payload) (kernel m)).1 in
    ret r = -1 \/ ret r = #(concat payload)) as Hwh by (intros Hwh; apply Hwh).
  destruct (sys_sendmsg _ _ _ _ _) as [r k]. simpl in *. destruct Hr as [(H1 & H2 & H3)|(H1 & H2 & H3)].
  { unfold wp, of_result. rewrite SystemCall_failed by done.
    split_and!; [by apply touches_silent| |done]. right; left. by eexists. }
  apply wp_of_result with (ret r); [apply SystemCall_ok; lia|]. unfold as_iovecs in *.
  pose proof (Zlen_nonneg (concat payload)). rewrite views_size_concat by lia.
  set (e := Sent _ _) in H3. case_if; wp_step.
  - apply negb_true_iff, Z.eqb_neq in Heqb. rewrite u64_id in Heqb by lia.
    split_and!; [by eapply touches_sent|by left|]. intros [?|?]%Hwh; lia.
  - apply wp_update. split; [by eapply (touches_one h _ m _ e)|]. intros [Hw|Hw]%Hwh; [lia|].
    unfold log. cbn [kernel]. rewrite H3. unfold e. do 3 f_equal. apply take_ge. unfold Zlen in Hw. lia.
Qed.

(** ** The adapters keep the promise *)

#[global] Instance tun_fd_laws : FdAdapterLaws K TunFdAdapter.
Proof.
  split; cbn [ad_fd ad_read ad_write tun_fd_adapter]; [| |done..].
  - intros a m. unfold tun_fd_read. wp_step. eapply wp_mono; [by apply (fd_read_spec (_tun a) size_max)|..].
    + intros d m' (Hd & Hl & Hh). assert (touches (_tun a) m m') as Ht by (by eapply touches_one).
      assert (#d <= 1048576) by (unfold BUFFER_SIZE in *; lia).
      assert (only_receives (_tun a) m m') as Ho by (by eapply only_receives_one).
      wp_step. apply wp_tame; [apply tame_tun_read; lia| |by intros e He; split_and!; [..|left]].
      intros [s b] Es. wp_step. split_and!; try done.
      { intros seg Eseg. simpl in Eseg. subst s. split; [eapply tun_read_parsed; [|exact Es]; lia|].
        exists d. split; [done|]. by exists (tun_base a), b. }
      intros Hlt. unfold read_count.
      destruct m' as [k hp]. cbn [heap] in Hh. subst hp. rewrite wrapper_alter by done. apply u32_succ_ne.
    + intros e m' (He & Hl & Hh). split_and!; [by apply touches_silent|by apply only_receives_none|]. by right; left.
  - intros seg a m Hd Hs. unfold tun_fd_write. destruct (tun_write_bound seg (tun_base a) Hd Hs) as [Ht Hb].
    wp_step. apply wp_tame; [done| |intros e He; split_and!; [apply touches_refl|by left|by left]].
    intros [l seg'] El. wp_step. eapply wp_mono; [apply fd_write_all; rewrite concat_views; by eapply Hb|..].
    + intros n m' (_ & Hs' & Hw). wp_step. split_and!; [by eapply sends_all_touches|done|].
      intros Hwh. right. eexists; split; [by apply Hw|]. rewrite concat_views. by exists (tun_base a), l, seg'.
    + intros e m' (He & [Ht' _] & Hw). split_and!; [done|by destruct He; right; [left|right]|]. intros Hwh. left. by apply Hw.
Qed.

#[global] Instance udp_fd_laws : FdAdapterLaws K UDPFdAdapter.
Proof.
  split; cbn [ad_fd ad_read ad_write udp_fd_adapter]; [| |done..].
  - intros a m. unfold udp_fd_read. wp_step. eapply wp_mono; [by apply (recv_spec (_sock a) 65536)| |done].
    intros d m' (Hd & Hl & Ht & Hc). assert (only_receives (_sock a) m m') as Ho by (by eapply only_receives_one). wp_step.
    apply wp_tame; [apply tame_udp_read; lia| |by intros e He; split_and!; [..|left]].
    intros [s b] Es. wp_step. split_and!; try done. intros seg Eseg. simpl in Eseg. subst s.
    split; [eapply udp_read_parsed; [|exact Es]; lia|]. exists (dgram_payload d). split; [done|].
    by exists (source_address d), (udp_base a), b.
  - intros seg a m Hd Hs. unfold udp_fd_write. wp_step.
    apply wp_tame; [by apply udp_write_tame| |intros e He; split_and!; [apply touches_refl|by left|by left]].
    intros [[dst l] seg'] El. wp_step. eapply wp_mono; [apply sendto_spec; rewrite concat_views; by eapply udp_write_bound|..].
    + intros [] m' [Ht Hw]. wp_step. split_and!; [done..|]. intros Hwh. right. eexists; split; [by apply Hw|].
      rewrite concat_views. by exists (udp_base a), dst, l, seg'.
    + intros e m' (Ht & He & Hw). split_and!; [done..|]. intros Hwh. left. by apply Hw.
Qed.

#[global] Instance lossy_fd_laws {G A} `{RandomGenerator G} `{!FdAdapter K A} `{!WireFormat A} {La : FdAdapterLaws K A} :
  FdAdapterLaws K (LossyFdAdapter G A).
Proof.
  assert (forall up (s : LossyFdAdapter G A), _adapter (_should_drop up s).2 = _adapter s) as Hd.
  { intros up s. unfold _should_drop. case_if; [|done]. by destruct (next_random (_rand s)). }
  split; cbn [ad_fd ad_read ad_write lossy_fd_adapter].
  3: { intros c s. apply ad_fd_config_mut. }
  3: { intros l s. apply ad_fd_set_listening. }
  3: { intros ms s. apply ad_fd_tick. }
  - intros s m. unfold lossy_read. wp_step. eapply wp_mono; [apply ad_read_law| |done].
    intros [seg a] m' (H1' & H2' & H3' & H4' & H5'). specialize (Hd false (mkLossy (_rand s) a)). cbn [fst snd] in *.
    destruct (_should_drop _ _) as [d s']. simpl in Hd. case_if; wp_step; simpl; rewrite Hd; done.
  - intros seg s m H1' H2'. unfold lossy_write. specialize (Hd true s).
    destruct (_should_drop _ _) as [d s']. simpl in Hd. case_if; [wp_step; simpl; rewrite Hd; split_and!; [apply touches_refl|done|by left]|].
    wp_step. rewrite Hd. eapply wp_mono; [by apply ad_write_law| |done].
    intros [seg' a] m' (H3' & H4' & H5'). by wp_step.
Qed.
End laws.

(** ** Properties *)

(** C38: LossyFdAdapter refines the adapter it wraps. A read does to the system what the adapter's
    read does, throws if it throws, and passes on its segment or, only if the downlink loss
    rate is not zero, nothing; a write is the adapter's write or, only if the uplink loss rate is
    not zero, leaves the system and the segment alone. *)
Theorem lossy_refines {K G A} `{Kernel K} `{RandomGenerator G} `{!FdAdapter K A} (s : LossyFdAdapter G A) seg
    (m : machine K) :
  match ad_read (_adapter s) m with
  | (Ok (seg', a), m') => exists seg'' g, lossy_read s m = (Ok (seg'', mkLossy g a), m') /\
      (seg'' = seg' \/ seg'' = None /\ loss_rate_dn (ad_config a) <> 0)
  | (Throw e, m') => lossy_read s m = (Throw e, m')
  | (Diverge, m') => lossy_read s m = (Diverge, m')
  end /\
  exists g, lossy_write seg s m = (r ← ad_write seg (_adapter s); mret (r.1, mkLossy g r.2)) m \/
    lossy_write seg s m = (Ok (seg, mkLossy g (_adapter s)), m) /\ loss_rate_up (ad_config (_adapter s)) <> 0.
Proof.
  split.
  - unfold lossy_read, mbind, io_bind. destruct (ad_read (_adapter s) m) as [[[seg' a]|e|] m']; [|done..].
    unfold _should_drop. cbn [_rand _adapter fst snd]. case_if.
    + apply negb_true_iff, Z.eqb_neq in Heqb. destruct (next_random (_rand s)) as [x g]. case_if.
      * exists None, g. split; [done|]. by right.
      * exists seg', g. split; [done|]. by left.
    + exists seg', (_rand s). split; [done|]. by left.
  - unfold lossy_write, _should_drop. case_if.
    + apply negb_true_iff, Z.eqb_neq in Heqb. destruct (next_random (_rand s)) as [x g].
      exists g. case_if; [by right|by left].
    + exists (_rand s). by left.
Qed.
