(* ===== verification/Random.v ===== *)
(** * Random numbers (get_random_generator of src/libsponge/util/util.cc)

    The numbers that decide which segments a LossyFdAdapter loses come from a [std::mt19937] that is
    seeded with 624 words of a [std::random_device]. The engine and [std::seed_seq] are those of the C++
    standard; the device is the environment. *)

From S2P Require Import Prelude IO Kernel FileDescriptor FdAdapter.

(** ** The Mersenne Twister *)

(** [mt19937::state_size], and the distance of the word that the recurrence adds. *)
Definition state_size : nat := 624.
Definition shift_size : nat := 397.
Definition xor_mask : Z := 2567483615.
Definition upper_mask : Z := 2147483648.
Definition lower_mask : Z := 2147483647.

(** The last [state_size] words of the sequence, the oldest first. *)
Abbreviation mt19937 := (list Z) (only parsing).

Definition word (x : mt19937) (i : nat) : Z := nth i x 0.

Definition twist (y : Z) : Z := Z.lxor (Z.shiftr y 1) (if Z.odd y then xor_mask else 0).

Definition mt_recurrence (x : mt19937) : Z :=
  let y := Z.lor (Z.land (word x 0) upper_mask) (Z.land (word x 1) lower_mask) in
  Z.lxor (word x shift_size) (twist y).

Definition temper (z : Z) : Z :=
  let z := Z.lxor z (Z.land (Z.shiftr z 11) 4294967295) in
  let z := Z.lxor z (Z.land (u32 (Z.shiftl z 7)) 2636928640) in
  let z := Z.lxor z (Z.land (u32 (Z.shiftl z 15)) 4022730752) in
  Z.lxor z (Z.shiftr z 18).

(** [operator()]. *)
Definition mt_next (x : mt19937) : Z * mt19937 :=
  let z := mt_recurrence x in (temper z, tail x ++ [z]).

#[global] Instance mt19937_generator : RandomGenerator mt19937 := {| next_random := mt_next |}.

(** ** Seeding *)

(** [seed_seq::generate] of [n] words; [v] are the words that were given. *)
Section generate.
Context (v : list Z) (n : nat).

Definition mix (x : Z) : Z := Z.lxor x (Z.shiftr x 27).
Definition at_mod (b : list Z) (k : nat) : Z := word b (k mod n).
Definition put_mod (k : nat) (x : Z) (b : list Z) : list Z := <[(k mod n)%nat := x]> b.

Definition seed_t : nat :=
  if (623 <=? n)%nat then 11 else if (68 <=? n)%nat then 7 else if (39 <=? n)%nat then 5
  else if (7 <=? n)%nat then 3 else ((n - 1) / 2)%nat.
Definition seed_p : nat := ((n - seed_t) / 2)%nat.
Definition seed_q : nat := (seed_p + seed_t)%nat.
Definition seed_m : nat := Nat.max (S (length v)) n.

(** The index before [k], at the front the last. *)
Definition before (k : nat) : nat := (k + n - 1)%nat.

Definition seed_add (b : list Z) (k : nat) : list Z :=
  let r1 := u32 (1664525 * mix (Z.lxor (Z.lxor (at_mod b k) (at_mod b (k + seed_p))) (at_mod b (before k)))) in
  let r2 := u32 (r1 + (if (k =? 0)%nat then Z.of_nat (length v)
                       else if (k <=? length v)%nat then Z.of_nat (k mod n) + word v (k - 1)
                       else Z.of_nat (k mod n))) in
  let b := put_mod (k + seed_p) (u32 (at_mod b (k + seed_p) + r1)) b in
  let b := put_mod (k + seed_q) (u32 (at_mod b (k + seed_q) + r2)) b in
  put_mod k r2 b.

Definition seed_xor (b : list Z) (k : nat) : list Z :=
  let r3 := u32 (1566083941 * mix (u32 (at_mod b k + at_mod b (k + seed_p) + at_mod b (before k)))) in
  let r4 := u32 (r3 - Z.of_nat (k mod n)) in
  let b := put_mod (k + seed_p) (Z.lxor (at_mod b (k + seed_p)) r3) b in
  let b := put_mod (k + seed_q) (Z.lxor (at_mod b (k + seed_q)) r4) b in
  put_mod k r4 b.

Definition generate : list Z :=
  let b := replicate n 2341178251 in
  let b := foldl seed_add b (seq 0 seed_m) in
  foldl seed_xor b (seq seed_m n).
End generate.

(** The constructor from a seed sequence: a state that would give only zeros is changed. *)
Definition mt_seed (v : list Z) : mt19937 :=
  let x := generate v state_size in
  if (Z.land (word x 0) upper_mask =? 0) && forallb (Z.eqb 0) (tail x) then <[0%nat := upper_mask]> x else x.

(** [rd()] is called for each of the words. *)
Fixpoint ask {D} (rd : D -> Z * D) (n : nat) (d : D) : list Z * D :=
  match n with
  | O => ([], d)
  | S n => let '(x, d) := rd d in let '(l, d) := ask rd n d in (x :: l, d)
  end.

Definition get_random_generator {D} (rd : D -> Z * D) (d : D) : mt19937 * D :=
  let '(seed_data, d) := ask rd state_size d in (mt_seed seed_data, d).

(** The constructor from one number, whose default is 5489. *)
Definition mt_seed_value (value : Z) : mt19937 :=
  foldl (fun x i => let y := List.last x 0 in x ++ [u32 (1812433253 * Z.lxor y (Z.shiftr y 30) + Z.of_nat i)])
    [u32 value] (seq 1 (state_size - 1)).

(** The number after [n] others. *)
Fixpoint nth_random (n : nat) (x : mt19937) : Z :=
  match n with
  | O => (mt_next x).1
  | S n => nth_random n (mt_next x).2
  end.

(** ** Words of 32 bits *)

Definition word32 (x : Z) : Prop := 0 <= x < 4294967296.

Lemma word32_bits x : word32 x <-> 0 <= x /\ forall i, 32 <= i -> Z.testbit x i = false.
Proof.
  unfold word32. change 4294967296 with (2 ^ 32). split.
  - intros [H0 H1]. split; [done|]. intros i Hi. destruct (decide (x = 0)) as [->|Hx]; [apply Z.bits_0|].
    apply Z.bits_above_log2; [done|]. assert (Z.log2 x < 32) by (apply Z.log2_lt_pow2; lia). lia.
  - intros [H0 Hb]. split; [done|]. destruct (decide (x = 0)) as [->|Hx]; [lia|]. apply Z.log2_lt_pow2; [lia|].
    destruct (decide (Z.log2 x < 32)) as [|Hl]; [done|]. specialize (Hb (Z.log2 x) ltac:(lia)).
    rewrite Z.bit_log2 in Hb by lia. done.
Qed.

Lemma word32_u32 x : word32 (u32 x).
Proof. apply u32_range. Qed.
Lemma word32_lxor x y : word32 x -> word32 y -> word32 (Z.lxor x y).
Proof.
  rewrite !word32_bits. intros [H1 H2] [H3 H4]. split; [by apply Z.lxor_nonneg|]. intros i Hi. by rewrite Z.lxor_spec, H2, H4.
Qed.
Lemma word32_land x y : word32 x -> word32 (Z.land x y).
Proof.
  rewrite !word32_bits. intros [H1 H2]. split; [apply Z.land_nonneg; by left|]. intros i Hi. by rewrite Z.land_spec, H2.
Qed.
Lemma word32_lor x y : word32 x -> word32 y -> word32 (Z.lor x y).
Proof.
  rewrite !word32_bits. intros [H1 H2] [H3 H4]. split; [by apply Z.lor_nonneg|]. intros i Hi. by rewrite Z.lor_spec, H2, H4.
Qed.
Lemma word32_shiftr x n : 0 <= n -> word32 x -> word32 (Z.shiftr x n).
Proof.
  rewrite !word32_bits. intros Hn [H1 H2]. split; [by apply Z.shiftr_nonneg|]. intros i Hi. rewrite Z.shiftr_spec by lia. apply H2. lia.
Qed.
Create HintDb words.
#[local] Hint Resolve word32_u32 word32_lxor word32_land word32_lor word32_shiftr : words.

Lemma word32_word x i : Forall word32 x -> word32 (word x i).
Proof. intros Hx. unfold word. revert i. induction Hx as [|y x Hy Hx IH]; intros [|i]; simpl; [by split..|done|apply IH]. Qed.
#[local] Hint Resolve word32_word : words.

Lemma word32_temper z : word32 z -> word32 (temper z).
Proof. intros Hz. unfold temper. cbv zeta. auto 12 with words zarith. Qed.
Lemma word32_twist y : word32 y -> word32 (twist y).
Proof. intros Hy. unfold twist. apply word32_lxor; [auto with words zarith|]. by destruct (Z.odd y). Qed.
Lemma word32_recurrence x : Forall word32 x -> word32 (mt_recurrence x).
Proof. intros Hx. unfold mt_recurrence. cbv zeta. auto 8 using word32_twist with words. Qed.

(** ** Tempering *)

(** A word that a shift by some bits, and a mask, do not change is zero. *)
Lemma shiftr_fixed z n : 0 < n -> 0 <= z -> z = Z.shiftr z n -> z = 0.
Proof.
  intros Hn Hz E. destruct (decide (z = 0)) as [|Hnz]; [done|]. exfalso. rewrite Z.shiftr_div_pow2 in E by lia.
  assert (2 <= 2 ^ n) by (change 2 with (2 ^ 1) at 1; apply Z.pow_le_mono_r; lia).
  assert (z / 2 ^ n < z) by (apply Z.div_lt; lia). lia.
Qed.
Lemma shiftl_fixed z n c : 0 < n -> 0 <= z -> z = Z.land (u32 (Z.shiftl z n)) c -> z = 0.
Proof.
  intros Hn Hz E. apply Z.bits_inj_0. intros i. destruct (decide (i < 0)) as [Hi|Hi]; [by apply Z.testbit_neg_r|].
  revert Hi. induction (Z.lt_wf 0 i) as [i _ IH]. intros Hi. rewrite E, Z.land_spec. unfold u32. change 4294967296 with (2 ^ 32).
  destruct (decide (i < 32)) as [H32|H32]; [|by rewrite Z.mod_pow2_bits_high by lia].
  rewrite Z.mod_pow2_bits_low, Z.shiftl_spec by lia. destruct (decide (i - n < 0)) as [Hl|Hl]; [by rewrite Z.testbit_neg_r|].
  rewrite IH by lia. done.
Qed.

Lemma temper_zero z : word32 z -> temper z = 0 -> z = 0.
Proof.
  intros Hz. unfold temper. cbv zeta. rewrite !Z.lxor_eq_0_iff.
  set (z1 := Z.lxor z _). set (z2 := Z.lxor z1 _). set (z3 := Z.lxor z2 _). intros E3.
  assert (word32 z1) as H1 by (unfold z1; auto with words zarith). assert (word32 z2) as H2 by (unfold z2; auto with words).
  assert (word32 z3) as H3 by (unfold z3; auto with words).
  apply shiftr_fixed in E3; [|lia|apply H3]. unfold z3 in E3. rewrite Z.lxor_eq_0_iff in E3.
  apply shiftl_fixed in E3; [|lia|apply H2]. unfold z2 in E3. rewrite Z.lxor_eq_0_iff in E3.
  apply shiftl_fixed in E3; [|lia|apply H1]. unfold z1 in E3. rewrite Z.lxor_eq_0_iff in E3.
  assert (Z.land (Z.shiftr z 11) 4294967295 = Z.shiftr z 11) as EL.
  { change 4294967295 with (Z.ones 32). rewrite Z.land_ones by lia. apply Z.mod_small. change (2 ^ 32) with 4294967296.
    by apply word32_shiftr. }
  rewrite EL in E3.
  apply shiftr_fixed in E3; [done|lia|apply Hz].
Qed.

(** ** The state *)

(** A state that gives only zeros: of the oldest word only the first bit is used. *)
Definition degenerate (x : mt19937) : Prop :=
  Z.land (word x 0) upper_mask = 0 /\ Forall (fun y => y = 0) (tail x).

Definition wf_mt (x : mt19937) : Prop := length x = state_size /\ Forall word32 x /\ ~ degenerate x.

Lemma twist_zero y : word32 y -> twist y = 0 -> y = 0.
Proof.
  intros Hy E. unfold twist in E. rewrite Z.lxor_eq_0_iff, Z.shiftr_div_pow2 in E by lia. change (2 ^ 1) with 2 in E. unfold word32 in Hy.
  destruct (Z.odd y) eqn:Ho; unfold xor_mask in E; [Z.div_mod_to_equations; lia|].
  pose proof (Zmod_odd y) as Hm. rewrite Ho in Hm. Z.div_mod_to_equations. lia.
Qed.

(** The two parts of a word. *)
Lemma masks_zero z : word32 z -> Z.land z upper_mask = 0 -> Z.land z lower_mask = 0 -> z = 0.
Proof.
  intros Hz H1 H2. rewrite <- (Z.lor_0_r 0), <- H1 at 1. rewrite <- H2, <- Z.land_lor_distr_r.
  change (Z.lor upper_mask lower_mask) with (Z.ones 32). rewrite Z.land_ones by lia. symmetry. by apply Z.mod_small.
Qed.

(** The state after a step is degenerate only if the state before was. *)
Lemma mt_next_alive x : length x = state_size -> Forall word32 x -> degenerate (mt_next x).2 -> degenerate x.
Proof.
  intros Hl Hx. destruct x as [|x0 [|x1 x]]; [done..|]. unfold mt_next, degenerate, mt_recurrence. cbn [fst snd tail app].
  change (word (x0 :: x1 :: x) 0) with x0. change (word (x1 :: x ++ _) 0) with x1. change (word (x0 :: x1 :: x) 1) with x1.
  set (y := Z.lor _ _). intros [H1 [H2 [Hz _]%Forall_cons_1]%Forall_app].
  assert (word (x0 :: x1 :: x) shift_size = 0) as E397.
  { change (word (x0 :: x1 :: x) shift_size) with (nth 395 x 0). cbn [length state_size] in Hl. unfold state_size in Hl.
    rewrite list.Forall_forall in H2. apply H2. apply list_elem_of_In, nth_In. simpl in Hl. lia. }
  rewrite E397, Z.lxor_0_l in Hz. apply Forall_cons_1 in Hx as [W0 [W1 _]%Forall_cons_1].
  apply twist_zero in Hz; [|unfold y; auto with words]. apply Z.lor_eq_0_iff in Hz as [Hu Hlow].
  split; [exact Hu|]. constructor; [by apply masks_zero|done].
Qed.

Lemma mt_next_wf x : wf_mt x -> wf_mt (mt_next x).2 /\ word32 (mt_next x).1.
Proof.
  intros (Hl & Hx & Ha). pose proof (word32_recurrence x Hx) as Hz. split; [|by apply word32_temper].
  split_and!; [| |intros Hd; by apply Ha, mt_next_alive].
  - unfold mt_next. cbn [snd]. rewrite length_app. destruct x; [done|]. simpl in *. lia.
  - unfold mt_next. cbn [snd]. apply Forall_app_2; [by destruct Hx|]. by constructor.
Qed.

(** The state after [n] numbers. *)
Fixpoint mt_after (n : nat) (x : mt19937) : mt19937 :=
  match n with
  | O => x
  | S n => mt_after n (mt_next x).2
  end.

Lemma mt_after_wf n : forall x, wf_mt x -> wf_mt (mt_after n x).
Proof. induction n as [|n IH]; intros x Hx; simpl; [done|]. by apply IH, mt_next_wf. Qed.
Lemma nth_random_after n : forall x, nth_random n x = (mt_next (mt_after n x)).1.
Proof. induction n as [|n IH]; intros x; simpl; [done|]. apply IH. Qed.
Lemma mt_after_add n i : forall x, mt_after (n + i) x = mt_after i (mt_after n x).
Proof. induction n as [|n IH]; intros x; simpl; [done|]. apply IH. Qed.

(** Zeros push the old words out of the state. *)
Lemma zeros_push n : forall x, wf_mt x -> (forall i, (i < n)%nat -> nth_random i x = 0) -> (n <= state_size)%nat ->
  mt_after n x = drop n x ++ replicate n 0.
Proof.
  induction n as [|n IH]; intros x Hx Hi Hn; [by rewrite drop_0, app_nil_r|].
  assert (mt_recurrence x = 0) as Hz.
  { apply temper_zero; [apply word32_recurrence, Hx|]. exact (Hi 0%nat ltac:(lia)). }
  cbn [mt_after]. rewrite IH; [|by apply mt_next_wf|intros i Hi'; apply (Hi (S i)); lia|lia].
  destruct Hx as (Hl & _). destruct x as [|x0 x]; [done|]. unfold mt_next. cbn [snd tail]. rewrite Hz.
  assert (n <= length x)%nat by (unfold state_size in *; simpl in Hl; lia).
  rewrite drop_app_le, <- app_assoc by done. done.
Qed.

Lemma not_all_zero x : wf_mt x -> exists i, (i < state_size)%nat /\ nth_random i x <> 0.
Proof.
  intros Hx. destruct (decide (Forall (fun i => nth_random i x = 0) (seq 0 state_size))) as [Hall|Hsome].
  - exfalso. pose proof Hall as Hz. rewrite List.Forall_forall in Hz.
    assert (mt_after state_size x = drop state_size x ++ replicate state_size 0) as E.
    { apply zeros_push; [done| |done]. intros i Hi. apply Hz, in_seq. lia. }
    destruct (mt_after_wf state_size x Hx) as (_ & _ & Ha). apply Ha. rewrite E, drop_ge by (destruct Hx; lia).
    split; [done|]. apply (Forall_replicate _ (state_size - 1) 0). done.
  - apply not_Forall_Exists in Hsome; [|solve_decision]. apply List.Exists_exists in Hsome as (i & Hi & Hne).
    exists i. apply in_seq in Hi. split; [lia|done].
Qed.

(** ** Seeding *)

Lemma Forall_put n k y b : word32 y -> Forall word32 b -> Forall word32 (put_mod n k y b).
Proof. intros Hy Hb. unfold put_mod. by apply Forall_insert. Qed.
Lemma length_put n k y b : length (put_mod n k y b) = length b.
Proof. apply length_insert. Qed.

Lemma generate_words v n : length (generate v n) = n /\ Forall word32 (generate v n).
Proof.
  assert (forall (step : list Z -> nat -> list Z),
    (forall b k, length (step b k) = length b /\ (Forall word32 b -> Forall word32 (step b k))) ->
    forall ks b, length (foldl step b ks) = length b /\ (Forall word32 b -> Forall word32 (foldl step b ks))) as Hfold.
  { intros step Hs. induction ks as [|k ks IH]; intros b; simpl; [done|]. destruct (Hs b k) as [L F], (IH (step b k)) as [L' F'].
    split; [congruence|auto]. }
  assert (forall b k, length (seed_add v n b k) = length b /\ (Forall word32 b -> Forall word32 (seed_add v n b k))) as Hadd.
  { intros b k. unfold seed_add. cbv zeta. rewrite !length_put. split; [done|]. intros Hb.
    apply Forall_put; [auto with words|]. apply Forall_put; [auto with words|]. apply Forall_put; [auto with words|done]. }
  assert (forall b k, length (seed_xor n b k) = length b /\ (Forall word32 b -> Forall word32 (seed_xor n b k))) as Hxor.
  { intros b k. unfold seed_xor. cbv zeta. rewrite !length_put. split; [done|]. intros Hb.
    assert (forall b j y, Forall word32 b -> word32 y -> Forall word32 (put_mod n j (Z.lxor (at_mod n b j) y) b)) as Hput.
    { intros b' j y Hb' Hy. apply Forall_put; [|done]. unfold at_mod. auto with words. }
    apply Forall_put; [auto with words|]. apply Hput; [|auto with words]. apply Hput; [done|auto with words]. }
  unfold generate. cbv zeta.
  destruct (Hfold _ Hadd (seq 0 (seed_m v n)) (replicate n 2341178251)) as [L1 F1].
  destruct (Hfold _ Hxor (seq (seed_m v n) n) (foldl (seed_add v n) (replicate n 2341178251) (seq 0 (seed_m v n)))) as [L2 F2].
  rewrite L2, L1, length_replicate. split; [done|]. apply F2, F1. by apply Forall_replicate.
Qed.

Lemma ask_device {D} (rd : D -> Z * D) n d : (ask rd n d).2 = Nat.iter n (fun d => (rd d).2) d.
Proof.
  revert d. induction n as [|n IH]; intros d; [done|]. cbn [ask]. rewrite Nat.iter_succ_r. specialize (IH (rd d).2).
  destruct (rd d) as [x d1]. cbn [snd] in *. by destruct (ask rd n d1) as [l d2].
Qed.

Lemma repaired_wf x :
  length x = state_size -> Forall word32 x ->
  wf_mt (if (Z.land (word x 0) upper_mask =? 0) && forallb (Z.eqb 0) (tail x) then <[0%nat := upper_mask]> x else x).
Proof.
  intros Hl Hw. destruct (_ && _) eqn:Eb.
  - split; [by rewrite length_insert|]. split; [by apply Forall_insert|]. destruct x as [|x0 x]; [done|]. by intros [H0 _].
  - split; [done|]. split; [done|]. intros [H0 Ht]. apply andb_false_iff in Eb as [Eb|Eb]; [by rewrite H0 in Eb|].
    assert (forallb (Z.eqb 0) (tail x) = true) as Hf; [|by rewrite Hf in Eb].
    apply forallb_forall. intros y Hy. rewrite List.Forall_forall in Ht. by rewrite (Ht y Hy).
Qed.

Lemma mt_seed_wf v : wf_mt (mt_seed v).
Proof. apply repaired_wf; apply generate_words. Qed.

(** ** Properties *)

(** The random numbers. Whatever the words of the device are, the generator that is seeded with
    them asks for 624 and its numbers are of 32 bits; it does not fall into a state that gives only
    zeros: among any 624 numbers in a row one is not zero. *)
Theorem generator_sound {D} (rd : D -> Z * D) (d : D) :
  let '(g, d') := get_random_generator rd d in
  d' = Nat.iter 624 (fun d => (rd d).2) d /\
  (forall n, 0 <= nth_random n g < 4294967296) /\
  (forall n, exists i, (i < 624)%nat /\ nth_random (n + i) g <> 0).
Proof.
  unfold get_random_generator. destruct (ask rd state_size d) as [v d'] eqn:Ea. split_and!.
  - change d' with (v, d').2. rewrite <- Ea. apply ask_device.
  - intros n. rewrite nth_random_after. apply mt_next_wf, mt_after_wf, mt_seed_wf.
  - intros n. destruct (not_all_zero (mt_after n (mt_seed v))) as (i & Hi & Hne); [apply mt_after_wf, mt_seed_wf|].
    exists i. split; [done|]. by rewrite nth_random_after, mt_after_add, <- nth_random_after.
Qed.

(** The number that the C++ standard requires of a generator without a seed. *)
Example mt19937_conforms : nth_random (Z.to_nat 9999) (mt_seed_value 5489) = 4123659995.
Proof. vm_compute. reflexivity. Qed.
