(* ===== verification/Cmdline.v ===== *)
(** * Command lines (get_config of src/apps/tcp_udp.cc and src/apps/tcp_ipv4.cc)

    The options of the two programs, with the functions of the C library they use. The arguments
    are C strings; reading beyond the last is not defined. [exit] is a value, the code, which
    ends the program. *)

From Stdlib Require Import SpecFloat.
From stdpp Require Import strings.
From S2P Require Import Prelude IO WrappingIntegers Address Adapter TCPSender Kernel FileDescriptor FdAdapter Text.

(** ** The C library *)

Definition argc (argv : list bytes) : Z := #argv.

Definition argv_at (argv : list bytes) (i : Z) : result bytes :=
  match (if 0 <=? i then argv !! Z.to_nat i else None) with
  | Some s => Ok s
  | None => Throw (undefined "argv")
  end.

(** [strncmp(a, b, n) == 0]; the end of a list is the terminating zero. *)
Fixpoint strncmp_eq (n : nat) (a b : bytes) : bool :=
  match n with
  | O => true
  | S n =>
      match a, b with
      | x :: a, y :: b => bool_decide (x = y) && strncmp_eq n a b
      | [], [] => true
      | _, _ => false
      end
  end.

(** The value of a digit in any base. *)
Definition digit_value (b : byte) : Z :=
  let c := byte_to_Z b in
  if (48 <=? c) && (c <=? 57) then c - 48
  else if (97 <=? c) && (c <=? 122) then c - 87
  else if (65 <=? c) && (c <=? 90) then c - 55
  else 36.

Fixpoint read_base (base acc : Z) (s : bytes) : Z :=
  match s with
  | b :: r => if digit_value b <? base then read_base base (acc * base + digit_value b) r else acc
  | [] => acc
  end.

Definition starts_with_hex (s : bytes) : bool :=
  match s with
  | b :: _ => digit_value b <? 16
  | [] => false
  end.

(** [strtol(s, nullptr, 0)]: the base is in the prefix; without digits the value is zero. *)
Definition strtol (s : bytes) : Z :=
  let s := skip_space s in
  let '(sign, s) :=
    match s with
    | b :: r => if byte_to_Z b =? 45 then (-1, r) else if byte_to_Z b =? 43 then (1, r) else (1, s)
    | [] => (1, s)
    end in
  let v :=
    match s with
    | x30 :: c :: r =>
        if ((byte_to_Z c =? 120) || (byte_to_Z c =? 88)) && starts_with_hex r then read_base 16 0 r
        else read_base 8 0 (c :: r)
    | _ => read_base 10 0 s
    end in
  Z.max (-9223372036854775808) (Z.min 9223372036854775807 (sign * v)).

(** [strtof] is an interface; a [float] is a number of IEEE 754, with 24 bits of precision. *)
Class FloatParser := strtof : bytes -> spec_float.

Definition float_mul : spec_float -> spec_float -> spec_float := SFmul 24 128.
(** [static_cast<float>(numeric_limits<uint16_t>::max())]. *)
Definition float_65535 : spec_float := S754_finite false 16776960 (-8).

(** Conversion to [uint16_t] truncates; a value that does not fit is not defined. *)
Definition float_to_u16 (f : spec_float) : result Z :=
  match f with
  | S754_zero _ => Ok 0
  | S754_finite negative m e =>
      let v := Z.shiftl (Z.pos m) e in
      if if negative then v =? 0 else v <=? 65535 then Ok v else Throw (undefined "float")
  | _ => Throw (undefined "float")
  end.

Section config.
Context {Res : Resolver} {FP : FloatParser}.

Definition loss_rate (arg : bytes) : result Z := float_to_u16 (float_mul float_65535 (strtof arg)).

Definition set_recv_capacity (n : Z) (c : TCPConfig) : TCPConfig :=
  mkTCPConfig (rt_timeout c) n (send_capacity c) (fixed_isn c).
Definition set_rt_timeout (n : Z) (c : TCPConfig) : TCPConfig :=
  mkTCPConfig n (recv_capacity c) (send_capacity c) (fixed_isn c).
Definition set_source (a : Address) (c : FdAdapterConfig) : FdAdapterConfig :=
  mkFdAdapterConfig a (destination c) (loss_rate_dn c) (loss_rate_up c).
Definition set_destination (a : Address) (c : FdAdapterConfig) : FdAdapterConfig :=
  mkFdAdapterConfig (source c) a (loss_rate_dn c) (loss_rate_up c).
Definition set_loss_dn (n : Z) (c : FdAdapterConfig) : FdAdapterConfig :=
  mkFdAdapterConfig (source c) (destination c) n (loss_rate_up c).
Definition set_loss_up (n : Z) (c : FdAdapterConfig) : FdAdapterConfig :=
  mkFdAdapterConfig (source c) (destination c) (loss_rate_dn c) n.

(** The variables of both functions; tcp_udp has no device and no source. *)
Record options := mkOptions {
  c_fsm : TCPConfig;
  c_filt : FdAdapterConfig;
  curr : Z;
  listen : bool;
  tundev : option bytes;
  source_address : bytes;
  source_port : bytes
}.

Definition advance (n : Z) (o : options) : options :=
  mkOptions (c_fsm o) (c_filt o) (curr o + n) (listen o) (tundev o) (source_address o) (source_port o).
Definition set_fsm (c : TCPConfig) (o : options) : options :=
  mkOptions c (c_filt o) (curr o) (listen o) (tundev o) (source_address o) (source_port o).
Definition set_filt (c : FdAdapterConfig) (o : options) : options :=
  mkOptions (c_fsm o) c (curr o) (listen o) (tundev o) (source_address o) (source_port o).
Definition set_listen (o : options) : options :=
  mkOptions (c_fsm o) (c_filt o) (curr o) true (tundev o) (source_address o) (source_port o).
Definition set_tundev (d : bytes) (o : options) : options :=
  mkOptions (c_fsm o) (c_filt o) (curr o) (listen o) (Some d) (source_address o) (source_port o).
Definition set_source_address (a : bytes) (o : options) : options :=
  mkOptions (c_fsm o) (c_filt o) (curr o) (listen o) (tundev o) a (source_port o).
Definition set_source_port (p : bytes) (o : options) : options :=
  mkOptions (c_fsm o) (c_filt o) (curr o) (listen o) (tundev o) (source_address o) p.

(** A turn of the loop goes on, or ends it: with an exit code, or with the options. *)
Abbreviation turn := (options + (Z + options))%type (only parsing).

Definition nl2 : bytes := [newline; newline].

(** ** tcp_udp *)

Definition udp_show_usage (argv0 : bytes) (msg : option bytes) (cout : ostream) : ostream :=
  let cout := cout << lit "Usage: " << argv0 << lit " [options] <host> <port>" << nl2
    << lit "   Option                                                          Default" << newline
    << lit "   --                                                              --" << nl2
    << lit "   -l              Server (listen) mode.                           (client mode)" << newline
    << lit "                   In server mode, <host>:<port> is the address to bind." << nl2
    << lit "   -w <winsz>      Use a window of <winsz> bytes                   " << MAX_PAYLOAD_SIZE
    << nl2
    << lit "   -t <tmout>      Set rt_timeout to tmout                         " << TIMEOUT_DFLT << nl2
    << lit "   -Lu <loss>      Set uplink loss to <rate> (float in 0..1)       (no loss)" << newline
    << lit "   -Ld <loss>      Set downlink loss to <rate> (float in 0..1)     (no loss)" << nl2
    << lit "   -h              Show this message and quit." << nl2 in
  let cout := match msg with Some msg => cout << msg | None => cout end in
  cout << newline.

(** [show_usage] and [exit]. *)
Definition usage_exit {A} (show : bytes -> option bytes -> ostream -> ostream) (argv : list bytes) (msg : option bytes)
    (code : Z) : io ostream (A + (Z + options)) :=
  argv0 ← of_result (argv_at argv 0);
  _ ← modify (show argv0 msg);
  mret (inr (inl code)).

(** [check_argc] and then the argument of the option, given to [f]. *)
Definition with_argument (show : bytes -> option bytes -> ostream -> ostream) (argv : list bytes) (o : options) (err : bytes)
    (f : bytes -> result options) : io ostream turn :=
  if curr o + 3 >=? argc argv then usage_exit show argv (Some err) 1
  else
    a ← of_result (argv_at argv (curr o + 1));
    o ← of_result (f a);
    mret (inl (advance 2 o)).

Definition unrecognized (a : bytes) : bytes := lit "ERROR: unrecognized option " ++ a.

Definition udp_config_turn (argv : list bytes) (o : options) : io ostream turn :=
  if negb (argc argv - curr o >? 2) then mret (inr (inr o))
  else
    a ← of_result (argv_at argv (curr o));
    if strncmp_eq 3 (lit "-l") a then mret (inl (advance 1 (set_listen o)))
    else if strncmp_eq 3 (lit "-w") a then
      with_argument udp_show_usage argv o (lit "ERROR: -w requires one argument.")
        (fun v => Ok (set_fsm (set_recv_capacity (u64 (strtol v)) (c_fsm o)) o))
    else if strncmp_eq 3 (lit "-t") a then
      with_argument udp_show_usage argv o (lit "ERROR: -t requires one argument.")
        (fun v => Ok (set_fsm (set_rt_timeout (u16 (strtol v)) (c_fsm o)) o))
    else if strncmp_eq 3 (lit "-Lu") a then
      with_argument udp_show_usage argv o (lit "ERROR: -Lu requires one argument.")
        (fun v => r ← loss_rate v; Ok (set_filt (set_loss_up r (c_filt o)) o))
    else if strncmp_eq 3 (lit "-Ld") a then
      with_argument udp_show_usage argv o (lit "ERROR: -Lu requires one argument.")
        (fun v => r ← loss_rate v; Ok (set_filt (set_loss_dn r (c_filt o)) o))
    else if strncmp_eq 3 (lit "-h") a then usage_exit udp_show_usage argv None 0
    else usage_exit udp_show_usage argv (Some (unrecognized a)) 1.

(** Every turn but the last takes an argument. *)
Definition config_loop (config_turn : list bytes -> options -> io ostream turn) (argv : list bytes) (o : options)
  : io ostream (Z + options) := iterate (length argv) (config_turn argv) o.

Definition udp_get_config (argv : list bytes) : io ostream (Z + (TCPConfig * FdAdapterConfig * bool)) :=
  c_filt0 ← of_result default_fd_config;
  r ← config_loop udp_config_turn argv (mkOptions default_config c_filt0 1 false None [] []);
  match r with
  | inl code => mret (inl code)
  | inr o =>
      c_filt ← (if listen o then
                  port ← of_result (argv_at argv (argc argv - 1));
                  a ← of_result (Address_of_host (lit "0") port);
                  mret (set_source a (c_filt o))
                else
                  host ← of_result (argv_at argv (argc argv - 2));
                  port ← of_result (argv_at argv (argc argv - 1));
                  a ← of_result (Address_of_host host port);
                  mret (set_destination a (c_filt o)));
      mret (inr (c_fsm o, c_filt, listen o))
  end.

(** ** tcp_ipv4 *)

Definition TUN_DFLT : bytes := lit "tun144".
Definition LOCAL_ADDRESS_DFLT : bytes := lit "169.254.144.9".

Definition ipv4_show_usage (argv0 : bytes) (msg : option bytes) (cout : ostream) : ostream :=
  let cout := cout << lit "Usage: " << argv0 << lit " [options] <host> <port>" << nl2
    << lit "   Option                                                          Default" << newline
    << lit "   --                                                              --" << nl2
    << lit "   -l              Server (listen) mode.                           (client mode)" << newline
    << lit "                   In server mode, <host>:<port> is the address to bind." << nl2
    << lit "   -a <addr>       Set source address (client mode only)           " << LOCAL_ADDRESS_DFLT << newline
    << lit "   -s <port>       Set source port (client mode only)              (random)" << nl2
    << lit "   -w <winsz>      Use a window of <winsz> bytes                   " << MAX_PAYLOAD_SIZE
    << nl2
    << lit "   -t <tmout>      Set rt_timeout to tmout                         " << TIMEOUT_DFLT << nl2
    << lit "   -d <tundev>     Connect to tun <tundev>                         " << TUN_DFLT << nl2
    << lit "   -Lu <loss>      Set uplink loss to <rate> (float in 0..1)       (no loss)" << newline
    << lit "   -Ld <loss>      Set downlink loss to <rate> (float in 0..1)     (no loss)" << nl2
    << lit "   -h              Show this message." << nl2 in
  let cout := match msg with Some msg => cout << msg | None => cout end in
  cout << newline.

Definition ipv4_config_turn (argv : list bytes) (o : options) : io ostream turn :=
  if negb (argc argv - curr o >? 2) then mret (inr (inr o))
  else
    a ← of_result (argv_at argv (curr o));
    if strncmp_eq 3 (lit "-l") a then mret (inl (advance 1 (set_listen o)))
    else if strncmp_eq 3 (lit "-a") a then
      with_argument ipv4_show_usage argv o (lit "ERROR: -a requires one argument.") (fun v => Ok (set_source_address v o))
    else if strncmp_eq 3 (lit "-s") a then
      with_argument ipv4_show_usage argv o (lit "ERROR: -s requires one argument.") (fun v => Ok (set_source_port v o))
    else if strncmp_eq 3 (lit "-w") a then
      with_argument ipv4_show_usage argv o (lit "ERROR: -w requires one argument.")
        (fun v => Ok (set_fsm (set_recv_capacity (u64 (strtol v)) (c_fsm o)) o))
    else if strncmp_eq 3 (lit "-t") a then
      with_argument ipv4_show_usage argv o (lit "ERROR: -t requires one argument.")
        (fun v => Ok (set_fsm (set_rt_timeout (u16 (strtol v)) (c_fsm o)) o))
    else if strncmp_eq 3 (lit "-d") a then
      with_argument ipv4_show_usage argv o (lit "ERROR: -t requires one argument.") (fun v => Ok (set_tundev v o))
    else if strncmp_eq 3 (lit "-Lu") a then
      with_argument ipv4_show_usage argv o (lit "ERROR: -Lu requires one argument.")
        (fun v => r ← loss_rate v; Ok (set_filt (set_loss_up r (c_filt o)) o))
    else if strncmp_eq 3 (lit "-Ld") a then
      with_argument ipv4_show_usage argv o (lit "ERROR: -Lu requires one argument.")
        (fun v => r ← loss_rate v; Ok (set_filt (set_loss_dn r (c_filt o)) o))
    else if strncmp_eq 3 (lit "-h") a then usage_exit ipv4_show_usage argv None 0
    else usage_exit ipv4_show_usage argv (Some (unrecognized a)) 1.

(** [device] is the number from [random_device]. *)
Definition ipv4_get_config (device : Z) (argv : list bytes)
  : io ostream (Z + (TCPConfig * FdAdapterConfig * bool * option bytes)) :=
  c_filt0 ← of_result default_fd_config;
  r ← config_loop ipv4_config_turn argv
        (mkOptions default_config c_filt0 1 false None LOCAL_ADDRESS_DFLT (to_string (u16 device)));
  match r with
  | inl code => mret (inl code)
  | inr o =>
      if listen o then
        port_text ← of_result (argv_at argv (curr o + 1));
        a ← of_result (Address_of_host (lit "0") port_text);
        p ← of_result (port a);
        if p =? 0 then
          argv0 ← of_result (argv_at argv 0);
          _ ← modify (ipv4_show_usage argv0 (Some (lit "ERROR: listen port cannot be zero in server mode.")));
          mret (inl 1)
        else mret (inr (c_fsm o, set_source a (c_filt o), true, tundev o))
      else
        host ← of_result (argv_at argv (curr o));
        port_text ← of_result (argv_at argv (curr o + 1));
        a ← of_result (Address_of_host host port_text);
        b ← of_result (Address_of_host (source_address o) (source_port o));
        mret (inr (c_fsm o, set_source b (set_destination a (c_filt o)), false, tundev o))
  end.
End config.

(** ** Safety *)

Lemma argv_at_ok argv i : 0 <= i < argc argv -> exists s, argv_at argv i = Ok s.
Proof.
  intros Hi. unfold argv_at, argc, Zlen in *. destruct (Z.leb_spec 0 i) as [_|?]; [|lia].
  destruct (lookup_lt_is_Some_2 argv (Z.to_nat i)) as [s ->]; [lia|]. by exists s.
Qed.

(** The argument of an option -Lu or -Ld is a loss rate that cannot be converted. *)
Definition bad_loss_rate {FP : FloatParser} (argv : list bytes) : Prop :=
  exists i opt arg, argv_at argv i = Ok opt /\ argv_at argv (i + 1) = Ok arg /\
    (strncmp_eq 3 (lit "-Lu") opt = true \/ strncmp_eq 3 (lit "-Ld") opt = true) /\
    loss_rate arg = Throw (undefined "float").

(** What can be thrown: the exceptions of the resolver, and a loss rate that is out of range. *)
Definition config_exn {FP : FloatParser} (argv : list bytes) (e : exn) : Prop :=
  tame_exn e \/ e = undefined "float" /\ bad_loss_rate argv.

Lemma wp_config_result {FP : FloatParser} argv {W A} (r : result A) (Q : A -> W -> Prop) w :
  (match r with Ok _ => True | Throw e => config_exn argv e | Diverge => False end) ->
  (forall a, r = Ok a -> Q a w) -> wp (of_result r) Q (fun e _ => config_exn argv e) w.
Proof. unfold wp, of_result. destruct r; auto. Qed.

Section safety.
Context {Res : Resolver} {FP : FloatParser}.

(** The fields have their types. *)
Definition typed_fsm (c : TCPConfig) : Prop :=
  0 <= rt_timeout c < 65536 /\ 0 <= recv_capacity c < 18446744073709551616 /\
  0 <= send_capacity c < 18446744073709551616 /\ fixed_isn c = None.
Definition typed_filt (c : FdAdapterConfig) : Prop := 0 <= loss_rate_dn c < 65536 /\ 0 <= loss_rate_up c < 65536.
Definition typed (o : options) : Prop := typed_fsm (c_fsm o) /\ typed_filt (c_filt o).

Lemma float_to_u16_range f n : float_to_u16 f = Ok n -> 0 <= n < 65536.
Proof.
  destruct f as [b|b| |b m e]; cbn; try done; [intros [= <-]; lia|]. pose proof (Z.shiftl_nonneg (Z.pos m) e).
  destruct b; case_if; try done; intros [= <-]; lia.
Qed.

Lemma float_to_u16_exn f : match float_to_u16 f with Ok _ => True | Throw e => e = undefined "float" | Diverge => False end.
Proof. destruct f as [b|b| |b m e]; cbn; try done. by case_if. Qed.

(** In the middle of the arguments. *)
Definition within (argv : list bytes) (o : options) : Prop := 1 <= curr o <= argc argv - 2 /\ typed o.

Definition turn_ok (argv : list bytes) (o : options) (r : options + (Z + options)) : Prop :=
  match r with
  | inl o' => within argv o' /\ curr o < curr o'
  | inr (inl code) => code = 0 \/ code = 1
  | inr (inr o') => within argv o' /\ curr o' = argc argv - 2
  end.

Lemma usage_exit_ok show argv msg code o cout :
  3 <= argc argv -> code = 0 \/ code = 1 ->
  wp (usage_exit show argv msg code) (fun r _ => turn_ok argv o r) (fun e _ => config_exn argv e) cout.
Proof.
  intros Hc Hcode. unfold usage_exit. wp_step. destruct (argv_at_ok argv 0) as [s Hs]; [lia|].
  eapply wp_of_result; [exact Hs|]. by wp_steps.
Qed.

Lemma with_argument_ok show argv o err f cout :
  3 <= argc argv -> within argv o ->
  (forall v, argv_at argv (curr o + 1) = Ok v ->
             match f v with
             | Ok o' => typed o' /\ curr o' = curr o
             | Throw e => config_exn argv e
             | Diverge => False
             end) ->
  wp (with_argument show argv o err f) (fun r _ => turn_ok argv o r) (fun e _ => config_exn argv e) cout.
Proof.
  intros Hc [Ho _] Hf. unfold with_argument. case_if; [apply usage_exit_ok; auto|]. wp_step.
  destruct (argv_at_ok argv (curr o + 1)) as [s Hs]; [lia|]. eapply wp_of_result; [exact Hs|]. wp_step. specialize (Hf s Hs).
  apply wp_config_result; [by destruct (f s)|]. intros o' E. rewrite E in Hf. destruct Hf as [Ht Hcur]. wp_step.
  unfold turn_ok, within. cbn [curr advance]. rewrite Hcur. split_and!; [lia|lia|exact Ht|lia].
Qed.

Lemma typed_capacity o n : typed o -> 0 <= n < 18446744073709551616 -> typed (set_fsm (set_recv_capacity n (c_fsm o)) o).
Proof. intros [(? & ? & ? & ?) ?] ?. split; [|done]. by repeat (split; [done|]). Qed.
Lemma typed_timeout o n : typed o -> 0 <= n < 65536 -> typed (set_fsm (set_rt_timeout n (c_fsm o)) o).
Proof. intros [(? & ? & ? & ?) ?] ?. split; [|done]. by repeat (split; [done|]). Qed.

Lemma loss_ok argv a (o : options) v (f : Z -> options) :
  argv_at argv (curr o) = Ok a -> argv_at argv (curr o + 1) = Ok v ->
  strncmp_eq 3 (lit "-Lu") a = true \/ strncmp_eq 3 (lit "-Ld") a = true -> typed o -> (forall r, 0 <= r < 65536 -> typed (f r) /\ curr (f r) = curr o) ->
  match (r ← loss_rate v; Ok (f r)) with
  | Ok o' => typed o' /\ curr o' = curr o
  | Throw e => config_exn argv e
  | Diverge => False
  end.
Proof.
  intros Ha Hv Hopt Ho Hf. pose proof (float_to_u16_exn (float_mul float_65535 (strtof v))) as He. fold (loss_rate v) in He.
  destruct (loss_rate v) as [r|e|] eqn:E; [|subst e; right; split; [done|by exists (curr o), a, v]|done].
  rewrite result_bind_Ok. by eapply Hf, float_to_u16_range.
Qed.

Ltac config_case Ha Ho :=
  first
    [ apply with_argument_ok; [done|done|intros v Hv];
      first
        [ eapply loss_ok; [exact Ha|eassumption|first [left; assumption|right; assumption]|apply Ho|]; intros r Hr; destruct Ho as [_ [Hfsm [? ?]]]; split; [split; [done|by split]|done]
        | split; [|done]; first [apply typed_capacity; [apply Ho|apply u64_range]|apply typed_timeout; [apply Ho|apply u16_range]|apply Ho] ]
    | apply usage_exit_ok; auto ].

Lemma config_turn_ok argv o cout :
  3 <= argc argv -> within argv o ->
  wp (udp_config_turn argv o) (fun r _ => turn_ok argv o r) (fun e _ => config_exn argv e) cout /\
  wp (ipv4_config_turn argv o) (fun r _ => turn_ok argv o r) (fun e _ => config_exn argv e) cout.
Proof.
  intros Hc Ho. destruct (argv_at_ok argv (curr o)) as [a Ha]; [destruct Ho; lia|].
  split; unfold udp_config_turn, ipv4_config_turn; (case_if; [wp_step; split; [done|destruct Ho; lia]|]);
    wp_step; (eapply wp_of_result; [exact Ha|]).
  all: (case_if; [wp_step; split; [|cbn; lia]; split; [cbn; destruct Ho; lia|apply Ho]|]).
  all: repeat (case_if; [config_case Ha Ho|]); try config_case Ha Ho.
Qed.

Lemma config_loop_ok config_turn argv o cout :
  (forall o cout, within argv o -> wp (config_turn argv o) (fun r _ => turn_ok argv o r) (fun e _ => config_exn argv e) cout) ->
  within argv o ->
  wp (config_loop config_turn argv o)
    (fun r _ => match r with
                | inl code => code = 0 \/ code = 1
                | inr o' => within argv o' /\ curr o' = argc argv - 2
                end) (fun e _ => config_exn argv e) cout.
Proof.
  intros Hturn Ho. apply (wp_iterate _ (fun o _ => within argv o) (fun o _ => Z.to_nat (argc argv - curr o))); [|destruct Ho; unfold argc, Zlen in *; lia|done].
  intros o' w Hw. eapply wp_mono; [by apply Hturn| |done]. intros [o2|[code|o2]] w'; try done.
  intros [H1 H2]. split; [done|]. destruct H1, Hw. lia.
Qed.

Lemma wp_tame_config argv {W A} (r : result A) (Q : A -> W -> Prop) w :
  tame r -> (forall a, r = Ok a -> Q a w) -> wp (of_result r) Q (fun e _ => config_exn argv e) w.
Proof. intros Hr HQ. apply wp_tame; [done|done|by left]. Qed.

Lemma wp_argv argv i (Q : bytes -> ostream -> Prop) E w :
  0 <= i < argc argv -> (forall s, Q s w) -> wp (of_result (argv_at argv i)) Q E w.
Proof. intros Hi HQ. destruct (argv_at_ok argv i Hi) as [s Hs]. eapply wp_of_result; [exact Hs|done]. Qed.

Lemma default_filt_ok c : default_fd_config = Ok c -> typed_filt c.
Proof.
  unfold default_fd_config. intros (a & _ & E)%result_bind_inv. apply result_bind_inv in E as (b & _ & [= <-]). by vm_compute.
Qed.
Lemma udp_get_config_ok argv cout : 3 <= argc argv ->
  wp (udp_get_config argv) (fun r _ =>
    match r with inl code => code = 0 \/ code = 1 | inr (c, f, _) => typed_fsm c /\ typed_filt f end)
    (fun e _ => config_exn argv e) cout.
Proof.
  intros Hc. unfold udp_get_config. wp_step.
  apply wp_tame_config; [unfold default_fd_config; tame_steps; apply tame_Address_of_ip|]. intros f Hf%default_filt_ok. wp_step.
  eapply wp_mono; [apply config_loop_ok; [intros o w Ho; by apply config_turn_ok|split; [cbn; lia|by split; [vm_compute|]]]| |done].
  intros [code|o] w; [intros ?; by wp_step|intros [[Ho [Hfsm Hfilt]] Hcur]].
  wp_step. case_if; wp_step; (apply wp_argv; [lia|intros s1]); wp_step.
  - apply wp_tame_config; [apply tame_Address_of_host|]. intros a _. by wp_steps.
  - apply wp_argv; [lia|intros s2]. wp_step. apply wp_tame_config; [apply tame_Address_of_host|]. intros a _. by wp_steps.
Qed.

Lemma ipv4_get_config_ok device argv cout : 3 <= argc argv ->
  wp (ipv4_get_config device argv) (fun r _ =>
    match r with inl code => code = 0 \/ code = 1 | inr (c, f, _, _) => typed_fsm c /\ typed_filt f end)
    (fun e _ => config_exn argv e) cout.
Proof.
  intros Hc. unfold ipv4_get_config. wp_step.
  apply wp_tame_config; [unfold default_fd_config; tame_steps; apply tame_Address_of_ip|]. intros f Hf%default_filt_ok. wp_step.
  eapply wp_mono; [apply config_loop_ok; [intros o w Ho; by apply config_turn_ok|split; [cbn; lia|by split; [vm_compute|]]]| |done].
  intros [code|o] w; [intros ?; by wp_step|intros [[Ho [Hfsm Hfilt]] Hcur]].
  case_if; wp_step; (apply wp_argv; [lia|intros s1]); wp_step.
  - apply wp_tame_config; [apply tame_Address_of_host|]. intros a _. wp_step. apply wp_tame_config; [apply tame_port|]. intros p _.
    case_if; [|by wp_step]. wp_step. apply wp_argv; [lia|intros s2]. wp_steps. by right.
  - apply wp_argv; [lia|intros s2]. wp_step. apply wp_tame_config; [apply tame_Address_of_host|]. intros a _. wp_step.
    apply wp_tame_config; [apply tame_Address_of_host|]. intros b _. by wp_step.
Qed.
End safety.

(** ** The language of options *)

(** The options of tcp_ipv4 as a list, how they are written, and what they mean. *)
Inductive opt :=
| OListen
| OAddress (a : bytes)
| OPort (p : bytes)
| OWindow (n : bytes)
| OTimeout (n : bytes)
| ODevice (d : bytes)
| OLossUp (r : bytes)
| OLossDown (r : bytes).

Definition written (p : opt) : list bytes :=
  match p with
  | OListen => [lit "-l"]
  | OAddress a => [lit "-a"; a]
  | OPort p => [lit "-s"; p]
  | OWindow n => [lit "-w"; n]
  | OTimeout n => [lit "-t"; n]
  | ODevice d => [lit "-d"; d]
  | OLossUp r => [lit "-Lu"; r]
  | OLossDown r => [lit "-Ld"; r]
  end.

Section meaning.
Context {Res : Resolver} {FP : FloatParser}.

Definition meaning (p : opt) (o : options) : result options :=
  match p with
  | OListen => Ok (set_listen o)
  | OAddress a => Ok (set_source_address a o)
  | OPort p => Ok (set_source_port p o)
  | OWindow n => Ok (set_fsm (set_recv_capacity (u64 (strtol n)) (c_fsm o)) o)
  | OTimeout n => Ok (set_fsm (set_rt_timeout (u16 (strtol n)) (c_fsm o)) o)
  | ODevice d => Ok (set_tundev d o)
  | OLossUp r => r ← loss_rate r; Ok (set_filt (set_loss_up r (c_filt o)) o)
  | OLossDown r => r ← loss_rate r; Ok (set_filt (set_loss_dn r (c_filt o)) o)
  end.

Fixpoint meanings (ps : list opt) (o : options) : result options :=
  match ps with
  | [] => Ok o
  | p :: ps => o ← meaning p o; meanings ps o
  end.

Definition command_line (argv0 : bytes) (ps : list opt) (host port : bytes) : list bytes :=
  argv0 :: concat (map written ps) ++ [host; port].

Lemma argv_at_app pre (s : bytes) post : argv_at (pre ++ s :: post) (#pre) = Ok s.
Proof.
  unfold argv_at. pose proof (Zlen_nonneg pre). destruct (Z.leb_spec 0 (#pre)); [|lia]. unfold Zlen. rewrite Nat2Z.id.
  by rewrite list_lookup_middle.
Qed.

Lemma with_argument_app show pre p v post o err f (cout : ostream) :
  (2 <= length post)%nat -> curr o = #pre ->
  with_argument show (pre ++ p :: v :: post) o err f cout = (o ← f v; Ok (inl (advance 2 o)), cout).
Proof.
  intros Hpost Hcur. unfold with_argument, argc. rewrite Hcur, Zlen_app, !Zlen_cons. pose proof (Zlen_nonneg post).
  destruct (Z.geb_spec (#pre + 3) (#pre + (1 + (1 + #post)))) as [?|_]; [unfold Zlen in *; lia|].
  replace (#pre + 1) with (#(pre ++ [p])) by (by rewrite Zlen_app).
  replace (pre ++ p :: v :: post) with ((pre ++ [p]) ++ v :: post) by (by rewrite <- app_assoc). rewrite argv_at_app.
  unfold mbind, io_bind, of_result. cbn. by destruct (f v).
Qed.

(** Compare the option with those before it. *)
Ltac decide_options :=
  repeat match goal with |- context [strncmp_eq ?n ?a ?b] =>
    let v := eval vm_compute in (strncmp_eq n a b) in change (strncmp_eq n a b) with v; cbv iota
  end.

(** One option: the turn does what it means and goes past it. *)
Lemma turn_meaning pre p post o (cout : ostream) :
  (2 <= length post)%nat -> curr o = #pre ->
  ipv4_config_turn (pre ++ written p ++ post) o cout =
    (o' ← meaning p o; Ok (inl (advance (#(written p)) o')), cout).
Proof.
  intros Hpost Hcur. unfold ipv4_config_turn.
  assert (exists a r, written p = a :: r) as (a & r & Hw) by (destruct p; by do 2 eexists).
  assert ((argc (pre ++ written p ++ post) - curr o >? 2) = true) as ->.
  { unfold argc. rewrite Hcur, Hw, !Zlen_app, Zlen_cons. pose proof (Zlen_nonneg r). unfold Zlen in *. lia. }
  cbn [negb]. rewrite Hcur.
  assert (argv_at (pre ++ written p ++ post) (#pre) = Ok a) as Ha by (rewrite Hw; apply argv_at_app).
  unfold mbind, io_bind, of_result. rewrite Ha.
  destruct p; injection Hw as <- <-; decide_options; [done|..];
    (match goal with |- context [written ?p] => change (written p ++ post) with ([hd [] (written p)] ++ [hd [] (tail (written p))] ++ post) end);
    cbn [written hd tail app]; rewrite with_argument_app by done; reflexivity.
Qed.

Lemma meaning_advance n p o : meaning p (advance n o) = (o' ← meaning p o; Ok (advance n o')).
Proof. destruct p; try done; cbn [meaning]; by destruct (loss_rate _). Qed.

Lemma advance_advance n m o : advance n (advance m o) = advance (m + n) o.
Proof. unfold advance. cbn. by rewrite Z.add_assoc. Qed.

Lemma meanings_advance n ps o : meanings ps (advance n o) = (o' ← meanings ps o; Ok (advance n o')).
Proof.
  revert o. induction ps as [|p ps IH]; intros o; [done|]. cbn [meanings]. rewrite meaning_advance.
  destruct (meaning p o) as [o1| |]; [|done..]. rewrite !result_bind_Ok. apply IH.
Qed.

Lemma meaning_curr p o o' : meaning p o = Ok o' -> curr o' = curr o.
Proof. destruct p; cbn [meaning]; try (intros [= <-]; done); by intros (? & _ & [= <-])%result_bind_inv. Qed.

Lemma length_written ps : (length ps <= length (concat (map written ps)))%nat.
Proof. induction ps as [|p ps IH]; [done|]. cbn [map concat]. rewrite length_app. destruct p; simpl in *; lia. Qed.

(** All of them, up to the last two arguments. *)
Lemma loop_meaning ps fuel pre post o (cout : ostream) :
  (length ps < fuel)%nat -> length post = 2%nat -> curr o = #pre ->
  iterate fuel (ipv4_config_turn (pre ++ concat (map written ps) ++ post)) o cout =
    (o' ← meanings ps o; Ok (inr (advance (#(concat (map written ps))) o')), cout).
Proof.
  revert fuel pre o. induction ps as [|p ps IH]; intros [|fuel] pre o Hf Hpost Hcur; cbn [length] in Hf; try lia.
  - cbn [iterate map concat app meanings]. unfold mbind at 1, io_bind. unfold ipv4_config_turn.
    assert ((argc (pre ++ post) - curr o >? 2) = false) as -> by (unfold argc; rewrite Hcur, Zlen_app; unfold Zlen; lia).
    cbn [negb]. unfold advance. cbn. rewrite Z.add_0_r. by destruct o.
  - cbn [iterate map concat meanings]. rewrite <- app_assoc. unfold mbind at 1, io_bind.
    rewrite turn_meaning; [|rewrite length_app; lia|done]. destruct (meaning p o) as [o1| |] eqn:E; [|done..].
    rewrite !result_bind_Ok. rewrite app_assoc. apply meaning_curr in E.
    rewrite IH; [|lia|done|cbn; rewrite Zlen_app; lia]. rewrite meanings_advance. destruct (meanings ps o1) as [o2| |]; [|done..].
    rewrite !result_bind_Ok, advance_advance, Zlen_app. done.
Qed.

Lemma meanings_curr ps o o' : meanings ps o = Ok o' -> curr o' = curr o.
Proof.
  revert o. induction ps as [|p ps IH]; intros o; cbn [meanings]; [by intros [= <-]|].
  intros (o1 & E1 & E2)%result_bind_inv. etransitivity; [by apply IH|by eapply meaning_curr].
Qed.

(** What a command line of tcp_ipv4 means: an exit code or a configuration. *)
Definition ipv4_meaning (device : Z) (ps : list opt) (host service : bytes)
  : result (Z + (TCPConfig * FdAdapterConfig * bool * option bytes)) :=
  f ← default_fd_config;
  o ← meanings ps (mkOptions default_config f 1 false None LOCAL_ADDRESS_DFLT (to_string (u16 device)));
  if listen o then
    a ← Address_of_host (lit "0") service;
    p ← port a;
    if p =? 0 then Ok (inl 1) else Ok (inr (c_fsm o, set_source a (c_filt o), true, tundev o))
  else
    a ← Address_of_host host service;
    b ← Address_of_host (source_address o) (source_port o);
    Ok (inr (c_fsm o, set_source b (set_destination a (c_filt o)), false, tundev o)).
End meaning.

(** ** Properties *)

(** C17: the option parsers are safe and give typed configurations. For every command line of three
    arguments or more, [get_config] of tcp_udp and of tcp_ipv4 ends and reads no argument beyond the last. It
    returns a configuration all of whose fields have their types; or exits with 0 or 1; or throws what the
    resolver throws; and the only other way to end, the conversion of a float out of range, needs an
    argument of -Lu or -Ld that is one. *)
Theorem get_config_typed {Res : Resolver} {FP : FloatParser} device argv cout : 3 <= argc argv ->
  wp (udp_get_config argv) (fun r _ =>
    match r with inl code => code = 0 \/ code = 1 | inr (c, f, _) => typed_fsm c /\ typed_filt f end)
    (fun e _ => tame_exn e \/ e = undefined "float" /\ bad_loss_rate argv) cout /\
  wp (ipv4_get_config device argv) (fun r _ =>
    match r with inl code => code = 0 \/ code = 1 | inr (c, f, _, _) => typed_fsm c /\ typed_filt f end)
    (fun e _ => tame_exn e \/ e = undefined "float" /\ bad_loss_rate argv) cout.
Proof.
  intros Hc. split; [by apply udp_get_config_ok|by apply ipv4_get_config_ok].
Qed.

(** C18: tcp_ipv4 understands every list of options. Written in any order and number before the host and the
    port, the options mean what they say, the last of a kind counting: [get_config]
    returns the configuration that they describe, or throws if an address or a loss rate
    is wrong, and prints nothing unless it exits. *)
Theorem ipv4_config_understood {Res : Resolver} {FP : FloatParser} device argv0 ps host service cout :
  exists cout', ipv4_get_config device (command_line argv0 ps host service) cout = (ipv4_meaning device ps host service, cout') /\
    ((forall code, ipv4_meaning device ps host service <> Ok (inl code)) -> cout' = cout).
Proof.
  unfold ipv4_get_config, ipv4_meaning. rewrite io_bind_run. unfold of_result at 1.
  destruct default_fd_config as [f| |]; [|by eexists..]. rewrite result_bind_Ok, io_bind_run. unfold config_loop, command_line.
  set (o0 := mkOptions _ _ _ _ _ _ _). set (argv := argv0 :: concat (map written ps) ++ [host; service]).
  pose proof (loop_meaning ps (length argv) [argv0] [host; service] o0 cout) as HL.
  cbn [app] in HL. fold argv in HL. rewrite HL; [|unfold argv; cbn; rewrite length_app; pose proof (length_written ps); simpl; lia|done|done]. clear HL.
  destruct (meanings ps o0) as [o| |] eqn:E; [|by eexists..]. rewrite !result_bind_Ok. apply meanings_curr in E.
  cbn [listen advance curr c_fsm c_filt tundev source_address source_port]. rewrite E. cbn [curr o0]. set (n := 1 + #(concat (map written ps))).
  assert (argv_at argv n = Ok host /\ argv_at argv (n + 1) = Ok service) as [Hh Hs].
  { pose proof (argv_at_app (argv0 :: concat (map written ps)) host [service]) as H1.
    pose proof (argv_at_app (argv0 :: concat (map written ps) ++ [host]) service []) as H2.
    rewrite Zlen_cons in H1, H2. rewrite Zlen_app in H2. split; [exact H1|]. rewrite <- H2. unfold n, argv. cbn [app].
    rewrite <- app_assoc. f_equal. change (Zlen [host]) with 1. lia. }
  destruct (listen o); rewrite !io_bind_run; unfold of_result at 1; rewrite ?Hh, ?Hs.
  - rewrite io_bind_run. unfold of_result at 1. destruct (Address_of_host _ service) as [a| |]; [|by eexists..]. rewrite result_bind_Ok, io_bind_run.
    unfold of_result at 1. destruct (port a) as [p| |]; [|by eexists..]. rewrite result_bind_Ok. case_if; [|by eexists].
    eexists. split; [done|]. intros Hno. by destruct (Hno 1).
  - rewrite io_bind_run. unfold of_result at 1. rewrite ?Hs, io_bind_run. unfold of_result at 1.
    destruct (Address_of_host host service) as [a| |]; [|by eexists..]. rewrite result_bind_Ok, io_bind_run. unfold of_result at 1.
    destruct (Address_of_host _ _) as [b| |]; by eexists.
Qed.

Section runs.
(** Every name is 10.0.0.2 port 1440. *)
Definition sample_resolver : Resolver := {|
  getaddrinfo _ _ _ := inr [(sockaddr_in 167772162 1440, 16)];
  getnameinfo _ _ _ := inr (lit "10.0.0.2", lit "1440");
  inet_ntoa := fun _ => []
|}.
#[local] Existing Instance sample_resolver.
(** Every number is one half. *)
#[local] Instance sample_floats : FloatParser := fun _ => S754_finite false 8388608 (-24).

Definition sample_line : list bytes :=
  [lit "tcp_udp"; lit "-l"; lit "-w"; lit "0x10"; lit "-t"; lit "70000"; lit "-Lu"; lit "0.5"; lit "0"; lit "1440"].

(** A window of sixteen bytes; the timeout is reduced to sixteen bits, half of 65535 is rounded down. *)
Definition sample_outcome (r : result (Z + (TCPConfig * FdAdapterConfig * bool))) : option (Z * Z * Z * bool) :=
  match r with
  | Ok (inr (c, f, l)) => Some (recv_capacity c, rt_timeout c, loss_rate_up f, l)
  | _ => None
  end.

Lemma get_config_typed_witness :
  sample_outcome (udp_get_config sample_line new_stream).1 = Some (16, 4464, 32767, true) /\
  exists c f l w, udp_get_config sample_line new_stream = (Ok (inr (c, f, l)), w) /\ typed_fsm c.
Proof.
  assert (3 <= argc sample_line) as Hc by (vm_compute; discriminate).
  destruct (get_config_typed 0 sample_line new_stream Hc) as [HU _].
  assert (sample_outcome (udp_get_config sample_line new_stream).1 = Some (16, 4464, 32767, true)) as HE by (vm_compute; reflexivity).
  split; [exact HE|]. apply wp_run in HU as [(r & w & E & HQ)|(e & w & E & _)]; rewrite E in HE; [|discriminate HE].
  destruct r as [code|[[c f] l]]; [discriminate HE|]. exists c, f, l, w. split; [exact E|exact (proj1 HQ)].
Defined.
End runs.
