(* ===== verification/Tcpdump.v ===== *)
(** * udp_tcpdump (src/apps/udp_tcpdump.cc)

    The program captures packets with libpcap and prints the TCP segments that their UDP
    payloads hold. The capture library and [inet_ntop] are the interface [Pcap]. A packet is
    the bytes that were captured; reading a byte that was not is not defined. *)

From stdpp Require Import strings.
From S2P Require Import Prelude IO WrappingIntegers Buffer Parser TCPHeader TCPSegment Kernel FileDescriptor FdAdapter Text Cmdline.

(** ** The capture library *)

(** [pcap_next_ex] gives its value, and the packet if the value is 1. The data-link types are
    those of the library's header. *)
Class Pcap (P : Type) := {
  pcap_open_live : option bytes -> P -> option bytes * P; (* the text of an error *)
  pcap_datalink : P -> Z;
  pcap_datalink_val_to_description : Z -> bytes;
  pcap_compile : bytes -> P -> Z * P;
  pcap_setfilter : P -> Z * P;
  pcap_geterr : P -> bytes;
  pcap_next_ex : P -> Z * bytes * P;
  pcap_close : P -> P;
  inet_ntop : Z -> bytes -> option bytes
}.

Definition DLT_NULL : Z := 0.
Definition DLT_EN10MB : Z := 1.
Definition DLT_RAW : Z := 12.
Definition DLT_LINUX_SLL : Z := 113.
Definition DLT_LINUX_SLL2 : Z := 276.

Definition AF_INET6 : Z := 10.

(** [data[i]]. *)
Definition data_at (data : bytes) (i : Z) : result Z :=
  match (if 0 <=? i then data !! Z.to_nat i else None) with
  | Some b => Ok (byte_to_Z b)
  | None => Throw (undefined "data")
  end.

(** The [n] bytes at [data + i]. *)
Definition data_range (data : bytes) (i n : Z) : result bytes :=
  if (0 <=? i) && (i + n <=? #data) then Ok (take (Z.to_nat n) (drop (Z.to_nat i) data)) else Throw (undefined "data").

Section tcpdump.
Context {P : Type} `{Pcap P}.

(** ** Packets *)

Definition inet4_addr (data : bytes) (i : Z) : result bytes :=
  addr ← data_range data i 4;
  Ok (default (lit "unknown") (inet_ntop Address.AF_INET addr)).
Definition inet6_addr (data : bytes) (i : Z) : result bytes :=
  addr ← data_range data i 16;
  Ok (default (lit "unknown") (inet_ntop AF_INET6 addr)).

(** The loop over the extension headers of IPv6: it returns the offset of the UDP header, or -1. *)
Fixpoint skip_extensions (fuel : nat) (len : Z) (data : bytes) (nxt data_offset : Z) : result Z :=
  match fuel with
  | O => Diverge
  | S fuel =>
      if nxt =? 17 then Ok data_offset
      else if negb (nxt =? 0) && negb (nxt =? 43) && negb (nxt =? 60) then Ok (-1)
      else
        nxt ← data_at data data_offset;
        n ← data_at data (data_offset + 1);
        let data_offset := data_offset + 8 * (1 + n) in
        if len <? data_offset + 2 then Ok (-1) else skip_extensions fuel len data nxt data_offset
  end.

(** The offset of the payload, or -1; and the two addresses. *)
Definition process_ipv4_ipv6 (len : Z) (data : bytes) : result (Z * bytes * bytes) :=
  if len <? 1 then Ok (-1, [], [])
  else
    d0 ← data_at data 0;
    let pt := Z.land d0 240 in
    if pt =? 64 then
      let data_offset := Z.land d0 15 * 4 in
      if len <? data_offset then Ok (-1, [], [])
      else
        proto ← data_at data 9;
        if negb (proto =? 17) then Ok (-1, [], [])
        else
          src_addr ← inet4_addr data 12;
          dst_addr ← inet4_addr data 16;
          Ok (data_offset + 8, src_addr, dst_addr)
    else if pt =? 96 then
      if len <? 42 then Ok (-1, [], [])
      else
        nxt ← data_at data 6;
        data_offset ← skip_extensions (Z.to_nat len) len data nxt 40;
        if data_offset <? 0 then Ok (-1, [], [])
        else
          src_addr ← inet6_addr data 8;
          dst_addr ← inet6_addr data 24;
          Ok (data_offset + 8, src_addr, dst_addr)
    else Ok (-1, [], []).

(** What the link header says: the packet is skipped, the type is not known, or the offset of
    the datagram. *)
Inductive link := Skip | Mysterious | Datagram (hdr_off : Z).

Definition ip_type (data : bytes) (i : Z) : result bool :=
  hi ← data_at data i;
  lo ← data_at data (i + 1);
  let pt := Z.lor (Z.shiftl hi 8) lo in
  Ok ((pt =? 2048) || (pt =? 34525)).

Definition link_header (dl_type : Z) (pkt_data : bytes) : result link :=
  let caplen := #pkt_data in
  let with_type hdr_off i :=
    if caplen <? hdr_off then Ok Skip
    else ip ← ip_type pkt_data i; Ok (if (ip : bool) then Datagram hdr_off else Skip) in
  if dl_type =? DLT_NULL then
    if caplen <? 4 then Ok Skip
    else
      pt ← data_at pkt_data 3;
      Ok (if negb (pt =? 2) && negb (pt =? 24) && negb (pt =? 28) && negb (pt =? 30) then Skip else Datagram 4)
  else if dl_type =? DLT_EN10MB then with_type 14 12
  else if dl_type =? DLT_LINUX_SLL then with_type 16 14
  else if dl_type =? DLT_LINUX_SLL2 then with_type 20 0
  else if negb (dl_type =? DLT_RAW) then Ok Mysterious
  else Ok (Datagram 0).

(** [string(payload)] of [payload_len] bytes from [payload_off]: [max_size] is 2^63 - 1. *)
Definition payload_string (pkt_data : bytes) (payload_off payload_len : Z) : result bytes :=
  if payload_len >? 9223372036854775807 then Throw length_error
  else data_range pkt_data payload_off payload_len.

Definition beyond_BadChecksum (r : ParseResult) : bool :=
  match r with
  | NoError | BadChecksum => false
  | _ => true
  end.

(** The segment, if it was recognized. *)
Definition print_segment (src dst : bytes) (payload_len : Z) (res : ParseResult) (seg : TCPSegment) (cout : ostream) : ostream :=
  let tcp_hdr := header seg in
  let seqlen := u32 (length_in_sequence_space seg) in
  let cout := cout << src << lit ":" << sport tcp_hdr << lit " > " << dst << lit ":" << dport tcp_hdr << newline << lit "    Flags ["
    << (if urg tcp_hdr then lit "U" else []) << (if psh tcp_hdr then lit "P" else []) << (if rst tcp_hdr then lit "R" else [])
    << (if syn tcp_hdr then lit "S" else []) << (if fin tcp_hdr then lit "F" else []) << (if ack tcp_hdr then lit "." else [])
    << lit "] cksum 0x" << hex << setw 4 << cksum tcp_hdr << dec
    << (if bool_decide (res = NoError) then lit " (correct)" else lit " (incorrect!)")
    << lit " seq " << seqno tcp_hdr in
  let cout := if seqlen >? 0 then cout << lit ":" << wi_plus (seqno tcp_hdr) seqlen else cout in
  cout << lit " ack " << ackno tcp_hdr << lit " win " << win tcp_hdr << lit " length " << payload_len << newline.

(** The rest of a turn, for a packet: an exit code ends the program. *)
Definition print_packet (dl_type : Z) (pkt_data : bytes) : io ostream (option Z) :=
  l ← of_result (link_header dl_type pkt_data);
  match l with
  | Skip => mret None
  | Mysterious => mret (Some EXIT_FAILURE)
  | Datagram hdr_off =>
      r ← of_result (process_ipv4_ipv6 (#pkt_data - hdr_off) (drop (Z.to_nat hdr_off) pkt_data));
      let '(start_off, src, dst) := r in
      if start_off <? 0 then mret None
      else
        let payload_off := hdr_off + start_off in
        let payload_len := u64 (#pkt_data - payload_off) in
        payload ← of_result (payload_string pkt_data payload_off payload_len);
        r ← of_result (parse_segment (Buffer_of payload) 0 default_segment);
        let '(res, seg) := r in
        _ ← (if beyond_BadChecksum res
             then modify (fun cout => cout << lit "(did not recognize TCP header) src: " << src << lit " dst: " << dst << newline)
             else modify (print_segment src dst payload_len res seg));
        _ ← modify (hexdump payload 8);
        mret None
  end.

(** ** The command line *)

Definition dump_show_usage (arg0 : bytes) (errmsg : option bytes) (cout : ostream) : ostream :=
  let cout := cout << lit "Usage: " << arg0 << lit " [-i <intf>] [-F <file>] [-h|--help] <expression>" << nl2
    << lit "  -i <intf>    only capture packets from <intf> (default: all)" << nl2
    << lit "  -F <file>    reads in a filter expression from <file>" << newline
    << lit "               <expression> is ignored if -F is supplied." << nl2
    << lit "  -h, --help   show this message" << nl2
    << lit "  <expression> a filter expression in pcap-filter(7) syntax" << newline in
  let cout := match errmsg with Some errmsg => cout << newline << errmsg | None => cout end in
  cout << newline.

(** A turn of [parse_arguments]: the next position and the device so far; or the end, by [exit] or not. *)
Definition arguments_turn (argv : list bytes) (st : Z * option bytes)
  : io ostream ((Z * option bytes) + (Z + Z * option bytes)) :=
  let '(curr, dev) := st in
  let leave errmsg code :=
    arg0 ← of_result (argv_at argv 0);
    _ ← modify (dump_show_usage arg0 errmsg);
    mret (inr (inl code)) in
  if negb (curr <? argc argv) then mret (inr (inr st))
  else
    a ← of_result (argv_at argv curr);
    if strncmp_eq 3 (lit "-i") a then
      if curr + 1 >=? argc argv then leave (Some (lit "ERROR: -i requires an argument")) 1
      else
        d ← of_result (argv_at argv (curr + 1));
        mret (inl (curr + 2, Some d))
    else if strncmp_eq 3 (lit "-h") a || strncmp_eq 7 (lit "--help") a then leave None 0
    else mret (inr (inr st)).

Definition parse_arguments (argv : list bytes) : io ostream (Z + Z * option bytes) :=
  iterate (S (length argv)) (arguments_turn argv) (1, None).

(** ** The program *)

Abbreviation world := (P * ostream)%type (only parsing).

Definition pcap {A} (f : P -> A * P) : io P A := fun p => let '(a, p) := f p in (Ok a, p).
Definition print (f : ostream -> ostream) : io world unit := on_snd (modify f).

Definition supported (dlt : Z) : bool :=
  (dlt =? DLT_RAW) || (dlt =? DLT_NULL) || (dlt =? DLT_EN10MB) || (dlt =? DLT_LINUX_SLL) || (dlt =? DLT_LINUX_SLL2).

(** The handle and the data-link type, or an exit code. *)
Definition open_capture (dev : option bytes) : io world (Z + Z) :=
  _ ← print (fun cout => match dev with
                         | Some dev => cout << lit "Capturing on interface " << dev
                         | None => cout << lit "Capturing on all interfaces"
                         end);
  e ← on_fst (pcap (pcap_open_live dev));
  match e with
  | Some errbuf => _ ← print (fun cout => cout << newline << lit "Error initiating capture: " << errbuf << newline); mret (inl 1)
  | None =>
      dlt ← gets (fun w => pcap_datalink w.1);
      if negb (supported dlt) then
        _ ← print (fun cout => cout << newline << lit "Error: unsupported datalink type " << pcap_datalink_val_to_description dlt << newline);
        mret (inl 1)
      else
        _ ← print (fun cout => cout << lit " (type: " << pcap_datalink_val_to_description dlt << lit ")" << newline);
        mret (inr dlt)
  end.

(** [f_stream << argv[i] << ' '] for the rest of the arguments. *)
Definition filter_of (argv : list bytes) (exp_start : Z) : bytes :=
  concat (map (fun a => a ++ lit " ") (drop (Z.to_nat exp_start) argv)).

(** The exit code, if the filter is not accepted. *)
Definition set_filter (filter_expression : bytes) : io world (option Z) :=
  _ ← print (fun cout => cout << lit "Using filter expression: " << filter_expression << newline);
  r ← on_fst (pcap (pcap_compile filter_expression));
  if negb (r =? 0) then
    err ← gets (fun w => pcap_geterr w.1);
    _ ← print (fun cout => cout << lit "Error compiling filter expression: " << err << newline);
    mret (Some EXIT_FAILURE)
  else
    r ← on_fst (pcap pcap_setfilter);
    if negb (r =? 0) then
      err ← gets (fun w => pcap_geterr w.1);
      _ ← print (fun cout => cout << lit "Error configuring packet filter: " << err << newline);
      mret (Some EXIT_FAILURE)
    else mret None.

(** After the loop the handle is closed; the text of its error is then asked for, which is not
    defined. *)
Definition capture_turn (dl_type : Z) (_ : unit) : io world (unit + Z) :=
  r ← on_fst (pcap (fun p => let '(next_ret, pkt, p) := pcap_next_ex p in ((next_ret, pkt), p)));
  let '(next_ret, pkt_data) := r in
  if next_ret <? 0 then
    _ ← on_fst (modify pcap_close);
    if next_ret =? -1 then throw (undefined "p_hdl") else mret (inr EXIT_SUCCESS)
  else if next_ret =? 0 then mret (inl tt)
  else
    code ← on_snd (print_packet dl_type pkt_data);
    mret (match code with Some code => inr code | None => inl tt end).

(** [main]; at most [fuel] packets and timeouts. Messages to cerr are left out. *)
Definition main (fuel : nat) (argv : list bytes) : io world Z :=
  r ← on_snd (parse_arguments argv);
  match r with
  | inl code => mret code
  | inr (exp_start, dev) =>
      dlt ← open_capture dev;
      match dlt with
      | inl code => mret code
      | inr dl_type =>
          e ← set_filter (filter_of argv exp_start);
          match e with
          | Some code => mret code
          | None =>
              _ ← print (fun cout => cout << setfill x30);
              iterate fuel (capture_turn dl_type) tt
          end
      end
  end.
End tcpdump.

(** ** Lemmas *)

Lemma data_at_ok data i : 0 <= i < #data -> exists n, data_at data i = Ok n /\ 0 <= n < 256.
Proof.
  intros Hi. unfold data_at, Zlen in *. destruct (Z.leb_spec 0 i); [|lia].
  destruct (lookup_lt_is_Some_2 data (Z.to_nat i)) as [b ->]; [lia|]. eexists. split; [done|apply byte_to_Z_range].
Qed.

Lemma data_at_throws data i : match data_at data i with Ok n => 0 <= i < #data | Throw e => e = undefined "data" /\ ~ (0 <= i < #data) | Diverge => False end.
Proof.
  destruct (decide (0 <= i < #data)) as [Hi|Hi].
  - by destruct (data_at_ok data i Hi) as (n & -> & _).
  - unfold data_at, Zlen in *. destruct (Z.leb_spec 0 i); [|by split; [|lia]].
    rewrite lookup_ge_None_2 by lia. by split.
Qed.

Lemma data_range_ok data i n : 0 <= i -> i + n <= #data ->
  data_range data i n = Ok (take (Z.to_nat n) (drop (Z.to_nat i) data)).
Proof. intros H1 H2. unfold data_range. case_if; [done|lia]. Qed.

Section packets.
Context {P : Type} `{Pcap P}.

(** The loop reads inside the packet and ends: every turn moves on by eight bytes or more. *)
Lemma skip_extensions_ok fuel data nxt off :
  0 <= off -> off + 2 <= #data -> (Z.to_nat (#data - off) < fuel)%nat ->
  exists r, skip_extensions fuel (#data) data nxt off = Ok r /\ (r = -1 \/ off <= r /\ r + 2 <= #data).
Proof.
  revert nxt off. induction fuel as [|fuel IH]; intros nxt off H1 H2 Hf; [lia|]. cbn [skip_extensions].
  case_if; [eexists; split; [done|right; lia]|]. case_if; [eexists; split; [done|by left]|].
  destruct (data_at_ok data off) as (n & -> & Hn); [lia|]. destruct (data_at_ok data (off + 1)) as (k & -> & Hk); [lia|].
  rewrite !result_bind_Ok. case_if; [eexists; split; [done|by left]|].
  destruct (IH n (off + 8 * (1 + k))) as (r & E & Hr); [lia..|]. exists r. split; [done|]. destruct Hr; [by left|right; lia].
Qed.

(** The first byte of an IPv4 packet. *)
Definition is_ipv4 (data : bytes) : bool :=
  match data with
  | b :: _ => Z.land (byte_to_Z b) 240 =? 64
  | [] => false
  end.

(** The offset of the payload lies in the packet or up to eight bytes beyond it; only an IPv4
    packet of less than twenty bytes is read beyond its end. *)
Lemma process_outcome data :
  match process_ipv4_ipv6 (#data) data with
  | Ok (off, _, _) => off = -1 \/ 8 <= off <= #data + 8
  | Throw e => e = undefined "data" /\ is_ipv4 data = true /\ #data < 20
  | Diverge => False
  end.
Proof.
  unfold process_ipv4_ipv6. case_if; [by left|]. destruct data as [|b data]; [done|]. set (d := b :: data) in *.
  change (data_at d 0) with (Ok (byte_to_Z b)). rewrite result_bind_Ok. pose proof (byte_to_Z_range b). case_if.
  - assert (0 <= Z.land (byte_to_Z b) 15) by (apply Z.land_nonneg; lia). case_if; [by left|].
    assert (is_ipv4 d = true) as Hip by done.
    pose proof (data_at_throws d 9) as H9. destruct (data_at d 9) as [proto| |]; [|split_and!; [apply H9|done|lia]|done].
    rewrite result_bind_Ok. case_if; [by left|]. unfold inet4_addr, data_range.
    destruct (decide (20 <= #d)) as [Hlen|Hshort].
    + case_if; [|lia]. rewrite !result_bind_Ok. case_if; [|lia]. rewrite !result_bind_Ok. right. lia.
    + destruct ((0 <=? 16) && (16 + 4 <=? #d)) eqn:?; [lia|]. destruct ((0 <=? 12) && _); refine (conj _ (conj _ _)); done || lia.
  - case_if; [|by left]. case_if; [by left|]. destruct (data_at_ok d 6) as (nxt & -> & _); [lia|]. rewrite result_bind_Ok.
    destruct (skip_extensions_ok (Z.to_nat (#d)) d nxt 40) as (r & -> & Hr); [lia..|]. rewrite result_bind_Ok. case_if; [by left|].
    unfold inet6_addr. rewrite !data_range_ok by lia. rewrite !result_bind_Ok. right. destruct Hr; lia.
Qed.

Lemma ip_type_ok data i : 0 <= i -> i + 1 < #data -> exists b, ip_type data i = Ok b.
Proof.
  intros H1 H2. unfold ip_type. destruct (data_at_ok data i) as (hi & -> & _); [lia|].
  destruct (data_at_ok data (i + 1)) as (lo & -> & _); [lia|]. by eexists.
Qed.

(** The link header is read only where it was captured. *)
Lemma link_header_ok dl_type pkt :
  exists l, link_header dl_type pkt = Ok l /\ match l with Datagram hdr_off => 0 <= hdr_off <= #pkt | _ => True end.
Proof.
  unfold link_header. pose proof (Zlen_nonneg pkt). case_if.
  { case_if; [by eexists|]. destruct (data_at_ok pkt 3) as (pt & -> & _); [lia|]. rewrite result_bind_Ok.
    eexists. split; [done|]. case_if; [done|lia]. }
  assert (forall hdr_off i, 0 <= i -> i + 1 < hdr_off ->
    exists l, (if #pkt <? hdr_off then Ok Skip
               else ip ← ip_type pkt i; Ok (if (ip : bool) then Datagram hdr_off else Skip)) = Ok l /\
      match l with Datagram hdr_off => 0 <= hdr_off <= #pkt | _ => True end) as Htype.
  { intros hdr_off i H1 H2. case_if; [by eexists|]. destruct (ip_type_ok pkt i) as [b ->]; [lia..|]. rewrite result_bind_Ok.
    eexists. split; [done|]. destruct b; [lia|done]. }
  do 3 (case_if; [apply Htype; lia|]). case_if; eexists; (split; [done|]); [done|cbn; lia].
Qed.

Lemma data_range_length (data : bytes) i n : 0 <= i -> 0 <= n -> i + n <= #data -> #(take (Z.to_nat n) (drop (Z.to_nat i) data)) <= n.
Proof. intros. unfold Zlen. rewrite length_take. lia. Qed.

(** Where the payload of a packet starts, if it holds a UDP datagram, and the addresses. *)
Definition datagram_at (dl_type : Z) (pkt : bytes) (payload_off : Z) (src dst : bytes) : Prop :=
  exists hdr_off start_off, link_header dl_type pkt = Ok (Datagram hdr_off) /\
    process_ipv4_ipv6 (#pkt - hdr_off) (drop (Z.to_nat hdr_off) pkt) = Ok (start_off, src, dst) /\ 0 <= start_off /\
    payload_off = hdr_off + start_off.
Definition payload_at (dl_type : Z) (pkt : bytes) (payload_off : Z) : Prop :=
  exists src dst, datagram_at dl_type pkt payload_off src dst.

(** What is printed for a payload: the segment, or that there is none, and the bytes. *)
Definition payload_printed (src dst payload : bytes) (cout cout' : ostream) : Prop :=
  exists res seg, parse_segment (Buffer_of payload) 0 default_segment = Ok (res, seg) /\
    cout' = hexdump payload 8
      (if beyond_BadChecksum res
       then cout << lit "(did not recognize TCP header) src: " << src << lit " dst: " << dst << newline
       else print_segment src dst (#payload) res seg cout).

(** The link types that are known. *)
Lemma link_header_supported dl_type pkt : link_header dl_type pkt = Ok Mysterious <-> supported dl_type = false.
Proof.
  assert (forall hdr_off i, (if #pkt <? hdr_off then Ok Skip
    else ip ← ip_type pkt i; Ok (if (ip : bool) then Datagram hdr_off else Skip)) <> Ok Mysterious) as Hno.
  { intros hdr_off i. case_if; [done|]. destruct (ip_type pkt i) as [[]| |]; done. }
  unfold link_header, supported. destruct (dl_type =? DLT_NULL) eqn:E1; rewrite ?orb_true_r.
  { split; [|done]. case_if; [done|]. destruct (data_at pkt 3) as [n| |]; [|done..]. rewrite result_bind_Ok. by case_if. }
  destruct (dl_type =? DLT_EN10MB); rewrite ?orb_true_r; [split; [intros []%Hno|done]|].
  destruct (dl_type =? DLT_LINUX_SLL); rewrite ?orb_true_r; [split; [intros []%Hno|done]|].
  destruct (dl_type =? DLT_LINUX_SLL2); rewrite ?orb_true_r; [split; [intros []%Hno|done]|].
  rewrite !orb_false_r. by destruct (dl_type =? DLT_RAW).
Qed.

(** An IPv4 packet of which less than a header was captured. *)
Definition short_ipv4 (dl_type : Z) (pkt : bytes) : Prop :=
  exists hdr_off, link_header dl_type pkt = Ok (Datagram hdr_off) /\ is_ipv4 (drop (Z.to_nat hdr_off) pkt) = true /\ #pkt - hdr_off < 20.

End packets.

(** ** Properties *)

(** C14: what a packet does to udp_tcpdump. A packet of an unknown data-link type ends the program with
    EXIT_FAILURE and nothing else does in order. Of any other type, whatever its bytes, a packet that holds a UDP
    datagram is printed, with its addresses, what the TCP parser makes of the payload, and the payload's
    bytes; a packet without one is skipped and prints nothing. The captured bytes are the only ones that are read,
    except in an IPv4 packet of which less than twenty were captured; and if the UDP header was
    not captured to its end, and only then, the length of the payload wraps around and an
    exception ends the program. Nothing is printed of a packet that throws. *)
Theorem print_packet_outcome {P} `{Pcap P} dl_type pkt cout :
  #pkt < 4294967296 ->
  match print_packet dl_type pkt cout with
  | (Ok r, cout') => r = (if supported dl_type then None else Some EXIT_FAILURE) /\
      (forall off src dst, datagram_at dl_type pkt off src dst ->
         off <= #pkt /\ payload_printed src dst (drop (Z.to_nat off) pkt) cout cout') /\
      ((forall off, ~ payload_at dl_type pkt off) -> cout' = cout)
  | (Throw e, cout') => cout' = cout /\
      (e = undefined "data" /\ short_ipv4 dl_type pkt \/ e = length_error /\ exists off, payload_at dl_type pkt off /\ #pkt < off)
  | (Diverge, _) => False
  end.
Proof.
  intros Hlen. unfold print_packet. rewrite io_bind_run. unfold of_result at 1.
  destruct (link_header_ok dl_type pkt) as (l & El & Hl). rewrite El. pose proof (link_header_supported dl_type pkt) as Hsup.
  rewrite El in Hsup. destruct (supported dl_type) eqn:Es; [|assert (l = Mysterious) as -> by (injection (proj2 Hsup eq_refl); done)].
  2: (split_and!; [done| |done]; intros off src dst (h & s & E & _); by rewrite El in E).
  destruct l as [| |hdr_off]; [|by discriminate (proj1 Hsup eq_refl)|].
  { split_and!; [done| |done]. intros off src dst (h & s & E & _). by rewrite El in E. }
  clear Hsup. rewrite io_bind_run. unfold of_result at 1. pose proof (process_outcome (drop (Z.to_nat hdr_off) pkt)) as HP.
  rewrite (Zlen_drop hdr_off pkt), Z.max_r in HP by lia. set (pr := process_ipv4_ipv6 _ _) in *.
  assert (forall off src dst, datagram_at dl_type pkt off src dst -> exists s, pr = Ok (s, src, dst) /\ 0 <= s /\ off = hdr_off + s) as Hat.
  { intros off src dst (h & s & E1 & E2 & ? & ?). rewrite El in E1. injection E1 as <-. by exists s. }
  destruct pr as [[[off src] dst]|e|] eqn:Ep; [|destruct HP as (-> & H4 & H5); split; [done|left; split; [done|by exists hdr_off]]|done].
  case_if.
  { split_and!; [done| |done]. intros o ? ? (s & [= -> -> ->] & ? & ?)%Hat. lia. }
  destruct HP as [->|HP]; [lia|]. assert (payload_at dl_type pkt (hdr_off + off)) as Hpay
    by (exists src, dst, hdr_off, off; split_and!; try done; lia).
  rewrite io_bind_run. unfold of_result at 1, payload_string. destruct (decide (hdr_off + off <= #pkt)) as [Hin|Hout].
  - rewrite u64_id by lia. case_if; [lia|]. rewrite data_range_ok by lia.
    assert (take (Z.to_nat (#pkt - (hdr_off + off))) (drop (Z.to_nat (hdr_off + off)) pkt) = drop (Z.to_nat (hdr_off + off)) pkt) as ->
      by (apply take_ge; rewrite length_drop; unfold Zlen; lia).
    set (payload := drop _ _).
    assert (#payload = #pkt - (hdr_off + off)) as Hpl by (unfold payload, Zlen in *; rewrite length_drop; lia). rewrite <- Hpl.
    rewrite io_bind_run. unfold of_result at 1.
    destruct (parse_segment_total (Buffer_of payload) 0 default_segment) as (res & seg & Ep'); [apply Buffer_of_wf; lia|].
    rewrite Ep'. destruct (beyond_BadChecksum res) eqn:EB; (split_and!; [done| |by intros Hno; destruct (Hno _ Hpay)]);
      intros o ? ? (s & [= <- <- <-] & ? & ->)%Hat; (split; [lia|]); exists res, seg; by rewrite EB.
  - assert (u64 (#pkt - (hdr_off + off)) = #pkt - (hdr_off + off) + 18446744073709551616) as ->.
    { unfold u64. symmetry. apply Z.mod_unique with (-1); lia. }
    case_if; [|lia]. split; [done|]. right. split; [done|]. exists (hdr_off + off). split; [done|lia].
Qed.

(** An IPv4 packet over a raw link that ends inside its UDP header. *)
Definition truncated_udp (pkt : bytes) : Prop :=
  is_ipv4 pkt = true /\ data_at pkt 9 = Ok 17 /\ 20 <= #pkt /\
  exists d0, data_at pkt 0 = Ok d0 /\ Z.land d0 15 * 4 <= #pkt < Z.land d0 15 * 4 + 8.

(** C15: a truncated packet ends udp_tcpdump. An IPv4 packet that announces UDP and ends before the
    end of the UDP header makes the program terminate with an exception that nothing catches. *)
Theorem truncated_packet_ends {P} `{Pcap P} pkt cout :
  truncated_udp pkt -> #pkt < 4294967296 -> print_packet DLT_RAW pkt cout = (Throw length_error, cout).
Proof.
  intros (H4 & H9 & H20 & d0 & H0 & Hl) Hlen. unfold print_packet. change (link_header DLT_RAW pkt) with (Ok (Datagram 0)).
  rewrite io_bind_run. unfold of_result at 1. rewrite io_bind_run. unfold of_result at 1. change (drop (Z.to_nat 0) pkt) with pkt. rewrite Z.sub_0_r.
  assert (process_ipv4_ipv6 (#pkt) pkt = Ok (Z.land d0 15 * 4 + 8, default (lit "unknown") (inet_ntop Address.AF_INET (take 4 (drop 12 pkt))),
    default (lit "unknown") (inet_ntop Address.AF_INET (take 4 (drop 16 pkt))))) as ->.
  { unfold process_ipv4_ipv6. case_if; [lia|]. rewrite H0, result_bind_Ok. destruct pkt as [|b pkt]; [done|]. injection H0 as <-.
    cbn [is_ipv4] in H4. rewrite H4. case_if; [lia|]. rewrite H9, result_bind_Ok. cbn [Z.eqb negb Pos.eqb].
    unfold inet4_addr. rewrite !data_range_ok by lia. done. }
  assert (0 <= Z.land d0 15) by (apply Z.land_nonneg; lia). case_if; [lia|]. rewrite io_bind_run. unfold of_result at 1, payload_string.
  replace (u64 _) with (#pkt - (0 + (Z.land d0 15 * 4 + 8)) + 18446744073709551616)
    by (unfold u64; apply Z.mod_unique with (-1); lia).
  case_if; [done|lia].
Qed.

Section runs.
#[local] Instance sample_pcap : Pcap unit := {|
  pcap_open_live _ p := (None, p);
  pcap_datalink _ := DLT_RAW;
  pcap_datalink_val_to_description _ := lit "RAW";
  pcap_compile _ p := (0, p);
  pcap_setfilter p := (0, p);
  pcap_geterr _ := [];
  pcap_next_ex p := (-2, [], p);
  pcap_close p := p;
  inet_ntop _ _ := Some (lit "10.0.0.2")
|}.

(** An IPv4 header that announces UDP, and two bytes of the UDP header. *)
Definition cut_packet : bytes := [x45; x00; x00; x30; x00; x00; x00; x00; x40; x11; x00; x00; x0a; x00; x00; x01; x0a; x00; x00; x02; x05; xa0].

Lemma truncated_packet_ends_witness : print_packet DLT_RAW cut_packet new_stream = (Throw length_error, new_stream).
Proof.
  apply truncated_packet_ends; [|by vm_compute]. split_and!; try done. exists 69. split; [done|by vm_compute].
Defined.

Definition whole_packet : bytes := cut_packet ++ replicate 6 x00.

Lemma print_packet_outcome_witness :
  let '(r, out) := print_packet DLT_RAW whole_packet new_stream in
  r = Ok None /\ text out <> [] /\ forall off src dst, datagram_at DLT_RAW whole_packet off src dst ->
    off <= 28 /\ payload_printed src dst (drop (Z.to_nat off) whole_packet) new_stream out.
Proof.
  assert (#whole_packet < 4294967296) as Hlen by (vm_compute; reflexivity).
  pose proof (print_packet_outcome DLT_RAW whole_packet new_stream Hlen) as HO.
  assert ((print_packet DLT_RAW whole_packet new_stream).1 = Ok None) as E1 by (vm_compute; reflexivity).
  assert (bool_decide (text (print_packet DLT_RAW whole_packet new_stream).2 = []) = false) as E2 by (vm_compute; reflexivity).
  destruct (print_packet _ _ _) as [r out]. cbn [fst snd] in *. subst r. split; [done|]. split; [by apply bool_decide_eq_false in E2|].
  exact (proj1 (proj2 HO)).
Defined.
End runs.
