(* ===== verification/TCPSpongeSocket.v ===== *)
(** * The TCP socket (src/libsponge/tcp_helpers/tcp_sponge_socket.hh, tcp_sponge_socket.cc)

    A TCPSpongeSocket runs a TCPConnection in a thread of its own: an event loop with four rules
    moves segments between an adapter and the connection, and bytes between the connection and
    a socket pair whose other end the owner reads and writes. The owner's thread is part of the
    environment, which is what the kernel's state stands for; it also sets [_abort]. *)

From stdpp Require Import strings.
From S2P Require Import Prelude IO ByteStream StreamReassembler Buffer TCPSegment TCPReceiver TCPSender.
From S2P Require Import TCPState TCPConnection Address Adapter Kernel FileDescriptor EventLoop Socket FdAdapter.

(** ** State *)

Section socket.
Context {K A : Type} `{Kernel K} `{!FdAdapter K A} {R : Resolver}.

(** [_tcp_thread] is whether the thread can be joined; the base object of the class is the
    owner's end of the socket pair. *)
Record TCPSpongeSocket := mkSpongeSocket {
  _owner : FileDescriptor;
  _thread_data : FileDescriptor;
  _datagram_adapter : A;
  _tcp : option TCPConnection;
  _tcp_thread : bool;
  _inbound_shutdown : bool;
  _outbound_shutdown : bool;
  _fully_acked : bool
}.

Abbreviation world := (machine K * TCPSpongeSocket)%type (only parsing).
Abbreviation loop_state := (world * list (Rule K TCPSpongeSocket))%type (only parsing).

Definition set_adapter (a : A) (s : TCPSpongeSocket) : TCPSpongeSocket :=
  mkSpongeSocket (_owner s) (_thread_data s) a (_tcp s) (_tcp_thread s) (_inbound_shutdown s) (_outbound_shutdown s)
    (_fully_acked s).
Definition set_tcp (c : option TCPConnection) (s : TCPSpongeSocket) : TCPSpongeSocket :=
  mkSpongeSocket (_owner s) (_thread_data s) (_datagram_adapter s) c (_tcp_thread s) (_inbound_shutdown s)
    (_outbound_shutdown s) (_fully_acked s).
Definition set_thread (b : bool) (s : TCPSpongeSocket) : TCPSpongeSocket :=
  mkSpongeSocket (_owner s) (_thread_data s) (_datagram_adapter s) (_tcp s) b (_inbound_shutdown s)
    (_outbound_shutdown s) (_fully_acked s).
Definition set_inbound_shutdown (s : TCPSpongeSocket) : TCPSpongeSocket :=
  mkSpongeSocket (_owner s) (_thread_data s) (_datagram_adapter s) (_tcp s) (_tcp_thread s) true (_outbound_shutdown s)
    (_fully_acked s).
Definition set_outbound_shutdown (s : TCPSpongeSocket) : TCPSpongeSocket :=
  mkSpongeSocket (_owner s) (_thread_data s) (_datagram_adapter s) (_tcp s) (_tcp_thread s) (_inbound_shutdown s) true
    (_fully_acked s).
Definition set_fully_acked (s : TCPSpongeSocket) : TCPSpongeSocket :=
  mkSpongeSocket (_owner s) (_thread_data s) (_datagram_adapter s) (_tcp s) (_tcp_thread s) (_inbound_shutdown s)
    (_outbound_shutdown s) true.

(** ** The connection *)

Definition on_socket {B} (m : io TCPSpongeSocket B) : io world B := on_snd m.

(** [_tcp.value()], and [_tcp->], whose behaviour on an empty optional is not defined: it is an
    exception here, which no run of the code reaches. *)
Definition tcp : io TCPSpongeSocket TCPConnection :=
  c ← gets _tcp;
  match c with
  | Some c => mret c
  | None => throw bad_optional_access
  end.

(** A call of the connection. *)
Definition on_tcp (f : TCPConnection -> result TCPConnection) : io TCPSpongeSocket unit :=
  c ← tcp;
  c ← of_result (f c);
  modify (set_tcp (Some c)).

Definition tcp_test (f : TCPConnection -> bool) (w : world) : bool :=
  match _tcp w.2 with
  | Some c => f c
  | None => false
  end.

(** [inbound_stream()], changed in place. *)
Definition set_inbound (b : ByteStream) (c : TCPConnection) : TCPConnection :=
  set_receiver (set_reassembler (set_output b (_reassembler (_receiver c))) (_receiver c)) c.

(** The text of a debugging message, for which the address of the peer is looked up. *)
Definition debug_peer : io TCPSpongeSocket unit :=
  a ← gets _datagram_adapter;
  _ ← of_result (address_to_string (destination (ad_config a)));
  mret tt.

(** ** The rules *)

Definition rule_1_callback : io world unit :=
  a ← gets (fun w => _datagram_adapter w.2);
  r ← on_fst (ad_read a);
  _ ← on_socket (modify (set_adapter r.2));
  _ ← match r.1 with
      | Some seg => on_socket (on_tcp (segment_received seg))
      | None => mret tt
      end;
  eof ← gets (fun w => fd_eof (_thread_data w.2) w.1);
  c ← on_socket tcp;
  acked ← gets (fun w => _fully_acked w.2);
  when (eof && (bytes_in_flight c =? 0) && negb acked)
    (_ ← on_socket debug_peer; on_socket (modify set_fully_acked)).

Definition rule_1_interest (w : world) : bool := tcp_test active w.

Definition short_write : exn := runtime_error_of "TCPConnection::write() accepted less than advertised length".

Definition rule_2_callback : io world unit :=
  c ← on_socket tcp;
  h ← gets (fun w => _thread_data w.2);
  data ← on_fst (fd_read h (remaining_outbound_capacity c));
  r ← of_result (write data c);
  let '(amount_written, c) := r in
  _ ← on_socket (modify (set_tcp (Some c)));
  if negb (amount_written =? #data) then throw short_write
  else
    eof ← gets (fun w => fd_eof (_thread_data w.2) w.1);
    when eof (
      _ ← on_socket (on_tcp end_input_stream);
      _ ← on_socket (modify set_outbound_shutdown);
      on_socket debug_peer).

Definition rule_2_interest (w : world) : bool :=
  tcp_test active w && negb (_outbound_shutdown w.2) &&
  tcp_test (fun c => remaining_outbound_capacity c >? 0) w.

Definition rule_2_cancel : io world unit :=
  _ ← on_socket (on_tcp end_input_stream);
  on_socket (modify set_outbound_shutdown).

Definition rule_3_callback : io world unit :=
  c ← on_socket tcp;
  let inbound := inbound_stream c in
  let amount_to_write := Z.min 65536 (buffer_size inbound) in
  let buffer := peek_output amount_to_write inbound in
  h ← gets (fun w => _thread_data w.2);
  bytes_written ← on_fst (fd_write_string h buffer false);
  let inbound := pop_output bytes_written inbound in
  _ ← on_socket (modify (set_tcp (Some (set_inbound inbound c))));
  when (eof inbound || error inbound) (
    h ← gets (fun w => _thread_data w.2);
    _ ← on_fst (shutdown h SHUT_WR);
    _ ← on_socket (modify set_inbound_shutdown);
    on_socket debug_peer).

Definition rule_3_interest (w : world) : bool :=
  negb (tcp_test (fun c => buffer_empty (inbound_stream c)) w) ||
  (tcp_test (fun c => eof (inbound_stream c) || error (inbound_stream c)) w && negb (_inbound_shutdown w.2)).

(** The loop of rule 4: the front segment is written and then popped. *)
Definition rule_4_turn (_ : unit) : io world (unit + unit) :=
  c ← on_socket tcp;
  match _segments_out c with
  | [] => mret (inr tt)
  | seg :: q =>
      a ← gets (fun w => _datagram_adapter w.2);
      r ← on_fst (ad_write seg a);
      _ ← on_socket (modify (set_adapter r.2));
      _ ← on_socket (modify (set_tcp (Some (set_out q c))));
      mret (inl tt)
  end.

Definition rule_4_callback : io world unit :=
  c ← on_socket tcp;
  iterate (S (length (_segments_out c))) rule_4_turn tt.

Definition rule_4_interest (w : world) : bool :=
  negb (tcp_test (fun c => bool_decide (_segments_out c = [])) w).

(** [random] is used for the initial sequence number. *)
Definition _initialize_TCP (cfg : TCPConfig) (random : Z) : io loop_state unit :=
  _ ← on_fst (on_socket (modify (set_tcp (Some (make cfg random)))));
  a ← gets (fun s => ad_fd (_datagram_adapter s.1.2));
  h ← gets (fun s => _thread_data s.1.2);
  _ ← add_rule a In rule_1_callback rule_1_interest (mret tt);
  _ ← add_rule h In rule_2_callback rule_2_interest rule_2_cancel;
  _ ← add_rule h Out rule_3_callback rule_3_interest (mret tt);
  add_rule a Out rule_4_callback rule_4_interest (mret tt).

(** ** The loop *)

(** The flag [_abort] as the thread of the connection reads it. *)
Context (_abort : K -> bool).

Definition TCP_TICK_MS : Z := 10.

Definition timestamp_ms : io (machine K) Z := t ← sys sys_clock_ms; mret (u64 t).

(** One turn, from [base_time]. *)
Definition tcp_loop_turn (condition : world -> bool) (base_time : Z) : io loop_state (Z + unit) :=
  go ← gets (fun s => condition s.1);
  if negb go then mret (inr tt)
  else
    r ← wait_next_event TCP_TICK_MS;
    abort ← gets (fun s => _abort (kernel s.1.1));
    if bool_decide (r = Exit) || (abort : bool) then mret (inr tt)
    else
      c ← on_fst (on_socket tcp);
      if active c then
        next_time ← on_fst (on_fst timestamp_ms);
        let elapsed := u64 (next_time - base_time) in
        _ ← on_fst (on_socket (on_tcp (tick elapsed)));
        _ ← on_fst (on_socket (modify (fun s => set_adapter (ad_tick elapsed (_datagram_adapter s)) s)));
        mret (inl next_time)
      else mret (inl base_time).

(** At most [fuel] turns: the loop of a connection that stays open does not end. *)
Definition _tcp_loop (fuel : nat) (condition : world -> bool) : io loop_state unit :=
  base_time ← on_fst (on_fst timestamp_ms);
  iterate fuel (tcp_loop_turn condition) base_time.

Definition has_state (st : State) (c : TCPConnection) : bool := state_eq (state c) (TCPState_of st).

(** ** The owner's calls *)

Definition connect (fuel : nat) (c_tcp : TCPConfig) (random : Z) (c_ad : FdAdapterConfig) : io loop_state unit :=
  c ← gets (fun s => _tcp s.1.2);
  if bool_decide (is_Some c) then throw runtime_error
  else
    _ ← _initialize_TCP c_tcp random;
    _ ← on_fst (on_socket (modify (fun s => set_adapter (ad_config_mut c_ad (_datagram_adapter s)) s)));
    _ ← of_result (address_to_string (destination c_ad));
    _ ← on_fst (on_socket (on_tcp TCPConnection.connect));
    c ← on_fst (on_socket tcp);
    if negb (has_state SYN_SENT c) then throw runtime_error
    else
      _ ← _tcp_loop fuel (tcp_test (has_state SYN_SENT));
      on_fst (on_socket (modify (set_thread true))).

Definition listen_and_accept (fuel : nat) (c_tcp : TCPConfig) (random : Z) (c_ad : FdAdapterConfig) : io loop_state unit :=
  c ← gets (fun s => _tcp s.1.2);
  if bool_decide (is_Some c) then throw runtime_error
  else
    _ ← _initialize_TCP c_tcp random;
    _ ← on_fst (on_socket (modify (fun s => set_adapter (ad_config_mut c_ad (_datagram_adapter s)) s)));
    _ ← on_fst (on_socket (modify (fun s => set_adapter (ad_set_listening true (_datagram_adapter s)) s)));
    _ ← _tcp_loop fuel (tcp_test (fun c => has_state LISTEN c || has_state SYN_RCVD c || has_state SYN_SENT c));
    _ ← on_fst (on_socket debug_peer);
    on_fst (on_socket (modify (set_thread true))).

(** [_tcp.reset()] destroys the connection. *)
Definition reset_tcp : io TCPSpongeSocket unit :=
  c ← gets _tcp;
  match c with
  | Some c => _ ← of_result (destroy c); modify (set_tcp None)
  | None => mret tt
  end.

(** The thread; the exceptions that it rethrows leave it, see [thread_join]. *)
Definition _tcp_main (fuel : nat) : io loop_state unit :=
  c ← gets (fun s => _tcp s.1.2);
  if negb (bool_decide (is_Some c)) then throw runtime_error
  else
    _ ← _tcp_loop fuel (fun _ => true);
    h ← gets (fun s => _owner s.1.2);
    _ ← on_fst (on_fst (shutdown h SHUT_RDWR));
    on_fst (on_socket reset_tcp).

(** [join] is what the thread does until it ends, as the one that joins it sees it. *)
Definition wait_until_closed (join : io loop_state unit) : io loop_state unit :=
  h ← gets (fun s => _owner s.1.2);
  _ ← on_fst (on_fst (shutdown h SHUT_RDWR));
  t ← gets (fun s => _tcp_thread s.1.2);
  when t (_ ← thread_join join; on_fst (on_socket (modify (set_thread false)))).

(** ** Destruction *)

(** [~TCPSpongeSocket], whose messages are left out, and then the members and the base object in the
    reverse order of their declaration. *)
Definition destroy_socket (store_abort : K -> K) (join : io loop_state unit) : io loop_state unit :=
  _ ← catch_all (
        t ← gets (fun s => _tcp_thread s.1.2);
        when t (
          _ ← on_fst (on_fst (modify (fun m => mkMachine (store_abort (kernel m)) (heap m))));
          _ ← thread_join join;
          on_fst (on_socket (modify (set_thread false)))))
      (fun _ => mret tt);
  _ ← destroy_rules;
  _ ← on_fst (on_socket reset_tcp);
  a ← gets (fun s => ad_fd (_datagram_adapter s.1.2));
  _ ← on_fst (on_fst (release a));
  h ← gets (fun s => _thread_data s.1.2);
  _ ← on_fst (on_fst (release h));
  h ← gets (fun s => _owner s.1.2);
  on_fst (on_fst (release h)).

(** ** Construction *)

Definition socket_pair_helper (type : Z) : io (machine K) (FileDescriptor * FileDescriptor) :=
  r ← sys (sys_socketpair AF_UNIX type);
  _ ← of_result (SystemCall r 0);
  a ← FileDescriptor_of (out r).1;
  b ← unwinding (FileDescriptor_of (out r).2) (release a);
  mret (a, b).

(** The members are made in the order of their declaration; an exception destroys those that are
    made, and what is left of the arguments: the pair and the adapter. *)
Definition TCPSpongeSocket_of_pair (data_socket_pair : FileDescriptor * FileDescriptor) (datagram_interface : A)
  : io (machine K) TCPSpongeSocket :=
  let '(fst, snd) := data_socket_pair in
  owner ← unwinding (LocalStreamSocket_of fst) (_ ← release snd; release (ad_fd datagram_interface));
  thread ← unwinding (LocalStreamSocket_of snd) (_ ← release owner; release (ad_fd datagram_interface));
  _ ← unwinding (set_blocking thread false)
        (_ ← release (ad_fd datagram_interface); _ ← release thread; release owner);
  mret (mkSpongeSocket owner thread datagram_interface None false false false false).

Definition TCPSpongeSocket_new (datagram_interface : A) : io (machine K) TCPSpongeSocket :=
  p ← unwinding (socket_pair_helper SOCK_STREAM) (release (ad_fd datagram_interface));
  TCPSpongeSocket_of_pair p datagram_interface.
End socket.
Arguments TCPSpongeSocket : clear implicits.
