(* ===== verification/Holders.v ===== *)
(** * The holders of descriptors

    Every object that points to an FDWrapper is counted in it, and the wrapper is destroyed with the last.
    The code never counts by hand: objects are made, copied into rules and destroyed in many places,
    on the way of an exception too. A machine [owns] a list of handles beside what was held
    before; each operation keeps the list, or adds and removes what its objects hold. *)

From S2P Require Import Prelude IO ByteStream StreamReassembler Buffer Parser TCPHeader TCPSegment IPv4 TCPReceiver.
From S2P Require Import TCPSender TCPState TCPConnection Address Adapter Kernel FileDescriptor EventLoop Socket Tun FdAdapter TCPSpongeSocket.

(** ** Exceptions that there are *)

Create HintDb defined.

(** Follow the structure of a definition. *)
Ltac defined_steps :=
  repeat first
    [ done
    | assumption
    | solve [auto 3 with defined]
    | apply defined_bind; [|intros ?]
    | match goal with |- defined (match ?x with _ => _ end) => destruct x end
    | match goal with |- defined (let '(_, _) := ?x in _) => destruct x end ].

(** Pure code does nothing that is not defined. *)
Section defined.
Context {R : Resolver}.

Lemma defined_list_remove_prefix l : forall n, defined (list_remove_prefix n l).
Proof. induction l as [|b l IH]; intros n; cbn; unfold remove_prefix; defined_steps. Qed.
Lemma defined_views_remove_prefix l : forall n, defined (views_remove_prefix n l).
Proof. induction l as [|b l IH]; intros n; cbn; defined_steps. Qed.
Lemma defined_stoi s : defined (stoi s).
Proof. unfold stoi. defined_steps. Qed.
Lemma defined_ip_port a : defined (ip_port a).
Proof. pose proof defined_stoi. unfold ip_port. defined_steps. Qed.
Lemma defined_ipv4_numeric a : defined (ipv4_numeric a).
Proof. unfold ipv4_numeric. defined_steps. Qed.
Lemma defined_Address_of_sockaddr addr size : defined (Address_of_sockaddr addr size).
Proof. unfold Address_of_sockaddr. defined_steps. Qed.
#[local] Hint Resolve defined_ip_port defined_ipv4_numeric defined_Address_of_sockaddr : defined.
Lemma defined_Address_resolve node service hints : defined (Address_resolve node service hints).
Proof. unfold Address_resolve. defined_steps. Qed.
Lemma defined_port a : defined (port a).
Proof. unfold port. defined_steps. Qed.
Lemma defined_address_to_string a : defined (address_to_string a).
Proof. unfold address_to_string. defined_steps. Qed.
#[local] Hint Resolve defined_Address_resolve defined_port : defined.
Lemma defined_default_adapter : defined default_adapter.
Proof. unfold default_adapter, default_fd_config, Address_of_ip. defined_steps. Qed.

Lemma defined_to_Buffer l : defined (to_Buffer l).
Proof. unfold to_Buffer. defined_steps. Qed.
Lemma defined_serialize_ip h : defined (serialize_ip h).
Proof. unfold serialize_ip. defined_steps. Qed.
Lemma defined_serialize h : defined (serialize h).
Proof. unfold serialize. defined_steps. Qed.
#[local] Hint Resolve defined_to_Buffer defined_serialize_ip defined_serialize : defined.
Lemma defined_serialize_segment seg c : defined (serialize_segment seg c).
Proof. unfold serialize_segment. defined_steps. Qed.
Lemma defined_serialize_datagram d : defined (serialize_datagram d).
Proof. unfold serialize_datagram. defined_steps. Qed.
#[local] Hint Resolve defined_serialize_segment defined_serialize_datagram : defined.

(** The parsers. *)
Definition defined_parser {A} (p : parser A) : Prop := forall s, defined (p s).
Lemma defined_parser_bind {A B} (p : parser A) (f : A -> parser B) :
  defined_parser p -> (forall a, defined_parser (f a)) -> defined_parser (p ≫= f).
Proof.
  intros Hp Hf s. specialize (Hp s). unfold mbind, parser_bind. destruct (p s) as [[a s']| |]; [apply Hf|done..].
Qed.
Lemma defined_parse_loop w n : forall i ret b, defined (parse_loop w n i ret b).
Proof. induction n as [|n IH]; intros; cbn; unfold at_; defined_steps. Qed.
Lemma defined_parse_int n : defined_parser (_parse_int n).
Proof. pose proof defined_parse_loop. intros s. unfold _parse_int, Buffer.remove_prefix. defined_steps. Qed.
Lemma defined_parser_remove_prefix n : defined_parser (parser_remove_prefix n).
Proof. intros s. unfold parser_remove_prefix, Buffer.remove_prefix. defined_steps. Qed.
Lemma defined_get_parser : defined_parser get_parser.
Proof. done. Qed.
Lemma defined_parser_ret {A} (a : A) : defined_parser (mret a).
Proof. done. Qed.

Ltac parser_steps :=
  repeat first
    [ apply defined_parse_int
    | apply defined_parser_remove_prefix
    | apply defined_get_parser
    | apply defined_parser_ret
    | apply defined_parser_bind; [|intros ?]
    | match goal with |- defined_parser (if ?x then _ else _) => destruct x end ].

Lemma defined_parse : defined_parser parse.
Proof. unfold parse, parse_u8, parse_u16, parse_u32. parser_steps. Qed.
Lemma defined_parse_ip h : defined_parser (parse_ip h).
Proof. unfold parse_ip, parse_u8, parse_u16, parse_u32. parser_steps. Qed.
Lemma defined_parse_segment b c old : defined (parse_segment b c old).
Proof. pose proof (defined_parse (NetParser_of b)). unfold parse_segment. defined_steps. Qed.
Lemma defined_parse_datagram b old : defined (parse_datagram b old).
Proof. pose proof (defined_parse_ip (ip_header old) (NetParser_of b)). unfold parse_datagram. defined_steps. Qed.
#[local] Hint Resolve defined_parse_segment defined_parse_datagram : defined.

Lemma defined_tun_read d b : defined (tun_read d b).
Proof. unfold tun_read, unwrap_tcp_in_ip, other_host, Address_of_ip. defined_steps. Qed.
Lemma defined_tun_write seg b : defined (tun_write seg b).
Proof. unfold tun_write, wrap_tcp_in_ip. defined_steps. Qed.
Lemma defined_udp_read a d b : defined (udp_read a d b).
Proof. unfold udp_read. defined_steps. Qed.
Lemma defined_udp_write seg b : defined (udp_write seg b).
Proof. unfold udp_write. defined_steps. Qed.

(** The connection. *)
Lemma defined_fill_loop fuel : forall w seg s, defined (fill_loop fuel w seg s).
Proof. induction fuel as [|fuel IH]; intros; cbn; defined_steps. Qed.
Lemma defined_fill_window s : defined (fill_window s).
Proof. pose proof defined_fill_loop. unfold fill_window. defined_steps. Qed.
#[local] Hint Resolve defined_fill_window : defined.
Lemma defined_ack_received a w s : defined (ack_received a w s).
Proof. unfold ack_received. defined_steps. Qed.
Lemma defined_substr s pos n : defined (substr s pos n).
Proof. unfold substr. defined_steps. Qed.
#[local] Hint Resolve defined_ack_received defined_substr : defined.
Lemma defined_overlap_loop i t n : forall iter seg st, defined (overlap_loop i t n iter seg st).
Proof. induction n as [|n IH]; intros; cbn; unfold _merge_seg; defined_steps. Qed.
#[local] Hint Resolve defined_overlap_loop : defined.
Lemma defined_push_substring d i e st : defined (push_substring d i e st).
Proof. unfold push_substring, _handle_substring, _handle_overlap. defined_steps. Qed.
#[local] Hint Resolve defined_push_substring : defined.
Lemma defined_receiver_segment seg r : defined (TCPReceiver.segment_received seg r).
Proof. unfold TCPReceiver.segment_received. defined_steps. Qed.
#[local] Hint Resolve defined_receiver_segment : defined.
Lemma defined_send_rst_segment c : defined (send_rst_segment c).
Proof. unfold send_rst_segment. defined_steps. Qed.
#[local] Hint Resolve defined_send_rst_segment : defined.
Lemma defined_segment_received seg c : defined (segment_received seg c).
Proof. unfold segment_received, connect. defined_steps. Qed.
Lemma defined_connect c : defined (TCPConnection.connect c).
Proof. unfold TCPConnection.connect. defined_steps. Qed.
Lemma defined_end_input_stream c : defined (end_input_stream c).
Proof. unfold end_input_stream. defined_steps. Qed.
Lemma defined_write d c : defined (TCPConnection.write d c).
Proof. unfold TCPConnection.write. defined_steps. Qed.
Lemma defined_tick ms c : defined (tick ms c).
Proof. unfold tick. defined_steps. Qed.
End defined.

#[export] Hint Resolve defined_views_remove_prefix defined_Address_of_sockaddr defined_Address_resolve defined_default_adapter
  defined_address_to_string defined_tun_read defined_tun_write defined_udp_read defined_udp_write defined_connect
  defined_end_input_stream defined_write defined_tick defined_segment_received : defined.

(** The destructor lets no exception out. *)
Lemma destroy_ends c : match destroy c with Throw _ => False | _ => True end.
Proof.
  assert (defined (if active c then c ← send_rst_segment c; Ok (unclean_shutdown c) else Ok c)) as HD
    by (pose proof defined_send_rst_segment; defined_steps).
  unfold destroy. by destruct (if active c then _ else _) as [|[]|].
Qed.

(** ** Holders *)

(** How many objects hold each wrapper. *)
Definition held {K} (m : machine K) : list nat := map use_count (heap m).

(** One more holder of each of [hs]. *)
Definition add_holders (hs : list FileDescriptor) (l : list nat) : list nat := foldr (alter S) l hs.

Lemma alter_S_comm h h' (l : list nat) : alter S h (alter S h' l) = alter S h' (alter S h l).
Proof. destruct (decide (h = h')) as [->|Hne]; [done|by apply list_alter_alter_ne]. Qed.

#[global] Instance add_holders_perm : Proper ((≡ₚ) ==> (=) ==> (=)) add_holders.
Proof. intros hs hs' Hp l ? <-. induction Hp; simpl; [done|by f_equal|apply alter_S_comm|congruence]. Qed.

Lemma alter_pred_S h (l : list nat) : alter pred h (alter S h l) = l.
Proof. rewrite list_alter_alter_eq. by apply list_alter_id. Qed.

Lemma length_add_holders hs l : length (add_holders hs l) = length l.
Proof. induction hs as [|h hs IH]; simpl; [done|by rewrite length_alter]. Qed.

Lemma add_holders_app_l hs l l' : Forall (fun h => h < length l)%nat hs -> add_holders hs (l ++ l') = add_holders hs l ++ l'.
Proof.
  induction 1 as [|h hs Hh Hhs IH]; simpl; [done|]. rewrite IH. apply alter_app_l. by rewrite length_add_holders.
Qed.

Lemma map_update h f g l :
  (forall w, use_count (f w) = g (use_count w)) -> map use_count (alter f h l) = alter g h (map use_count l).
Proof.
  intros Hf. revert h. induction l as [|w l IH]; intros [|h]; simpl; [done..|by rewrite Hf|]. f_equal. apply IH.
Qed.

(** The kernel closes what it is asked to close. *)
Definition closes (K : Type) `{Kernel K} : Prop := forall fd (k : K), ret (sys_close fd k).1 = 0.

(** On such a kernel the wrappers of index [n] and above that nobody holds are closed. *)
Definition shut {K} `{Kernel K} (n : nat) (m : machine K) : Prop :=
  closes K -> forall h w, (n <= h)%nat -> heap m !! h = Some w -> use_count w = 0%nat -> _closed w = true.

(** Beside what was held by [l], the handles [hs] are held, once for each time they occur; the other
    objects that were made are released, and closed. *)
Definition owns {K} `{Kernel K} (l : list nat) (hs : list FileDescriptor) (m : machine K) : Prop :=
  shut (length l) m /\
  exists k, Forall (fun h => h < length l + k)%nat hs /\ held m = add_holders hs (l ++ replicate k 0%nat).

(** The objects that were made are all released. *)
Definition released {K} (l : list nat) (m : machine K) : Prop := exists k, held m = l ++ replicate k 0%nat.

Section owns.
Context {K : Type} `{Kernel K}.
Implicit Types m : machine K.

Lemma length_held m : length (held m) = length (heap m).
Proof. apply length_map. Qed.

Lemma owns_start m : owns (held m) [] m.
Proof.
  split; [|exists 0%nat; split; [done|]; by rewrite app_nil_r]. intros _ h w Hh Hw. apply lookup_lt_Some in Hw. rewrite length_held in Hh. lia.
Qed.

#[global] Instance owns_perm l : Proper ((≡ₚ) ==> (=) ==> iff) (owns (K := K) l).
Proof. intros hs hs' Hp m ? <-. split; intros (Hs & k & H1 & H2); (split; [done|]); exists k; [rewrite <- Hp|rewrite Hp]; done. Qed.

Lemma shut_alter n f h m m' :
  heap m' = alter f h (heap m) ->
  (forall w, use_count (f w) = 0%nat -> use_count w = 0%nat /\ (_closed w = true -> _closed (f w) = true)) ->
  shut n m -> shut n m'.
Proof.
  intros E Hf Hs Hc i w Hi. rewrite E, list_lookup_alter. case_decide as Hd; [subst i|by apply Hs].
  destruct (heap m !! h) as [w0|] eqn:Ew; [|done]. intros [= <-] [H0 H1]%Hf. by apply H1, (Hs Hc h).
Qed.

Lemma owns_heap l hs m m' : heap m' = heap m -> owns l hs m -> owns l hs m'.
Proof. unfold owns, shut, held. by intros ->. Qed.

(** A change of an object that nobody notices. *)
Lemma owns_alter l hs f h m m' :
  heap m' = alter f h (heap m) -> (forall w, use_count (f w) = use_count w /\ (_closed w = true -> _closed (f w) = true)) ->
  owns l hs m -> owns l hs m'.
Proof.
  intros E Hf (Hs & k & H1 & H2). split; [eapply shut_alter; [done| |done]; intros w; by destruct (Hf w) as [-> ?]|].
  exists k. split; [done|]. rewrite <- H2. unfold held. rewrite E, (map_update h f (fun n => n)) by apply Hf. by apply list_alter_id.
Qed.

Lemma owns_duplicate l h hs m m' :
  h ∈ hs -> heap m' = alter (fun w => set_use_count (S (use_count w)) w) h (heap m) -> owns l hs m -> owns l (h :: hs) m'.
Proof.
  intros Hh E (Hs & k & H1 & H2). split; [by eapply shut_alter|]. exists k. split.
  - constructor; [|done]. rewrite list.Forall_forall in H1. by apply H1.
  - unfold held. rewrite E, (map_update h _ S) by done. simpl. by rewrite <- H2.
Qed.

Lemma owns_new l hs m m' w :
  heap m' = heap m ++ [w] -> use_count w = 1%nat -> owns l hs m -> owns l (length (heap m) :: hs) m'.
Proof.
  intros E Hw (Hs & k & H1 & H2). split.
  { intros Hc i w' Hi. rewrite E, lookup_app_Some. intros [Hw'|[_ Hw']] H0; [by apply (Hs Hc i)|].
    apply list_lookup_singleton_Some in Hw' as [_ <-]. lia. }
  exists (S k).
  assert (length (heap m) = length l + k)%nat as Hl
    by (by rewrite <- length_held, H2, length_add_holders, length_app, length_replicate).
  split; [constructor; [lia|eapply Forall_impl; [|exact H1]; simpl; lia]|].
  unfold held. rewrite E, map_app, replicate_S_end, app_assoc. cbn [add_holders foldr map].
  fold (add_holders hs ((l ++ replicate k 0%nat) ++ [0%nat])). fold (held m).
  rewrite add_holders_app_l by (by rewrite length_app, length_replicate).
  rewrite <- H2, <- length_held, alter_app_r_alt, Nat.sub_diag, Hw by lia. done.
Qed.
End owns.

(** ** Operations on descriptors *)

Section descriptors.
Context {K : Type} `{Kernel K}.
Implicit Types m : machine K.

(** System calls leave the objects alone. *)
Lemma held_system_call {A} (call : K -> sysret A * K) (Q : Z -> machine K -> Prop) (E : exn -> machine K -> Prop) m :
  (forall r k, Q r (mkMachine k (heap m))) -> (forall n k, E (unix_error n) (mkMachine k (heap m))) ->
  wp (system_call call) Q E m.
Proof.
  intros HQ HE. unfold system_call. wp_step. apply wp_sys. unfold wp, of_result, SystemCall. destruct (_ || _); auto.
Qed.

Lemma held_FileDescriptor_of fd m :
  wp (FileDescriptor_of fd) (fun h m' => h = length (held m) /\ held m' = held m ++ [1%nat])
    (fun _ m' => held m' = held m) m.
Proof.
  unfold FileDescriptor_of. case_if; wp_steps; [done|]. rewrite length_held. split; [done|].
  unfold held. cbn [heap]. by rewrite map_app.
Qed.

Lemma held_release h m :
  wp (release h) (fun _ m' => held m' = alter pred h (held m)) (fun _ _ => False) m.
Proof.
  unfold release, update. wp_steps.
  assert (forall m', heap m' = alter (set_use_count (pred (use_count (wrapper h m)))) h (heap m) ->
    held m' = alter pred h (held m)) as Hh.
  { intros m' E'. unfold held at 1. rewrite E'. unfold held, wrapper. clear E'. revert h.
    induction (heap m) as [|w l IH]; intros [|h]; simpl; [done..|]. f_equal. apply IH. }
  case_if; [|by apply Hh]. unfold destroy_wrapper. wp_steps. case_if; [by apply Hh|]. unfold close, update. wp_steps.
  apply held_system_call; [intros r k; wp_steps|intros n k; wp_steps; by apply Hh].
  unfold held. cbn [heap]. rewrite (map_update h set_closed (fun n => n)) by done. rewrite list_alter_id by done.
  exact (Hh (mkMachine k (alter _ h (heap m))) eq_refl).
Qed.

(** A wrapper is closed with its last holder. *)
Lemma shut_release n h m : shut n m -> wp (release h) (fun _ m' => shut n m') (fun _ _ => False) m.
Proof.
  intros Hs. unfold release, update. wp_steps. set (u := use_count (wrapper h m)).
  set (m1 := mkMachine (kernel m) (alter (set_use_count (pred u)) h (heap m))).
  assert (forall w0, heap m !! h = Some w0 -> wrapper h m = w0 /\ wrapper h m1 = set_use_count (pred u) w0) as Hw.
  { intros w0 Ew. unfold wrapper, m1. cbn [heap]. by rewrite list_lookup_alter_eq, Ew. }
  assert (u <> 0%nat -> u <> 1%nat -> shut n m1) as Hmany.
  { intros H0 H1. eapply (shut_alter n (set_use_count (pred u)) h m); [done| |done]. intros w. cbn. lia. }
  assert (forall m', heap m' = heap m1 -> fd_closed h m1 = true -> shut n m') as Hclosed.
  { intros m' E Hd Hc i w Hi. rewrite E. unfold m1. cbn [heap]. rewrite list_lookup_alter. case_decide as Hh; [subst i|by apply Hs].
    destruct (heap m !! h) as [w0|] eqn:Ew; [|done]. intros [= <-] _. destruct (Hw w0 eq_refl) as [_ E1].
    unfold fd_closed in Hd. rewrite E1 in Hd. done. }
  case_if; [|apply Hmany; apply Nat.leb_gt in Heqb; lia]. unfold destroy_wrapper. wp_steps.
  case_if; [by apply Hclosed|]. unfold close, update. wp_steps. unfold system_call. wp_step. apply wp_sys. unfold wp, of_result, SystemCall.
  destruct (_ || _) eqn:Er; cbn.
  - intros Hc i w Hi. cbn [heap]. rewrite list_lookup_alter. case_decide as Hh; [|].
    + subst i. destruct (alter _ h (heap m) !! h) as [w0|]; simpl; [|done]. by intros [= <-] _.
    + unfold m1. cbn [heap]. rewrite list_lookup_alter_ne by done. by apply Hs.
  - intros Hc. specialize (Hc (fd_num h m1) (kernel m1)). by rewrite Hc in Er.
Qed.

Lemma release_owns l h hs m : owns l (h :: hs) m -> wp (release h) (fun _ m' => owns l hs m') (fun _ _ => False) m.
Proof.
  intros (Hs & k & [_ H1]%Forall_cons_1 & H2). eapply wp_mono; [apply wp_conj; [by apply shut_release|apply held_release]| |by intros e m' []].
  intros [] m' [H3 H4]. split; [done|]. exists k. split; [done|]. by rewrite H4, H2; simpl; rewrite alter_pred_S.
Qed.

(** Operations that leave the holders alone. *)
Section kept.
Context (l : list nat) (hs : list FileDescriptor).
Abbreviation kept m := (keeps (owns (K := K) l hs) m (fun _ => True)) (only parsing).

Lemma kept_sys {A} (call : K -> A * K) : kept (sys call).
Proof. intros m Hm. unfold run_ends, sys. destruct (call (kernel m)) as [r k]. by split; [apply (owns_heap _ _ m)|]. Qed.
Lemma kept_SystemCall {A} (r : sysret A) mask : kept (of_result (SystemCall r mask)).
Proof. apply keeps_of_result; [unfold SystemCall; by destruct (_ || _)|done]. Qed.
Lemma kept_gets {A} (f : machine K -> A) : kept (gets f).
Proof. by apply keeps_gets. Qed.
Lemma kept_defined {A} (r : result A) : defined r -> kept (of_result r).
Proof. intros Hr. by apply keeps_of_result. Qed.
Lemma kept_update h f :
  (forall w, use_count (f w) = use_count w /\ (_closed w = true -> _closed (f w) = true)) -> kept (update h f).
Proof. intros Hf. apply keeps_modify. intros m. by eapply owns_alter. Qed.
End kept.

Create HintDb holders.
#[local] Hint Resolve kept_sys kept_SystemCall kept_gets kept_defined : holders.
#[local] Hint Extern 1 (keeps _ (update _ _) _) => apply kept_update; by split : holders.
#[local] Hint Extern 2 (keeps _ _ (fun _ => True)) => apply keeps_any : holders.

(** Follow the structure of an operation. *)
Ltac kept_steps := repeat first [done|solve [auto with holders defined]|keeps_step].

Section kept_operations.
Context (l : list nat) (hs : list FileDescriptor).
Abbreviation kept m := (keeps (owns (K := K) l hs) m (fun _ => True)) (only parsing).

Lemma kept_system_call {A} (call : K -> sysret A * K) : kept (system_call call).
Proof. unfold system_call. kept_steps. Qed.
#[local] Hint Resolve kept_system_call : holders.
Lemma kept_close h : kept (close h).
Proof. unfold close. kept_steps. Qed.
Lemma kept_register_read h : kept (register_read h).
Proof. unfold register_read. kept_steps. Qed.
Lemma kept_register_write h : kept (register_write h).
Proof. unfold register_write. kept_steps. Qed.
#[local] Hint Resolve kept_close kept_register_read kept_register_write : holders.
Lemma defined_resize_to n s : defined (resize_to n s).
Proof. unfold resize_to. defined_steps. Qed.
#[local] Hint Resolve defined_resize_to : defined.
Lemma kept_fd_read h limit : kept (fd_read h limit).
Proof. unfold fd_read. kept_steps. Qed.
Lemma kept_fd_write h b all : kept (fd_write h b all).
Proof. apply keeps_iterate. intros [b' n]. unfold write_turn. kept_steps. Qed.
Lemma kept_fd_write_string h s all : kept (fd_write_string h s all).
Proof. apply kept_fd_write. Qed.
Lemma kept_set_blocking h b : kept (set_blocking h b).
Proof. unfold set_blocking. kept_steps. Qed.
Lemma kept_Socket_check h domain type : kept (Socket_check h domain type).
Proof. unfold Socket_check. kept_steps. Qed.
Lemma kept_bind h a : kept (Socket.bind h a).
Proof. unfold Socket.bind. kept_steps. Qed.
Lemma kept_socket_connect h a : kept (socket_connect h a).
Proof. unfold socket_connect. kept_steps. Qed.
Lemma kept_shutdown h how : kept (shutdown h how).
Proof. unfold shutdown. kept_steps. Qed.
Lemma kept_set_reuseaddr h : kept (set_reuseaddr h).
Proof. unfold set_reuseaddr, setsockopt. kept_steps. Qed.
Lemma kept_listen h n : kept (Socket.listen h n).
Proof. unfold Socket.listen. kept_steps. Qed.
Lemma kept_recv h mtu : kept (recv h mtu).
Proof. unfold recv. kept_steps. Qed.
Lemma kept_sendto h a b : kept (sendto h a b).
Proof.
  unfold sendto, sendmsg_helper. kept_steps.
Qed.
End kept_operations.

(** Operations that change what is held: from [hs] to [post a] with the value [a], or to [epost] with an
    exception. *)
Section turns.
Context (l : list nat).

Definition turns {A} (hs : list FileDescriptor) (body : io (machine K) A) (post : A -> list FileDescriptor)
    (epost : list FileDescriptor) : Prop := forall m, owns l hs m ->
  run_ends body (fun a m' => owns l (post a) m') (fun e m' => caught e /\ owns l epost m') (fun _ => True) m.

Lemma turns_ret {A} hs (a : A) post epost : hs ≡ₚ post a -> turns hs (mret a) post epost.
Proof. intros Hp m Hm. rewrite Hp in Hm. exact Hm. Qed.
Lemma turns_bind {A B} hs (m : io (machine K) A) (f : A -> io (machine K) B) mid post epost :
  turns hs m mid epost -> (forall a, turns (mid a) (f a) post epost) -> turns hs (m ≫= f) post epost.
Proof. intros Hm Hf w Hw. apply run_ends_bind. eapply run_ends_mono; [by apply Hm| |done..]. intros a w' Hw'. by apply Hf. Qed.
Lemma turns_kept {A} hs (m : io (machine K) A) : keeps (owns l hs) m (fun _ => True) -> turns hs m (fun _ => hs) hs.
Proof. intros Hm w Hw. eapply keeps_run; eauto. Qed.
Lemma turns_keeps hs (m : io (machine K) unit) : turns hs m (fun _ => hs) hs -> keeps (owns l hs) m (fun _ => True).
Proof. intros Hm w Hw. eapply run_ends_mono; [by apply Hm|done..]. Qed.
Lemma turns_perm {A} hs hs' (m : io (machine K) A) post post' epost epost' :
  turns hs' m post' epost' -> hs ≡ₚ hs' -> (forall a, post' a ≡ₚ post a) -> epost' ≡ₚ epost -> turns hs m post epost.
Proof.
  intros Hm H1 H2 H3 w Hw. rewrite H1 in Hw. eapply run_ends_mono; [by apply Hm|..|done].
  - intros a w' Hw'. by apply (owns_perm l _ _ (H2 a) w' w' eq_refl).
  - intros e w' [He Hw']. split; [done|]. by apply (owns_perm l _ _ H3 w' w' eq_refl).
Qed.
Lemma turns_release h hs hs' epost : hs' ≡ₚ h :: hs -> turns hs' (release h) (fun _ => hs) epost.
Proof.
  intros Hp m Hm. rewrite Hp in Hm. apply run_ends_wp.
  by eapply wp_mono; [apply release_owns| |].
Qed.
Lemma turns_duplicate h hs epost : h ∈ hs -> turns hs (duplicate h) (fun h' => h' :: hs) epost.
Proof.
  intros Hh m Hm. unfold duplicate. apply run_ends_wp. wp_step. apply wp_update. wp_step. by eapply owns_duplicate.
Qed.

(** The destructors on the way of an exception. *)
Lemma turns_unwinding {A} hs (m : io (machine K) A) cleanup post mid epost :
  turns hs m post mid -> turns mid cleanup (fun _ => epost) epost -> turns hs (unwinding m cleanup) post epost.
Proof.
  intros Hm Hc w Hw. apply run_ends_catch. eapply run_ends_mono; [by apply Hm|done| |done]. intros e w' [He Hw'].
  apply run_ends_bind. eapply run_ends_mono; [by apply Hc| |done..]. by intros [] w'' Hw''.
Qed.

(** Making an object that holds a descriptor. *)
Definition opens (make : io (machine K) FileDescriptor) : Prop := forall hs, turns hs make (fun h => h :: hs) hs.

Lemma wp_FileDescriptor_of fd hs m :
  0 <= fd -> owns l hs m -> wp (FileDescriptor_of fd) (fun h m' => owns l (h :: hs) m') (fun _ _ => False) m.
Proof.
  intros Hfd Hm. unfold FileDescriptor_of. case_if; [lia|]. wp_steps. by eapply owns_new.
Qed.
Lemma opens_FileDescriptor_of fd : opens (FileDescriptor_of fd).
Proof.
  intros hs m Hm. destruct (decide (0 <= fd)) as [Hfd|Hfd].
  - apply run_ends_wp. by eapply wp_mono; [apply wp_FileDescriptor_of|..].
  - unfold FileDescriptor_of. case_if; [done|lia].
Qed.
Lemma opens_Socket_new domain type : opens (Socket_new domain type).
Proof.
  intros hs. eapply turns_bind; [apply turns_kept, kept_system_call|]. intros fd. apply opens_FileDescriptor_of.
Qed.
Lemma opens_TunFD_new devname : opens (TunFD_new devname).
Proof.
  intros hs. eapply turns_bind; [apply turns_kept, kept_system_call|]. intros fd.
  eapply turns_bind; [apply opens_FileDescriptor_of|]. intros h. eapply turns_unwinding; [|by apply turns_release].
  eapply turns_bind; [apply turns_kept, kept_gets|]. intros n.
  eapply turns_bind; [apply turns_kept, kept_system_call|]. intros r. by apply turns_ret.
Qed.

(** The constructor of a socket from a descriptor. *)
Lemma turns_Socket_of h domain type hs : turns (h :: hs) (Socket_of h domain type) (fun h' => h' :: hs) hs.
Proof.
  unfold Socket_of. eapply turns_unwinding; [|by apply turns_release]. intros m Hm.
  assert (wp (Socket_check h domain type) (fun h' m' => h' = h) (fun _ _ => True) m) as HC.
  { unfold Socket_check. wp_steps. apply wp_sys. wp_step. apply wp_SystemCall; [|done]. intros z. destruct (out _) as [v n].
    case_if; [by wp_step|]. wp_steps. apply wp_sys. wp_step. apply wp_SystemCall; [|done]. intros z'. destruct (out _) as [v' n'].
    case_if; by wp_step. }
  pose proof (kept_Socket_check l (h :: hs) h domain type m Hm) as HK. unfold run_ends, wp in *.
  destruct (Socket_check h domain type m) as [[h'|e|] m']; [|done..]. subst h'. apply HK.
Qed.

Lemma turns_accept h : opens (accept h).
Proof.
  intros hs. eapply turns_bind; [apply turns_kept, kept_register_read|]. intros [].
  eapply turns_bind; [apply turns_kept, kept_gets|]. intros n.
  eapply turns_bind; [apply turns_kept, kept_system_call|]. intros fd.
  eapply turns_bind; [apply opens_FileDescriptor_of|]. intros h'. apply turns_Socket_of.
Qed.
End turns.
End descriptors.

(** ** The event loop *)

Section loop.
Context {K : Type} `{Kernel K} {T : Type} (P : T -> Prop).
Implicit Types (m : machine K) (r : Rule K T).

(** Functions that keep what is held, and [P] of the state they work on. *)
Definition kept_with {A} (body : io (machine K * T) A) (Q : A -> Prop) : Prop := forall l hs,
  keeps (fun w => owns l hs w.1 /\ P w.2) body Q.
Definition steady r : Prop := kept_with (callback r) (fun _ => True) /\ kept_with (cancel r) (fun _ => True).

Lemma kept_with_machine {A} (body : io (machine K) A) Q :
  (forall l hs, keeps (owns l hs) body Q) -> kept_with (on_fst body) Q.
Proof.
  intros Hb l hs. eapply keeps_zoom; [| |apply (Hb l hs)]; [by intros w []|]. intros m w [_ HP] Hm. by split.
Qed.
Lemma kept_with_state {A} (body : io T A) Q : keeps P body Q -> kept_with (on_snd body) Q.
Proof. intros Hb l hs. eapply keeps_zoom; [| |exact Hb]; [by intros w []|]. intros s w [Hm _] HP. by split. Qed.

Context (l : list nat) (hs : list FileDescriptor).

(** The loop holds the descriptors of its rules. *)
Definition loop_owns (v : (machine K * T) * list (Rule K T)) : Prop :=
  owns l (map rule_fd v.2 ++ hs) v.1.1 /\ P v.1.2 /\ Forall steady v.2.

Lemma loop_owns_kept {B} (body : io (machine K * T) B) :
  kept_with body (fun _ => True) -> keeps loop_owns (on_fst body) (fun _ => True).
Proof.
  intros Hb [w rules] (H1 & H2 & H3). apply run_ends_on_fst. eapply keeps_run; [apply Hb|exact (conj H1 H2)|..].
  - by intros a w' [].
  - by intros e w' He [].
Qed.

Lemma cancel_rule_owns kept r rest w :
  loop_owns (w, kept ++ r :: rest) ->
  run_ends (cancel_rule (length kept) r) (fun _ v => loop_owns v /\ v.2 = kept ++ rest)
    (fun e v => caught e /\ loop_owns v) (fun _ => True) (w, kept ++ r :: rest).
Proof.
  intros (H1 & H2 & H3). unfold cancel_rule, erase. apply run_ends_bind. cbn [fst snd] in *.
  assert (steady r /\ Forall steady (kept ++ rest)) as [Hr Hrest].
  { apply Forall_app in H3 as [Hk [Hr Hs]%Forall_cons_1]. split; [done|]. by apply Forall_app. }
  apply run_ends_on_fst. eapply keeps_run; [apply (proj2 Hr)|exact (conj H1 H2)| |by intros e w' He []].
  intros [] w' [Hm HP] _.
  apply run_ends_wp. wp_steps. cbn [fst snd]. eapply wp_mono; [apply (release_owns l _ (map rule_fd (kept ++ rest) ++ hs))| |done].
  2: { intros [] m' Hm'. cbn [fst snd]. by rewrite delete_middle. }
  eapply (owns_perm l); [|reflexivity|exact Hm]. cbn [fst snd]. rewrite !map_app. cbn [map]. rewrite <- !app_assoc. cbn [app].
  apply Permutation_middle.
Qed.

Lemma setup_owns rules : forall kept fds b w,
  loop_owns (w, kept ++ rules) ->
  run_ends (setup rules (length kept) fds b) (fun _ => loop_owns) (fun e v => caught e /\ loop_owns v) (fun _ => True)
    (w, kept ++ rules).
Proof.
  induction rules as [|r rules IH]; intros kept fds b w Hw; [done|].
  assert (run_ends (_ ← cancel_rule (length kept) r; setup rules (length kept) fds b) (fun _ => loop_owns)
    (fun e v => caught e /\ loop_owns v) (fun _ => True) (w, kept ++ r :: rules)) as Hcancel.
  { apply run_ends_bind. eapply run_ends_mono; [by apply cancel_rule_owns| |done..]. intros [] [w' rs] [Hw' E]. simpl in E. subst rs.
    by apply IH. }
  assert (forall fds1 b1, run_ends (setup rules (length kept + 1) (fds ++ [fds1]) b1) (fun _ => loop_owns)
    (fun e v => caught e /\ loop_owns v) (fun _ => True) (w, kept ++ r :: rules)) as Hkeep.
  { intros fds1 b1. pose proof (IH (kept ++ [r]) (fds ++ [fds1]) b1 w) as IH'. rewrite length_app, <- app_assoc in IH'. by apply IH'. }
  cbn [setup]. apply run_ends_bind, run_ends_wp. wp_steps. case_if; [exact Hcancel|]. apply run_ends_bind, run_ends_wp. wp_steps.
  case_if; [exact Hcancel|]. do 2 (apply run_ends_bind, run_ends_wp; wp_steps). case_if; apply Hkeep.
Qed.

Lemma dispatch_owns rules : forall kept fds w,
  loop_owns (w, kept ++ rules) ->
  run_ends (dispatch rules fds (length kept)) (fun _ => loop_owns) (fun e v => caught e /\ loop_owns v) (fun _ => True)
    (w, kept ++ rules).
Proof.
  induction rules as [|r rules IH]; intros kept [|p fds] w Hw; [done..|]. cbn [dispatch]. case_if; [done|]. case_if.
  { apply run_ends_bind. eapply run_ends_mono; [by apply cancel_rule_owns| |done..]. intros [] [w' rs] [Hw' E]. simpl in E. subst rs.
    by apply IH. }
  apply run_ends_bind.
  assert (forall w', loop_owns (w', kept ++ r :: rules) -> run_ends (dispatch rules fds (length kept + 1)) (fun _ => loop_owns)
    (fun e v => caught e /\ loop_owns v) (fun _ => True) (w', kept ++ r :: rules)) as Hkeep.
  { intros w' Hw'. pose proof (IH (kept ++ [r]) fds w') as IH'. rewrite length_app, <- app_assoc in IH'. by apply IH'. }
  destruct (flag (poll_revents p) (poll_events p)); cbn [when]; [|by apply Hkeep].
  destruct Hw as (H1 & H2 & H3). cbn [fst snd] in *. pose proof H3 as [_ [Hr _]%Forall_cons_1]%Forall_app.
  apply run_ends_bind, run_ends_wp. wp_steps. apply run_ends_bind, run_ends_on_fst.
  eapply keeps_run; [apply (proj1 Hr)|exact (conj H1 H2)| |by intros e w' He []]. intros [] w' [Hm HP] _.
  apply run_ends_bind, run_ends_wp. wp_steps. cbn [fst snd]. case_if; [done|]. by apply Hkeep.
Qed.

Lemma wait_next_event_owns t : keeps loop_owns (wait_next_event t) (fun _ => True).
Proof.
  intros [w rules] Hv. unfold wait_next_event. apply run_ends_bind, run_ends_wp. wp_steps. apply run_ends_bind.
  eapply run_ends_mono; [apply (setup_owns rules [] [] false w Hv)| |done..]. intros [fds b] [w1 rs] H1. cbn [fst snd].
  destruct b; cbn [negb]; [|done]. apply run_ends_bind, run_ends_wp. wp_steps. apply wp_sys. cbn [fst snd].
  destruct H1 as (H1 & H2 & H3). cbn [fst snd] in *.
  set (w2 := (mkMachine _ _, _)). assert (loop_owns (w2, rs)) as Hw2 by (split; [by apply (owns_heap _ _ w1.1)|done]).
  assert (forall fds, run_ends (rules ← gets snd; _ ← dispatch rules fds 0; mret Success)
    (fun _ v => loop_owns v /\ True) (fun e v => caught e /\ loop_owns v) (fun _ => True) (w2, rs)) as Hres.
  { intros fds'. apply run_ends_bind, run_ends_wp. wp_steps. apply run_ends_bind.
    eapply run_ends_mono; [apply (dispatch_owns rs [] fds' w2 Hw2)|by intros|done..]. }
  destruct (SystemCall _ _) as [n|e|] eqn:Es; [case_if; [done|apply Hres]| |done].
  unfold SystemCall in Es. case_if_in Es; [done|]. injection Es as <-. case_if; [done|apply Hres].
Qed.

Lemma add_rule_owns fd d cb i cn :
  fd ∈ hs -> steady (mkRule fd d cb i cn) -> keeps loop_owns (add_rule fd d cb i cn) (fun _ => True).
Proof.
  intros Hfd Hr [[m s] rules] (H1 & H2 & H3). cbn [fst snd] in *. unfold add_rule, duplicate. apply run_ends_wp. wp_steps.
  apply wp_update. wp_steps. cbn [fst snd]. split; [|done]. split; [|split; [done|by apply Forall_app_2; [|constructor]]].
  cbn [fst snd]. eapply (owns_perm l); [|reflexivity|eapply (owns_duplicate l fd); [|reflexivity|exact H1]].
  - rewrite map_app, <- app_assoc. symmetry. apply Permutation_middle.
  - apply elem_of_app. by right.
Qed.

(** What is left when the rules are destroyed. *)
Lemma destroy_rules_owns v :
  loop_owns v -> wp destroy_rules (fun _ v' => owns l hs v'.1.1 /\ P v'.1.2 /\ v'.2 = []) (fun _ _ => False) v.
Proof.
  intros (H1 & H2 & H3). unfold destroy_rules. wp_steps.
  assert (forall rules (v : (machine K * T) * list (Rule K T)), owns l (map rule_fd rules ++ hs) v.1.1 -> P v.1.2 ->
    wp (foldr (fun r rest => _ ← on_fst (on_fst (release (rule_fd r))); rest) (mret tt) rules)
      (fun _ v' => owns l hs v'.1.1 /\ P v'.1.2) (fun _ _ => False) v) as Hfold.
  { clear. induction rules as [|r rules IH]; intros [[m s] rs] Hm HP; [done|]. cbn [foldr]. wp_steps. cbn [fst snd] in *.
    eapply wp_mono; [exact (release_owns l (rule_fd r) (map rule_fd rules ++ hs) m Hm)| |done]. intros [] m' Hm'. by apply IH. }
  eapply wp_mono; [by apply Hfold| |done]. intros [] v' []. wp_step. done.
Qed.
End loop.

(** ** The socket *)

(** An adapter keeps what is held, and its descriptor. *)
Class AdapterOwns (K A : Type) `{FdAdapter K A} := {
  ad_read_owns : forall a l hs, keeps (owns l hs) (ad_read a) (fun r => ad_fd r.2 = ad_fd a);
  ad_write_owns : forall seg a l hs, keeps (owns l hs) (ad_write seg a) (fun r => ad_fd r.2 = ad_fd a);
  ad_config_mut_owns : forall c a, ad_fd (ad_config_mut c a) = ad_fd a;
  ad_set_listening_owns : forall b a, ad_fd (ad_set_listening b a) = ad_fd a;
  ad_tick_owns : forall ms a, ad_fd (ad_tick ms a) = ad_fd a
}.

#[global] Instance tun_owns {K} `{Kernel K} {R : Resolver} : AdapterOwns K TunFdAdapter.
Proof.
  split; try done; intros.
  - cbn. unfold tun_fd_read. repeat keeps_step; [apply kept_fd_read|apply kept_defined; auto with defined|done].
  - cbn. unfold tun_fd_write. repeat keeps_step; [apply kept_defined; auto with defined|apply kept_fd_write|done].
Qed.

#[global] Instance udp_owns {K} `{Kernel K} {R : Resolver} : AdapterOwns K UDPFdAdapter.
Proof.
  split; try done; intros.
  - cbn. unfold udp_fd_read. repeat keeps_step; [apply kept_recv|apply kept_defined; auto with defined|done].
  - cbn. unfold udp_fd_write. repeat keeps_step; [apply kept_defined; auto with defined|apply kept_sendto|done].
Qed.

#[global] Instance lossy_owns {K G A} `{AdapterOwns K A} `{RandomGenerator G} : AdapterOwns K (LossyFdAdapter G A).
Proof.
  split.
  - intros a l hs. cbn. unfold lossy_read. eapply keeps_bind; [apply ad_read_owns|]. intros r Hr. unfold _should_drop.
    repeat first [by apply keeps_ret|case_if|destruct (next_random _)].
  - intros seg a l hs. cbn. unfold lossy_write, _should_drop.
    repeat first [by apply keeps_ret|by eapply keeps_bind; [apply ad_write_owns|intros r Hr; apply keeps_ret]
      |case_if|destruct (next_random _)].
  - intros c a. exact (ad_config_mut_owns c (_adapter a)).
  - intros b a. exact (ad_set_listening_owns b (_adapter a)).
  - intros ms a. exact (ad_tick_owns ms (_adapter a)).
Qed.

Section sponge.
Context {K A : Type} `{Kernel K} `{!FdAdapter K A} {R : Resolver} {Ho : AdapterOwns K A}.
Abbreviation loop_state := ((machine K * TCPSpongeSocket A) * list (Rule K (TCPSpongeSocket A)))%type (only parsing).

(** The descriptors that a socket is made with. *)
Definition socket_fds (s : TCPSpongeSocket A) : list FileDescriptor :=
  [ad_fd (_datagram_adapter s); _thread_data s; _owner s].

Context (ah th oh : FileDescriptor).
Abbreviation same_fds := (fun s => socket_fds s = [ah; th; oh]) (only parsing).
Abbreviation kept body := (kept_with (K := K) same_fds body (fun _ => True)) (only parsing).

Lemma kept_fst {B} (body : io (machine K) B) : (forall l hs, keeps (owns l hs) body (fun _ => True)) -> kept (on_fst body).
Proof. apply kept_with_machine. Qed.
Lemma kept_modify f : (forall s, socket_fds (f s) = socket_fds s) -> kept (on_socket (modify f)).
Proof. intros Hf. apply kept_with_state, keeps_modify. intros s <-. apply Hf. Qed.
Lemma kept_set_adapter x : ad_fd x = ah -> kept (on_socket (modify (set_adapter x))).
Proof. intros Hx. apply kept_with_state, keeps_modify. intros s [= _ <- <-]. by rewrite <- Hx. Qed.
Lemma keeps_tcp (I : TCPSpongeSocket A -> Prop) : keeps I tcp (fun _ => True).
Proof. unfold tcp. keeps_step; [by apply keeps_gets|]. destruct a; [by apply keeps_ret|by apply keeps_throw]. Qed.
Lemma kept_tcp : kept (on_socket tcp).
Proof. apply kept_with_state, keeps_tcp. Qed.
Lemma kept_on_tcp f : (forall c, defined (f c)) -> kept (on_socket (on_tcp f)).
Proof.
  intros Hf. apply kept_with_state. unfold on_tcp. keeps_step; [apply keeps_tcp|].
  keeps_step; [by apply keeps_of_result|]. by apply keeps_modify.
Qed.
Lemma kept_debug_peer : kept (on_socket debug_peer).
Proof.
  apply kept_with_state. unfold debug_peer. keeps_step; [by apply keeps_gets|].
  keeps_step; [by apply keeps_of_result; [auto with defined|]|by apply keeps_ret].
Qed.
Lemma kept_gets_world {B} (f : machine K * TCPSpongeSocket A -> B) : kept (gets f).
Proof. intros l hs. by apply keeps_gets. Qed.
Lemma kept_pure {B} (r : result B) : defined r -> kept (of_result r).
Proof. intros Hr l hs. by apply keeps_of_result. Qed.

(** Follow the structure of a function of a rule. *)
Ltac rule_steps :=
  repeat first
    [ done
    | solve [apply kept_tcp|apply kept_debug_peer|apply kept_gets_world|by apply kept_modify
            |apply kept_on_tcp; auto with defined|apply kept_pure; auto with defined
            |apply kept_fst; intros; first [apply kept_fd_read|apply kept_fd_write_string|apply kept_shutdown]]
    | keeps_step ].

(** The calls of the adapter. *)
Lemma kept_adapter {B C} (call : A -> io (machine K) (B * A)) (rest : B * A -> io (machine K * TCPSpongeSocket A) C) l hs :
  (forall x, keeps (owns l hs) (call x) (fun r => ad_fd r.2 = ad_fd x)) ->
  (forall r, keeps (fun w => owns l hs w.1 /\ socket_fds w.2 = [ah; th; oh]) (rest r) (fun _ => True)) ->
  keeps (fun w => owns l hs w.1 /\ socket_fds w.2 = [ah; th; oh])
    (a ← gets (fun w => _datagram_adapter w.2); r ← on_fst (call a); _ ← on_socket (modify (set_adapter r.2)); rest r) (fun _ => True).
Proof.
  intros Hc Hr. apply keeps_bind with (Q := fun x => ad_fd x = ah); [apply keeps_gets; by intros w [_ [= E _ _]]|].
  intros x Hx. apply keeps_bind with (Q := fun r => ad_fd r.2 = ah).
  - eapply keeps_zoom; [| |eapply keeps_mono; [apply (Hc x)|]]; [by intros w []|by intros m w [_ HP]|]. intros r Er. congruence.
  - intros r Er. keeps_step; [by apply kept_set_adapter|]. apply Hr.
Qed.

Lemma kept_rule_1 : kept rule_1_callback.
Proof. intros l hs. apply kept_adapter; [intros; apply ad_read_owns|]. intros r. rule_steps. Qed.
Lemma kept_rule_2 : kept rule_2_callback.
Proof. intros l hs. unfold rule_2_callback. rule_steps. Qed.
Lemma kept_rule_2_cancel : kept rule_2_cancel.
Proof. intros l hs. unfold rule_2_cancel. rule_steps. Qed.
Lemma kept_rule_3 : kept rule_3_callback.
Proof. intros l hs. unfold rule_3_callback. rule_steps. Qed.
Lemma kept_rule_4 : kept rule_4_callback.
Proof.
  intros l hs. unfold rule_4_callback. keeps_step; [apply kept_tcp|]. apply keeps_iterate. intros []. unfold rule_4_turn.
  keeps_step; [apply kept_tcp|]. destruct (_segments_out _) as [|seg q]; [by apply keeps_ret|].
  apply (kept_adapter (ad_write seg)); [intros; apply ad_write_owns|]. intros r. rule_steps.
Qed.

(** The loop of the socket. *)
Context (l : list nat) (hs : list FileDescriptor) (Ha : ah ∈ hs) (Ht : th ∈ hs).
Abbreviation sock_owns := (loop_owns (K := K) (fun s => socket_fds s = [ah; th; oh]) l hs) (only parsing).

Lemma loop_kept {B} (body : io (machine K * TCPSpongeSocket A) B) : kept body -> keeps sock_owns (on_fst body) (fun _ => True).
Proof. apply loop_owns_kept. Qed.
Lemma loop_gets {B} (f : loop_state -> B) : keeps sock_owns (gets f) (fun _ => True).
Proof. by apply keeps_gets. Qed.
Lemma loop_pure {B} (r : result B) : defined r -> keeps sock_owns (of_result r) (fun _ => True).
Proof. intros Hr. by apply keeps_of_result. Qed.
Lemma loop_set_adapter f :
  (forall x, ad_fd (f x) = ad_fd x) ->
  keeps sock_owns (on_fst (on_socket (modify (fun s => set_adapter (f (_datagram_adapter s)) s)))) (fun _ => True).
Proof. intros Hf. apply loop_kept, kept_modify. intros s. unfold socket_fds. cbn. by rewrite Hf. Qed.

Lemma initialize_owns cfg random : keeps sock_owns (_initialize_TCP cfg random) (fun _ => True).
Proof.
  unfold _initialize_TCP. keeps_step; [by apply loop_kept, kept_modify|].
  apply keeps_bind with (Q := fun h => h = ah); [apply keeps_gets; by intros v (_ & [= E _ _] & _)|]. intros h ->.
  apply keeps_bind with (Q := fun h => h = th); [apply keeps_gets; by intros v (_ & [= _ E _] & _)|]. intros h ->.
  assert (kept (mret tt)) as Hnone by (intros ??; by apply keeps_ret).
  repeat (keeps_step; [apply add_rule_owns; [done|split]|]); [..|apply add_rule_owns; [done|split]]; try done.
  - apply kept_rule_1.
  - apply kept_rule_2.
  - apply kept_rule_2_cancel.
  - apply kept_rule_3.
  - apply kept_rule_4.
Qed.

Lemma timestamp_owns : keeps sock_owns (on_fst (on_fst timestamp_ms)) (fun _ => True).
Proof.
  apply loop_kept, kept_fst. intros l' hs'. unfold timestamp_ms. keeps_step; [apply kept_sys|by apply keeps_ret].
Qed.

Lemma tcp_loop_owns _abort fuel condition : keeps sock_owns (_tcp_loop _abort fuel condition) (fun _ => True).
Proof.
  unfold _tcp_loop. keeps_step; [apply timestamp_owns|]. apply keeps_iterate. intros base. unfold tcp_loop_turn.
  keeps_step; [apply loop_gets|]. keeps_step; [by apply keeps_ret|]. keeps_step; [apply wait_next_event_owns|].
  keeps_step; [apply loop_gets|]. keeps_step; [by apply keeps_ret|]. keeps_step; [apply loop_kept, kept_tcp|].
  keeps_step; [|by apply keeps_ret]. keeps_step; [apply timestamp_owns|].
  keeps_step; [apply loop_kept, kept_on_tcp; auto with defined|].
  keeps_step; [apply loop_set_adapter; intros; apply ad_tick_owns|by apply keeps_ret].
Qed.

Lemma connect_owns _abort fuel cfg random c_ad : keeps sock_owns (connect _abort fuel cfg random c_ad) (fun _ => True).
Proof.
  unfold connect. keeps_step; [apply loop_gets|]. keeps_step; [by apply keeps_throw|]. keeps_step; [apply initialize_owns|].
  keeps_step; [apply loop_set_adapter; intros; apply ad_config_mut_owns|]. keeps_step; [apply loop_pure; auto with defined|].
  keeps_step; [apply loop_kept, kept_on_tcp; auto with defined|]. keeps_step; [apply loop_kept, kept_tcp|].
  keeps_step; [by apply keeps_throw|]. keeps_step; [apply tcp_loop_owns|by apply loop_kept, kept_modify].
Qed.

Lemma listen_owns _abort fuel cfg random c_ad : keeps sock_owns (listen_and_accept _abort fuel cfg random c_ad) (fun _ => True).
Proof.
  unfold listen_and_accept. keeps_step; [apply loop_gets|]. keeps_step; [by apply keeps_throw|].
  keeps_step; [apply initialize_owns|]. keeps_step; [apply loop_set_adapter; intros; apply ad_config_mut_owns|].
  keeps_step; [apply loop_set_adapter; intros; apply ad_set_listening_owns|]. keeps_step; [apply tcp_loop_owns|].
  keeps_step; [apply loop_kept, kept_debug_peer|by apply loop_kept, kept_modify].
Qed.

(** [_tcp.reset()] does not throw. *)
Lemma reset_tcp_ends (s : TCPSpongeSocket A) :
  run_ends reset_tcp (fun _ s' => socket_fds s' = socket_fds s) (fun _ _ => False) (fun _ => True) s.
Proof.
  unfold reset_tcp. apply run_ends_bind, run_ends_wp, wp_gets. destruct (_tcp s) as [c|]; [|done]. apply run_ends_bind.
  pose proof (destroy_ends c) as HD. unfold run_ends at 1, of_result. by destruct (destroy c).
Qed.
Lemma kept_reset_tcp : kept (on_socket reset_tcp).
Proof.
  apply kept_with_state. intros s Hs. eapply run_ends_mono; [apply reset_tcp_ends|..|done]; [|done].
  intros [] s' E. split; [congruence|done].
Qed.

Lemma tcp_main_owns _abort fuel : keeps sock_owns (_tcp_main _abort fuel) (fun _ => True).
Proof.
  unfold _tcp_main. keeps_step; [apply loop_gets|]. keeps_step; [by apply keeps_throw|]. keeps_step; [apply tcp_loop_owns|].
  keeps_step; [apply loop_gets|]. keeps_step; [apply loop_kept, kept_fst; intros; apply kept_shutdown|].
  apply loop_kept, kept_reset_tcp.
Qed.

(** The program has ended, in the state in which an exception has left the thread. *)
Definition thread_ended (join : io loop_state unit) (e : exn) (v' : loop_state) : Prop :=
  e = terminated /\ exists v e', join v = (Throw e', v') /\ caught e'.

Lemma thread_join_owns join v :
  keeps sock_owns join (fun _ => True) -> sock_owns v ->
  run_ends (thread_join join) (fun _ => sock_owns) (thread_ended join) (fun _ => True) v.
Proof.
  intros Hj Hv. apply run_ends_join; [by eapply keeps_run|]. intros e v' Ej He. split; [done|]. by exists v, e.
Qed.

Lemma wait_until_closed_owns join v :
  keeps sock_owns join (fun _ => True) -> sock_owns v ->
  run_ends (wait_until_closed join) (fun _ => sock_owns) (fun e v' => caught e /\ sock_owns v' \/ thread_ended join e v')
    (fun _ => True) v.
Proof.
  intros Hj Hv. unfold wait_until_closed. apply run_ends_bind, run_ends_wp, wp_gets, run_ends_bind.
  eapply keeps_run; [apply loop_kept, kept_fst; intros; apply kept_shutdown|exact Hv| |by left]. intros [] v1 H1 _.
  apply run_ends_bind, run_ends_wp, wp_gets. unfold when. case_if; [|done]. apply run_ends_bind.
  eapply run_ends_mono; [by apply thread_join_owns|..|done]; [|by right]. intros [] v2 H2.
  eapply keeps_run; [by apply loop_kept, kept_modify|exact H2|done|by left].
Qed.

(** The destructor releases what the socket holds. *)
Lemma destroy_members_owns hs' v :
  hs = [ah; th; oh] ++ hs' -> sock_owns v ->
  run_ends (
    _ ← destroy_rules;
    _ ← on_fst (on_socket reset_tcp);
    a ← gets (fun s : loop_state => ad_fd (_datagram_adapter s.1.2));
    _ ← on_fst (on_fst (release a));
    h ← gets (fun s : loop_state => _thread_data s.1.2);
    _ ← on_fst (on_fst (release h));
    h ← gets (fun s : loop_state => _owner s.1.2);
    on_fst (on_fst (release h))) (fun _ v' => owns l hs' v'.1.1) (fun _ _ => False) (fun _ => True) v.
Proof.
  intros Eh Hv. apply run_ends_bind, run_ends_wp. eapply wp_mono; [apply (destroy_rules_owns _ l hs _ Hv)| |done].
  intros [] [[m s] rs] (Hm & Hs & _). cbn [fst snd] in *. rewrite Eh in Hm. apply run_ends_bind, run_ends_on_fst.
  unfold on_socket, on_snd. pose proof (reset_tcp_ends s) as HR. unfold run_ends at 1, zoom. unfold run_ends in HR. cbn [fst snd].
  destruct (reset_tcp s) as [[[]|e|] s']; [|done..]. rewrite Hs in HR. injection HR as E1 E2 E3.
  apply run_ends_wp. wp_steps. cbn [fst snd]. rewrite E1. eapply wp_mono; [by apply release_owns| |done]. intros [] m1 H1.
  wp_steps. cbn [fst snd]. rewrite E2. eapply wp_mono; [by apply release_owns| |done]. intros [] m2 H2.
  wp_steps. cbn [fst snd]. rewrite E3. by eapply wp_mono; [apply release_owns| |done].
Qed.
Lemma destroy_socket_owns store_abort join hs' v :
  keeps sock_owns join (fun _ => True) -> hs = [ah; th; oh] ++ hs' -> sock_owns v ->
  run_ends (destroy_socket store_abort join) (fun _ v' => owns l hs' v'.1.1) (thread_ended join) (fun _ => True) v.
Proof.
  intros Hj Eh Hv. unfold destroy_socket. apply run_ends_bind, run_ends_catch.
  assert (forall v, sock_owns v -> run_ends (
    _ ← destroy_rules;
    _ ← on_fst (on_socket reset_tcp);
    a ← gets (fun s : loop_state => ad_fd (_datagram_adapter s.1.2));
    _ ← on_fst (on_fst (release a));
    h ← gets (fun s : loop_state => _thread_data s.1.2);
    _ ← on_fst (on_fst (release h));
    h ← gets (fun s : loop_state => _owner s.1.2);
    on_fst (on_fst (release h))) (fun _ v' => owns l hs' v'.1.1) (thread_ended join) (fun _ => True) v) as Hrest
    by (intros v' Hv'; by eapply run_ends_mono; [apply destroy_members_owns| | |]).
  apply run_ends_bind, run_ends_wp, wp_gets. unfold when. case_if; [|by apply Hrest].
  apply run_ends_bind, run_ends_wp. wp_steps. set (v1 := (_, _) : loop_state). assert (sock_owns v1) as H1 by exact Hv.
  apply run_ends_bind. eapply run_ends_mono; [by apply thread_join_owns|..|done].
  - intros [] v2 H2. apply run_ends_wp. wp_steps. by apply Hrest.
  - by intros e v2 [-> HT].
Qed.
End sponge.

(** The constructor holds the adapter's descriptor and the two of the pair, or releases the adapter's. *)
Section construction.
Context {K A : Type} `{Kernel K} `{!FdAdapter K A} (l : list nat) (hs : list FileDescriptor).

Lemma turns_socket_pair type hs' :
  turns (K := K) l hs' (socket_pair_helper type) (fun p => p.1 :: p.2 :: hs') hs'.
Proof.
  eapply turns_bind; [apply turns_kept, kept_sys|]. intros r. eapply turns_bind; [apply turns_kept, kept_SystemCall|]. intros z.
  eapply turns_bind; [apply opens_FileDescriptor_of|]. intros a.
  eapply turns_bind; [eapply turns_unwinding; [apply opens_FileDescriptor_of|by apply turns_release]|]. intros b.
  apply turns_ret. apply perm_swap.
Qed.

Lemma turns_TCPSpongeSocket_new a :
  turns (K := K) l (ad_fd a :: hs) (TCPSpongeSocket_new a) (fun s => socket_fds s ++ hs) hs.
Proof.
  unfold TCPSpongeSocket_new.
  eapply turns_bind; [eapply turns_unwinding; [apply turns_socket_pair|by apply turns_release]|]. intros [fst snd]. cbn [Datatypes.fst Datatypes.snd].
  unfold TCPSpongeSocket_of_pair.
  eapply turns_bind.
  { eapply turns_unwinding; [apply turns_Socket_of|]. eapply turns_bind; [by apply turns_release|]. intros []. by apply turns_release. }
  intros owner. eapply turns_bind.
  { eapply turns_unwinding; [eapply turns_perm; [apply (turns_Socket_of l snd)|apply perm_swap|done|done]|].
    eapply turns_bind; [by apply turns_release|]. intros []. by apply turns_release. }
  intros thread. eapply turns_bind.
  { eapply turns_unwinding; [apply turns_kept, kept_set_blocking|]. eapply turns_bind; [apply (turns_release l (ad_fd a) (thread :: owner :: hs)); solve_Permutation|].
    intros []. eapply turns_bind; [by apply turns_release|]. intros []. by apply turns_release. }
  intros []. apply turns_ret. cbn. solve_Permutation.
Qed.
End construction.
