(* ===== verification/SpongeSafe.v ===== *)
(** * The thread of a TCP socket

    The rules of TCPSpongeSocket under the event loop, for every kernel, every adapter that keeps
    the promises of [FdAdapterLaws] and every peer: what the owner writes to the socket pair is what
    the connection sends, what the connection has assembled is what the owner gets, and
    which exceptions can end the thread. *)

From S2P Require Import Prelude IO WrappingIntegers ByteStream StreamReassembler Buffer Parser TCPHeader TCPSegment.
From S2P Require Import TCPReceiver TCPSender.
From S2P Require Import TCPState TCPConnection Robust AnyPeer Address Adapter Kernel SimKernel FileDescriptor.
From S2P Require Import EventLoop Socket FdAdapter TCPSpongeSocket.

(** ** The invariant *)

Section safe.
Context {K A : Type} `{KernelLaws K} `{!FdAdapter K A} `{!WireFormat A} {Res : Resolver} {La : FdAdapterLaws K A}.

(** The log at the start, the descriptors in the heap and their numbers, the handles of the owner's end and the
    handles and numbers of the thread's end of the socket pair and of the adapter. *)
Context (log0 : list event) (size : nat) (fds : FileDescriptor -> Z) (oh th ah : FileDescriptor) (tfd afd : Z).
Context (Hfds : afd <> tfd) (Hth : (th < size)%nat) (Hah : (ah < size)%nat).

(** The capacity of the receiver and a bound on the calls of the rules. *)
Context (cap : Z) (limit n : nat).
Context (Hcap : 0 <= cap < 4294967296) (Hn : Z.of_nat limit * cap + 4294967296 <= Z.of_nat n).
Context (Hlimit : Z.of_nat limit < 8796093022208).

(** The stream of the peer, if the peer is honest. *)
Context (V : bytes) (peer_isn : WrappingInt32).
Context (HV : #V + 2 <= 2147483648) (Hpeer : wf_wrapping peer_isn).

Implicit Types (m : machine K) (s : TCPSpongeSocket A) (w : machine K * TCPSpongeSocket A).

Definition sock_handles m : Prop :=
  length (heap m) = size /\ fd_num th m = tfd /\ fd_num ah m = afd /\ forall h, fd_num h m = fds h.

(** Every datagram that has arrived and can be read carries a part of [V]. *)
Definition honest (es : list event) : Prop := forall d seg,
  Received afd d ∈ es -> decodes (ad_format A) d seg -> exists x, carries V peer_isn x seg /\ x <= #V + 2.

(** Data is exchanged with the two descriptors only. *)
Definition local_event (e : event) : Prop := event_fd e = tfd \/ event_fd e = afd.

(** The receiver after [j] calls: what is known with any peer, and with an honest one. *)
Record recv_inv (j : Z) (es : list event) (r : TCPReceiver) : Prop := {
  recv_any : recv_ok n cap j [] (sent tfd es) r;
  recv_honest : honest es -> TCPReceiver.wf V peer_isn r /\ sent tfd es = slice 0 (#(sent tfd es)) V;
  recv_local : Forall local_event es
}.

(** The datagrams on the wire carry parts of [W]. *)
Definition on_wire (W : bytes) (c : TCPConnection) (es : list event) : Prop :=
  sends_whole K (ad_format A) afd ->
  forall d, Sent afd d ∈ es -> exists seg, emitted_by W (_sender c) seg /\ encodes (ad_format A) seg d.

(** [W] is what was written to the connection. *)
Definition conn_ok (j : Z) (W : bytes) (es : list event) (c : TCPConnection) : Prop :=
  inv_with (recv_inv j es) W c /\ on_wire W c es.

(** After [i] calls: the connection has been given all that was read from the owner. *)
Definition sock_inv (i : nat) w : Prop :=
  sock_handles w.1 /\ _thread_data w.2 = th /\ ad_fd (_datagram_adapter w.2) = ah /\ _owner w.2 = oh /\
  exists es c, log w.1 = log0 ++ es /\ _tcp w.2 = Some c /\
    conn_ok (Z.of_nat i) (received tfd es) es c /\ #(received tfd es) <= Z.of_nat i * 1048576.

(** The exceptions that can end the thread. *)
Definition sock_exn (e : exn) s : Prop :=
  adapter_exn e \/
  (e = short_write /\ exists c, _tcp s = Some c /\
     (active c = false \/ input_ended (stream_in (_sender c)) = true)).

(** After the exception of rule 2 part of the owner's bytes has been lost. *)
Definition sock_left (e : exn) w : Prop :=
  exists es c j W, log w.1 = log0 ++ es /\ _tcp w.2 = Some c /\ conn_ok j W es c /\
    W `prefix_of` received tfd es /\ (e <> short_write -> W = received tfd es).
Definition sock_error (e : exn) w : Prop := sock_exn e w.2 /\ sock_left e w.

Lemma sock_inv_left i e w : sock_inv i w -> sock_left e w.
Proof. intros (_ & _ & _ & _ & es & c & L & E & Hc & _). by exists es, c, (Z.of_nat i), (received tfd es). Qed.

(** ** The receiver *)

#[local] Instance recv_inv_error j es : ReceiverInv (recv_inv j es).
Proof.
  intros r [H1 H2 H3]. constructor; [by apply receiver_error| |done]. intros Hh. destruct (H2 Hh).
  split; [by apply set_stream_error_wf_receiver|done].
Qed.

Lemma recv_inv_mono j j' es r : j <= j' -> recv_inv j es r -> recv_inv j' es r.
Proof. intros Hj []. constructor; [|done|done]. by eapply recv_ok_mono; [| |done]; [lia|]. Qed.

(** Events that do not concern the receiver. *)
Lemma recv_inv_events j es es' r : sent tfd es' = [] -> Forall local_event es' -> recv_inv j es r -> recv_inv j (es ++ es') r.
Proof.
  intros Hs Hlo [H1 H2 H3]. constructor; [..|by apply Forall_app_2]; rewrite sent_app, Hs, app_nil_r; [done|]. intros Hh. apply H2.
  intros d seg Hd. apply Hh. apply elem_of_app. by left.
Qed.

Lemma recv_inv_segment j es d seg r :
  recv_inv j es r -> Received afd d ∈ es -> decodes (ad_format A) d seg -> parsed seg ->
  (j + 1) * cap + 4294967296 <= Z.of_nat n ->
  exists r', TCPReceiver.segment_received seg r = Ok r' /\ recv_inv (j + 1) es r'.
Proof.
  intros [H1 H2 H3] Hd Hdec Hp Hj. destruct (recv_ok_segment n cap j [] (sent tfd es) seg r) as (r' & E & Hok);
    [lia|done|apply Hp|done|]. exists r'. split; [done|]. constructor; [done| |done]. intros Hh.
  destruct (H2 Hh) as [Hr Hs]. split; [|done]. destruct (Hh d seg Hd Hdec) as (x & Hx & Hle).
  pose proof (window_bounds V _ (StreamReassembler.wf_core _ _ (TCPReceiver.wf_reassembler _ _ _ Hr))) as Hb.
  destruct (segment_received_spec V peer_isn Hpeer ltac:(lia) r x seg Hr Hx) as (r2 & E2 & Hr2 & _).
  { destruct Hx as [Hx _]. unfold near. lia. }
  assert (r2 = r') as -> by congruence. done.
Qed.

(** The owner has been sent [d], the first bytes that wait. *)
Lemma recv_inv_pop j es d r :
  recv_inv j es r -> peek_output (#d) (stream_out r) = d ->
  recv_inv j (es ++ [Sent tfd d])
    (set_reassembler (set_output (pop_output (#d) (stream_out r)) (_reassembler r)) r).
Proof.
  intros [H1 H2 H3] Hd. pose proof (Zlen_nonneg d).
  assert (sent tfd (es ++ [Sent tfd d]) = sent tfd es ++ d) as Es.
  { rewrite sent_app, sent_one. simpl. by rewrite Z.eqb_refl. }
  constructor; [rewrite Es..|apply Forall_app_2; [done|by repeat constructor]].
  { rewrite <- Hd at 1. by apply recv_ok_pop. }
  intros Hh. destruct H2 as [Hr Hs]; [intros d' seg Hd'; apply Hh; apply elem_of_app; by left|].
  destruct (read_stream_spec V peer_isn (#d) r Hr ltac:(lia)) as (R1 & R2 & _ & R4 & _). split; [exact R1|].
  assert ((read_stream (#d) r).1 = d) as Ed by exact Hd.
  rewrite Ed in R2. rewrite Zlen_app. pose proof (recv_taken _ _ _ _ _ _ H1) as Hu.
  pose proof (recv_taken _ _ _ _ _ _ (recv_ok_pop n cap j [] (sent tfd es) (#d) r ltac:(lia) H1)) as Hu'.
  rewrite Hd, Zlen_app in Hu'. pose proof (Zlen_nonneg (sent tfd es)).
  rewrite (slice_split (#(sent tfd es))) by lia. rewrite <- Hs. f_equal.
  rewrite R2 at 1. f_equal; [exact Hu|exact Hu'].
Qed.

(** ** The wire *)

Lemma on_wire_later W d c c' es :
  on_wire W c es -> later (_sender c) (_sender c') -> (input_ended (_stream (_sender c)) = true -> d = []) ->
  on_wire (W ++ d) c' es.
Proof.
  intros Hw [] Hd Hwh x Hx. destruct (Hw Hwh x Hx) as (seg & He & Hc). exists seg. split; [|done].
  eapply emitted_by_mono; eauto.
Qed.

Lemma on_wire_same W c c' es : on_wire W c es -> later (_sender c) (_sender c') -> on_wire W c' es.
Proof. intros Hw Hl. rewrite <- (app_nil_r W). by eapply on_wire_later. Qed.

Lemma on_wire_app W c es es' : on_wire W c es -> on_wire W c es' -> on_wire W c (es ++ es').
Proof. intros H1 H2 Hwh d [Hd|Hd]%elem_of_app; auto. Qed.

(** Nothing was sent. *)
Lemma on_wire_none W c es : (forall d, Sent afd d ∉ es) -> on_wire W c es.
Proof. intros Hd _ d Hin. by destruct (Hd d). Qed.

Lemma conn_ok_mono j j' W es c : j <= j' -> conn_ok j W es c -> conn_ok j' W es c.
Proof. intros Hj [[] Hw]. split; [|done]. constructor; try done. by eapply recv_inv_mono. Qed.

(** A call that sends, and changes neither the receiver nor what was written. *)
Lemma conn_ok_later j W es c c' :
  conn_ok j W es c -> inv_with (recv_inv j es) W c' -> later (_sender c) (_sender c') -> conn_ok j W es c'.
Proof. intros [_ Hw] Hc Hl. split; [done|]. by eapply on_wire_same. Qed.

Lemma conn_ok_events j W es es' c :
  sent tfd es' = [] -> Forall local_event es' -> (forall d, Sent afd d ∉ es') -> conn_ok j W es c -> conn_ok j W (es ++ es') c.
Proof.
  intros Hs Hlo Hd [[] Hw]. split; [|apply on_wire_app; [done|by apply on_wire_none]]. constructor; try done.
  by apply recv_inv_events.
Qed.

Lemma sock_inv_grows : grows sock_inv.
Proof.
  intros i j w Hij (H1 & H2 & H3 & Hown & es & c & L & E & Hc & Hl). split_and!; try done.
  exists es, c. split_and!; try done; [|lia]. eapply conn_ok_mono; [|done]. lia.
Qed.

(** ** Changes of the machine *)

Lemma handles_touches h m m' : touches h m m' -> sock_handles m -> sock_handles m'.
Proof.
  intros [_ (f & Hh & Hf)] (H1 & H2 & H3 & H4). unfold sock_handles. rewrite !(fd_num_alter f _ h m m') by done.
  rewrite Hh, length_alter. split_and!; try done. intros h'. by rewrite (fd_num_alter f h' h m m').
Qed.

(** Events of the adapter's descriptor say nothing about the thread's. *)
Lemma other_events es : Forall (fun e => event_fd e = afd) es -> received tfd es = [] /\ sent tfd es = [].
Proof.
  induction 1 as [|e es He _ [IH1 IH2]]; [done|]. unfold received, sent in *. simpl.
  rewrite IH1, IH2, !app_nil_r. destruct e; simpl in *; subst; by case_if; [lia|].
Qed.

Lemma not_on_wire d d' : Sent afd d ∉ [Sent tfd d'].
Proof. intros [= E _]%list_elem_of_singleton. done. Qed.

(** The adapter has used its descriptor; what it has sent carries segments of the connection. *)
Lemma sock_inv_adapter i m m' s :
  touches ah m m' ->
  (forall es W c, log m' = log m ++ es -> _tcp s = Some c -> Forall (emitted_by W (_sender c)) (_segments_out c) ->
     on_wire W c es) ->
  sock_inv i (m, s) -> sock_inv i (m', s).
Proof.
  intros Ht Hw (H1 & H2 & H3 & Hown & es & c & L & E & [Hc Hwc] & Hl). cbn [fst snd] in *.
  split_and!; try done; [by eapply handles_touches|]. destruct Ht as [(es' & L' & HF) _].
  rewrite (proj1 (proj2 (proj2 H1))) in HF. destruct (other_events es' HF) as [E1 E2].
  exists (es ++ es'), c. cbn [fst snd]. rewrite received_app, E1, app_nil_r, L', L, app_assoc. split_and!; try done.
  split; [|by apply on_wire_app; [|eapply Hw; [..|apply Hc]]].
  destruct Hc. constructor; try done. apply recv_inv_events; [done| |done]. eapply Forall_impl; [|exact HF]. by right.
Qed.

Lemma sock_inv_received i m m' s :
  touches ah m m' -> only_receives ah m m' -> sock_inv i (m, s) -> sock_inv i (m', s).
Proof.
  intros Ht (es & L & HF) Hw. apply (sock_inv_adapter i m); try done. intros es' W c L' _ _. rewrite L in L'.
  apply app_inv_head in L' as <-. apply on_wire_none. intros d Hd. rewrite Forall_forall in HF.
  apply list_elem_of_In in Hd. destruct (HF _ Hd) as (d' & E). done.
Qed.

Lemma sock_inv_wrote i m m' s c seg q :
  _tcp s = Some c -> _segments_out c = seg :: q -> fd_num ah m = afd ->
  touches ah m m' -> puts_on_wire (ad_format A) seg ah m m' -> sock_inv i (m, s) -> sock_inv i (m', s).
Proof.
  intros Ec Eq Ea Ht Hp. apply (sock_inv_adapter i m); [done|]. intros es W c' L Ec' HF Hwh d Hd.
  assert (c' = c) as -> by congruence. unfold puts_on_wire in Hp. rewrite Ea in Hp. rewrite L in Hp.
  destruct (Hp Hwh) as [E|(d' & E & He)].
  - rewrite <- (app_nil_r (log m)) in E at 2. apply app_inv_head in E as ->. by apply elem_of_nil in Hd.
  - apply app_inv_head in E as ->. apply list_elem_of_singleton in Hd. injection Hd as ->. exists seg. split; [|done].
    rewrite Eq in HF. by apply Forall_cons_1 in HF as [? _].
Qed.

Lemma sock_inv_silent i h m m' s : silent h m m' -> sock_inv i (m, s) -> sock_inv i (m', s).
Proof.
  intros Hs (H1 & H2 & H3 & Hown & es & c & L & E & Hc & Hl). cbn [fst snd] in *.
  split_and!; try done; [eapply handles_touches; [by apply silent_touches|done]|]. destruct Hs as [L' _].
  exists es, c. cbn [fst snd]. by rewrite L'.
Qed.

Lemma sock_inv_same i m m' s : log m' = log m -> heap m' = heap m -> sock_inv i (m, s) -> sock_inv i (m', s).
Proof. intros L Hh. apply (sock_inv_silent i th). split; [done|]. exists id. split; [|done]. rewrite Hh. symmetry. by apply list_alter_id. Qed.

(** Fields of the socket that the invariant does not mention. *)
Lemma sock_inv_flags i m s s' :
  _thread_data s' = _thread_data s -> _datagram_adapter s' = _datagram_adapter s -> _owner s' = _owner s -> _tcp s' = _tcp s ->
  sock_inv i (m, s) -> sock_inv i (m, s').
Proof. unfold sock_inv. cbn [fst snd]. by intros -> -> -> ->. Qed.

(** The connection has been called. *)
Lemma sock_inv_tcp i m s es c :
  sock_handles m -> _thread_data s = th -> ad_fd (_datagram_adapter s) = ah -> _owner s = oh -> log m = log0 ++ es ->
  conn_ok (Z.of_nat i) (received tfd es) es c -> #(received tfd es) <= Z.of_nat i * 1048576 ->
  sock_inv i (m, set_tcp (Some c) s).
Proof. intros. split_and!; try done. by exists es, c. Qed.

(** ** The rules *)

Lemma wp_debug_peer i Q E m s :
  sock_inv i (m, s) -> Q tt (m, s) -> (forall e, tame_exn e -> E e (m, s)) -> wp (on_socket debug_peer) Q E (m, s).
Proof.
  intros Hw HQ HE. unfold on_socket, debug_peer. wp_steps. apply wp_tame; [|by intros; wp_steps|by intros; apply HE].
  unfold address_to_string. apply tame_bind; [apply tame_ip_port|done].
Qed.

(** A field of the socket is changed. *)
Lemma wp_set f (Q : unit -> machine K * TCPSpongeSocket A -> Prop) E m s :
  Q tt (m, f s) -> wp (on_socket (modify f)) Q E (m, s).
Proof. done. Qed.

(** The connection of the socket. *)
Lemma wp_tcp (Q : TCPConnection -> machine K * TCPSpongeSocket A -> Prop) E m s c :
  _tcp s = Some c -> Q c (m, s) -> wp (on_socket tcp) Q E (m, s).
Proof. intros Ec HQ. unfold on_socket, tcp. wp_steps. cbn [snd]. rewrite Ec. by wp_step. Qed.

Lemma wp_on_tcp f (Q : unit -> machine K * TCPSpongeSocket A -> Prop) E m s c c' :
  _tcp s = Some c -> f c = Ok c' -> Q tt (m, set_tcp (Some c') s) -> wp (on_socket (on_tcp f)) Q E (m, s).
Proof.
  intros Ec Ef HQ. unfold on_socket, on_tcp, tcp. wp_steps. cbn [snd]. rewrite Ec. wp_steps.
  apply wp_of_result with c'; [done|]. by wp_steps.
Qed.

(** Rule 1: the adapter is read, and the connection sees the segment. *)
Lemma rule_1_keeps i w :
  (i < limit)%nat -> sock_inv i w ->
  wp rule_1_callback (fun _ w' => sock_inv (i + 1) w' /\ read_count ah w'.1 <> read_count ah w.1) sock_error w.
Proof.
  intros Hi Hw. destruct w as [m s]. pose proof Hw as (H1 & H2 & H3 & _). cbn [fst snd] in *.
  unfold rule_1_callback. wp_steps. cbn [fst snd]. eapply wp_mono; [apply ad_read_law|cbn [fst snd]..].
  2: { intros e m' (Ht & Ho & He). split; [by left|]. rewrite H3 in *. eapply sock_inv_left. by apply (sock_inv_received i m). }
  intros [seg a] m1 (Ht & Ho & Ea & Hp & Hc). cbn [fst snd] in *. rewrite H3 in *.
  assert (read_count ah m1 <> read_count ah m) as Hrc by (apply Hc; rewrite (proj1 H1); done). clear Hc.
  pose proof (sock_inv_received i m m1 s Ht Ho Hw) as Hw1.
  wp_steps. apply wp_set. wp_step. set (s1 := set_adapter a s).
  assert (sock_inv i (m1, s1)) as Hw2 by (by destruct Hw1 as (G1 & G2 & _ & G4 & G5)). clear Hw1.
  assert (wp (match seg with Some seg => on_socket (on_tcp (segment_received seg)) | None => mret tt end)
    (fun _ w' => sock_inv (i + 1) w' /\ w'.1 = m1) sock_error (m1, s1)) as Hseg.
  { destruct seg as [seg|]; [|wp_step; split; [eapply sock_inv_grows; [|done]; lia|done]].
    destruct (Hp seg eq_refl) as [Hpar (d & Ld & Hdec)].
    destruct Hw2 as (G1 & G2 & G3 & Hown & es & c & L & E & [Hc Hwc] & Hl). cbn [fst snd] in *.
    assert (Received afd d ∈ es) as Hin.
    { destruct Hw as (J1 & _ & _ & _ & es0 & c0 & L0 & _). cbn [fst] in L0, J1. rewrite L0, L, <- app_assoc in Ld.
      apply app_inv_head in Ld. rewrite (proj1 (proj2 (proj2 J1))) in Ld. subst es. apply elem_of_app. right. by apply list_elem_of_singleton. }
    destruct (segment_received_with (recv_inv (Z.of_nat i) es) (recv_inv (Z.of_nat i + 1) es) (received tfd es) seg c Hc Hpar)
      as (c' & E' & Hc' & Hlat).
    { intros r. apply recv_inv_mono. lia. }
    { intros r Hr. apply (recv_inv_segment _ _ d); try done. nia. }
    eapply wp_on_tcp; [exact E|exact E'|]. split; [|done]. apply (sock_inv_tcp _ _ _ es); try done; [|lia].
    replace (Z.of_nat (i + 1)) with (Z.of_nat i + 1) by lia. split; [done|by eapply on_wire_same]. }
  eapply wp_mono; [exact Hseg| |done]. intros [] [m2 s2] [Hw3 E2]. cbn [fst] in E2. subst m2.
  pose proof Hw3 as (_ & _ & _ & _ & es & c & _ & Ec & _). cbn [snd] in Ec. wp_steps. eapply wp_tcp; [exact Ec|].
  wp_steps. apply wp_when; intros _; [|done]. wp_step. eapply wp_debug_peer; [done| |].
  - apply wp_set. split; [|done]. by eapply sock_inv_flags; [..|exact Hw3].
  - intros e He. split; [by left; left|]. by eapply sock_inv_left.
Qed.

(** What fits is accepted by an open connection. *)
Lemma connection_write_accepts data c k c' :
  TCPConnection.write data c = Ok (k, c') -> #data <= remaining_outbound_capacity c ->
  k = #data \/ (active c = false /\ c' = c) \/ input_ended (stream_in (_sender c)) = true.
Proof.
  unfold TCPConnection.write. intros E Hl. case_if_in E.
  { injection E as <- <-. apply orb_prop in Heqb as [Hb|Hb].
    - right; left. split; [|done]. by apply negb_true_iff.
    - left. apply bool_decide_eq_true in Hb as ->. done. }
  unfold write_stream, ByteStream.write in E. destruct (input_ended (stream_in (_sender c))); [by right; right|].
  destruct (fill_window _); [|done..]. rewrite result_bind_Ok in E. injection E as <- _. left.
  unfold remaining_outbound_capacity in Hl. lia.
Qed.

(** Rule 2: the owner's bytes are given to the connection. *)
Lemma rule_2_keeps i w :
  (i < limit)%nat -> sock_inv i w ->
  wp rule_2_callback (fun _ w' => sock_inv (i + 1) w' /\ read_count th w'.1 <> read_count th w.1) sock_error w.
Proof.
  intros Hi Hw. destruct w as [m s]. pose proof Hw as (H1 & H2 & H3 & Hown & es & c & L & Ec & Hc & Hl). cbn [fst snd] in *.
  unfold rule_2_callback. wp_step. eapply wp_tcp; [exact Ec|]. wp_steps. cbn [fst snd]. rewrite H2.
  assert (0 <= remaining_outbound_capacity c) as Hr by apply u64_range.
  eapply wp_mono; [by apply fd_read_spec| |].
  2: { intros e m' (He & L' & Hh'). split; [left; by right; left|]. eapply sock_inv_left. by apply (sock_inv_same i m). }
  intros data m1 (Hd & L1 & Hh1). unfold BUFFER_SIZE in Hd.
  assert (touches th m m1) as Ht by (by eapply touches_one).
  assert (read_count th m1 <> read_count th m) as Hrc.
  { unfold read_count. destruct m1 as [k1 hp1]. cbn [heap] in Hh1. subst hp1.
    rewrite wrapper_alter by (rewrite (proj1 H1); done). apply u32_succ_ne. }
  set (es1 := es ++ [Received tfd data]).
  assert (received tfd es1 = received tfd es ++ data) as Er.
  { unfold es1. rewrite received_app, received_one. simpl. by rewrite Z.eqb_refl. }
  assert (log m1 = log0 ++ es1) as L1'.
  { unfold es1. rewrite L1, L, (proj1 (proj2 H1)), app_assoc. done. }
  assert (conn_ok (Z.of_nat i) (received tfd es) es1 c) as Hc1.
  { apply conn_ok_events; [by rewrite sent_one|by repeat constructor| |done]. by intros d [=]%list_elem_of_singleton. }
  destruct (write_inv _ (received tfd es) data c (proj1 Hc1)) as (k & c' & Ew & Hi' & [Hlater _] & Hend); [lia|].
  assert (conn_ok (Z.of_nat i) (received tfd es ++ take (Z.to_nat k) data) es1 c') as Hc'.
  { split; [done|]. by eapply on_wire_later; [apply Hc1|..]. }
  cbn [fst snd]. wp_step. apply wp_of_result with (k, c'); [done|]. wp_step. apply wp_set.
  case_if.
  - apply negb_true_iff, Z.eqb_neq in Heqb. wp_step. split.
    + right. split; [done|]. exists c'. split; [done|].
      destruct (connection_write_accepts data c k c' Ew ltac:(lia)) as [?|[[Ha ->]|He]]; [done|by left|right].
      by apply (later_ended _ _ Hlater).
    + exists es1, c', (Z.of_nat i), (received tfd es ++ take (Z.to_nat k) data). split_and!; try done.
      rewrite Er. apply prefix_app, prefix_take.
  - apply negb_false_iff, Z.eqb_eq in Heqb. subst k.
    rewrite take_ge in Hc' by (unfold Zlen; lia).
    assert (sock_inv (i + 1) (m1, set_tcp (Some c') s)) as Hw1.
    { apply (sock_inv_tcp _ _ _ es1); try done; [by eapply handles_touches| |].
      - rewrite Er. eapply conn_ok_mono; [|exact Hc']. lia.
      - rewrite Er, Zlen_app. lia. }
    clear Hc Hc1 Hi' Hc' Ec. wp_steps. cbn [fst snd]. apply wp_when; intros _; [|done].
    destruct Hw1 as (G1 & G2 & G3 & Gown & es2 & c2 & L2 & Ec & Hc & Hl2). cbn [fst snd] in *.
    destruct (end_input_stream_inv _ _ c2 (proj1 Hc)) as (c3 & E3 & Hc3 & [Hl3 _]).
    wp_step. eapply wp_on_tcp; [exact Ec|exact E3|]. wp_step. apply wp_set.
    set (s3 := set_outbound_shutdown _). assert (sock_inv (i + 1) (m1, s3)) as Hw3.
    { split_and!; try done. exists es2, c3. split_and!; try done. by apply conn_ok_later with c2. }
    eapply wp_debug_peer; [exact Hw3|done|]. intros e He. split; [by left; left|]. by eapply sock_inv_left.
Qed.

Lemma rule_2_cancel_keeps i w : sock_inv i w -> wp rule_2_cancel (fun _ w' => sock_inv (i + 1) w') sock_error w.
Proof.
  intros Hw. destruct w as [m s]. pose proof (sock_inv_grows i (i + 1)%nat _ ltac:(lia) Hw) as Hw1.
  destruct Hw1 as (G1 & G2 & G3 & Gown & es2 & c2 & L2 & Ec & Hc & Hl2). cbn [fst snd] in *.
  destruct (end_input_stream_inv _ _ c2 (proj1 Hc)) as (c3 & E3 & Hc3 & [Hl3 _]).
  unfold rule_2_cancel. wp_step. eapply wp_on_tcp; [exact Ec|exact E3|]. apply wp_set.
  split_and!; try done. exists es2, c3. split_and!; try done. by apply conn_ok_later with c2.
Qed.

Lemma peek_prefix d rest k o : peek_output k o = d ++ rest -> peek_output (#d) o = d.
Proof.
  unfold peek_output. intros E.
  assert (_buff o = d ++ rest ++ drop (Z.to_nat (Z.min k (#(_buff o)))) (_buff o)) as Eb.
  { rewrite app_assoc, <- E. by rewrite take_drop. }
  rewrite Eb at 2. rewrite take_app_le; [apply take_ge|]; rewrite Eb, !Zlen_app;
    pose proof (Zlen_nonneg rest); pose proof (Zlen_nonneg (drop (Z.to_nat (Z.min k (#(_buff o)))) (_buff o)));
    unfold Zlen in *; lia.
Qed.

(** Rule 3: the owner is sent a prefix of what is waiting, and that prefix is removed. *)
Lemma rule_3_keeps i w :
  sock_inv i w ->
  wp rule_3_callback (fun _ w' => sock_inv (i + 1) w' /\ write_count th w'.1 <> write_count th w.1) sock_error w.
Proof.
  intros Hw. destruct w as [m s]. pose proof Hw as (H1 & H2 & H3 & Hown & es & c & L & Ec & Hc & Hl). cbn [fst snd] in *.
  unfold rule_3_callback. wp_step. eapply wp_tcp; [exact Ec|]. wp_steps. cbn [fst snd]. rewrite H2.
  set (data := peek_output _ _). assert (#data <= 65536) as Hd.
  { unfold data, peek_output. pose proof (Zlen_nonneg (_buff (inbound_stream c))). unfold Zlen at 1. rewrite length_take.
    unfold buffer_size. lia. }
  unfold fd_write_string, view_of_string. eapply wp_mono; [apply fd_write_some; simpl; rewrite app_nil_r; lia| |].
  2: { intros e m' [Hh [[He L']|[-> L']]].
    - split; [left; by right; left|]. eapply sock_inv_left. by apply (sock_inv_same i m).
    - split; [left; by right; right|]. exists (es ++ [Sent tfd []]), c, (Z.of_nat i), (received tfd es). cbn [fst snd].
      rewrite received_app, received_one. simpl. rewrite app_nil_r.
      rewrite L', L, (proj1 (proj2 H1)), app_assoc. split_and!; try done.
      apply conn_ok_events; [rewrite sent_one; simpl; by case_if|by repeat constructor|exact (fun d => not_on_wire d _)|done]. }
  intros z m1 (d & rest & E1 & -> & L1 & Hh1). simpl in E1. rewrite app_nil_r in E1. cbn [fst snd]. wp_step. apply wp_set.
  assert (touches th m m1) as Ht by (by eapply touches_one).
  assert (write_count th m1 = u32 (write_count th m + 1)) as Hwc.
  { unfold write_count. destruct m1 as [k1 hp1]. cbn [heap] in Hh1. subst hp1.
    by rewrite wrapper_alter by (rewrite (proj1 H1); done). }
  set (c1 := set_inbound _ c). set (s1 := set_tcp _ s).
  assert (sock_inv (i + 1) (m1, s1)) as Hw1.
  { apply (sock_inv_grows i); [lia|]. apply (sock_inv_tcp _ _ _ (es ++ [Sent tfd d])); try done.
    - by eapply handles_touches.
    - by rewrite L1, L, (proj1 (proj2 H1)), app_assoc.
    - rewrite received_app, received_one. simpl. rewrite app_nil_r. destruct Hc as [[G1 G2 G3] Hw'].
      split; [|apply on_wire_app; [done|apply on_wire_none; exact (fun d => not_on_wire d _)]]. constructor; try done.
      cbn [_receiver set_receiver set_inbound c1]. apply recv_inv_pop; [done|]. by eapply peek_prefix.
    - rewrite received_app, received_one. simpl. by rewrite app_nil_r. }
  clearbody s1. wp_steps. apply wp_when; intros _.
  2: { split; [done|]. cbn [fst]. rewrite Hwc. apply u32_succ_ne. }
  pose proof Hw1 as (K1 & K2 & _). cbn [fst snd] in *. wp_steps. cbn [fst snd]. rewrite K2.
  eapply wp_mono; [apply shutdown_write_spec| |].
  - intros [] m2 [Hs Hwc2]. cbn [fst snd]. wp_step. apply wp_set.
    assert (sock_inv (i + 1) (m2, set_inbound_shutdown s1)) as Hw2.
    { eapply (sock_inv_flags _ _ s1); [done..|]. by apply (sock_inv_silent _ th m1). }
    eapply wp_debug_peer; [exact Hw2| |].
    + split; [done|]. cbn [fst]. rewrite Hwc2, Hwc by (rewrite (proj1 K1); done). words_lia.
    + intros e He. split; [by left; left|]. by eapply sock_inv_left.
  - intros e m2 (He & L2 & Hh2). split; [left; by right; left|]. eapply sock_inv_left. by apply (sock_inv_same _ m1).
Qed.

(** Rule 4: every segment that waits is given to the adapter. *)
Lemma rule_4_loop i : forall k w c,
  sock_inv i w -> _tcp w.2 = Some c -> (length (_segments_out c) < k)%nat ->
  wp (iterate k rule_4_turn tt) (fun _ w' => sock_inv i w' /\ rule_4_interest w' = false) sock_error w.
Proof.
  induction k as [|k IH]; intros w c Hw Ec Hk; [lia|]. destruct w as [m s].
  pose proof Hw as (H1 & H2 & H3 & Hown & es & c' & L & Ec' & [[G1 G2 G3] Gw] & Hl). cbn [fst snd] in *.
  assert (c' = c) as -> by congruence. clear Ec'.
  cbn [iterate]. wp_step. unfold rule_4_turn. wp_step. eapply wp_tcp; [exact Ec|].
  destruct (_segments_out c) as [|seg q] eqn:Eq.
  { wp_steps. split; [done|]. unfold rule_4_interest, tcp_test. cbn [snd]. by rewrite Ec, Eq. }
  apply Forall_cons_1 in G3 as [[x (_ & _ & Gp & _ & _ & Gd & _)] Gq].
  wp_steps. cbn [fst snd].
  eapply wp_mono; [apply ad_write_law; [done|unfold MAX_PAYLOAD_SIZE in Gp; unfold Buffer.size; lia]|cbn [fst snd]..].
  2: { intros e m' (Ht & He & Hp). split; [by left|]. rewrite H3 in *. eapply sock_inv_left.
       exact (sock_inv_wrote i m m' s c seg q Ec Eq (proj1 (proj2 (proj2 H1))) Ht Hp Hw). }
  intros [seg' a] m1 (Ht & Ea & Hp). cbn [fst snd] in *. rewrite H3 in *. wp_step. apply wp_set. wp_step. apply wp_set. wp_steps.
  apply (IH _ (set_out q c)); [|done|simpl in *; lia].
  destruct (sock_inv_wrote i m m1 s c seg q Ec Eq (proj1 (proj2 (proj2 H1))) Ht Hp Hw) as (K1 & K2 & K3 & Kown & es1 & c1 & L1 & Ec1 & [[U1 U2 U3] Hw1] & Hl1).
  cbn [fst snd] in *. assert (c1 = c) as -> by congruence.
  split_and!; try done. exists es1, (set_out q c). split_and!; try done. split; [|done]. constructor; try done.
  rewrite Eq in U3. by apply Forall_cons_1 in U3 as [_ ?].
Qed.

Lemma rule_4_keeps i w :
  sock_inv i w ->
  wp rule_4_callback (fun _ w' => sock_inv (i + 1) w' /\ rule_4_interest w' = false) sock_error w.
Proof.
  intros Hw. destruct w as [m s]. pose proof Hw as (_ & _ & _ & _ & es & c & _ & Ec & _). cbn [snd] in Ec.
  unfold rule_4_callback. wp_step. eapply wp_tcp; [exact Ec|].
  eapply wp_mono; [eapply (rule_4_loop i); [done|exact Ec|lia]| |done].
  intros [] w' [Hw' Hi]. split; [|done]. eapply sock_inv_grows; [|done]. lia.
Qed.

(** ** The loop *)

Abbreviation good_rules := (Forall (rule_ok limit sock_inv sock_error)) (only parsing).

Lemma sock_release i h m s (E : exn -> machine K -> Prop) :
  sock_inv i (m, s) -> wp (release h) (fun _ m' => sock_inv i (m', s)) E m.
Proof.
  intros Hw. eapply wp_mono; [apply release_spec| |done]. intros [] m' Hs. by eapply sock_inv_silent.
Qed.

Lemma add_rule_keeps h d c x y rules w :
  sock_inv 0 w -> good_rules rules -> rule_ok limit sock_inv sock_error (mkRule h d c x y) ->
  wp (add_rule h d c x y) (fun _ v => sock_inv 0 v.1 /\ good_rules v.2 /\ length v.2 = S (length rules))
    (fun _ _ => False) (w, rules).
Proof.
  intros Hw Hr Hc. destruct w as [m s]. unfold add_rule, duplicate. wp_steps. apply wp_update. wp_steps.
  cbn [fst snd kernel heap]. split_and!; [|by apply Forall_app_2; [|constructor]|rewrite length_app; simpl; lia].
  eapply (sock_inv_silent _ h m); [|done]. split; [done|]. eexists; split; [reflexivity|done].
Qed.

Lemma rules_ok :
  rule_ok limit sock_inv sock_error (mkRule ah In rule_1_callback rule_1_interest (mret tt)) /\
  rule_ok limit sock_inv sock_error (mkRule th In rule_2_callback rule_2_interest rule_2_cancel) /\
  rule_ok limit sock_inv sock_error (mkRule th Out rule_3_callback rule_3_interest (mret tt)) /\
  rule_ok limit sock_inv sock_error (mkRule ah Out rule_4_callback rule_4_interest (mret tt)).
Proof.
  assert (forall i w, sock_inv i w -> wp (mret tt) (fun _ w' => sock_inv (i + 1) w') sock_error w) as Hret
    by (intros i w Hw; wp_step; eapply sock_inv_grows; [|done]; lia).
  split_and!; split; intros i w Hi Hw; cbn [callback cancel]; try by apply Hret.
  - eapply wp_mono; [by apply rule_1_keeps| |done]. by intros [] w' [? ?].
  - eapply wp_mono; [by apply rule_2_keeps| |done]. by intros [] w' [? ?].
  - by apply rule_2_cancel_keeps.
  - eapply wp_mono; [by apply rule_3_keeps| |done]. by intros [] w' [? ?].
  - eapply wp_mono; [by apply rule_4_keeps| |done]. by intros [] w' [? ?].
Qed.

(** The exceptions of the loop. *)
Definition loop_exn (e : exn) s : Prop := sock_exn e s \/ e = poll_failed.

Context (_abort : K -> bool).

Lemma tcp_loop_turn_keeps condition base i w rules :
  (length rules <= 4)%nat -> (i + 8 <= limit)%nat -> sock_inv i w -> good_rules rules ->
  wp (tcp_loop_turn _abort condition base)
    (fun _ v => sock_inv (i + 8) v.1 /\ good_rules v.2 /\ (length v.2 <= 4)%nat)
    (fun e v => loop_exn e v.1.2 /\ sock_left e v.1) (w, rules).
Proof.
  intros Hlen Hi Hw Hr. unfold tcp_loop_turn. wp_steps.
  case_if; [wp_step; split; [eapply sock_inv_grows; [|done]; lia|done]|].
  wp_step. eapply wp_mono; [apply (wait_next_event_spec limit sock_inv sock_error) with (i := i)|..].
  - exact sock_inv_grows.
  - intros j h m s Hm. by apply sock_release.
  - intros j ps t [m s] Hm. by apply (sock_inv_same _ m); [apply poll_quiet|..].
  - lia.
  - done.
  - done.
  - intros r [[m s] rs] [Hw1 Hs]. cbn [fst snd] in *.
    assert (sock_inv (i + 8) (m, s)) as Hw2 by (eapply sock_inv_grows; [|exact Hw1]; lia).
    assert (good_rules rs /\ (length rs <= 4)%nat) as Hrs.
    { split; [by eapply Forall_sublist|]. pose proof (sublist_length _ _ Hs). lia. }
    clear Hw1 Hs Hr Hlen Hw. wp_steps. case_if; [by wp_step|].
    pose proof Hw2 as (H1 & H2 & H3 & Hown & es & c & L & Ec & Hc & Hl). cbn [fst snd] in *.
    wp_steps. eapply wp_tcp; [exact Ec|]. cbn [fst snd]. case_if; [|by wp_step].
    unfold timestamp_ms. wp_steps. apply wp_sys. wp_steps. cbn [fst snd].
    set (m1 := mkMachine _ _). assert (sock_inv (i + 8) (m1, s)) as Hw3.
    { apply (sock_inv_same _ m); [|done..]. unfold log. cbn [kernel m1]. apply clock_quiet. }
    set (elapsed := u64 _). destruct (tick_inv _ _ elapsed c (proj1 Hc)) as (c' & E' & Hc' & [Hlat _]).
    eapply wp_on_tcp; [exact Ec|exact E'|]. wp_steps. apply wp_set. wp_step. cbn [fst snd].
    split; [|done]. destruct Hw3 as (K1 & K2 & K3 & Kown & es' & c2 & L' & Ec2 & _ & _). cbn [fst snd] in *.
    split_and!; try done; [cbn; by rewrite ad_fd_tick|]. exists es, c'. split_and!; try done; [|by apply conn_ok_later with c].
    cbn [fst]. unfold log. cbn [kernel m1]. by rewrite clock_quiet.
  - intros e [w' rs] [[He Hw']|[-> Hw']]; cbn [fst snd]; (split; [|done || by eapply sock_inv_left]); [by left|by right].
Qed.

(** All the turns of a loop have been made. *)
Definition turns_made (k : nat) (v : (machine K * TCPSpongeSocket A) * list (Rule K (TCPSpongeSocket A))) : Prop :=
  exists condition base v0 base', went_on k (tcp_loop_turn _abort condition) base v0 base' v.

Lemma tcp_loop_keeps condition fuel : forall i base w rules,
  (length rules <= 4)%nat -> (i + 8 * fuel <= limit)%nat -> sock_inv i w -> good_rules rules ->
  run_ends (iterate fuel (tcp_loop_turn _abort condition) base)
    (fun _ v => sock_inv (i + 8 * fuel) v.1 /\ good_rules v.2 /\ (length v.2 <= 4)%nat)
    (fun e v => loop_exn e v.1.2 /\ sock_left e v.1)
    (fun v => sock_inv (i + 8 * fuel) v.1 /\ exists base', went_on fuel (tcp_loop_turn _abort condition) base (w, rules) base' v)
    (w, rules).
Proof.
  induction fuel as [|fuel IH]; intros i base w rules Hlen Hi Hw Hr.
  { unfold run_ends. simpl. rewrite Nat.add_0_r. split; [done|]. by exists base. }
  cbn [iterate]. apply run_ends_bind, run_ends_wp.
  eapply wp_mono; [apply wp_result, (tcp_loop_turn_keeps _ _ i); [done|lia|done|done]| |done].
  intros r [w' rs] [(Hw' & Hr' & Hlen') ET]. cbn [fst snd] in *. destruct r as [base'|[]].
  - eapply run_ends_mono; [apply (IH (i + 8)%nat); [done|lia|done|done]| |done|].
    + intros [] s'. by replace (i + 8 + 8 * fuel)%nat with (i + 8 * S fuel)%nat by lia.
    + intros s' [Hs' (base2 & HT)]. replace (i + 8 + 8 * fuel)%nat with (i + 8 * S fuel)%nat in Hs' by lia.
      split; [done|]. exists base2, base', (w', rs). by split.
  - unfold run_ends. simpl. split; [|done]. eapply sock_inv_grows; [|exact Hw']. lia.
Qed.

(** ** The calls *)

(** Where a call of the owner or of the thread stands. *)
Abbreviation at_rest i := (fun _ v => sock_inv i v.1 /\ good_rules v.2 /\ (length v.2 <= 4)%nat) (only parsing).
Abbreviation call_error := (fun e v => loop_exn e v.1.2 /\ sock_left e v.1) (only parsing).

Lemma tame_loop_exn e s : tame_exn e -> loop_exn e s.
Proof. intros He. left; left. by left. Qed.

Lemma _tcp_loop_keeps condition fuel i w rules :
  (length rules <= 4)%nat -> (i + 8 * fuel <= limit)%nat -> sock_inv i w -> good_rules rules ->
  run_ends (_tcp_loop _abort fuel condition) (at_rest (i + 8 * fuel)) call_error
    (fun v => sock_inv (i + 8 * fuel) v.1 /\ turns_made fuel v) (w, rules).
Proof.
  intros Hlen Hi Hw Hr. destruct w as [m s]. unfold _tcp_loop, timestamp_ms. apply run_ends_bind, run_ends_wp.
  wp_steps. apply wp_sys. wp_step. cbn [fst snd].
  eapply run_ends_mono; [apply tcp_loop_keeps; try done| |done|intros v [Hv (base & HT)]; split; [done|by repeat eexists]]; [|done].
  apply (sock_inv_same _ m); [|done..]. unfold log. cbn [kernel]. apply clock_quiet.
Qed.

(** Configuring the adapter. *)
Lemma sock_inv_set_adapter i m s a : ad_fd a = ad_fd (_datagram_adapter s) -> sock_inv i (m, s) -> sock_inv i (m, set_adapter a s).
Proof. intros Ea (H1 & H2 & H3 & H4 & H5). cbn [fst snd] in *. split_and!; try done. cbn. by rewrite Ea. Qed.

Section opening.
Context (cfg : TCPConfig) (random : Z) (Hcfg : cap = recv_capacity cfg).
Context (Hsize : Z.of_nat n + cap < 18446744073709551616) (Hsend : 0 <= send_capacity cfg < 18446744073709551616).
Context (Hrto : 0 <= rt_timeout cfg < 65536) (Hisn : forall i, fixed_isn cfg = Some i -> wf_wrapping i).

Lemma initialize_keeps m s :
  sock_handles m -> _thread_data s = th -> ad_fd (_datagram_adapter s) = ah -> _owner s = oh -> log m = log0 ->
  wp (_initialize_TCP cfg random) (at_rest 0) (fun _ _ => False) ((m, s), []).
Proof.
  intros H1 H2 H3 Hown HL. destruct rules_ok as (R1 & R2 & R3 & R4). unfold _initialize_TCP. wp_steps. apply wp_set. wp_steps.
  cbn [fst snd]. cbn [_datagram_adapter _thread_data set_tcp]. rewrite H2, H3.
  assert (sock_inv 0 (m, set_tcp (Some (make cfg random)) s)) as Hw.
  { apply (sock_inv_tcp _ _ _ []); try done; [by rewrite app_nil_r|].
    split; [|by apply on_wire_none; intros d ?%not_elem_of_nil]. constructor; [by apply make_sender_wf| |done].
    change (_receiver (make cfg random)) with (TCPReceiver.make (recv_capacity cfg)). rewrite <- Hcfg.
    constructor; [apply recv_ok_make; lia| |constructor]. intros _. split; [apply make_receiver_wf; lia|]. by rewrite slice_empty by (rewrite Zlen_nil; lia). }
  eapply wp_mono; [by apply add_rule_keeps|simpl|done]. intros [] [w1 rs1] (K1 & K2 & K3). cbn [fst snd] in *. wp_step.
  eapply wp_mono; [by apply add_rule_keeps|simpl|done]. intros [] [w2 rs2] (K4 & K5 & K6). cbn [fst snd] in *. wp_step.
  eapply wp_mono; [by apply add_rule_keeps|simpl|done]. intros [] [w3 rs3] (K7 & K8 & K9). cbn [fst snd] in *.
  eapply wp_mono; [by apply add_rule_keeps|simpl|done]. intros [] [w4 rs4] (K10 & K11 & K12). cbn [fst snd] in *.
  split_and!; try done. lia.
Qed.

Lemma connect_keeps fuel c_ad m s :
  (8 * fuel <= limit)%nat -> _tcp s = None ->
  sock_handles m -> _thread_data s = th -> ad_fd (_datagram_adapter s) = ah -> _owner s = oh -> log m = log0 ->
  run_ends (connect _abort fuel cfg random c_ad) (at_rest (8 * fuel)) call_error
    (fun v => sock_inv (8 * fuel) v.1 /\ turns_made fuel v)
    ((m, s), []).
Proof.
  intros Hf Hnone H1 H2 H3 Hown HL. unfold connect. apply run_ends_bind, run_ends_wp. wp_step. cbn [fst snd]. rewrite Hnone.
  rewrite bool_decide_eq_false_2 by (by intros [? ?]).
  apply run_ends_bind, run_ends_wp. eapply wp_mono; [by apply initialize_keeps| |done].
  intros [] [[m1 s1] rs] (Hw & Hr & Hlen). cbn [fst snd] in *. apply run_ends_bind, run_ends_wp. wp_steps. apply wp_set.
  set (s2 := set_adapter _ s1). cbn [fst snd].
  assert (sock_inv 0 (m1, s2)) as Hw2 by (apply sock_inv_set_adapter; [apply ad_fd_config_mut|done]).
  clearbody s2. clear Hw. apply run_ends_bind, run_ends_wp.
  apply wp_tame; [unfold address_to_string; apply tame_bind; [apply tame_ip_port|done]| |].
  2: { intros e He. split; [by apply tame_loop_exn|]. by eapply sock_inv_left. }
  intros _ _. pose proof Hw2 as (G1 & G2 & G3 & Gown & es & c & L & Ec & Hc & Hl). cbn [fst snd] in *.
  destruct (connect_inv _ _ c (proj1 Hc)) as (c' & E' & Hc' & [Hlat _]).
  apply run_ends_bind, run_ends_wp. wp_steps. eapply wp_on_tcp; [exact Ec|exact E'|]. cbn [fst snd].
  apply run_ends_bind, run_ends_wp. wp_steps. eapply wp_tcp; [done|]. cbn [fst snd].
  assert (sock_inv 0 (m1, set_tcp (Some c') s2)) as Hw3
    by (by apply (sock_inv_tcp _ _ _ es); try done; apply conn_ok_later with c).
  case_if; [split; [by apply tame_loop_exn|by eapply sock_inv_left]|].
  apply run_ends_bind. eapply run_ends_mono; [by apply (_tcp_loop_keeps _ fuel 0)| |done|done].
  intros [] [[m3 s3] rs3] (Hw4 & Hr4 & Hlen4). cbn [fst snd] in *. apply run_ends_wp. wp_steps. apply wp_set. cbn [fst snd].
  split; [|done]. by eapply sock_inv_flags; [..|exact Hw4].
Qed.

Lemma listen_keeps fuel c_ad m s :
  (8 * fuel <= limit)%nat -> _tcp s = None ->
  sock_handles m -> _thread_data s = th -> ad_fd (_datagram_adapter s) = ah -> _owner s = oh -> log m = log0 ->
  run_ends (listen_and_accept _abort fuel cfg random c_ad) (at_rest (8 * fuel)) call_error
    (fun v => sock_inv (8 * fuel) v.1 /\ turns_made fuel v) ((m, s), []).
Proof.
  intros Hf Hnone H1 H2 H3 Hown HL. unfold listen_and_accept. apply run_ends_bind, run_ends_wp. wp_step. cbn [fst snd]. rewrite Hnone.
  rewrite bool_decide_eq_false_2 by (by intros [? ?]).
  apply run_ends_bind, run_ends_wp. eapply wp_mono; [by apply initialize_keeps| |done].
  intros [] [[m1 s1] rs] (Hw & Hr & Hlen). cbn [fst snd] in *.
  apply run_ends_bind, run_ends_wp. wp_steps. apply wp_set. cbn [fst snd].
  apply run_ends_bind, run_ends_wp. wp_steps. apply wp_set. cbn [fst snd]. set (s2 := set_adapter _ _).
  assert (sock_inv 0 (m1, s2)) as Hw2.
  { apply sock_inv_set_adapter; [apply ad_fd_set_listening|]. apply sock_inv_set_adapter; [apply ad_fd_config_mut|done]. }
  clearbody s2. clear Hw. apply run_ends_bind. eapply run_ends_mono; [by apply (_tcp_loop_keeps _ fuel 0)| |done|done].
  intros [] [[m3 s3] rs3] (Hw4 & Hr4 & Hlen4). cbn [fst snd] in *. apply run_ends_wp. wp_steps.
  eapply wp_debug_peer; [exact Hw4| |]; cbn [fst snd].
  - wp_steps. apply wp_set. cbn [fst snd]. split; [|done]. by eapply sock_inv_flags; [..|exact Hw4].
  - intros e He. split; [by apply tame_loop_exn|by eapply sock_inv_left].
Qed.
End opening.

(** The thread ends with the connection destroyed, or with an exception. *)
Lemma tcp_main_keeps fuel i w rules :
  (length rules <= 4)%nat -> (i + 8 * fuel <= limit)%nat -> sock_inv i w -> good_rules rules ->
  run_ends (_tcp_main _abort fuel)
    (fun _ v => _tcp v.1.2 = None /\ exists es c j, log v.1.1 = log0 ++ es /\ conn_ok j (received tfd es) es c) call_error
    (fun v => sock_inv (i + 8 * fuel) v.1 /\ turns_made fuel v) (w, rules).
Proof.
  intros Hlen Hi Hw Hr. destruct w as [m s]. unfold _tcp_main. apply run_ends_bind, run_ends_wp. wp_step. cbn [fst snd].
  pose proof Hw as (_ & _ & _ & _ & _ & c0 & _ & Ec & _). cbn [snd] in Ec. rewrite Ec.
  rewrite bool_decide_eq_true_2 by done. cbn [negb]. apply run_ends_bind.
  eapply run_ends_mono; [by apply (_tcp_loop_keeps _ fuel i)| |done|done]. clear m s Hw Ec c0.
  intros [] [[m s] rs] (Hw & _ & _). cbn [fst snd] in *. apply run_ends_wp. wp_steps. cbn [fst snd].
  unfold shutdown. wp_steps. apply wp_system_call; [apply shutdown_quiet| |].
  - intros r k Hk. change (SHUT_RDWR =? SHUT_RD) with false. change (SHUT_RDWR =? SHUT_WR) with false.
    change (SHUT_RDWR =? SHUT_RDWR) with true. cbv iota. unfold register_read, register_write. wp_steps.
    apply wp_update. apply wp_update. wp_steps. cbn [fst snd kernel heap].
    destruct Hw as (_ & _ & _ & _ & es & c & L & Ec & Hc & _). cbn [fst snd] in *. unfold on_socket, reset_tcp. wp_steps.
    cbn [snd]. rewrite Ec. destruct (destroy_inv _ _ c (proj1 Hc)) as (c' & -> & _). wp_step.
    apply wp_of_result with c'; [done|]. wp_steps. cbn [fst snd]. split; [done|].
    eexists es, c, _. split; [|exact Hc]. rewrite <- L. exact Hk.
  - intros e k Hk. split; [left; left; right; left; by eexists|]. cbn [fst snd].
    eapply sock_inv_left. by apply (sock_inv_same _ m).
Qed.
End safe.

(** ** Runs of a socket *)

(** The owner opens the connection, by [connect] or [listen_and_accept]. *)
Definition open_socket {K A} `{Kernel K} `{!FdAdapter K A} {Res : Resolver} (_abort : K -> bool) (client : bool)
    (fuel : nat) (cfg : TCPConfig) (random : Z) (c_ad : FdAdapterConfig)
  : io ((machine K * TCPSpongeSocket A) * list (Rule K (TCPSpongeSocket A))) unit :=
  if client then connect _abort fuel cfg random c_ad else listen_and_accept _abort fuel cfg random c_ad.

(** Then the thread runs. *)
Definition run_socket {K A} `{Kernel K} `{!FdAdapter K A} {Res : Resolver} (_abort : K -> bool) (client : bool)
    (fuel fuel' : nat) (cfg : TCPConfig) (random : Z) (c_ad : FdAdapterConfig)
  : io ((machine K * TCPSpongeSocket A) * list (Rule K (TCPSpongeSocket A))) unit :=
  _ ← open_socket _abort client fuel cfg random c_ad;
  _tcp_main _abort fuel'.

(** A new socket whose two descriptors are different, and bounds that keep the 64-bit counters from
    overflowing. *)
Definition ready {K A} `{Kernel K} `{!FdAdapter K A} (m : machine K) (s : TCPSpongeSocket A) : Prop :=
  _tcp s = None /\ (_thread_data s < length (heap m))%nat /\ (ad_fd (_datagram_adapter s) < length (heap m))%nat /\
  fd_num (ad_fd (_datagram_adapter s)) m <> fd_num (_thread_data s) m.
Definition bounded_run (cfg : TCPConfig) (turns : nat) : Prop :=
  valid_config cfg /\ Z.of_nat turns < 1099511627776 /\ Z.of_nat (8 * turns) * recv_capacity cfg < 9223372036854775808.

(** The invariant when the connection is open, for the stream [V] of a peer that may be honest. *)
Lemma opening_keeps {K A} `{KernelLaws K} `{!FdAdapter K A} `{!WireFormat A} {Res : Resolver} {La : FdAdapterLaws K A}
    V peer_isn (_abort : K -> bool) client fuel cfg random c_ad (limit n : nat) (m : machine K) (s : TCPSpongeSocket A) :
  #V + 2 <= 2147483648 -> wf_wrapping peer_isn -> ready m s -> valid_config cfg -> (8 * fuel <= limit)%nat ->
  Z.of_nat limit < 8796093022208 -> Z.of_nat limit * recv_capacity cfg < 9223372036854775808 ->
  Z.of_nat n = Z.of_nat limit * recv_capacity cfg + 4294967296 ->
  let th := _thread_data s in
  let ah := ad_fd (_datagram_adapter s) in
  let I := sock_inv (K := K) (A := A) (log m) (length (heap m)) (fun h => fd_num h m) (_owner s) th ah (fd_num th m) (fd_num ah m)
             (recv_capacity cfg) n V peer_isn in
  run_ends (open_socket _abort client fuel cfg random c_ad)
    (fun _ v => I (8 * fuel)%nat v.1 /\
       Forall (rule_ok limit I (sock_error (log m) (fd_num th m) (fd_num ah m) (recv_capacity cfg) n V peer_isn)) v.2 /\
       (length v.2 <= 4)%nat)
    (fun e v => loop_exn e v.1.2 /\ sock_left (K := K) (A := A) (log m) (fd_num th m) (fd_num ah m) (recv_capacity cfg) n V peer_isn e v.1)
    (fun v => I (8 * fuel)%nat v.1 /\ turns_made _abort fuel v) ((m, s), []).
Proof.
  intros HV Hpeer (Hnone & Hth & Hah & Hfds) (Hc1 & Hc2 & Hc3 & Hc4) Hf Hlim Hl EN th ah I. unfold open_socket.
  destruct client; [apply connect_keeps|apply listen_keeps]; done || lia.
Qed.

(** Opening exchanges data with the adapter's and the thread's descriptors only, and leaves the objects of
    the descriptors as they are. *)
Lemma opening_local {K A} `{KernelLaws K} `{!FdAdapter K A} `{!WireFormat A} {Res : Resolver} {La : FdAdapterLaws K A}
    (_abort : K -> bool) client fuel cfg random c_ad (m : machine K) (s : TCPSpongeSocket A) :
  ready m s -> bounded_run cfg fuel ->
  let only (v : (machine K * TCPSpongeSocket A) * list (Rule K (TCPSpongeSocket A))) := exists es, log v.1.1 = log m ++ es /\
    Forall (local_event (fd_num (_thread_data s) m) (fd_num (ad_fd (_datagram_adapter s)) m)) es in
  run_ends (open_socket _abort client fuel cfg random c_ad)
    (fun _ v => only v /\ _owner v.1.2 = _owner s /\ length (heap v.1.1) = length (heap m) /\
       forall h, fd_num h v.1.1 = fd_num h m)
    (fun e v => only v /\ loop_exn e v.1.2) only ((m, s), []).
Proof.
  intros Hs (Hcfg & Hf & Hl) only. pose proof Hcfg as ((Hc0 & _) & _).
  set (cap := recv_capacity cfg) in *. remember (Z.to_nat (Z.of_nat (8 * fuel) * cap + 4294967296)) as n eqn:En.
  eapply run_ends_mono; [apply (opening_keeps [] (WrappingInt32_of 0) _abort client fuel cfg random c_ad (8 * fuel) n m s);
    try done; try lia; try by_compute; fold cap; nia|..]; cbn zeta.
  - intros [] v [((Hsz & _ & _ & Hfd) & _ & _ & Ho & es & c & HL & _ & [[_ [_ _ Hlo] _] _] & _) _]. split_and!; try done. by exists es.
  - intros e v [He (es & c & j & W & HL & _ & [[_ [_ _ Hlo] _] _] & _)]. split; [|done]. by exists es.
  - intros v [(_ & _ & _ & _ & es & c & HL & _ & [[_ [_ _ Hlo] _] _] & _) _]. by exists es.
Qed.

(** The invariant for every outcome. *)
Lemma run_socket_keeps {K A} `{KernelLaws K} `{!FdAdapter K A} `{!WireFormat A} {Res : Resolver} {La : FdAdapterLaws K A}
    V peer_isn (_abort : K -> bool) client fuel fuel' cfg random c_ad (m : machine K) (s : TCPSpongeSocket A) :
  #V + 2 <= 2147483648 -> wf_wrapping peer_isn -> ready m s -> bounded_run cfg (fuel + fuel') ->
  let tfd := fd_num (_thread_data s) m in
  let afd := fd_num (ad_fd (_datagram_adapter s)) m in
  let '(r, ((m', s'), rules)) := run_socket _abort client fuel fuel' cfg random c_ad ((m, s), []) in
  exists es c n j W, log m' = log m ++ es /\
    conn_ok (K := K) (A := A) tfd afd (recv_capacity cfg) n V peer_isn j W es c /\
    W `prefix_of` received tfd es /\ (r <> Throw short_write -> W = received tfd es) /\
    match r with
    | Ok _ => _tcp s' = None
    | Throw e => _tcp s' = Some c /\ loop_exn e s'
    | Diverge => _tcp s' = Some c /\ exists k, (k = fuel \/ k = fuel') /\ turns_made _abort k ((m', s'), rules)
    end.
Proof.
  intros HV Hpeer Hs (Hcfg & Hf & Hl) tfd afd. pose proof Hs as (_ & Hth & Hah & Hfds). pose proof Hcfg as (Hc1 & _).
  set (cap := recv_capacity cfg) in *.
  set (limit := (8 * (fuel + fuel'))%nat) in *. set (oh := _owner s). set (fds := fun h => fd_num h m). set (th := _thread_data s) in *. set (ah := ad_fd (_datagram_adapter s)) in *.
  remember (Z.to_nat (Z.of_nat limit * cap + 4294967296)) as n eqn:En.
  assert (Z.of_nat n = Z.of_nat limit * cap + 4294967296) as EN by nia. clear En.
  set (C := conn_ok (K := K) (A := A) tfd afd cap n V peer_isn).
  set (I := sock_inv (K := K) (A := A) (log m) (length (heap m)) fds oh th ah tfd afd cap n V peer_isn).
  set (L := sock_left (K := K) (A := A) (log m) tfd afd cap n V peer_isn).
  assert (run_ends (run_socket _abort client fuel fuel' cfg random c_ad)
    (fun _ v => _tcp v.1.2 = None /\ exists es c j, log v.1.1 = log m ++ es /\ C j (received tfd es) es c)
    (fun e v => loop_exn e v.1.2 /\ L e v.1) 
    (fun v => (exists i, I i v.1) /\ exists k, (k = fuel \/ k = fuel') /\ turns_made _abort k v) ((m, s), [])) as HR.
  { apply run_ends_bind. eapply run_ends_mono;
      [apply (opening_keeps V peer_isn _abort client fuel cfg random c_ad limit n m s); unfold limit; done || lia| |done|
       intros v [Hv HT]; split; [by exists (8 * fuel)%nat|]; exists fuel; split; [by left|done]].
    intros _ [w rs] (Hw & Hr & Hlen). cbn [fst snd] in *.
    eapply run_ends_mono; [eapply (tcp_main_keeps (log m) (length (heap m)) fds oh th ah tfd afd) with (i := (8 * fuel)%nat);
      [..|exact Hw|exact Hr]; unfold limit; done || lia|done|done|
       intros v [Hv HT]; split; [by exists (8 * fuel + 8 * fuel')%nat|]; exists fuel'; split; [by right|done]]. }
  unfold run_ends in HR. destruct (run_socket _ _ _ _ _ _ _ _) as [[a|e|] [[m' s'] rs]]; cbn [fst snd] in *.
  - destruct HR as [En (es & c & j & HL & Hc)]. by exists es, c, n, j, (received tfd es).
  - destruct HR as [He (es & c & j & W & HL & Ec & Hc & Hp & Hq)]. cbn [fst snd] in *. exists es, c, n, j, W.
    split_and!; try done. intros Hne. apply Hq. congruence.
  - destruct HR as [[i (_ & _ & _ & _ & es & c & HL & Ec & Hc & _)] HT]. cbn [fst snd] in *.
    by exists es, c, n, (Z.of_nat i), (received tfd es).
Qed.

(** ** A turn with a reset *)

(** The rules of a socket. *)
Definition sponge_rules {K A} `{Kernel K} `{!FdAdapter K A} {Res : Resolver} (s : TCPSpongeSocket A) : list (Rule K (TCPSpongeSocket A)) :=
  let a := ad_fd (_datagram_adapter s) in
  let h := _thread_data s in
  [mkRule a In rule_1_callback rule_1_interest (mret tt); mkRule h In rule_2_callback rule_2_interest rule_2_cancel;
   mkRule h Out rule_3_callback rule_3_interest (mret tt); mkRule a Out rule_4_callback rule_4_interest (mret tt)].

Lemma initialize_rules {K A} `{Kernel K} `{!FdAdapter K A} {Res : Resolver} cfg random (m : machine K) (s : TCPSpongeSocket A) :
  exists m', _initialize_TCP cfg random ((m, s), []) = (Ok tt, ((m', set_tcp (Some (make cfg random)) s), sponge_rules s)).
Proof. by eexists. Qed.

(** What poll reports for a descriptor that can be read. *)
Definition readable (revents : Z) : Prop := flag revents (Z.lor POLLERR POLLNVAL) = false /\ flag revents POLLIN = true.

Section reset.
Context {K A : Type} `{KernelLaws K} `{!FdAdapter K A} {Res : Resolver}.
Context (m m1 m2 : machine K) (s : TCPSpongeSocket A) (c : TCPConnection) (seg : TCPSegment) (a : A) (data : bytes).
Context (Ec : _tcp s = Some c) (Ha : active c = true) (Hrst : rst (header seg) = true).
Context (He : fd_eof (_thread_data s) m1 = false) (Hd : fd_read (_thread_data s) (remaining_outbound_capacity c) m1 = (Ok data, m2)).
Context (Hn : data <> []).

(** The socket after rule 1. *)
Definition reset_socket : TCPSpongeSocket A := set_tcp (Some (unclean_shutdown (set_time 0 c))) (set_adapter a s).

Lemma rule_1_reset (m0 : machine K) :
  ad_read (_datagram_adapter s) m0 = (Ok (Some seg, a), m1) ->
  wp rule_1_callback (fun _ w => w = (m1, reset_socket)) (fun _ _ => False) (m0, s).
Proof.
  intros Er. unfold active in Ha. unfold rule_1_callback. wp_steps. unfold wp at 1. cbn [fst snd]. rewrite Er. wp_step. apply wp_set. wp_step.
  eapply wp_on_tcp; [exact Ec|unfold segment_received; rewrite Ha; cbn [negb]; by rewrite Hrst|].
  wp_steps. cbn [fst snd]. cbn [_thread_data set_tcp set_adapter]. rewrite He.
  eapply wp_tcp; [done|]. wp_steps. cbn [andb]. by apply wp_when.
Qed.

Lemma rule_2_reset : wp rule_2_callback (fun _ _ => False) (fun e w => e = short_write /\ w.1 = m2) (m1, reset_socket).
Proof.
  unfold rule_2_callback. wp_step. eapply wp_tcp; [done|]. wp_steps. cbn [fst snd]. cbn [_thread_data set_tcp set_adapter reset_socket].
  unfold wp at 1. change (remaining_outbound_capacity (unclean_shutdown (set_time 0 c))) with (remaining_outbound_capacity c).
  rewrite Hd. wp_step. apply wp_of_result with (0, unclean_shutdown (set_time 0 c)); [done|]. wp_step. apply wp_set.
  destruct data as [|x l]; [done|]. rewrite Zlen_cons. pose proof (Zlen_nonneg l).
  rewrite (proj2 (Z.eqb_neq _ _)) by lia. cbn [negb]. by wp_step.
Qed.

Lemma reset_turn r k k0 t :
  _outbound_shutdown s = false -> 0 < remaining_outbound_capacity c ->
  Forall (fun h => fd_eof h m = false /\ fd_closed h m = false) [ad_fd (_datagram_adapter s); _thread_data s] ->
  sys_poll (map (poll_entry (m, s)) (sponge_rules s)) t k0 = (r, k) ->
  0 < ret r < 2147483648 -> Forall readable (take 2 (out r)) ->
  ad_read (_datagram_adapter s) (mkMachine k (heap m)) = (Ok (Some seg, a), m1) ->
  wp (wait_next_event t) (fun _ _ => False) (fun e v => e = short_write /\ v.1.1 = m2) ((mkMachine k0 (heap m), s), sponge_rules s).
Proof.
  intros Ho Hl HF Hp Hr Hready Er. set (w := (mkMachine k0 (heap m), s)).
  apply Forall_cons_1 in HF as [[A1 A2] HF]. apply Forall_cons_1 in HF as [[T1 T2] _].
  assert (rule_1_interest (A := A) w = true) as I1 by (unfold rule_1_interest, tcp_test; cbn [snd w]; by rewrite Ec).
  assert (rule_2_interest (A := A) w = true) as I2.
  { unfold rule_2_interest, tcp_test. cbn [snd w]. rewrite Ec, Ha, Ho. cbn [andb negb]. lia. }
  assert (Forall (live w) (sponge_rules s)) as Hlive by (repeat constructor; done).
  assert (existsb (fun r => interest r w) (sponge_rules s) = true) as Hint by (cbn [existsb sponge_rules interest]; by rewrite I1).
  pose proof (wait_next_event_live t (sponge_rules s) w Hlive Hint) as HW. change (map (poll_entry w) (sponge_rules s)) with (map (poll_entry (m, s)) (sponge_rules s)) in HW.
  pose proof (poll_law (map (poll_entry (m, s)) (sponge_rules s)) t k0) as Hlen. rewrite Hp in Hlen. cbn [fst] in Hlen.
  change (kernel w.1) with k0 in HW. rewrite Hp, (SystemCall_ok r 0), (proj2 (Z.eqb_neq _ _)) in HW by lia.
  unfold wp. cbn zeta in HW. rewrite HW. clear HW.
  destruct (out r) as [|e1 [|e2 es]] eqn:Eo; [done..|]. cbn [take] in Hready.
  apply Forall_cons_1 in Hready as [[E1 R1] Hready]. apply Forall_cons_1 in Hready as [[E2 R2] _].
  unfold poll_results. rewrite (proj2 (Z.ltb_ge _ _)), Eo by lia. unfold sponge_rules at 2. cbn [map zip_with].
  match goal with |- match ?b ?v0 with _ => _ end => change (wp b (fun _ _ => False) (fun e v => e = short_write /\ v.1.1 = m2) v0) end.
  wp_step. apply wp_dispatch_ready; [done| |]; cbn [poll_events poll_revents set_revents poll_entry interest direction].
  { change (rule_1_interest (m, s)) with (rule_1_interest w). by rewrite I1. }
  eapply wp_mono; [by apply rule_1_reset| |done]. intros [] w' ->. split; [by rewrite andb_comm|].
  apply wp_dispatch_ready; [done| |]; cbn [poll_events poll_revents set_revents poll_entry interest direction].
  { change (rule_2_interest (m, s)) with (rule_2_interest w). by rewrite I2. }
  by eapply wp_mono; [apply rule_2_reset| |].
Qed.
End reset.

(** ** Properties *)

(** C7: The owner and the connection get each other's bytes. A socket is connected, or waits for a
    peer, and its thread then runs, on any kernel and adapter that keep their promises, with
    any peer, for any number of turns. When the run is looked at, the connection has been given exactly the
    bytes that were read from the owner, or a prefix of them if the thread has ended with the
    exception of rule 2; every segment it has queued carries them; the owner has
    been sent as many bytes as were taken from the inbound stream, whose buffer stays within its
    capacity. No call runs forever: a run that has not ended has made all the turns of a loop it was given, each
    of which returned, and is between two of them. No busy wait is reported: an exception comes from
    the adapter or the system, from poll, or from the test of rule 2, and then the connection is
    closed or its outbound stream ended. *)
Theorem sponge_socket_safe {K A} `{KernelLaws K} `{!FdAdapter K A} `{!WireFormat A} {Res : Resolver} {La : FdAdapterLaws K A}
    (_abort : K -> bool) client fuel fuel' cfg random c_ad (m : machine K) (s : TCPSpongeSocket A) :
  ready m s -> bounded_run cfg (fuel + fuel') ->
  let tfd := fd_num (_thread_data s) m in
  let '(r, ((m', s'), rules)) := run_socket _abort client fuel fuel' cfg random c_ad ((m, s), []) in
  exists es, log m' = log m ++ es /\
    (forall c, _tcp s' = Some c -> exists W,
       W `prefix_of` received tfd es /\ (r <> Throw short_write -> W = received tfd es) /\
       TCPSender.wf W (_sender c) /\ Forall (emitted_by W (_sender c)) (_segments_out c) /\
       bytes_read (inbound_stream c) = #(sent tfd es) /\ buffer_size (inbound_stream c) <= recv_capacity cfg) /\
    match r with
    | Ok _ => _tcp s' = None
    | Throw e => adapter_exn e \/ e = poll_failed \/
        (e = short_write /\ exists c, _tcp s' = Some c /\
           (active c = false \/ input_ended (stream_in (_sender c)) = true))
    | Diverge => exists k condition base v base', (k = fuel \/ k = fuel') /\
        went_on k (tcp_loop_turn _abort condition) base v base' ((m', s'), rules)
    end.
Proof.
  intros Hs Hb tfd. pose proof (run_socket_keeps [] (WrappingInt32_of 0) _abort client fuel fuel' cfg random c_ad m s
    ltac:(by_compute) ltac:(by_compute) Hs Hb) as HR. fold tfd in HR.
  destruct (run_socket _ _ _ _ _ _ _ _) as [r [[m' s'] rs]].
  destruct HR as (es & c & n & j & W & HL & [[G1 [G2 _ _] G3] _] & Hp & Hq & Hr). exists es. split; [done|]. split.
  - intros c' Ec'. assert (c' = c) as -> by (destruct r; [congruence|destruct Hr; congruence..]).
    exists W. destruct G2. split_and!; try done. pose proof (sound_buffer _ _ recv_sound). by rewrite recv_cap in *.
  - destruct r as [a|e|]; [done|destruct Hr as [_ [[He|He]|He]]; auto|]. destruct Hr as (_ & k & Hk & HT).
    destruct HT as (condition & base & v & base' & HT). by exists k, condition, base, v, base'.
Qed.

(** C29: A reset ends the program while the owner's data is waiting. The four rules test their interest before
    the descriptors are polled. If the connection is open, poll reports that the adapter's
    and the thread's descriptor can be read, the adapter delivers a segment with RST and the owner
    has written data, then in that turn of the thread's loop rule 2 reads the data, although the connection
    is closed by now and accepts nothing of it: the callback throws, the exception leaves the loop and
    the thread, and the program is terminated. *)
Theorem reset_with_pending_data {K A} `{KernelLaws K} `{!FdAdapter K A} {Res : Resolver} (_abort : K -> bool) fuel
    (m m1 m2 : machine K) (s : TCPSpongeSocket A) c r k seg a data :
  let world := ((m, s), sponge_rules s) in
  let limit := remaining_outbound_capacity c in
  _tcp s = Some c -> active c = true -> _outbound_shutdown s = false -> 0 < limit ->
  Forall (fun h => fd_eof h m = false /\ fd_closed h m = false) [ad_fd (_datagram_adapter s); _thread_data s] ->
  sys_poll (map (poll_entry (m, s)) (sponge_rules s)) TCP_TICK_MS (sys_clock_ms (kernel m)).2 = (r, k) ->
  0 < ret r < 2147483648 -> Forall readable (take 2 (out r)) ->
  ad_read (_datagram_adapter s) (mkMachine k (heap m)) = (Ok (Some seg, a), m1) -> rst (header seg) = true ->
  fd_eof (_thread_data s) m1 = false -> fd_read (_thread_data s) limit m1 = (Ok data, m2) -> data <> [] ->
  exists v, v.1.1 = m2 /\ _tcp_main _abort (S fuel) world = (Throw short_write, v) /\
    thread_join (_tcp_main _abort (S fuel)) world = (Throw terminated, v).
Proof.
  intros world limit Ec Ha Ho Hl HF Hp Hr Hready Er Hrst He Hd Hn. subst world limit.
  assert (wp (_tcp_main _abort (S fuel)) (fun _ _ => False) (fun e v => e = short_write /\ v.1.1 = m2) ((m, s), sponge_rules s)) as HW.
  { unfold _tcp_main. wp_steps. cbn [fst snd]. rewrite Ec. rewrite bool_decide_eq_true_2 by done. cbn [negb].
    unfold _tcp_loop, timestamp_ms. wp_steps. apply wp_sys. wp_steps. cbn [fst snd iterate]. wp_steps. unfold tcp_loop_turn.
    wp_steps. cbn [negb]. wp_step.
    by eapply wp_mono; [eapply (reset_turn m m1 m2 s c seg a data)| |]. }
  apply wp_run in HW as [(u & w' & _ & [])|(e & v & E & -> & Em)]. exists v. split_and!; [done..|].
  unfold thread_join, catch. by rewrite E.
Qed.

(** ** Runs *)

Section runs.
#[local] Existing Instance numeric_resolver.

(** A client with the addresses 10.0.0.1:1000 and 10.0.0.2:2000, the datagrams of its peer, and
    a socket on descriptor 5 with the socket pair 3 and 4. *)
Definition client_adapter : FdAdapterConfig :=
  mkFdAdapterConfig (inet_address 167772161 1000) (inet_address 167772162 2000) 0 0.
Definition client_config : TCPConfig := mkTCPConfig 1000 64000 64000 (Some (WrappingInt32_of 0)).
Definition peer_datagram (h : TCPHeader) (d : bytes) : bytes :=
  match serialize_segment 0 (mkTCPSegment h (Buffer_of d)) with
  | Ok l => concatenate l
  | _ => []
  end.
Definition peer_header (s a : Z) (is_ack is_rst is_syn : bool) : TCPHeader :=
  mkTCPHeader 2000 1000 (WrappingInt32_of s) (WrappingInt32_of a) 5 false is_ack false is_rst is_syn false 1000 0 0.
Definition syn_ack : bytes := peer_datagram (peer_header 100 1 true false true) [].
Definition client (l : list (Z * (bytes + Z))) : machine sim * TCPSpongeSocket UDPFdAdapter :=
  (mkMachine (mkSim l 100 [] 0 [])
     [mkFDWrapper 3 false false 0 0 1; mkFDWrapper 4 false false 0 0 1; mkFDWrapper 5 false false 0 0 1],
   mkSpongeSocket 0 1 (mkUDPFdAdapter 2 (mkFdAdapterBase client_adapter false)) None false false false false).

Lemma client_ready l : ready (client l).1 (client l).2.
Proof. split_and!; [done|vm_compute; lia|vm_compute; lia|vm_compute; discriminate]. Qed.
Lemma client_bounded k : (k < 1000)%nat -> bounded_run client_config k.
Proof.
  intros Hk. unfold bounded_run, valid_config. cbn [recv_capacity send_capacity rt_timeout fixed_isn client_config].
  split_and!; try lia. by intros i [= <-].
Qed.

(** The peer sends two bytes, the owner writes three. *)
Lemma sponge_socket_safe_witness :
  let w := client [(5, inl syn_ack); (5, inl (peer_datagram (peer_header 101 1 true false false) [x41; x42]));
                   (4, inl [x01; x02; x03])] in
  let '(r, ((m', s'), _)) := run_socket (fun _ => false) true 2 2 client_config 0 client_adapter (w, []) in
  r = Diverge /\ sent 4 (log m') = [x41; x42] /\
  exists c, _tcp s' = Some c /\ TCPSender.wf [x01; x02; x03] (_sender c) /\ bytes_read (inbound_stream c) = 2.
Proof.
  intros w. pose proof (sponge_socket_safe (fun _ => false) true 2 2 client_config 0 client_adapter w.1 w.2
    (client_ready _) (client_bounded 4 ltac:(lia))) as HS.
  cbv zeta in HS. change (fd_num (_thread_data w.2) w.1) with 4 in HS.
  change (w.1, w.2, []) with (w, @nil (Rule sim (TCPSpongeSocket UDPFdAdapter))) in HS.
  assert (let o := run_socket (fun _ => false) true 2 2 client_config 0 client_adapter (w, []) in
    (o.1, sent 4 (log o.2.1.1), received 4 (log o.2.1.1), bool_decide (is_Some (_tcp o.2.1.2))) =
    (Diverge, [x41; x42], [x01; x02; x03], true)) as HV by (vm_compute; reflexivity).
  destruct (run_socket _ _ _ _ _ _ _ _) as [r [[m' s'] rs]]. cbn [fst snd] in HV. injection HV as -> E1 E2 E3.
  change (sent 4 (log m') = [x41; x42]) in E1. change (received 4 (log m') = [x01; x02; x03]) in E2.
  apply bool_decide_eq_true in E3 as [c Ec]. destruct HS as (es & L & HC & _). assert (es = log m') as -> by (symmetry; exact L).
  destruct (HC c Ec) as (W & _ & H2 & H3 & _ & H4 & _). rewrite H2, E2 in H3 by done. rewrite E1 in H4.
  split; [done|]. split; [exact E1|]. by exists c.
Defined.

(** The handshake is over, a segment with RST has arrived and the owner has written. *)
Definition reset_world : machine sim * TCPSpongeSocket UDPFdAdapter := Eval vm_compute in
  let '((m, s), _) := (connect (fun _ => false) 2 client_config 0 client_adapter (client [(5, inl syn_ack)], [])).2 in
  (mkMachine (set_inputs [(5, inl (peer_datagram (peer_header 101 1 true true false) [])); (4, inl [x01])]
     (events (kernel m)) (kernel m)) (heap m), s).

(** The poll of the next turn, and what the two callbacks read. *)
Definition reset_poll := Eval vm_compute in
  sys_poll (map (poll_entry reset_world) (sponge_rules reset_world.2)) TCP_TICK_MS (sys_clock_ms (kernel reset_world.1)).2.
Definition reset_read := Eval vm_compute in
  ad_read (_datagram_adapter reset_world.2) (mkMachine reset_poll.2 (heap reset_world.1)).
Definition owner_read := Eval vm_compute in fd_read (_thread_data reset_world.2) 64000 reset_read.2.

Lemma reset_with_pending_data_witness :
  exists v, thread_join (_tcp_main (fun _ => false) 5) (reset_world, sponge_rules reset_world.2) = (Throw terminated, v).
Proof.
  edestruct (reset_with_pending_data (fun _ => false) 4 reset_world.1 reset_read.2 owner_read.2 reset_world.2) as (v & _ & _ & E);
    [vm_compute; reflexivity|vm_compute; reflexivity|vm_compute; reflexivity|vm_compute; reflexivity
    |repeat constructor; vm_compute; reflexivity|vm_compute; reflexivity|vm_compute; split; reflexivity
    |repeat constructor; vm_compute; reflexivity|vm_compute; reflexivity|vm_compute; reflexivity
    |vm_compute; reflexivity|vm_compute; reflexivity|discriminate|].
  exists v. exact E.
Defined.
End runs.
