(* ===== verification/EndToEnd.v ===== *)
(** * Two sockets

    The whole stack, from the bytes an owner writes to the bytes the other owner reads: two
    TCPSpongeSockets, each on a kernel of its own with its event loop, its connection and its adapter,
    and a network between them that carries datagrams. *)

From S2P Require Import Prelude IO WrappingIntegers ByteStream StreamReassembler Buffer TCPHeader TCPSegment.
From S2P Require Import TCPReceiver TCPSender.
From S2P Require Import TCPState TCPConnection Robust AnyPeer Address Adapter Kernel SimKernel FileDescriptor.
From S2P Require Import EventLoop Socket FdAdapter TCPSpongeSocket SpongeSafe.

(** ** From the wire to the stream *)

Lemma carries_same_segment W isn x s p seg seg' : carries W isn x seg -> same_segment s p seg seg' -> carries W isn x seg'.
Proof. intros (H1 & H2 & H3 & H4) [Ep (k & Eh)]. unfold carries. rewrite Ep, Eh. by split_and!. Qed.

Lemma emitted_fits_ip W s seg : emitted_by W s seg -> wf_segment seg /\ fits_ip seg.
Proof.
  intros [x (_ & _ & Hp & _ & Hs)]. split; [done|]. destruct Hs as (_ & Hd & _). unfold fits_ip, Buffer.size, MAX_PAYLOAD_SIZE in *. lia.
Qed.

(** The network: every datagram that arrives on [afd2] and can be read was sent on [afd1]. Datagrams may
    be lost, repeated, reordered and delayed. *)
Definition network_delivers {Res : Resolver} (f : wire_format) (afd1 afd2 : Z) (es1 es2 : list event) : Prop :=
  forall d seg, Received afd2 d ∈ es2 -> decodes f d seg -> Sent afd1 d ∈ es1.

(** Datagrams that were sent with the bytes [W] are honest. *)
Lemma wire_honest {K1 A1} (A2 : Type) `{Kernel K1} `{!WireFormat A1} `{!WireFormat A2} {Res : Resolver} afd1 afd2 W c es1 es2 :
  ad_format A1 = ad_format A2 -> sends_whole K1 (ad_format A1) afd1 -> TCPSender.wf W (_sender c) ->
  on_wire (K := K1) (A := A1) afd1 W c es1 ->
  network_delivers (ad_format A2) afd1 afd2 es1 es2 ->
  honest (A := A2) afd2 W (TCPSender._isn (_sender c)) es2.
Proof.
  intros Hf Hwh Hs Hw Hnet d seg' Hd Hdec. destruct (Hw Hwh d (Hnet d seg' Hd Hdec)) as (seg & He & Henc).
  destruct (emitted_fits_ip _ _ _ He) as [Hseg Hfit]. rewrite Hf in Henc.
  destruct (wire_codec _ _ _ _ Hseg Hfit Henc Hdec) as (s & p & Hsame). destruct He as (x & Hx & Hn & _). exists x.
  split; [by eapply carries_same_segment|]. pose proof (seg_length_nonneg seg). destruct Hs as [[] _]. lia.
Qed.

(** What an owner has been sent, if the peer is honest. *)
Lemma conn_ok_delivers {K A} `{KernelLaws K} `{!FdAdapter K A} `{!WireFormat A} {Res : Resolver} tfd afd cap n V isn j W es c :
  conn_ok (K := K) (A := A) tfd afd cap n V isn j W es c -> honest (A := A) afd V isn es ->
  sent tfd es `prefix_of` V /\ (eof (inbound_stream c) = true -> sent tfd es = V).
Proof.
  intros [[_ [H1 H2 _] _] _] Hh. destruct (H2 Hh) as [Hr Hs]. pose proof (Zlen_nonneg (sent tfd es)) as Hz. split.
  - rewrite Hs. unfold slice. apply prefix_take.
  - intros He. pose proof (StreamReassembler.wf_core _ _ (TCPReceiver.wf_reassembler _ _ _ Hr)) as Hcore.
    pose proof (recv_taken _ _ _ _ _ _ H1) as Hu. destruct Hcore.
    pose proof (eof_read_all _ core_output He) as Hall. apply eof_spec in He as [Hend _].
    specialize (core_ended Hend). unfold first_unread, bytes_read in Hu. rewrite Hs.
    replace (#(sent tfd es)) with (#V) by lia. apply slice_full.
Qed.

(** The bytes that arrive are those that were sent. *)
Lemma sockets_deliver {K1 A1 K2 A2} `{KernelLaws K1} `{!FdAdapter K1 A1} `{!WireFormat A1}
    `{KernelLaws K2} `{!FdAdapter K2 A2} `{!WireFormat A2} {Res : Resolver}
    {L1 : FdAdapterLaws K1 A1} {L2 : FdAdapterLaws K2 A2}
    (abort1 : K1 -> bool) (abort2 : K2 -> bool) client1 client2 f1 f1' f2 f2' cfg1 cfg2 random1 random2 ad1 ad2
    (m1 : machine K1) (s1 : TCPSpongeSocket A1) (m2 : machine K2) (s2 : TCPSpongeSocket A2) :
  ready m1 s1 -> bounded_run cfg1 (f1 + f1') -> ready m2 s2 -> bounded_run cfg2 (f2 + f2') ->
  ad_format A1 = ad_format A2 ->
  let tfd1 := fd_num (_thread_data s1) m1 in
  let afd1 := fd_num (ad_fd (_datagram_adapter s1)) m1 in
  let tfd2 := fd_num (_thread_data s2) m2 in
  let afd2 := fd_num (ad_fd (_datagram_adapter s2)) m2 in
  sends_whole K1 (ad_format A1) afd1 ->
  let '(r1, ((m1', s1'), _)) := run_socket abort1 client1 f1 f1' cfg1 random1 ad1 ((m1, s1), []) in
  let '(r2, ((m2', s2'), _)) := run_socket abort2 client2 f2 f2' cfg2 random2 ad2 ((m2, s2), []) in
  forall es1 es2, log m1' = log m1 ++ es1 -> log m2' = log m2 ++ es2 ->
  network_delivers (ad_format A2) afd1 afd2 es1 es2 -> #(received tfd1 es1) + 2 <= 2147483648 ->
  sent tfd2 es2 `prefix_of` received tfd1 es1 /\
  (r1 <> Throw short_write -> forall c, _tcp s2' = Some c -> eof (inbound_stream c) = true ->
   sent tfd2 es2 = received tfd1 es1).
Proof.
  intros Hs1 Hb1 Hs2 Hb2 Hf tfd1 afd1 tfd2 afd2 Hwh.
  pose proof (run_socket_keeps [] (WrappingInt32_of 0) abort1 client1 f1 f1' cfg1 random1 ad1 m1 s1
    ltac:(by_compute) ltac:(by_compute) Hs1 Hb1) as R1. fold tfd1 afd1 in R1.
  destruct (run_socket abort1 _ _ _ _ _ _ _) as [r1 [[m1' s1'] rs1]].
  destruct R1 as (es1 & c1 & n1 & j1 & W & E1 & [[G1 _ _] Hwire] & Hp & Hq & _).
  destruct (run_socket abort2 _ _ _ _ _ _ _) as [r2 [[m2' s2'] rs2]] eqn:ER.
  intros es1' es2 E1' E2 Hnet Hlen. rewrite E1 in E1'. apply app_inv_head in E1' as <-.
  assert (#W <= #(received tfd1 es1)) as HW by (unfold Zlen; pose proof (prefix_length _ _ Hp); lia).
  pose proof (wire_honest A2 afd1 afd2 W c1 es1 es2 Hf Hwh G1 Hwire Hnet) as Hh.
  pose proof (run_socket_keeps W (TCPSender._isn (_sender c1)) abort2 client2 f2 f2' cfg2 random2 ad2 m2 s2
    ltac:(lia) (core_isn _ _ (wf_core _ _ G1)) Hs2 Hb2) as R2. rewrite ER in R2. fold tfd2 afd2 in R2.
  destruct R2 as (es2' & c2 & n2 & j2 & W2 & E2' & Hc2 & _ & _ & Hr2). rewrite E2 in E2'. apply app_inv_head in E2' as <-.
  destruct (conn_ok_delivers _ _ _ _ _ _ _ _ _ _ Hc2 Hh) as [D1 D2]. split; [by etransitivity|].
  intros Hne c Ec He. rewrite <- (Hq Hne). apply D2.
  destruct r2; [congruence|destruct Hr2; congruence..].
Qed.

(** ** Properties *)

(** C2: end to end. Two sockets run, each on any kernel and adapter that keep their promises, opened
    by [connect] or [listen_and_accept], for any number of turns. The network may lose, repeat,
    reorder and delay datagrams, and deliver others that no adapter can read; it makes up
    none. Then the bytes written to the second owner are, in order, the first of the bytes that the
    first owner wrote, however its event loop, its system calls and its peer behave; and they are all
    of them once the inbound stream of the second has ended, unless the thread of the first was ended by
    the exception of rule 2, which loses bytes. (The stream is shorter than half the
    sequence space, and the descriptor of the first adapter sends datagrams whole.) *)
Theorem sockets_end_to_end {K1 A1 K2 A2} `{KernelLaws K1} `{!FdAdapter K1 A1} `{!WireFormat A1}
    `{KernelLaws K2} `{!FdAdapter K2 A2} `{!WireFormat A2} {Res : Resolver}
    {L1 : FdAdapterLaws K1 A1} {L2 : FdAdapterLaws K2 A2}
    (abort1 : K1 -> bool) (abort2 : K2 -> bool) client1 client2 f1 f1' f2 f2' cfg1 cfg2 random1 random2 ad1 ad2
    (m1 : machine K1) (s1 : TCPSpongeSocket A1) (m2 : machine K2) (s2 : TCPSpongeSocket A2) :
  ready m1 s1 -> bounded_run cfg1 (f1 + f1') -> ready m2 s2 -> bounded_run cfg2 (f2 + f2') ->
  ad_format A1 = ad_format A2 ->
  let tfd1 := fd_num (_thread_data s1) m1 in
  let afd1 := fd_num (ad_fd (_datagram_adapter s1)) m1 in
  let tfd2 := fd_num (_thread_data s2) m2 in
  let afd2 := fd_num (ad_fd (_datagram_adapter s2)) m2 in
  sends_whole K1 (ad_format A1) afd1 ->
  let '(r1, ((m1', s1'), _)) := run_socket abort1 client1 f1 f1' cfg1 random1 ad1 ((m1, s1), []) in
  let '(r2, ((m2', s2'), _)) := run_socket abort2 client2 f2 f2' cfg2 random2 ad2 ((m2, s2), []) in
  forall es1 es2, log m1' = log m1 ++ es1 -> log m2' = log m2 ++ es2 ->
  network_delivers (ad_format A2) afd1 afd2 es1 es2 -> #(received tfd1 es1) + 2 <= 2147483648 ->
  sent tfd2 es2 `prefix_of` received tfd1 es1 /\
  (r1 <> Throw short_write -> forall c, _tcp s2' = Some c -> eof (inbound_stream c) = true ->
   sent tfd2 es2 = received tfd1 es1).
Proof. apply sockets_deliver. Qed.

(** ** A run *)

Section runs.
#[local] Existing Instance numeric_resolver.

(** A client whose owner writes three bytes and ends, with the SYN and ACK of its peer. *)
Definition sender_start : machine sim * TCPSpongeSocket UDPFdAdapter :=
  client [(5, inl syn_ack); (4, inl [x01; x02; x03]); (4, inl [])].
Abbreviation sender_run :=
  (run_socket (fun _ => false) true 2 3 client_config 0 client_adapter ((sender_start.1, sender_start.2), [])) (only parsing).
Definition sender_log : list event := Eval vm_compute in log sender_run.2.1.1.
Definition datagrams : list bytes := Eval vm_compute in
  omap (fun e => match e with Sent 5 d => Some d | _ => None end) sender_log.

(** A server that gets a datagram of garbage and then those of the client, twice. *)
Definition server_config : TCPConfig := mkTCPConfig 1000 64000 64000 (Some (WrappingInt32_of 100)).
Definition receiver_start : machine sim * TCPSpongeSocket UDPFdAdapter :=
  client ((5, inl [x00]) :: map (fun d => (5, inl d)) (datagrams ++ datagrams)).
Abbreviation receiver_run :=
  (run_socket (fun _ => false) false 4 4 server_config 0 client_adapter ((receiver_start.1, receiver_start.2), [])) (only parsing).
Definition receiver_log : list event := Eval vm_compute in log receiver_run.2.1.1.

Lemma delivered_were_sent : network_delivers OverUDP 5 5 sender_log receiver_log.
Proof.
  intros d seg Hd%list_elem_of_In (from & b & b' & E%udp_read_segment). apply list_elem_of_In. unfold receiver_log in Hd. simpl in Hd.
  repeat (destruct Hd as [Hd|Hd]; [try discriminate Hd; injection Hd as <-|]); try contradiction;
    try (simpl; tauto). vm_compute in E. discriminate E.
Qed.

Lemma sockets_end_to_end_witness :
  exists c, _tcp receiver_run.2.1.2 = Some c /\ eof (inbound_stream c) = true /\
    sent 4 receiver_log = received 4 sender_log /\ received 4 sender_log = [x01; x02; x03].
Proof.
  assert (bounded_run server_config 8) as Hb.
  { unfold bounded_run, valid_config. cbn [recv_capacity send_capacity rt_timeout fixed_isn server_config].
    split_and!; try lia. by intros i [= <-]. }
  pose proof (sockets_end_to_end (fun _ => false) (fun _ => false) true false 2 3 4 4 client_config server_config 0 0
    client_adapter client_adapter sender_start.1 sender_start.2 receiver_start.1 receiver_start.2
    (client_ready _) (client_bounded 5 ltac:(lia)) (client_ready _) Hb eq_refl (sim_sendmsg_whole _)) as HE.
  cbv zeta in HE.
  assert (log sender_run.2.1.1 = sender_log) as S1 by (vm_compute; reflexivity).
  assert (sender_run.1 = Diverge) as S2 by (vm_compute; reflexivity).
  assert (log receiver_run.2.1.1 = receiver_log) as R1 by (vm_compute; reflexivity).
  assert (match _tcp receiver_run.2.1.2 with Some c => eof (inbound_stream c) | None => false end = true) as R2
    by (vm_compute; reflexivity).
  destruct (run_socket _ true _ _ _ _ _ _) as [r1 [[m1' s1'] rs1]].
  destruct (run_socket _ false _ _ _ _ _ _) as [r2 [[m2' s2'] rs2]].
  cbn [fst snd] in S1, S2, R1, R2 |- *.
  destruct (_tcp s2') as [c|] eqn:Ec; [|done]. exists c. split_and!; [done|done| |done].
  change (fd_num (_thread_data sender_start.2) sender_start.1) with 4 in HE.
  change (fd_num (_thread_data receiver_start.2) receiver_start.1) with 4 in HE.
  apply (proj2 (HE sender_log receiver_log S1 R1 delivered_were_sent ltac:(by_compute)) ltac:(by rewrite S2) c eq_refl R2).
Defined.
End runs.
