(* ===== verification/StreamCopy.v ===== *)
(** * Copying between a socket and the standard streams (src/apps/bidirectional_stream_copy.cc)

    The function that all the programs of apps/ share: an event loop with four rules moves bytes
    from the standard input to a socket and from the socket to the standard output, through
    two byte streams. The local variables of the function are the state of the rules. *)

From S2P Require Import Prelude IO ByteStream Buffer Kernel SimKernel FileDescriptor EventLoop Socket.

(** ** Definitions *)

Definition STDIN_FILENO : Z := 0.
Definition STDOUT_FILENO : Z := 1.
Definition max_copy_length : Z := 65536.
Definition copy_buffer_size : Z := 1048576.

Record copy_state := mkCopy {
  _outbound : ByteStream;
  _inbound : ByteStream;
  _outbound_shutdown : bool;
  _inbound_shutdown : bool
}.

Definition copy_start : copy_state := mkCopy (make copy_buffer_size) (make copy_buffer_size) false false.

Definition set_outbound (b : ByteStream) (s : copy_state) : copy_state :=
  mkCopy b (_inbound s) (_outbound_shutdown s) (_inbound_shutdown s).
Definition set_inbound (b : ByteStream) (s : copy_state) : copy_state :=
  mkCopy (_outbound s) b (_outbound_shutdown s) (_inbound_shutdown s).
Definition set_outbound_shutdown (s : copy_state) : copy_state :=
  mkCopy (_outbound s) (_inbound s) true (_inbound_shutdown s).
Definition set_inbound_shutdown (s : copy_state) : copy_state :=
  mkCopy (_outbound s) (_inbound s) (_outbound_shutdown s) true.

Section copy.
Context {K : Type} `{Kernel K}.
Abbreviation world := (machine K * copy_state)%type (only parsing).
Abbreviation loop_state := (world * list (Rule K copy_state))%type (only parsing).

(** [end_input] of one of the streams. *)
Definition end_stream (get : copy_state -> ByteStream) (set : ByteStream -> copy_state -> copy_state) : io world unit :=
  on_snd (modify (fun s => set (end_input (get s)) s)).

(** The callbacks of rules 1 and 3: from a descriptor into a stream. *)
Definition copy_in (get : copy_state -> ByteStream) (set : ByteStream -> copy_state -> copy_state) (h : FileDescriptor)
  : io world unit :=
  n ← gets (fun w => remaining_capacity (get w.2));
  data ← on_fst (fd_read h n);
  _ ← on_snd (modify (fun s => set (write data (get s)).2 s));
  eof ← gets (fun w => fd_eof h w.1);
  when eof (end_stream get set).

(** The callbacks of rules 2 and 4: from a stream into a descriptor. *)
Definition copy_out (get : copy_state -> ByteStream) (set : ByteStream -> copy_state -> copy_state) (h : FileDescriptor)
    (finish : io world unit) : io world unit :=
  bytes_to_write ← gets (fun w => Z.min max_copy_length (buffer_size (get w.2)));
  data ← gets (fun w => peek_output bytes_to_write (get w.2));
  bytes_written ← on_fst (fd_write_string h data false);
  _ ← on_snd (modify (fun s => set (pop_output bytes_written (get s)) s));
  at_end ← gets (fun w => eof (get w.2));
  when at_end finish.

Definition in_interest (get other : copy_state -> ByteStream) (w : world) : bool :=
  negb (error (get w.2)) && (remaining_capacity (get w.2) >? 0) && negb (error (other w.2)).
Definition out_interest (get : copy_state -> ByteStream) (shut : copy_state -> bool) (w : world) : bool :=
  negb (buffer_empty (get w.2)) || (eof (get w.2) && negb (shut w.2)).

(** [if (_outbound.eof()) { socket.shutdown(SHUT_WR); ... }]. *)
Definition finish_outbound (socket : FileDescriptor) : io world unit :=
  _ ← on_fst (shutdown socket SHUT_WR);
  on_snd (modify set_outbound_shutdown).
(** [if (_inbound.eof()) { _output.close(); ... }]. *)
Definition finish_inbound (output : FileDescriptor) : io world unit :=
  _ ← on_fst (close output);
  on_snd (modify set_inbound_shutdown).

Definition copy_turn (_ : unit) : io loop_state (unit + unit) :=
  r ← wait_next_event (-1);
  mret (if bool_decide (r = Exit) then inr tt else inl tt).

Definition copy_rules (socket input output : FileDescriptor) : io loop_state unit :=
  _ ← add_rule input In (copy_in _outbound set_outbound input) (in_interest _outbound _inbound)
        (end_stream _outbound set_outbound);
  _ ← add_rule socket Out (copy_out _outbound set_outbound socket (finish_outbound socket))
        (out_interest _outbound _outbound_shutdown) (end_stream _outbound set_outbound);
  _ ← add_rule socket In (copy_in _inbound set_inbound socket) (in_interest _inbound _outbound)
        (end_stream _inbound set_inbound);
  add_rule output Out (copy_out _inbound set_inbound output (finish_inbound output))
    (out_interest _inbound _inbound_shutdown) (end_stream _inbound set_inbound).

(** The destructors of the local variables: the descriptors and the rules. *)
Definition copy_unwind (input output : FileDescriptor) : io loop_state unit :=
  _ ← on_fst (on_fst (release output));
  _ ← on_fst (on_fst (release input));
  destroy_rules.

(** At most [fuel] turns: the loop goes on as long as there is something to copy. *)
Definition copy_loop (fuel : nat) (socket input output : FileDescriptor) : io loop_state unit :=
  _ ← on_fst (on_fst (set_blocking socket false));
  _ ← on_fst (on_fst (set_blocking input false));
  _ ← on_fst (on_fst (set_blocking output false));
  _ ← copy_rules socket input output;
  iterate fuel copy_turn tt.

Definition bidirectional_stream_copy (fuel : nat) (socket : FileDescriptor) : io loop_state unit :=
  input ← on_fst (on_fst (FileDescriptor_of STDIN_FILENO));
  output ← on_fst (on_fst (FileDescriptor_of STDOUT_FILENO));
  _ ← on_fst (on_snd (modify (fun _ => copy_start)));
  _ ← unwinding (copy_loop fuel socket input output) (copy_unwind input output);
  copy_unwind input output.
End copy.

(** ** One direction *)

(** [flow src dst es st]: of the bytes received from [src], those that are not waiting in the stream
    have been sent to [dst] in order; bytes are dropped only after the input of the stream
    has ended. *)
Definition flow (src dst : Z) (es : list event) (st : ByteStream) : Prop :=
  capacity st = copy_buffer_size /\ #(_buff st) <= copy_buffer_size /\
  exists lost, received src es = sent dst es ++ _buff st ++ lost /\ (input_ended st = false -> lost = []).

Lemma flow_capacity src dst es st : flow src dst es st -> remaining_capacity st = copy_buffer_size - #(_buff st).
Proof.
  intros (H1 & H2 & _). unfold remaining_capacity. rewrite H1. pose proof (Zlen_nonneg (_buff st)).
  unfold copy_buffer_size in *. apply u64_id. lia.
Qed.

Lemma flow_start src dst : flow src dst [] (make copy_buffer_size).
Proof. split_and!; [done|by vm_compute|]. by exists []. Qed.

Lemma flow_frame src dst es st e : received_of src e = [] -> sent_of dst e = [] ->
  flow src dst es st -> flow src dst (es ++ [e]) st.
Proof.
  intros E1 E2 (H1 & H2 & lost & H3 & H4). split_and!; [done..|]. exists lost.
  by rewrite received_app, sent_app, received_one, sent_one, E1, E2, !app_nil_r.
Qed.

Lemma flow_write src dst es st d :
  flow src dst es st -> #d <= remaining_capacity st -> flow src dst (es ++ [Received src d]) (write d st).2.
Proof.
  intros Hf Hd. pose proof (flow_capacity _ _ _ _ Hf) as Hc. destruct Hf as (H1 & H2 & lost & H3 & H4).
  assert (received src (es ++ [Received src d]) = received src es ++ d /\ sent dst (es ++ [Received src d]) = sent dst es)
    as [E1 E2] by (rewrite received_app, sent_app, received_one, sent_one; simpl; by rewrite Z.eqb_refl, app_nil_r).
  unfold write. destruct (input_ended st) eqn:Ee; simpl; unfold flow; cbn [_buff capacity].
  - split_and!; [done..|]. exists (lost ++ d). rewrite E1, E2, H3, !app_assoc. split; [done|]. by rewrite Ee.
  - rewrite push_loop_app, Z.min_l, take_ge by (unfold Zlen in *; lia). rewrite (H4 eq_refl), app_nil_r in H3.
    split_and!; [done|rewrite Zlen_app; lia|]. exists []. rewrite E1, E2, H3, !app_nil_r, app_assoc. done.
Qed.

Lemma flow_pop src dst es st d rest :
  flow src dst es st -> _buff st = d ++ rest -> flow src dst (es ++ [Sent dst d]) (pop_output (#d) st).
Proof.
  intros (H1 & H2 & lost & H3 & H4) Hb. pose proof (Zlen_nonneg d). pose proof (Zlen_nonneg rest).
  assert (_buff (pop_output (#d) st) = rest) as Er.
  { unfold pop_output. cbn [_buff]. rewrite pop_loop_drop, Hb. apply drop_app_length'. rewrite Zlen_app. unfold Zlen in *. lia. }
  unfold flow. rewrite Er. split_and!; [done|rewrite Hb, Zlen_app in H2; lia|]. exists lost.
  rewrite received_app, sent_app, received_one, sent_one. simpl. rewrite Z.eqb_refl, app_nil_r, H3, Hb, <- !app_assoc.
  done.
Qed.

Lemma flow_end src dst es st : flow src dst es st -> flow src dst es (end_input st).
Proof. intros (H1 & H2 & lost & H3 & H4). split_and!; [done..|]. by exists lost. Qed.

(** Data comes from the standard input and the socket, and goes to the socket and the standard output. *)
Definition copy_event (fd : Z) (e : event) : Prop :=
  match e with
  | Received fd' _ => fd' = STDIN_FILENO \/ fd' = fd
  | Sent fd' _ => fd' = STDOUT_FILENO \/ fd' = fd
  end.

(** ** The invariant *)

Section invariant.
Context {K : Type} `{KernelLaws K}.
Context (log0 : list event) (size : nat) (socket input output : FileDescriptor) (fd : Z).
Context (Hfd : fd <> STDIN_FILENO /\ fd <> STDOUT_FILENO).
Context (Hin : (socket < size /\ input < size /\ output < size)%nat).
Implicit Types m : machine K.

(** The objects of the descriptors. *)
Definition handles m : Prop :=
  length (heap m) = size /\ fd_num socket m = fd /\ fd_num input m = STDIN_FILENO /\ fd_num output m = STDOUT_FILENO.

(** The two streams, and the descriptors that data is exchanged with. *)
Definition flows (es : list event) (s : copy_state) : Prop :=
  Forall (copy_event fd) es /\ flow STDIN_FILENO fd es (_outbound s) /\ flow fd STDOUT_FILENO es (_inbound s).

Definition copy_inv (w : machine K * copy_state) : Prop :=
  handles w.1 /\ exists es, log w.1 = log0 ++ es /\ flows es w.2.

Definition copy_error (e : exn) (w : machine K * copy_state) : Prop := write_error e /\ copy_inv w.

Lemma handles_alter f h m m' :
  (forall w, _fd (f w) = _fd w) -> heap m' = alter f h (heap m) -> handles m -> handles m'.
Proof.
  intros Hf E (H1 & H2 & H3 & H4). unfold handles. rewrite !(fd_num_alter f _ h m m') by done.
  by rewrite E, length_alter.
Qed.

Lemma handles_heap m m' : heap m' = heap m -> handles m -> handles m'.
Proof. intros E. unfold handles, fd_num, wrapper. by rewrite E. Qed.

(** Changes of the machine that transfer no data. *)
Lemma copy_inv_alter f h m m' s :
  log m' = log m -> (forall w, _fd (f w) = _fd w) -> heap m' = alter f h (heap m) -> copy_inv (m, s) -> copy_inv (m', s).
Proof.
  intros El Hf E [Hh He]. split; cbn [fst snd] in *; [by eapply handles_alter|]. by rewrite El.
Qed.
Lemma copy_inv_heap m m' s : log m' = log m -> heap m' = heap m -> copy_inv (m, s) -> copy_inv (m', s).
Proof. intros El E [Hh He]. split; cbn [fst snd] in *; [by eapply handles_heap|]. by rewrite El. Qed.

Lemma release_keeps h m s (E : exn -> machine K -> Prop) :
  copy_inv (m, s) -> wp (release h) (fun _ m' => copy_inv (m', s)) E m.
Proof.
  intros Hm. eapply wp_mono; [apply release_spec| |done]. intros [] m' [L (f & Hh & Hf)]. by apply (copy_inv_alter f h m).
Qed.

Lemma set_blocking_keeps h b m s :
  copy_inv (m, s) ->
  wp (set_blocking h b) (fun _ m' => copy_inv (m', s)) (fun e m' => copy_error e (m', s)) m.
Proof.
  intros Hm. unfold set_blocking. wp_steps. apply wp_system_call; [apply getfl_quiet| |].
  - intros r k Hk. wp_steps. apply wp_system_call; [apply setfl_quiet| |].
    + intros r' k' Hk'. wp_step. apply (copy_inv_heap m); [|done..]. unfold log in *. simpl in *. congruence.
    + intros n k' Hk'. split; [left; by eexists|]. apply (copy_inv_heap m); [|done..]. unfold log in *. simpl in *. congruence.
  - intros n k Hk. split; [left; by eexists|]. by eapply copy_inv_heap.
Qed.

(** A stream of the state and the descriptors it connects. *)
Record side (get : copy_state -> ByteStream) (set : ByteStream -> copy_state -> copy_state)
    (src dst : FileDescriptor) (n n' : Z) : Prop := {
  side_get : forall es s, flows es s -> flow n n' es (get s);
  side_set : forall es s st, flows es s -> flow n n' es st -> flows es (set st s);
  side_received : forall es s st d, flows es s -> flow n n' (es ++ [Received n d]) st ->
    flows (es ++ [Received n d]) (set st s);
  side_sent : forall es s st d, flows es s -> flow n n' (es ++ [Sent n' d]) st -> flows (es ++ [Sent n' d]) (set st s);
  side_event : forall d, copy_event fd (Sent n' d);
  side_get_set : forall st s, get (set st s) = st;
  side_src : forall m, handles m -> fd_num src m = n /\ (src < length (heap m))%nat;
  side_dst : forall m, handles m -> fd_num dst m = n' /\ (dst < length (heap m))%nat
}.

Lemma outbound_side : side _outbound set_outbound input socket STDIN_FILENO fd.
Proof.
  destruct Hfd as [F1 F2], Hin as (I1 & I2 & I3). split; try done.
  - by intros es s (_ & ? & _).
  - by intros es s st (HF & _ & H2) Hst.
  - intros es s st d (HF & _ & H2) Hst. split_and!; [apply Forall_app_2; [done|constructor; [by left|done]]|done|].
    apply flow_frame; [|done|done]. unfold received_of. case_if; [lia|done].
  - intros es s st d (HF & _ & H2) Hst. split_and!; [apply Forall_app_2; [done|constructor; [by right|done]]|done|].
    apply flow_frame; [done| |done]. unfold sent_of. case_if; [lia|done].
  - intros d. by right.
  - intros m (L & H2 & H3 & H4). by rewrite L.
  - intros m (L & H2 & H3 & H4). by rewrite L.
Qed.

Lemma inbound_side : side _inbound set_inbound socket output fd STDOUT_FILENO.
Proof.
  destruct Hfd as [F1 F2], Hin as (I1 & I2 & I3). split; try done.
  - by intros es s (_ & _ & ?).
  - by intros es s st (HF & H1' & _) Hst.
  - intros es s st d (HF & H1' & _) Hst. split_and!; [apply Forall_app_2; [done|constructor; [by right|done]]| |done].
    apply flow_frame; [|done|done]. unfold received_of. case_if; [lia|done].
  - intros es s st d (HF & H1' & _) Hst. split_and!; [apply Forall_app_2; [done|constructor; [by left|done]]| |done].
    apply flow_frame; [done| |done]. unfold sent_of. case_if; [lia|done].
  - intros d. by left.
  - intros m (L & H2 & H3 & H4). by rewrite L.
  - intros m (L & H2 & H3 & H4). by rewrite L.
Qed.

Section side.
Context {get : copy_state -> ByteStream} {set : ByteStream -> copy_state -> copy_state}.
Context {src dst : FileDescriptor} {n n' : Z} (Hside : side get set src dst n n').

Lemma end_stream_keeps w : copy_inv w -> wp (end_stream get set) (fun _ w' => copy_inv w' /\ w'.1 = w.1) copy_error w.
Proof.
  intros [Hh (es & L & Hf)]. unfold end_stream. wp_steps. split; [|done]. split; [done|]. exists es. split; [done|].
  apply (side_set _ _ _ _ _ _ Hside); [done|]. by apply flow_end, (side_get _ _ _ _ _ _ Hside).
Qed.

Lemma copy_in_keeps w : copy_inv w ->
  wp (copy_in get set src) (fun _ w' => copy_inv w' /\ read_count src w'.1 <> read_count src w.1) copy_error w.
Proof.
  intros Hw. pose proof Hw as [Hh (es & L & Hf)]. destruct (side_src _ _ _ _ _ _ Hside _ Hh) as [En Hl].
  pose proof (side_get _ _ _ _ _ _ Hside _ _ Hf) as Hg. pose proof (flow_capacity _ _ _ _ Hg) as Hc.
  destruct w as [m s]. cbn [fst snd] in *. unfold copy_in. wp_steps. cbn [fst snd].
  eapply wp_mono; [apply fd_read_spec; destruct Hg; lia| |].
  - intros d m' (Hd & L' & Hh'). wp_steps. cbn [fst snd].
    assert (copy_inv (m', set (write d (get s)).2 s)) as Hinv.
    { split; cbn [fst snd]; [by eapply handles_alter; [|exact Hh'|exact Hh]|].
      exists (es ++ [Received n d]). rewrite L', L, En, app_assoc. split; [done|].
      apply (side_received _ _ _ _ _ _ Hside); [done|]. apply flow_write; [done|lia]. }
    assert (read_count src m' <> read_count src m) as Hrc.
    { unfold read_count. destruct m' as [k' hp]. cbn [heap] in Hh'. subst hp. rewrite wrapper_alter by done.
      apply u32_succ_ne. }
    apply wp_when; intros _; [|done]. eapply wp_mono; [by apply end_stream_keeps| |done].
    intros [] w' [Hi E]. split; [done|]. by rewrite E.
  - intros e m' (He & L' & Hh'). split; [by left|]. by apply (copy_inv_heap m).
Qed.

Lemma copy_out_keeps finish w :
  (forall w, copy_inv w -> wp finish (fun _ w' => copy_inv w' /\
     (write_count dst w'.1 = write_count dst w.1 \/ write_count dst w'.1 = u32 (write_count dst w.1 + 1))) copy_error w) ->
  copy_inv w ->
  wp (copy_out get set dst finish) (fun _ w' => copy_inv w' /\ write_count dst w'.1 <> write_count dst w.1) copy_error w.
Proof.
  intros Hfin Hw. pose proof Hw as [Hh (es & L & Hf)]. destruct (side_dst _ _ _ _ _ _ Hside _ Hh) as [En Hl].
  pose proof (side_get _ _ _ _ _ _ Hside _ _ Hf) as Hg.
  destruct w as [m s]. cbn [fst snd] in *. unfold copy_out. wp_steps. cbn [fst snd].
  set (data := peek_output _ _).
  assert (data `prefix_of` _buff (get s)) as [rest0 Hp] by apply prefix_take.
  assert (#data <= copy_buffer_size) as Hdl.
  { destruct Hg as (_ & G & _). rewrite Hp, Zlen_app in G. pose proof (Zlen_nonneg rest0). lia. }
  unfold fd_write_string. eapply wp_mono; [apply fd_write_some; simpl; rewrite app_nil_r; unfold copy_buffer_size in *; lia|..].
  - intros z m' (d & rest & E1 & -> & L' & Hh'). simpl in E1. rewrite app_nil_r in E1. wp_steps. cbn [fst snd].
    assert (copy_inv (m', set (pop_output (#d) (get s)) s)) as Hinv.
    { split; cbn [fst snd]; [by eapply handles_alter; [|exact Hh'|exact Hh]|].
      exists (es ++ [Sent n' d]). rewrite L', L, En, app_assoc. split; [done|].
      apply (side_sent _ _ _ _ _ _ Hside); [done|]. apply (flow_pop _ _ _ _ _ (rest ++ rest0)); [done|].
      by rewrite Hp, E1, app_assoc. }
    assert (write_count dst m' = u32 (write_count dst m + 1)) as Hwc.
    { unfold write_count. destruct m' as [k' hp]. cbn [heap] in Hh'. subst hp. by rewrite wrapper_alter. }
    apply wp_when; intros _.
    + eapply wp_mono; [by apply Hfin| |done]. intros [] w' [Hi Hc]. split; [done|]. cbn [fst] in Hc. rewrite Hwc in Hc.
      destruct Hc as [-> | ->]; words_lia.
    + split; [done|]. cbn [fst]. rewrite Hwc. apply u32_succ_ne.
  - intros e m' [Hh' [[He L']|[-> L']]]; (split; [by (left + right)|]); [by apply (copy_inv_heap m)|].
    split; cbn [fst snd]; [by eapply handles_heap; [exact Hh'|exact Hh]|].
    exists (es ++ [Sent n' []]). rewrite L', L, En, app_assoc. split; [done|].
    assert (forall a b, received_of a (Sent b []) = [] /\ sent_of a (Sent b []) = []) as G
      by (intros a b; simpl; by case_if).
    assert (copy_event fd (Sent n' [])) as Hev by apply (side_event _ _ _ _ _ _ Hside).
    destruct Hf as (HF & Ho & Hi). split; [by apply Forall_app_2; [|constructor]|]. split; (apply flow_frame; [apply G|apply G|done]).
Qed.
End side.

Lemma finish_outbound_keeps w : copy_inv w -> wp (finish_outbound socket) (fun _ w' => copy_inv w' /\
  (write_count socket w'.1 = write_count socket w.1 \/ write_count socket w'.1 = u32 (write_count socket w.1 + 1)))
  copy_error w.
Proof.
  intros Hw. destruct w as [m s]. unfold finish_outbound. wp_steps. cbn [fst snd].
  eapply wp_mono; [apply shutdown_write_spec| |].
  - intros [] m' [[L (f & Hh & Hf)] Hc]. wp_steps. cbn [fst snd]. split; [by apply (copy_inv_alter f socket m)|].
    right. apply Hc. destruct Hw as [(E & _) _]. cbn [fst] in E. rewrite E. apply Hin.
  - intros e m' (He & L & Hh). split; [by left|]. by apply (copy_inv_heap m).
Qed.

Lemma finish_inbound_keeps w : copy_inv w -> wp (finish_inbound output) (fun _ w' => copy_inv w' /\
  (write_count output w'.1 = write_count output w.1 \/ write_count output w'.1 = u32 (write_count output w.1 + 1)))
  copy_error w.
Proof.
  intros Hw. destruct w as [m s]. unfold finish_inbound, close. wp_steps. cbn [fst snd].
  apply wp_system_call; [apply close_quiet| |].
  - intros r k Hk. apply wp_update. wp_steps. cbn [fst snd kernel heap]. split.
    + by eapply (copy_inv_alter set_closed output m); [exact Hk| |reflexivity|].
    + left. unfold write_count. rewrite wrapper_alter; [done|]. cbn [heap].
      destruct Hw as [(L & _) _]. cbn [fst] in L. rewrite L. apply Hin.
  - intros e k Hk. split; [left; by eexists|]. by apply (copy_inv_heap m).
Qed.

Abbreviation good_rules := (Forall (fun r => forall limit, rule_ok limit (fun _ => copy_inv) copy_error r)) (only parsing).

Lemma copy_add_rule_keeps h d c i x rules w :
  copy_inv w -> good_rules rules -> (forall limit, rule_ok limit (fun _ => copy_inv) copy_error (mkRule h d c i x)) ->
  wp (add_rule h d c i x) (fun _ s => copy_inv s.1 /\ good_rules s.2) (fun e s => copy_error e s.1) (w, rules).
Proof.
  intros Hw Hr Hc. destruct w as [m s]. unfold add_rule, duplicate. wp_steps. apply wp_update. wp_steps.
  cbn [fst snd kernel heap]. split; [|by apply Forall_app_2; [|constructor]].
  by eapply (copy_inv_alter _ h m); [| |reflexivity|].
Qed.

Lemma copy_rules_keeps w :
  copy_inv w ->
  wp (copy_rules socket input output) (fun _ s => copy_inv s.1 /\ good_rules s.2) (fun e s => copy_error e s.1) (w, []).
Proof.
  intros Hw. unfold copy_rules. pose proof outbound_side as So. pose proof inbound_side as Si.
  wp_step. eapply wp_mono; [apply copy_add_rule_keeps; [done|constructor|]| |done].
  { split; intros i v _ Hv; cbn [callback cancel].
    - eapply wp_mono; [by apply (copy_in_keeps So)| |done]. by intros [] v' [? ?].
    - eapply wp_mono; [by apply (end_stream_keeps So)| |done]. by intros [] v' []. }
  intros [] [w1 rs1] [H1' H2']. wp_step. eapply wp_mono; [apply copy_add_rule_keeps; [done..|]| |done].
  { split; intros i v _ Hv; cbn [callback cancel].
    - eapply wp_mono; [apply (copy_out_keeps So); [apply finish_outbound_keeps|done]| |done]. by intros [] v' [? ?].
    - eapply wp_mono; [by apply (end_stream_keeps So)| |done]. by intros [] v' []. }
  intros [] [w2 rs2] [H3' H4']. wp_step. eapply wp_mono; [apply copy_add_rule_keeps; [done..|]| |done].
  { split; intros i v _ Hv; cbn [callback cancel].
    - eapply wp_mono; [by apply (copy_in_keeps Si)| |done]. by intros [] v' [? ?].
    - eapply wp_mono; [by apply (end_stream_keeps Si)| |done]. by intros [] v' []. }
  intros [] [w3 rs3] [H5' H6']. apply copy_add_rule_keeps; [done..|].
  split; intros i v _ Hv; cbn [callback cancel].
  - eapply wp_mono; [apply (copy_out_keeps Si); [apply finish_inbound_keeps|done]| |done]. by intros [] v' [? ?].
  - eapply wp_mono; [by apply (end_stream_keeps Si)| |done]. by intros [] v' [].
Qed.

Definition copy_exn (e : exn) : Prop := write_error e \/ e = poll_failed.

Lemma copy_turn_keeps w rules :
  copy_inv w -> good_rules rules ->
  wp (copy_turn tt) (fun _ s => copy_inv s.1 /\ good_rules s.2) (fun e s => copy_exn e /\ copy_inv s.1) (w, rules).
Proof.
  intros Hw Hr. unfold copy_turn. wp_step.
  eapply wp_mono; [apply (wait_next_event_spec (2 * length rules) (fun _ => copy_inv) copy_error) with (i := 0%nat);
    [by intros i j v _| | |done|done|]|..].
  - intros i h m s Hm. by apply release_keeps.
  - intros i fds t [m s] Hm. by apply (copy_inv_heap m); [apply poll_quiet|..].
  - eapply Forall_impl; [|exact Hr]. auto.
  - intros r [w' rs] [Hw' Hs]. wp_step. split; [done|]. by eapply Forall_sublist.
  - intros e [w' rs] [[He Hw']|[-> Hw']]; (split; [|done]); [by left|by right].
Qed.

Lemma copy_unwind_keeps (E : exn -> (machine K * copy_state) * list (Rule K copy_state) -> Prop) w rules :
  copy_inv w -> wp (copy_unwind input output) (fun _ s => copy_inv s.1) E (w, rules).
Proof.
  intros Hw. unfold copy_unwind. destruct w as [m s]. wp_steps. eapply wp_mono; [by apply (release_keeps _ m s)| |].
  2: { intros e m' Hm. exact Hm. }
  intros [] m1 H1'. wp_steps. eapply wp_mono; [by apply (release_keeps _ m1 s)| |].
  2: { intros e m' Hm. exact Hm. }
  intros [] m2 H2'. unfold destroy_rules. wp_steps. cbn [fst snd].
  assert (forall (l : list (Rule K copy_state)) m, copy_inv (m, s) ->
    wp (foldr (fun r rest => _ ← on_fst (on_fst (release (rule_fd r))); rest) (mret tt) l)
      (fun _ s' => copy_inv s'.1) E ((m, s), rules)) as Hl.
  { induction l as [|r l IH]; intros m3 H3'; [done|]. cbn [foldr]. wp_steps.
    eapply wp_mono; [by apply (release_keeps _ m3 s)| |intros e m' Hm; exact Hm].
    intros [] m4 H4'. cbn [fst snd]. by apply IH. }
  eapply wp_mono; [by apply Hl| |done]. intros [] s' Hs'. by wp_step.
Qed.

Lemma copy_loop_keeps fuel w :
  copy_inv w ->
  run_ends (copy_loop fuel socket input output) (fun _ s => copy_inv s.1) (fun e s => copy_exn e /\ copy_inv s.1)
    (fun s => copy_inv s.1) (w, []).
Proof.
  intros Hw. unfold copy_loop.
  assert (forall h b w, copy_inv w -> wp (on_fst (on_fst (set_blocking h b)))
    (fun _ s => copy_inv s.1 /\ s.2 = []) (fun e s => copy_exn e /\ copy_inv s.1) (w, @nil (Rule K copy_state))) as Hb.
  { intros h b [m s] Hm. wp_steps. cbn [fst snd]. eapply wp_mono; [by apply (set_blocking_keeps h b m s)|done|].
    intros e m' [He Hi]. split; [by left|done]. }
  do 3 (apply run_ends_bind, run_ends_wp; eapply wp_mono; [by apply Hb| |done];
    clear w Hw; intros [] [w rs] [Hw E]; cbn [fst snd] in *; subst rs).
  apply run_ends_bind, run_ends_wp. eapply wp_mono; [by apply copy_rules_keeps| |].
  - clear w Hw. intros [] [w rs] [Hw Hr].
    apply run_ends_iterate with (I := fun _ s => copy_inv s.1 /\ good_rules s.2); [|by intros [] ? []|done].
    intros [] [w' rs'] [Hw' Hr']. eapply wp_mono; [by apply copy_turn_keeps| |done]. by intros [[]|[]] ? [].
  - intros e s [He Hi]. split; [by left|done].
Qed.
End invariant.

(** ** Properties *)

(** The descriptors that the function makes. *)
Lemma copy_handles {K} `{KernelLaws K} (m : machine K) (h : FileDescriptor) :
  (h < length (heap m))%nat ->
  handles (S (S (length (heap m)))) h (length (heap m)) (length (heap m ++ [mkFDWrapper STDIN_FILENO false false 0 0 1]))
    (fd_num h m)
    (mkMachine (kernel m) ((heap m ++ [mkFDWrapper STDIN_FILENO false false 0 0 1]) ++
       [mkFDWrapper STDOUT_FILENO false false 0 0 1])).
Proof.
  intros Hh. unfold handles, fd_num, wrapper. cbn [heap]. rewrite (length_app (_ ++ _)), length_app.
  split_and!; [simpl; lia| | |].
  - by rewrite !lookup_app_l by (rewrite ?length_app; lia).
  - by rewrite lookup_app_l, lookup_app_r, Nat.sub_diag by (rewrite ?length_app; simpl; lia).
  - rewrite lookup_app_r, length_app by (rewrite ?length_app; simpl; lia). by rewrite Nat.sub_diag.
Qed.

(** The invariant for every outcome of a run. *)
Lemma stream_copy_keeps {K} `{KernelLaws K} fuel (socket : FileDescriptor) (m : machine K) s :
  (socket < length (heap m))%nat -> fd_num socket m <> STDIN_FILENO -> fd_num socket m <> STDOUT_FILENO ->
  let fd := fd_num socket m in
  let flowing (v : (machine K * copy_state) * list (Rule K copy_state)) := exists es, log v.1.1 = log m ++ es /\
     flows fd es v.1.2 in
  run_ends (bidirectional_stream_copy fuel socket) (fun _ => flowing) (fun e v => copy_exn e /\ flowing v) flowing
    ((m, s), []).
Proof.
  intros Hs F1 F2 fd flowing.
  set (m1 := mkMachine (kernel m) ((heap m ++ [mkFDWrapper STDIN_FILENO false false 0 0 1]) ++
    [mkFDWrapper STDOUT_FILENO false false 0 0 1])).
  set (output := length (heap m ++ [mkFDWrapper STDIN_FILENO false false 0 0 1])).
  set (I := copy_inv (log m) (S (S (length (heap m)))) socket (length (heap m)) output fd).
  assert (I (m1, copy_start)) as Hm1.
  { split; [by apply copy_handles|]. exists []. rewrite app_nil_r. split; [done|]. split; [done|]. split; apply flow_start. }
  eapply (run_ends_mono _ (fun _ v => I v.1) _ (fun e v => copy_exn e /\ I v.1) _ (fun v => I v.1));
    [|by intros [] v []|by intros e v [? []]|by intros v []].
  apply (run_ends_bind (on_fst (on_fst (FileDescriptor_of STDIN_FILENO)))).
  change (run_ends (_ ← catch (copy_loop fuel socket (length (heap m)) output)
      (fun e => _ ← copy_unwind (length (heap m)) output; throw e); copy_unwind (length (heap m)) output)
    (fun _ s => I s.1) (fun e s => copy_exn e /\ I s.1) (fun s => I s.1) ((m1, copy_start), [])).
  apply run_ends_bind, run_ends_catch. eapply run_ends_mono; [apply copy_loop_keeps; [done| |exact Hm1]|..|done].
  - unfold output. rewrite length_app. simpl. lia.
  - intros [] [w rs] Hw. apply run_ends_wp. by apply copy_unwind_keeps.
  - intros e [w rs] [He Hw]. apply run_ends_wp. wp_step.
    eapply wp_mono; [by apply copy_unwind_keeps with (E := fun _ _ => False)| |done]. intros [] s' Hs'. by wp_step.
Qed.

(** C9: Copying loses, changes and reorders nothing. For every kernel that keeps its promises,
    however it schedules the descriptors, cuts reads and writes short or fails, and for any
    number of turns: what was sent to the socket is a prefix of what the standard input delivered,
    what was written to the standard output a prefix of what the socket delivered, and the rest is
    waiting in the streams, within their capacity, unless the input of a stream was ended
    before; no busy wait is ever reported, an exception is an error of a call or of a polled
    descriptor. *)
Theorem stream_copy_safe {K} `{KernelLaws K} fuel (socket : FileDescriptor) (m : machine K) s :
  (socket < length (heap m))%nat -> fd_num socket m <> STDIN_FILENO -> fd_num socket m <> STDOUT_FILENO ->
  let fd := fd_num socket m in
  let '(r, ((m', s'), _)) := bidirectional_stream_copy fuel socket ((m, s), []) in
  (exists es, log m' = log m ++ es /\ Forall (copy_event fd) es /\
     flow STDIN_FILENO fd es (_outbound s') /\ flow fd STDOUT_FILENO es (_inbound s')) /\
  match r with
  | Throw e => write_error e \/ e = poll_failed
  | _ => True
  end.
Proof.
  intros Hs F1 F2 fd. pose proof (stream_copy_keeps fuel socket m s Hs F1 F2) as HR. cbv zeta in HR. unfold run_ends in HR.
  destruct (bidirectional_stream_copy _ _ _) as [[a|e|] [[m' s'] rs]]; [done|by destruct HR|done].
Qed.

(** A run: the input is copied in two pieces, and the loop ends by itself. *)
Lemma stream_copy_safe_witness :
  let m := mkMachine (mkSim [(0, inl [x01; x02; x03]); (5, inl [x0a]); (0, inl []); (5, inl [])] 2 [] 0 [])
             [mkFDWrapper 5 false false 0 0 1] in
  let '(r, ((m', s'), _)) := bidirectional_stream_copy 10 0 ((m, copy_start), []) in
  r = Ok tt /\ sent 5 (log m') = [x01; x02; x03] /\ sent 1 (log m') = [x0a] /\
  exists es, log m' = log m ++ es /\ Forall (copy_event 5) es /\ flow 0 5 es (_outbound s') /\ flow 5 1 es (_inbound s').
Proof.
  intros m. pose proof (stream_copy_safe 10 0 m copy_start ltac:(simpl; lia) ltac:(by_compute) ltac:(by_compute)) as HS.
  cbv zeta in HS. change (fd_num 0 m) with 5 in HS. unfold STDIN_FILENO, STDOUT_FILENO in HS.
  destruct (bidirectional_stream_copy 10 0 ((m, copy_start), [])) as [r [[m' s'] rs]] eqn:ER.
  split_and!; [| | |exact (proj1 HS)]; clear HS; revert ER; vm_compute; by intros [= <- <- <-].
Defined.
