(* ===== verification/CS144Socket.v ===== *)
(** * The socket over a TUN device (src/libsponge/tcp_helpers/tcp_sponge_socket.cc, CS144TCPSocket)

    A TCP socket whose adapter is the TUN device tun144, with fixed configurations. *)

From stdpp Require Import strings.
From S2P Require Import Prelude IO WrappingIntegers Address Adapter TCPSender Kernel SimKernel FileDescriptor EventLoop.
From S2P Require Import Socket Tun FdAdapter TCPSpongeSocket Holders.

Section cs144.
Context {K : Type} `{Kernel K} {Res : Resolver}.

Abbreviation loop_state :=
  ((machine K * TCPSpongeSocket TunFdAdapter) * list (Rule K (TCPSpongeSocket TunFdAdapter)))%type (only parsing).

Definition tun144 : bytes := String.list_byte_of_string "tun144".
Definition cs144_source : bytes := String.list_byte_of_string "169.254.144.9".

Definition CS144TCPSocket_new : io (machine K) (TCPSpongeSocket TunFdAdapter) :=
  tun ← TunFD_new tun144;
  base ← unwinding (of_result default_adapter) (release tun);
  TCPSpongeSocket_new (mkTunFdAdapter tun base).

(** [device] is the number that [random_device] returns, [random] the one used by the sender. *)
Definition CS144_connect (_abort : K -> bool) (fuel : nat) (device random : Z) (address : Address) : io loop_state unit :=
  let tcp_config := mkTCPConfig 100 (recv_capacity default_config) (send_capacity default_config) (fixed_isn default_config) in
  multiplexer_config ← of_result default_fd_config;
  source ← of_result (Address_of_host cs144_source (to_string (u16 device)));
  connect _abort fuel tcp_config random
    (mkFdAdapterConfig source address (loss_rate_dn multiplexer_config) (loss_rate_up multiplexer_config)).
End cs144.

(** ** Holders of descriptors *)

Section held.
Context {K : Type} `{Kernel K} {Res : Resolver}.
Implicit Types m : machine K.

Lemma held_Socket_of h domain type m :
  wp (Socket_of h domain type) (fun h' m' => h' = h /\ held m' = held m) (fun _ m' => held m' = alter pred h (held m)) m.
Proof.
  unfold Socket_of. apply wp_unwinding.
  assert (wp (Socket_check h domain type) (fun h' m' => h' = h /\ held m' = held m) (fun _ m' => held m' = held m) m) as HC.
  { unfold Socket_check. wp_steps. apply wp_sys. wp_step. apply wp_SystemCall; [|done]. intros z.
    destruct (out _) as [v len]. case_if; [by wp_step|]. wp_steps. apply wp_sys. wp_step. apply wp_SystemCall; [|done].
    intros z'. destruct (out _) as [v' len']. case_if; by wp_step. }
  eapply wp_mono; [exact HC|done|]. intros e m' E. rewrite <- E. by eapply wp_mono; [apply held_release|..].
Qed.

Lemma held_set_blocking h b m :
  wp (set_blocking h b) (fun _ m' => held m' = held m) (fun _ m' => held m' = held m) m.
Proof.
  unfold set_blocking. wp_steps. apply held_system_call; [|done]. intros r k. wp_steps. apply held_system_call; [|done].
  intros r' k'. by wp_step.
Qed.

Lemma held_TunFD_new devname m :
  wp (TunFD_new devname) (fun h m' => h = length (held m) /\ held m' = held m ++ [1%nat])
    (fun _ m' => released (held m) m') m.
Proof.
  assert (forall m', held m' = held m -> released (held m) m') as Hsame by (intros m' E; exists 0%nat; by rewrite app_nil_r).
  unfold TunFD_new, TunTapFD_new. wp_steps. apply held_system_call; [|intros; by apply Hsame]. intros fd k. wp_steps.
  eapply wp_mono; [apply held_FileDescriptor_of| |intros e m' E; apply Hsame, E]. intros h m1 [-> E1].
  apply wp_unwinding. wp_steps. apply held_system_call; [intros r k2; by wp_steps|]. intros n k2.
  eapply wp_mono; [apply held_release| |done]. intros [] m2 E2. exists 1%nat. rewrite E2.
  change (held (mkMachine k2 (heap m1))) with (held m1). change (held (mkMachine k (heap m))) with (held m) in *.
  rewrite E1, alter_app_r_alt by lia. by rewrite Nat.sub_diag.
Qed.

(** The arguments of the constructor: the pair is held at the end of the list. *)
Lemma held_socket_pair m :
  wp (socket_pair_helper SOCK_STREAM)
    (fun p m' => p = (length (held m), S (length (held m))) /\ held m' = held m ++ [1; 1]%nat)
    (fun _ m' => released (held m) m') m.
Proof.
  assert (forall m', held m' = held m -> released (held m) m') as Hsame by (intros m' E; exists 0%nat; by rewrite app_nil_r).
  unfold socket_pair_helper. wp_steps. apply wp_sys. wp_step. apply wp_SystemCall; [|intros n; by apply Hsame]. intros z. wp_step.
  eapply wp_mono; [apply held_FileDescriptor_of| |intros e m' E; apply Hsame, E]. intros a m1 [-> E1].
  set (m0 := mkMachine _ _) in *. change (held m0) with (held m) in *. wp_step. apply wp_unwinding.
  eapply wp_mono; [apply held_FileDescriptor_of| |].
  - intros b m2 [-> E2]. wp_step. rewrite E2, E1, length_app, <- app_assoc. split; [|done]. f_equal. simpl. lia.
  - intros e m2 E2. eapply wp_mono; [apply held_release| |done]. intros [] m3 E3. exists 1%nat.
    by rewrite E3, E2, E1, alter_app_r_alt, Nat.sub_diag by lia.
Qed.

(** The socket holds its adapter's descriptor and the two of the pair, or nothing is held. *)
Lemma held_TCPSpongeSocket_new a l m :
  held m = l ++ [1%nat] -> _tun a = length l ->
  wp (TCPSpongeSocket_new a) (fun s m' => held m' = l ++ [1; 1; 1]%nat /\ _datagram_adapter s = a /\
      _owner s = S (length l) /\ _thread_data s = S (S (length l)))
    (fun _ m' => released l m') m.
Proof.
  intros Hm Ha. unfold TCPSpongeSocket_new. wp_step. apply wp_unwinding. eapply wp_mono; [apply held_socket_pair| |].
  2: { intros e m' (k & E). eapply wp_mono; [apply held_release| |done]. intros [] m2 E2. exists (S k). cbn [ad_fd tun_fd_adapter] in E2.
       rewrite E2, E, Hm, Ha, <- app_assoc, alter_app_r_alt, Nat.sub_diag by lia. done. }
  intros p m1 [-> E1]. rewrite Hm, length_app, Nat.add_1_r. rewrite Hm, <- app_assoc in E1. cbn [app] in E1.
  assert (forall i k, alter pred (i + length l)%nat (l ++ k) = l ++ alter pred i k) as Halt
    by (intros; rewrite Nat.add_comm; apply alter_app_r).
  pose proof (Halt 0%nat) as A0. pose proof (Halt 1%nat) as A1. pose proof (Halt 2%nat) as A2. cbn [Nat.add] in A0, A1, A2. clear Halt.
  unfold TCPSpongeSocket_of_pair, LocalStreamSocket_of. cbn [ad_fd tun_fd_adapter]. rewrite Ha.
  wp_step. apply wp_unwinding. eapply wp_mono; [apply held_Socket_of| |].
  2: { intros e m2 E2. wp_step. eapply wp_mono; [apply held_release| |done]. intros [] m3 E3. eapply wp_mono; [apply held_release| |done].
       intros [] m4 E4. exists 3%nat. by rewrite E4, E3, E2, E1, A1, A2, A0. }
  intros owner m2 [-> E2]. rewrite E1 in E2. clear m1 E1. wp_step. apply wp_unwinding. eapply wp_mono; [apply held_Socket_of| |].
  2: { intros e m3 E3. wp_step. eapply wp_mono; [apply held_release| |done]. intros [] m4 E4. eapply wp_mono; [apply held_release| |done].
       intros [] m5 E5. exists 3%nat. by rewrite E5, E4, E3, E2, A2, A1, A0. }
  intros thread m3 [-> E3]. rewrite E2 in E3. clear m2 E2. wp_step. apply wp_unwinding. eapply wp_mono; [apply held_set_blocking| |].
  2: { intros e m4 E4. wp_step. eapply wp_mono; [apply held_release| |done]. intros [] m5 E5. wp_step.
       eapply wp_mono; [apply held_release| |done]. intros [] m6 E6. eapply wp_mono; [apply held_release| |done].
       intros [] m7 E7. exists 3%nat. by rewrite E7, E6, E5, E4, E3, A0, A2, A1. }
  intros [] m4 E4. wp_step. by rewrite E4, E3.
Qed.
End held.

(** ** Properties *)

(** Construction holds or releases. CS144TCPSocket is made on any kernel, whichever calls fail: either it
    is made, and holds the device and the two ends of a new socket pair once each, or an exception is
    thrown and nothing that was opened is still held; objects of before are held as they were. *)
Theorem construction_releases {K} `{Kernel K} {Res : Resolver} (m : machine K) :
  match CS144TCPSocket_new m with
  | (Ok s, m') => held m' = held m ++ [1; 1; 1]%nat /\
      [_tun (_datagram_adapter s); _owner s; _thread_data s] = seq (length (heap m)) 3
  | (Throw _, m') => exists k, held m' = held m ++ replicate k 0%nat
  | (Diverge, _) => False
  end.
Proof.
  assert (wp CS144TCPSocket_new (fun s m' => held m' = held m ++ [1; 1; 1]%nat /\
      [_tun (_datagram_adapter s); _owner s; _thread_data s] = seq (length (heap m)) 3)
    (fun _ m' => released (held m) m') m) as HW.
  { unfold CS144TCPSocket_new. wp_step. eapply wp_mono; [apply held_TunFD_new| |done]. intros tun m1 [-> E1].
    wp_step. apply wp_unwinding. apply wp_tame; [unfold default_adapter, default_fd_config; tame_steps; apply tame_Address_of_ip|..].
    - intros base _. eapply wp_mono; [by apply (held_TCPSpongeSocket_new _ (held m))| |done].
      intros s m2 (E2 & -> & -> & ->). split; [done|]. cbn [_tun]. by rewrite length_held.
    - intros e _. eapply wp_mono; [apply held_release| |done]. intros [] m2 E2. exists 1%nat.
      by rewrite E2, E1, alter_app_r_alt, Nat.sub_diag by lia. }
  unfold wp in HW. destruct (CS144TCPSocket_new m) as [[s|e|] m']; done.
Qed.
