(* ===== verification/Webget.v ===== *)
(** * webget (src/apps/webget.cc)

    The program asks a web server for a page and prints the whole answer. *)

From stdpp Require Import strings.
From S2P Require Import Prelude IO Buffer Address Kernel SimKernel FileDescriptor Socket FdAdapter.

Section webget.
Context {K : Type} `{Kernel K} {Res : Resolver}.

(** The machine and what has been written to [cout]. *)
Abbreviation world := (machine K * bytes)%type (only parsing).

Definition crlf : bytes := [x0d; x0a].

Definition request (host path : bytes) : bytes :=
  String.list_byte_of_string "GET " ++ path ++ String.list_byte_of_string " HTTP/1.1" ++ crlf ++
  String.list_byte_of_string "HOST: " ++ host ++ crlf ++ String.list_byte_of_string "Connection: close" ++ crlf ++ crlf.

(** The loop until the end of the answer. *)
Definition print_turn (tcp : FileDescriptor) (_ : unit) : io world (unit + unit) :=
  eof ← gets (fun w => fd_eof tcp w.1);
  if (eof : bool) then mret (inr tt)
  else
    data ← on_fst (fd_read tcp size_max);
    _ ← on_snd (modify (fun out => out ++ data));
    mret (inl tt).

(** At most [fuel] reads; the socket is destroyed at the end or by an exception. *)
Definition get_URL (fuel : nat) (host path : bytes) : io world unit :=
  tcp ← on_fst TCPSocket_new;
  _ ← unwinding (
        add ← of_result (Address_of_host host (String.list_byte_of_string "http"));
        _ ← on_fst (socket_connect tcp add);
        _ ← on_fst (fd_write_string tcp (request host path) true);
        _ ← on_fst (shutdown tcp SHUT_WR);
        _ ← iterate fuel (print_turn tcp) tt;
        on_fst (close tcp))
      (on_fst (release tcp));
  on_fst (release tcp).

(** [main], with the arguments after the name of the program; messages to [cerr] are left out. *)
Definition main (fuel : nat) (args : list bytes) : io world Z :=
  match args with
  | [host; path] => catch_all (_ ← get_URL fuel host path; mret EXIT_SUCCESS) (fun _ => mret EXIT_FAILURE)
  | _ => mret EXIT_FAILURE
  end.
End webget.

(** ** Lemmas *)

Section answer.
Context {K : Type} `{KernelLaws K} {Res : Resolver}.
Context (log0 : list event) (out0 : bytes) (tcp : FileDescriptor) (fd : Z) (size : nat) (req : bytes).
Context (Htcp : (tcp < size)%nat).
Implicit Types m : machine K.

(** So far [done] has been sent, what was received has been printed, and the end has been seen only
    after a read without data. *)
Definition talks (done : bytes) (w : machine K * bytes) : Prop :=
  length (heap w.1) = size /\ fd_num tcp w.1 = fd /\
  exists es, log w.1 = log0 ++ es /\ Forall (fun e => event_fd e = fd) es /\
    sent fd es = done /\ w.2 = out0 ++ received fd es /\
    (fd_eof tcp w.1 = true -> exists es', es = es' ++ [Received fd []]).

Lemma talks_silent done m m' out f :
  heap m' = alter f tcp (heap m) -> (forall w, _fd (f w) = _fd w /\ _eof (f w) = _eof w) -> log m' = log m ->
  talks done (m, out) -> talks done (m', out).
Proof.
  intros Hh Hf Hl (H1 & H2 & es & H3 & H4 & H5 & H6 & H7). cbn [fst snd] in *. split_and!; cbn [fst snd].
  - by rewrite Hh, length_alter.
  - rewrite (fd_num_alter f _ tcp m m'); [done| |done]. apply Hf.
  - exists es. rewrite Hl. split_and!; try done. intros He. apply H7. rewrite <- He. unfold fd_eof, wrapper.
    rewrite Hh, list_lookup_alter, decide_True by done. destruct (heap m !! tcp) as [w|]; [|done]. simpl. by rewrite (proj2 (Hf w)).
Qed.

Lemma print_turn_spec w :
  talks req w ->
  wp (print_turn tcp tt)
    (fun r w' => talks req w' /\ match r with inl _ => True | inr _ => fd_eof tcp w'.1 = true end)
    (fun e w' => sys_error e /\ talks req w') w.
Proof.
  intros Hw. destruct w as [m out]. unfold print_turn. wp_steps. cbn [fst]. case_if; [by wp_step|]. rename Heqb into Heof.
  wp_steps. cbn [fst snd]. eapply wp_mono; [by apply fd_read_spec| |].
  2: { intros e m' (He & Hl & Hh). split; [done|]. eapply (talks_silent _ m _ _ id); try done. rewrite Hh. symmetry. by apply list_alter_id. }
  intros d m' (_ & Hl & Hh). wp_steps. cbn [fst snd]. split; [|done].
  destruct Hw as (H1 & H2 & es & H3 & H4 & H5 & H6 & H7). cbn [fst snd] in *. rewrite H2 in Hl. split_and!; cbn [fst snd].
  - by rewrite Hh, length_alter.
  - by rewrite (fd_num_alter (after_read _) _ tcp m m' ltac:(done) Hh).
  - exists (es ++ [Received fd d]). rewrite Hl, H3, app_assoc, sent_app, received_app, sent_one, received_one, H6, app_assoc. simpl.
    rewrite Z.eqb_refl, app_nil_r. split_and!; try done; [by apply Forall_app_2; [|constructor]|].
    intros He. exists es. f_equal. unfold fd_eof, wrapper in He. rewrite Hh, list_lookup_alter, decide_True in He by done.
    assert (is_Some (heap m !! tcp)) as [w Ew] by (apply lookup_lt_is_Some; by rewrite H1).
    rewrite Ew in He. cbn in He. unfold fd_eof, wrapper in Heof. rewrite Ew in Heof. cbn in Heof. rewrite Heof in He.
    cbn [orb] in He. by destruct d.
Qed.

(** What remains true when the socket is gone: [sofar] was sent. *)
Definition said (sofar : bytes) (w : machine K * bytes) : Prop :=
  exists es, log w.1 = log0 ++ es /\ Forall (fun e => event_fd e = fd) es /\ sent fd es = sofar /\
    w.2 = out0 ++ received fd es.
Definition answered (w : machine K * bytes) : Prop :=
  exists es, log w.1 = log0 ++ es ++ [Received fd []] /\ Forall (fun e => event_fd e = fd) es /\ sent fd es = req /\
    w.2 = out0 ++ received fd es.

Definition fails (e : exn) (w : machine K * bytes) : Prop :=
  adapter_exn e /\ exists sofar, sofar `prefix_of` req /\ said sofar w.

Lemma talks_said sofar w : talks sofar w -> said sofar w.
Proof. intros (_ & _ & es & H1 & H2 & H3 & H4 & _). by exists es. Qed.

Lemma talks_answered w : talks req w -> fd_eof tcp w.1 = true -> answered w.
Proof.
  intros (_ & _ & es & H1 & H2 & H3 & H4 & H5) He. destruct (H5 He) as (es' & ->). exists es'.
  apply Forall_app in H2 as [H2 _]. rewrite sent_app, sent_one, app_nil_r in H3.
  rewrite received_app, received_one in H4. simpl in H4. rewrite Z.eqb_refl, app_nil_r in H4. done.
Qed.

Lemma talks_fails e sofar w : sofar `prefix_of` req -> adapter_exn e -> talks sofar w -> fails e w.
Proof. intros Hp He Hw. split; [done|]. exists sofar. split; [done|by apply talks_said]. Qed.

(** A system call without data that leaves the objects alone. *)
Lemma talks_call {A} (call : K -> sysret A * K) sofar m out (Q : Z -> machine K -> Prop) (E : exn -> machine K -> Prop) :
  quiet call -> talks sofar (m, out) ->
  (forall r m', heap m' = heap m -> log m' = log m -> talks sofar (m', out) -> Q r m') ->
  (forall n m', talks sofar (m', out) -> E (unix_error n) m') ->
  wp (system_call call) Q E m.
Proof.
  intros Hq Hw HQ HE. assert (forall k, observed k = log m -> talks sofar (mkMachine k (heap m), out)) as Hk.
  { intros k Hk. eapply (talks_silent _ m _ _ id); [|done|exact Hk|done]. cbn [heap]. symmetry. by apply list_alter_id. }
  apply wp_system_call; auto.
Qed.

Lemma talks_write m out :
  #req < 9223372036854775808 -> talks [] (m, out) -> fd_eof tcp m = false ->
  wp (fd_write_string tcp req true) (fun _ m' => talks req (m', out)) (fun e m' => fails e (m', out)) m.
Proof.
  intros Hreq (H1 & H2 & es & H3 & H4 & H5 & H6 & _) Heof. cbn [fst snd] in *. unfold fd_write_string, view_of_string.
  assert (forall parts, received fd (map (Sent fd) parts) = [] /\ Forall (fun e => event_fd e = fd) (map (Sent fd) parts)) as Hparts.
  { intros parts. split; [|by apply Forall_map, Forall_true]. unfold received. induction parts as [|p parts IH]; [done|]. exact IH. }
  eapply wp_mono; [apply fd_write_all; simpl; rewrite app_nil_r; lia|..]; simpl; rewrite app_nil_r, H2.
  - intros n m' (_ & (parts & Hc & Hl & Hh) & _). destruct (Hparts parts) as [Hr Hall]. split_and!; cbn [fst snd].
    + by rewrite Hh, length_alter.
    + by rewrite (fd_num_alter (after_writes _) _ tcp m m' ltac:(done) Hh).
    + rewrite H2 in Hl. exists (es ++ map (Sent fd) parts).
      rewrite Hl, H3, app_assoc, sent_app, received_app, Hr, sent_map, H5, Hc, app_nil_r.
      split_and!; try done; [by apply Forall_app_2|]. intros He. exfalso. clear -Hh He Heof.
      unfold fd_eof, wrapper in *. rewrite Hh, list_lookup_alter, decide_True in He by done.
      destruct (heap m !! tcp); simpl in *; congruence.
  - intros e m' (He & (_ & parts & rest & Hc & Hl) & _). destruct (Hparts parts) as [Hr Hall].
    split; [by destruct He; right; [left|right]|]. exists (concat parts). split; [rewrite <- Hc; by apply prefix_app_r|].
    rewrite H2 in Hl. exists (es ++ map (Sent fd) parts). cbn [fst snd].
    rewrite Hl, H3, app_assoc, sent_app, received_app, Hr, sent_map, H5, app_nil_r. split_and!; try done. by apply Forall_app_2.
Qed.

Lemma fails_release e m out :
  fails e (m, out) -> wp (release tcp) (fun _ m' => fails e (m', out)) (fun _ _ => False) m.
Proof.
  intros [He (sofar & Hp & es & H1 & H2)]. eapply wp_mono; [apply release_spec| |done]. intros [] m' [Hl _].
  split; [done|]. exists sofar. split; [done|]. exists es. cbn [fst snd] in *. by rewrite Hl.
Qed.

(** The conversation, on a socket that is new. *)
Lemma get_URL_talks fuel add m out :
  tame add -> #req < 9223372036854775808 -> talks [] (m, out) -> fd_eof tcp m = false ->
  run_ends (
    add ← of_result add;
    _ ← on_fst (socket_connect tcp add);
    _ ← on_fst (fd_write_string tcp req true);
    _ ← on_fst (shutdown tcp SHUT_WR);
    _ ← iterate fuel (print_turn tcp) tt;
    on_fst (close tcp)) (fun _ => answered) fails (said req) (m, out).
Proof.
  intros Hadd Hreq Hw Heof. apply run_ends_bind, run_ends_wp. apply wp_tame; [done| |].
  2: { intros e He. apply (talks_fails _ []); [apply prefix_nil|by left|done]. }
  intros a _. apply run_ends_bind, run_ends_wp. wp_steps. cbn [fst snd]. unfold socket_connect. wp_steps.
  eapply talks_call; [apply connect_quiet|exact Hw| |].
  2: { intros n m' Hm'. apply (talks_fails _ []); [apply prefix_nil|by right; left; eexists|done]. }
  intros r m1 Hh1 _ Hm1. wp_step. apply run_ends_bind, run_ends_wp. wp_steps. cbn [fst snd].
  eapply wp_mono; [apply talks_write; [done|exact Hm1|unfold fd_eof, wrapper; rewrite Hh1; exact Heof]| |done].
  clear m Hw Heof m1 Hh1 Hm1. intros n m Hw. apply run_ends_bind, run_ends_wp. wp_steps. cbn [fst snd].
  unfold shutdown. wp_steps. eapply talks_call; [apply shutdown_quiet|exact Hw| |].
  2: { intros k m' Hm'. apply (talks_fails _ req); [done|by right; left; eexists|done]. }
  intros r' m1 _ _ Hm1. change (SHUT_WR =? SHUT_RD) with false. change (SHUT_WR =? SHUT_WR) with true. cbv iota.
  apply wp_update. cbn [fst snd]. match goal with |- run_ends _ _ _ _ (?m2, _) => assert (talks req (m2, out)) as Hm2
    by (eapply (talks_silent _ m1); [reflexivity|done|reflexivity|done]) end.
  apply run_ends_bind. eapply run_ends_mono.
  - apply (run_ends_iterate (print_turn tcp) (fun _ w => talks req w) (fun _ w => talks req w /\ fd_eof tcp w.1 = true)
      (fun e w => sys_error e /\ talks req w) (said req)); [|by intros [] w ?%talks_said|exact Hm2].
    intros [] w Hw'. eapply wp_mono; [by apply print_turn_spec| |done]. intros [[]|[]] w' [? ?]; done.
  - clear m Hw m1 Hm1 Hm2. intros [] [m o] [Hw He]. pose proof (talks_answered _ Hw He) as (es & G1 & G2). cbn [fst snd] in *.
    apply run_ends_wp. wp_steps. unfold close. wp_steps. eapply talks_call; [apply close_quiet|exact Hw| |].
    + intros r2 m2 _ L2 _. apply wp_update. exists es. cbn [fst snd]. split; [|done]. etransitivity; [exact L2|exact G1].
    + intros k m' Hm'. apply (talks_fails _ req); [done|by right; left; eexists|done].
  - intros e w [He Hw']. apply (talks_fails _ req); [done|by right; left|done].
  - done.
Qed.
End answer.

(** ** Properties *)

(** C12: webget asks once and prints the answer. Whatever the kernel does, however it cuts the request and the
    answer, and for any number of reads: all that is exchanged is with one descriptor, the standard
    output has got exactly the bytes that came from it, and what was sent is the beginning of
    the request. If [get_URL] returns, all of the request was sent and the output is the whole
    answer, up to the end of the stream; if it throws, it is an error of a call or of the
    look-up of the address. *)
Theorem get_URL_prints_answer {K} `{KernelLaws K} {Res : Resolver} fuel host path (m : machine K) out :
  #(request host path) < 9223372036854775808 ->
  let '(r, (m', out')) := get_URL fuel host path (m, out) in
  exists fd es, log m' = log m ++ es /\ Forall (fun e => event_fd e = fd) es /\
    out' = out ++ received fd es /\ sent fd es `prefix_of` request host path /\
    match r with
    | Ok _ => sent fd es = request host path /\ exists es', es = es' ++ [Received fd []]
    | Throw e => adapter_exn e
    | Diverge => sent fd es = request host path
    end.
Proof.
  intros Hreq. set (req := request host path) in *.
  assert (run_ends (get_URL fuel host path) (fun _ w => exists fd, answered (log m) out fd req w)
    (fun e w => exists fd, fails (log m) out fd req e w) (fun w => exists fd, said (log m) out fd req w) (m, out)) as HR.
  { assert (forall e m', adapter_exn e -> log m' = log m -> exists fd, fails (log m) out fd req e (m', out)) as Hsilent.
    { intros e m' He Hl. exists 0. split; [done|]. exists []. split; [apply prefix_nil|]. exists []. cbn [fst snd].
      rewrite Hl, !app_nil_r. by split_and!. }
    unfold get_URL. apply run_ends_bind, run_ends_wp. wp_steps. cbn [fst snd]. unfold TCPSocket_new, Socket_new. wp_step.
    apply wp_system_call; [apply socket_quiet| |intros n k Hk; apply Hsilent; [by right; left; eexists|exact Hk]].
    intros fd k Hk. unfold FileDescriptor_of. case_if; wp_steps; [apply Hsilent; [by left|exact Hk]|]. cbn [kernel heap].
    set (tcp := length (heap m)). set (m1 := mkMachine k _). set (sz := S tcp).
    assert (heap m1 !! tcp = Some (mkFDWrapper fd false false 0 0 1)) as Hget
      by (cbn [heap m1]; rewrite lookup_app_r, Nat.sub_diag by (unfold tcp; lia); done).
    assert (fd_eof tcp m1 = false /\ fd_num tcp m1 = fd) as [He Hf] by (unfold fd_eof, fd_num, wrapper; by rewrite Hget).
    assert (talks (log m) out tcp fd sz [] (m1, out)) as Hw.
    { split_and!; [cbn; rewrite length_app; simpl; unfold sz, tcp; lia|done|]. exists []. rewrite !app_nil_r. split_and!; try done.
      cbn [fst]. by rewrite He. }
    apply run_ends_bind, run_ends_catch. eapply run_ends_mono.
    - apply (get_URL_talks (log m) out tcp fd sz req ltac:(unfold sz; lia) fuel _ m1 out); try done.
      apply tame_Address_of_host.
    - intros [] [m2 o2] (es & G1 & G2). cbn [fst snd] in *. apply run_ends_wp. wp_steps. cbn [fst snd].
      eapply wp_mono; [apply release_spec| |done]. intros [] m3 [Hl _]. exists fd, es. cbn [fst snd]. by rewrite Hl.
    - intros e [m2 o2] Hfail. apply run_ends_wp. wp_steps. cbn [fst snd].
      eapply wp_mono; [by apply (fails_release (log m) out tcp fd req e)| |done]. intros [] m3 H3. wp_step. by exists fd.
    - intros w Hs. by exists fd. }
  unfold run_ends in HR. destruct (get_URL _ _ _ _) as [[a|e|] [m' out']].
  - destruct HR as (fd & es & H1 & H2 & H3 & H4). cbn [fst snd] in *. exists fd, (es ++ [Received fd []]).
    rewrite sent_app, received_app, sent_one, received_one. simpl. rewrite Z.eqb_refl, !app_nil_r, H3.
    split_and!; try done; [by apply Forall_app_2; [|constructor]|by exists es].
  - destruct HR as (fd & He & sofar & Hp & es & H1 & H2 & H3 & H4). cbn [fst snd] in *. exists fd, es. rewrite H3. done.
  - destruct HR as (fd & es & H1 & H2 & H3 & H4). cbn [fst snd] in *. exists fd, es. rewrite H3. done.
Qed.

Section runs.
(** Every host is 10.0.0.2, and http is port 80. *)
Definition web_resolver : Resolver := {|
  getaddrinfo _ _ _ := inr [(sockaddr_in 167772162 80, 16)];
  getnameinfo _ _ _ := inl (-2);
  inet_ntoa := fun _ => []
|}.
#[local] Existing Instance web_resolver.

(** A kernel that accepts three bytes at a time, and an answer in two pieces. *)
Definition web_machine : machine sim := mkMachine (mkSim [(3, inl [x41; x42]); (3, inl [x43])] 3 [] 0 []) [].
Definition web_host : bytes := String.list_byte_of_string "cs144.keithw.org".
Definition web_path : bytes := String.list_byte_of_string "/hello".

Lemma get_URL_prints_answer_witness :
  let '(r, (m', out')) := get_URL 5 web_host web_path (web_machine, []) in
  r = Ok tt /\ out' = [x41; x42; x43] /\ exists fd, sent fd (log m') = request web_host web_path.
Proof.
  assert (#(request web_host web_path) < 9223372036854775808) as Hlen by (vm_compute; reflexivity).
  pose proof (get_URL_prints_answer 5 web_host web_path web_machine [] Hlen) as HG.
  assert ((get_URL 5 web_host web_path (web_machine, [])).1 = Ok tt) as E1 by (vm_compute; reflexivity).
  assert ((get_URL 5 web_host web_path (web_machine, [])).2.2 = [x41; x42; x43]) as E2 by (vm_compute; reflexivity).
  destruct (get_URL _ _ _ _) as [r [m' out']]. cbn [fst snd] in E1, E2. subst r. destruct HG as (fd & es & L & _ & _ & _ & Hs & _).
  split; [done|]. split; [exact E2|]. exists fd. rewrite L. exact Hs.
Defined.
End runs.
