(* ===== verification/Benchmark.v ===== *)
(** * The throughput benchmark (src/apps/tcp_benchmark.cc)

    Two connections in one program: the first sends a long string to the second, the segments
    are moved in order or in reverse, and what arrives is compared with what was sent. *)

From stdpp Require Import strings.
From S2P Require Import Prelude IO WrappingIntegers ByteStream StreamReassembler Buffer TCPHeader.
From S2P Require Import TCPSegment TCPReceiver TCPSender TCPState TCPConnection System.

(** ** Definitions *)

(** The length of the string. *)
Definition len : Z := 100 * 1024 * 1024.

(** The first loop of [move_segments] empties the queue of [x]. *)
Fixpoint take_out (n : nat) (x : TCPConnection) (segments : list TCPSegment) : TCPConnection * list TCPSegment :=
  match n, TCPConnection._segments_out x with
  | S n, seg :: q => take_out n (TCPConnection.set_out q x) (segments ++ [seg])
  | _, _ => (x, segments)
  end.

Fixpoint receive_all (segments : list TCPSegment) (y : TCPConnection) : result TCPConnection :=
  match segments with
  | [] => Ok y
  | seg :: segments => y ← TCPConnection.segment_received seg y; receive_all segments y
  end.

(** Both connections and the vector, which is cleared. *)
Definition move_segments (x y : TCPConnection) (segments : list TCPSegment) (reorder : bool) :
    result (TCPConnection * TCPConnection * list TCPSegment) :=
  let '(x, segments) := take_out (length (TCPConnection._segments_out x)) x segments in
  y ← receive_all (if reorder then reverse segments else segments) y;
  Ok (x, y, []).

(** The variables of [main_loop]. *)
Record bench := mkBench {
  x : TCPConnection;
  y : TCPConnection;
  bytes_to_send : Buffer;
  x_closed : bool;
  string_received : bytes
}.

Definition set_x (c : TCPConnection) (w : bench) : bench :=
  mkBench c (y w) (bytes_to_send w) (x_closed w) (string_received w).
Definition set_y (c : TCPConnection) (w : bench) : bench :=
  mkBench (x w) c (bytes_to_send w) (x_closed w) (string_received w).
Definition set_bytes_to_send (b : Buffer) (w : bench) : bench :=
  mkBench (x w) (y w) b (x_closed w) (string_received w).
Definition set_x_closed (b : bool) (w : bench) : bench :=
  mkBench (x w) (y w) (bytes_to_send w) b (string_received w).
Definition receive_string (d : bytes) (w : bench) : bench :=
  mkBench (x w) (y w) (bytes_to_send w) (x_closed w) (string_received w ++ d).

Definition short_write : exn := runtime_error_of "want, written".
Definition mismatch : exn := runtime_error_of "strings sent vs. received don't match".

(** A turn of the loop that writes input into [x]. *)
Definition write_turn (_ : unit) : io bench (unit + unit) :=
  w ← gets id;
  if negb (size (bytes_to_send w) =? 0) && negb (remaining_outbound_capacity (x w) =? 0) then
    let want := Z.min (remaining_outbound_capacity (x w)) (size (bytes_to_send w)) in
    data ← of_result (substr (str (bytes_to_send w)) 0 want);
    r ← of_result (TCPConnection.write data (x w));
    _ ← modify (set_x r.2);
    if negb (want =? r.1) then throw short_write
    else
      b ← of_result (remove_prefix r.1 (bytes_to_send w));
      _ ← modify (set_bytes_to_send b);
      mret (inl tt)
  else mret (inr tt).

(** Every turn but the last takes a byte at least. *)
Definition write_input : io bench unit :=
  w ← gets id;
  iterate (S (Z.to_nat (size (bytes_to_send w)))) write_turn tt.

Definition close_input : io bench unit :=
  w ← gets id;
  when ((size (bytes_to_send w) =? 0) && negb (x_closed w))
    (c ← of_result (end_input_stream (x w));
     _ ← modify (set_x c);
     modify (set_x_closed true)).

Definition exchange (reorder : bool) : io bench unit :=
  w ← gets id;
  r ← of_result (move_segments (x w) (y w) [] reorder);
  r' ← of_result (move_segments r.1.2 r.1.1 r.2 false);
  _ ← modify (set_y r'.1.1);
  modify (set_x r'.1.2).

Definition read_output : io bench unit :=
  w ← gets id;
  let available_output := buffer_size (inbound_stream (y w)) in
  when (available_output >? 0)
    (let '(d, r) := read_stream available_output (_receiver (y w)) in
     _ ← modify (set_y (set_receiver r (y w)));
     modify (receive_string d)).

Definition pass_time : io bench unit :=
  w ← gets id;
  c ← of_result (TCPConnection.tick 1000 (x w));
  _ ← modify (set_x c);
  c ← of_result (TCPConnection.tick 1000 (y w));
  modify (set_y c).

Definition loop (reorder : bool) : io bench unit :=
  _ ← write_input;
  _ ← close_input;
  _ ← exchange reorder;
  _ ← read_output;
  pass_time.

(** [while (go) loop();] *)
Definition loop_while (go : bench -> bool) (reorder : bool) (_ : unit) : io bench (unit + unit) :=
  b ← gets go;
  if (b : bool) then _ ← loop reorder; mret (inl tt) else mret (inr tt).

(** The body of [main_loop] after the declarations; each of its loops has [fuel] turns.
    The clock and the output are left out. *)
Definition main_body (fuel : nat) (reorder : bool) (string_to_send : bytes) : io bench unit :=
  w ← gets id;
  c ← of_result (connect (x w));
  _ ← modify (set_x c);
  c ← of_result (end_input_stream (y w));
  _ ← modify (set_y c);
  _ ← iterate fuel (loop_while (fun w => negb (eof (inbound_stream (y w)))) reorder) tt;
  w ← gets id;
  if negb (bool_decide (string_received w = string_to_send)) then throw mismatch
  else iterate fuel (loop_while (fun w => active (x w) || active (y w)) reorder) tt.

(** The string comes from [rand]; [rx] and [ry] are the random numbers for the connections. *)
Definition main_loop (fuel : nat) (rx ry : Z) (string_to_send : bytes) (reorder : bool) : result unit * bench :=
  let config := default_config in
  main_body fuel reorder string_to_send
    (mkBench (TCPConnection.make config rx) (TCPConnection.make config ry) (Buffer_of string_to_send) false []).

(** [main]: the random numbers and the string of each run. *)
Definition main (fuel : nat) (run1 run2 : Z * Z * bytes) : result Z :=
  let run '(rx, ry, s) reorder := (main_loop fuel rx ry s reorder).1 in
  match (_ ← run run1 false; run run2 true) with
  | Ok _ => Ok EXIT_SUCCESS
  | Throw _ => Ok EXIT_FAILURE
  | Diverge => Diverge
  end.

(** ** The end of the outbound stream *)

(** Whether the owner has ended the stream of a connection. *)
Definition ended (c : TCPConnection) : bool := input_ended (_stream (_sender c)).

(** Only [end_input_stream] changes it. *)
Lemma sent_ended seg s : input_ended (_stream (TCPSender.send_segment seg s).2) = input_ended (_stream s).
Proof. by destruct (send_segment_frame seg s) as (_ & _ & -> & _). Qed.

Lemma fill_loop_ended fuel cur_win seg s s' :
  fill_loop fuel cur_win seg s = Ok s' -> input_ended (_stream s') = input_ended (_stream s).
Proof.
  revert seg s. induction fuel as [|fuel IH]; intros seg s; [done|]. cbn [fill_loop]. cbv zeta.
  case_if; [by intros [= <-]|]. destruct (negb _ && _).
  - unfold ByteStream.read. case_if; [by intros [= <-]|].
    match goal with |- context [TCPSender.send_segment ?seg ?s] =>
      pose proof (sent_ended seg s) as Hs; destruct (TCPSender.send_segment seg s) as [seg' s1] end.
    intros E%IH. etransitivity; [exact E|exact Hs].
  - destruct (eof _); [|apply IH]. case_if; intros [= <-]; [apply sent_ended|done].
Qed.

Lemma fill_window_ended s s' : fill_window s = Ok s' -> input_ended (_stream s') = input_ended (_stream s).
Proof.
  unfold fill_window. case_if; [intros [= <-]; apply sent_ended|]. case_if; [by intros [= <-]|]. apply fill_loop_ended.
Qed.

Lemma send_segment_ended c : ended (TCPConnection.send_segment c) = ended c.
Proof. by rewrite send_segment_eq. Qed.

Lemma clean_shutdown_ended c : ended (clean_shutdown c) = ended c.
Proof. unfold ended. by rewrite (proj1 (clean_shutdown_frame c)). Qed.

Lemma connect_ended c c' : connect c = Ok c' -> ended c' = ended c.
Proof.
  unfold connect. intros (s & E & [= <-])%result_bind_inv. rewrite send_segment_ended. by apply fill_window_ended.
Qed.

Lemma write_ended data c n c' : TCPConnection.write data c = Ok (n, c') -> ended c' = ended c.
Proof.
  unfold TCPConnection.write. case_if; [by intros [= <- <-]|].
  assert (input_ended (_stream (write_stream data (_sender c)).2) = ended c) as Hw
    by (unfold write_stream, ByteStream.write, ended, stream_in; case_if; done).
  destruct (write_stream data (_sender c)) as [m s]. intros (s' & E & [= <- <-])%result_bind_inv.
  rewrite send_segment_ended. etransitivity; [apply (fill_window_ended _ _ E)|exact Hw].
Qed.

Lemma ack_received_ended a w s s' :
  ack_received a w s = Ok s' -> input_ended (_stream s') = input_ended (_stream s).
Proof.
  rewrite ack_received_eq. case_if; [by intros [= <-]|]. intros E%fill_window_ended. rewrite E.
  unfold acked. case_if; [|done]. by case_if.
Qed.

Lemma tick_ended ms c c' : TCPConnection.tick ms c = Ok c' -> ended c' = ended c.
Proof.
  pose proof (tick_frame ms (_sender c)) as (_ & _ & F & _).
  unfold TCPConnection.tick. case_if; [by intros [= <-]|]. case_if.
  - intros (c1 & E & [= <-])%result_bind_inv. unfold send_rst_segment in E. apply result_bind_inv in E as (s & E & E1).
    apply fill_window_ended in E. cbn in E. rewrite F in E. unfold ended at 1. cbn.
    destruct (segments_out _); injection E1 as <-; exact E.
  - intros [= <-]. rewrite clean_shutdown_ended, send_segment_ended. unfold ended. cbn. by rewrite F.
Qed.

Lemma segment_received_ended seg c c' : TCPConnection.segment_received seg c = Ok c' -> ended c' = ended c.
Proof.
  unfold TCPConnection.segment_received. do 2 (case_if; [by intros [= <-]|]). intros (r & _ & E)%result_bind_inv.
  case_if_in E; [by apply connect_ended in E|]. apply result_bind_inv in E as (c1 & E1 & [= <-]).
  assert (ended c1 = ended c) as <-.
  { case_if_in E1; [|by injection E1 as <-]. apply result_bind_inv in E1 as (s & E1 & [= <-]). by apply ack_received_ended in E1. }
  rewrite clean_shutdown_ended, send_segment_ended.
  destruct (ackno _); repeat case_if; done.
Qed.

(** ** Moving segments *)

Lemma take_out_eq c segs :
  take_out (length (TCPConnection._segments_out c)) c segs =
    (TCPConnection.set_out [] c, segs ++ TCPConnection._segments_out c).
Proof.
  destruct c as [cfg r s q l a t]. cbn [TCPConnection._segments_out]. revert segs.
  induction q as [|seg q IH]; intros segs; cbn; [by rewrite app_nil_r|]. unfold TCPConnection.set_out; cbn. rewrite IH. by rewrite <- app_assoc.
Qed.

(** Two ends that keep each other's promises. *)
Definition pair_ok (e peer : endpoint) : Prop := ep_ok e peer /\ ep_ok peer e.

Lemma receive_all_ok segs e peer :
  pair_ok e peer -> #(written peer) + 2 <= 2147483648 -> Forall (emitted_by (written peer) (snd_of peer)) segs ->
  exists c, receive_all segs (conn e) = Ok c /\ pair_ok (set_conn c e) peer /\ ended c = ended (conn e).
Proof.
  intros He Hs Hsegs. revert e He. induction Hsegs as [|seg segs Hseg _ IH]; intros e [He Hp]; [by exists (conn e); destruct e|].
  cbn [receive_all]. destruct (deliver_ok e peer seg He Hp) as (c & E & H1 & H2); [by apply short_timely|].
  rewrite E, result_bind_Ok. destruct (IH (set_conn c e)) as (c' & E' & H3 & H4); [done|].
  exists c'. split_and!; [done..|]. rewrite H4. by apply segment_received_ended in E.
Qed.

Lemma move_segments_ok e peer reorder :
  pair_ok e peer -> #(written e) + 2 <= 2147483648 ->
  exists c, move_segments (conn e) (conn peer) [] reorder = Ok (TCPConnection.set_out [] (conn e), c, []) /\
    ended c = ended (conn peer) /\
    pair_ok (mkEndpoint (TCPConnection.set_out [] (conn e)) (written e) (delivered e)
               (wire e ++ TCPConnection._segments_out (conn e))) (set_conn c peer).
Proof.
  intros [He Hp] Hs. unfold move_segments. rewrite take_out_eq. cbn [app].
  destruct (flush_ok e peer He Hp) as (e' & [= <-] & H1 & H2).
  match goal with |- context [receive_all ?segs _] => destruct (receive_all_ok segs _ _ (conj H2 H1) Hs) as (c & -> & [H3 H4] & H5) end.
  - pose proof (ok_wire _ _ H1) as [_ Hw]%Forall_app. destruct reorder; [by apply Forall_reverse|done].
  - exists c. split_and!; try done; by split.
Qed.

(** ** Invariant *)

(** A call that an owner may make at any time. *)
Lemma call_ok (f : TCPConnection -> result TCPConnection) a e peer :
  act a e peer = (c ← f (conn e); Ok (set_conn c e)) -> valid_action a e peer -> pair_ok e peer ->
  exists c, f (conn e) = Ok c /\ pair_ok (set_conn c e) peer.
Proof.
  intros Ha Hv [He Hp]. destruct (act_ok a e peer He Hp Hv) as (e' & E & H1 & H2). rewrite Ha in E.
  apply result_bind_inv in E as (c & E & [= <-]). exists c. by split.
Qed.

Section invariant.
Context (s : bytes) (Hs : #s + 2 <= 2147483648).

(** What [x] has taken and what is left make up the string, the stream of [x] ends only when
    nothing is left, and what was read is what [y] delivered; [got] is among it. *)
Record sound (got : bytes) (w : bench) (ex ey : endpoint) : Prop := {
  sound_x : conn ex = x w;
  sound_y : conn ey = y w;
  sound_pair : pair_ok ex ey;
  sound_split : written ex ++ str (bytes_to_send w) = s;
  sound_silent : written ey = [];
  sound_read : delivered ey = string_received w;
  sound_got : got `prefix_of` string_received w;
  sound_ended : ended (x w) = true -> str (bytes_to_send w) = [];
  sound_buffer : wf_buffer (bytes_to_send w)
}.
Definition fine (got : bytes) (w : bench) : Prop := exists ex ey, sound got w ex ey.

Lemma sound_short got w ex ey : sound got w ex ey -> #(written ex) + 2 <= 2147483648.
Proof. intros []. rewrite <- sound_split0 in Hs. revert Hs. unfold Zlen. rewrite length_app. lia. Qed.

Lemma fine_prefix got w : fine got w -> string_received w `prefix_of` s.
Proof.
  intros (ex & ey & []). destruct sound_pair0 as [_ Hy]. apply ok_faithful in Hy as [(k & E) _].
  exists (_buff (inbound_stream (conn ey)) ++ k ++ str (bytes_to_send w)).
  by rewrite <- sound_split0, E, sound_read0, <- !app_assoc.
Qed.

(** At the end of the inbound stream everything has arrived. *)
Lemma fine_eof got w : fine got w -> eof (inbound_stream (y w)) = true -> string_received w = s.
Proof.
  intros (ex & ey & []) [Hend Hb]%andb_prop. unfold buffer_empty in Hb. apply bool_decide_eq_true in Hb.
  destruct sound_pair0 as [_ Hy]. apply ok_faithful in Hy as [_ Hall]. rewrite sound_y0 in Hall.
  destruct (Hall Hend) as [E Hx]. rewrite Hb, app_nil_r in E. unfold snd_of in Hx. rewrite sound_x0 in Hx.
  rewrite <- sound_split0, <- sound_read0, E, sound_ended0 by exact Hx. by rewrite app_nil_r.
Qed.

Lemma fine_call_x (f : TCPConnection -> result TCPConnection) a got w :
  (forall e peer, act a e peer = (c ← f (conn e); Ok (set_conn c e)) /\ valid_action a e peer) ->
  (forall c, f (x w) = Ok c -> ended c = true -> ended (x w) = true \/ str (bytes_to_send w) = []) ->
  fine got w -> exists c, f (x w) = Ok c /\ fine got (set_x c w).
Proof.
  intros Ha Hf (ex & ey & []). destruct (Ha ex ey) as [Ha1 Ha2].
  destruct (call_ok f a ex ey Ha1 Ha2 sound_pair0) as (c & E & Hc). rewrite sound_x0 in E. exists c. split; [done|].
  exists (set_conn c ex), ey. constructor; try done. intros Hend. by destruct (Hf c E Hend); [apply sound_ended0|].
Qed.

Lemma fine_call_y (f : TCPConnection -> result TCPConnection) a got w :
  (forall e peer, act a e peer = (c ← f (conn e); Ok (set_conn c e)) /\ valid_action a e peer) ->
  fine got w -> exists c, f (y w) = Ok c /\ fine got (set_y c w).
Proof.
  intros Ha (ex & ey & []). destruct (Ha ey ex) as [Ha1 Ha2]. destruct sound_pair0 as [Hx Hy].
  destruct (call_ok f a ey ex Ha1 Ha2 (conj Hy Hx)) as (c & E & [H1 H2]). rewrite sound_y0 in E. exists c. split; [done|].
  by exists ex, (set_conn c ey).
Qed.

(** ** The steps of a turn *)

(** The only exception: a write to a connection that is closed. *)
Definition failed (e : exn) (w : bench) : Prop :=
  e = short_write /\ active (x w) = false /\ string_received w `prefix_of` s.

Abbreviation keeps got m := (forall w, fine got w -> wp m (fun _ w' => fine got w') failed w).

(** An open connection takes all that fits. *)
Lemma write_takes_all data c n c' :
  TCPConnection.write data c = Ok (n, c') -> ended c = false -> data <> [] -> #data <= remaining_outbound_capacity c ->
  n = #data \/ active c = false /\ c' = c /\ n = 0.
Proof.
  unfold TCPConnection.write, active, ended. intros E He Hd Hr. case_if_in E.
  { injection E as <- <-. right. apply orb_prop in Heqb as [->%negb_true_iff|?%bool_decide_eq_true]; done. }
  unfold write_stream, ByteStream.write, stream_in in E. rewrite He in E. apply result_bind_inv in E as (s' & _ & [= <- _]).
  left. unfold remaining_outbound_capacity, stream_in in Hr. lia.
Qed.

Lemma write_part_ok got w part rest :
  fine got w -> str (bytes_to_send w) = part ++ rest -> part <> [] -> #part <= remaining_outbound_capacity (x w) ->
  exists n c, TCPConnection.write part (x w) = Ok (n, c) /\
    (active (x w) = false /\ c = x w /\ n = 0 \/
     n = #part /\ exists b, remove_prefix n (bytes_to_send w) = Ok b /\ str b = rest /\
       fine got (set_bytes_to_send b (set_x c w))).
Proof.
  intros (ex & ey & []) Hstr Hpart Hcap. rewrite Hstr in sound_split0. rewrite <- sound_split0 in Hs. destruct sound_pair0 as [Hx Hy].
  destruct (act_ok (Write part) ex ey Hx Hy) as (e' & E & H1 & H2).
  { cbn. unfold stream_limit. revert Hs. unfold Zlen. rewrite !length_app. lia. }
  cbn [act] in E. apply result_bind_inv in E as ([n c] & E & [= <-]). rewrite sound_x0 in E. cbn [fst snd] in *.
  exists n, c. split; [done|].
  assert (ended (x w) = false) as Hopen.
  { apply not_true_is_false. intros He. apply sound_ended0 in He. rewrite Hstr in He. by apply app_eq_nil in He as [? _]. }
  destruct (write_takes_all part (x w) n c) as [->|]; try done; [|by left]. right. split; [done|].
  destruct (remove_prefix_ok (#part) (bytes_to_send w) sound_buffer0) as (b & Eb & Hb & Hwf).
  { unfold size. rewrite Hstr. unfold Zlen. rewrite length_app. lia. }
  unfold Zlen in H1, H2, Hb. rewrite Nat2Z.id in H1, H2, Hb. rewrite firstn_all in H1, H2. rewrite Hstr, drop_app_length in Hb.
  exists b. split_and!; try done. eexists _, ey. constructor; try done; cbn.
  - by split.
  - by rewrite Hb, <- app_assoc.
  - apply write_ended in E. rewrite E, Hopen. done.
Qed.

Definition to_send (w : bench) : nat := length (str (bytes_to_send w)).

Lemma write_turn_ok got w :
  fine got w ->
  wp (write_turn tt) (fun r w' => match r with inl _ => fine got w' /\ (to_send w' < to_send w)%nat | inr _ => fine got w' end)
    failed w.
Proof.
  intros Hw. pose proof (fine_prefix _ _ Hw) as Hpre. unfold write_turn. wp_steps. cbn [id]. case_if; [|by wp_step].
  apply andb_prop in Heqb as [Hsize%negb_true_iff Hcap%negb_true_iff]. unfold size in *.
  set (data := str (bytes_to_send w)) in *. set (want := Z.min _ _). pose proof (Zlen_nonneg data) as Hlen.
  assert (0 <= remaining_outbound_capacity (x w)) as Hpos by apply u64_range.
  assert (0 < want <= #data /\ want <= remaining_outbound_capacity (x w)) as [Hwant Hwant'] by lia. clearbody want.
  assert (substr data 0 want = Ok (take (Z.to_nat want) data)) as Hsub.
  { unfold substr. case_if; [lia|]. cbn [Z.to_nat drop]. do 2 f_equal. lia. }
  assert (#(take (Z.to_nat want) data) = want) as Hpart by (unfold Zlen in *; rewrite length_take; lia).
  wp_step. eapply wp_of_result; [exact Hsub|].
  destruct (write_part_ok got w (take (Z.to_nat want) data) (drop (Z.to_nat want) data) Hw) as (n & c & E & Hc);
    [by rewrite take_drop|intros E; rewrite E in Hpart; unfold Zlen in Hpart; simpl in Hpart; lia|by rewrite Hpart|].
  wp_step. eapply wp_of_result; [exact E|]. wp_steps. cbn [fst snd]. rewrite Hpart in Hc.
  destruct Hc as [(Hoff & -> & ->)|(-> & b & Eb & Hb & Hf)].
  - case_if; [by wp_step|]. apply negb_false_iff in Heqb. lia.
  - rewrite Z.eqb_refl. cbn [negb]. wp_step. eapply wp_of_result; [exact Eb|]. wp_steps. split; [done|].
    unfold to_send. cbn [bytes_to_send set_bytes_to_send]. rewrite Hb, length_drop. unfold data, Zlen in *. lia.
Qed.

Lemma write_input_ok got : keeps got write_input.
Proof.
  intros w Hw. unfold write_input. wp_steps. cbn [id].
  apply (wp_iterate write_turn (fun _ => fine got) (fun _ => to_send)); [|unfold to_send, size, Zlen; lia|done].
  intros [] w'. apply write_turn_ok.
Qed.

Lemma close_input_ok got : keeps got close_input.
Proof.
  intros w Hw. unfold close_input. wp_steps. cbn [id]. apply wp_when; [|done]. intros [Hsize%Z.eqb_eq _]%andb_prop.
  destruct (fine_call_x end_input_stream EndInput got w) as (c & E & Hc); [done| |done|].
  { intros _ _ _. right. unfold size in Hsize. by apply Zlen_zero. }
  wp_step. eapply wp_of_result; [exact E|]. wp_steps. destruct Hc as (ex & ey & []). by exists ex, ey.
Qed.

Lemma exchange_ok got reorder : keeps got (exchange reorder).
Proof.
  intros w (ex & ey & Hsound). pose proof (sound_short _ _ _ _ Hsound) as Hshort. destruct Hsound. unfold exchange. wp_steps. cbn [id].
  destruct (move_segments_ok ex ey reorder sound_pair0 Hshort) as (c & E & H1 & [H2 H3]).
  destruct (move_segments_ok _ _ false (conj H3 H2)) as (c' & E' & H4 & [H5 H6]); [cbn; by rewrite sound_silent0|].
  cbn [conn set_conn wire written delivered] in *. rewrite sound_x0, sound_y0 in *.
  eapply wp_of_result; [exact E|]. cbn [fst snd]. wp_step. eapply wp_of_result; [exact E'|]. wp_steps. cbn [fst snd].
  match type of H6 with ep_ok ?a ?b => exists a, b end. constructor; try done. cbn. by rewrite H4.
Qed.

Lemma read_output_ok got : keeps got read_output.
Proof.
  intros w (ex & ey & []). unfold read_output. wp_steps. cbn [id]. set (n := buffer_size _). apply wp_when; [|by exists ex, ey].
  intros _. destruct sound_pair0 as [Hx Hy]. destruct (act_ok (Read n) ey ex Hy Hx) as (e' & E & H1 & H2).
  { cbn. apply Zlen_nonneg. }
  cbn [act] in E. rewrite sound_y0 in E. destruct (read_stream n _) as [d r]. injection E as <-. wp_steps.
  match type of H1 with ep_ok ?a _ => exists ex, a end. constructor; try done; cbn; [by rewrite sound_read0|by apply prefix_app_r].
Qed.

Lemma pass_time_ok got : keeps got pass_time.
Proof.
  intros w Hw. unfold pass_time. wp_steps. cbn [id].
  destruct (fine_call_x (TCPConnection.tick 1000) (Elapse 1000) got w) as (c & E & Hc); [done| |done|].
  { intros c E. rewrite (tick_ended _ _ _ E). by left. }
  eapply wp_of_result; [exact E|]. wp_steps.
  destruct (fine_call_y (TCPConnection.tick 1000) (Elapse 1000) got (set_x c w)) as (c' & E' & Hc'); [done..|].
  eapply wp_of_result; [exact E'|]. by wp_step.
Qed.

Lemma loop_ok got reorder : keeps got (loop reorder).
Proof.
  intros w Hw. unfold loop. wp_step. eapply wp_mono; [by apply write_input_ok|clear w Hw; intros [] w Hw|done].
  wp_step. eapply wp_mono; [by apply close_input_ok|clear w Hw; intros [] w Hw|done].
  wp_step. eapply wp_mono; [by apply exchange_ok|clear w Hw; intros [] w Hw|done].
  wp_step. eapply wp_mono; [by apply read_output_ok|clear w Hw; intros [] w Hw|done].
  by apply pass_time_ok.
Qed.

(** A loop ends, if it does, when its condition is false. *)
Lemma loop_while_ok got go reorder fuel w :
  fine got w ->
  run_ends (iterate fuel (loop_while go reorder) tt) (fun _ w' => fine got w' /\ go w' = false) failed (fine got) w.
Proof.
  intros Hw. apply (run_ends_iterate _ (fun _ => fine got)); [|done|done]. clear w Hw. intros [] w Hw.
  unfold loop_while. wp_steps. destruct (go w) eqn:Eg; [|by wp_step]. wp_step.
  eapply wp_mono; [by apply (loop_ok got)| |done]. intros [] w' Hw'. by wp_step.
Qed.
End invariant.

(** ** Properties *)

(** C16: the benchmark receives what it sends. For every string shorter than half the sequence
    space, any initial sequence numbers, segments moved in order or reversed, and any number of turns:
    what has been received is a prefix of the string, the comparison at the end of the stream never
    fails, and the only exception is that of a write after the sending connection was closed. If
    [main_loop] returns, all of the string was received and both connections are closed. *)
Theorem benchmark_receives fuel rx ry s reorder (Hs : #s + 2 <= 2147483648) :
  let '(r, w) := main_loop fuel rx ry s reorder in
  string_received w `prefix_of` s /\
  match r with
  | Ok _ => string_received w = s /\ active (x w) = false /\ active (y w) = false
  | Throw e => e = short_write /\ active (x w) = false
  | Diverge => True
  end.
Proof.
  assert (run_ends (main_body fuel reorder s)
    (fun _ w => fine s s w /\ active (x w) || active (y w) = false) (failed s) (fun w => exists got, fine s got w)
    (mkBench (TCPConnection.make default_config rx) (TCPConnection.make default_config ry) (Buffer_of s) false [])) as HR.
  { set (w := mkBench _ _ _ _ _). unfold main_body. apply run_ends_bind, run_ends_wp. wp_step. cbn [id].
    assert (fine s [] w) as Hw.
    { exists (new_endpoint default_config rx), (new_endpoint default_config ry).
      assert (valid_config default_config) as Hcfg by (by repeat split).
      constructor; try done; [split; by apply new_endpoint_ok|apply Buffer_of_wf; lia]. }
    destruct (fine_call_x s connect Connect [] w) as (c & E & Hc); [done| |done|].
    { intros c E. rewrite (connect_ended _ _ E). by left. }
    apply run_ends_bind, run_ends_wp. eapply wp_of_result; [exact E|]. apply run_ends_bind, run_ends_wp. wp_step.
    destruct (fine_call_y s end_input_stream EndInput [] (set_x c w)) as (c' & E' & Hc'); [done..|].
    apply run_ends_bind, run_ends_wp. eapply wp_of_result; [exact E'|]. apply run_ends_bind, run_ends_wp. wp_step.
    apply run_ends_bind. eapply run_ends_mono; [by apply (loop_while_ok s Hs [])| |done|by exists []].
    intros [] w1 [H1 Heof%negb_false_iff]. apply (fine_eof s _ _ H1) in Heof. apply run_ends_bind, run_ends_wp. wp_step. cbn [id].
    rewrite bool_decide_eq_true_2 by done. cbn [negb].
    eapply run_ends_mono; [apply (loop_while_ok s Hs s)|done..|by exists s].
    destruct H1 as (ex & ey & []). exists ex, ey. constructor; try done. by rewrite Heof. }
  unfold main_loop. unfold run_ends in HR. destruct (main_body _ _ _ _) as [[a|e|] w].
  - destruct HR as [Hw Hoff]. apply orb_false_elim in Hoff as [Hx Hy]. pose proof (fine_prefix _ _ _ Hw) as Hp. split; [done|].
    split; [|done]. destruct Hw as (ex & ey & []). by apply (anti_symm prefix).
  - destruct HR as (-> & Hx & Hp). done.
  - destruct HR as [got Hw]. split; [|done]. by apply (fine_prefix _ got).
Qed.

(** Five bytes, with the numbers about to wrap, in both orders. *)
Definition bench_string : bytes := [x68; x65; x6c; x6c; x6f].

Lemma benchmark_receives_witness :
  let '(r, w) := main_loop 30 4294967290 77 bench_string true in
  r = Ok tt /\ string_received w = bench_string /\ active (x w) = false.
Proof.
  assert (#bench_string + 2 <= 2147483648) as Hlen by (vm_compute; discriminate).
  pose proof (benchmark_receives 30 4294967290 77 bench_string true Hlen) as HB.
  assert ((main_loop 30 4294967290 77 bench_string true).1 = Ok tt) as E by (vm_compute; reflexivity).
  destruct (main_loop _ _ _ _ _) as [r w]. cbn [fst] in E. subst r. destruct HB as (_ & Hr & Hx & _). done.
Defined.
