(* ===== verification/Programs.v ===== *)
(** * The programs (tcp_native, tcp_udp, tcp_ipv4 and tun of src/apps)

    Three programs connect the standard streams with a TCP socket: of the kernel, or of this library
    over UDP or over a TUN device. The fourth prints the packets that arrive on a TUN device.
    Messages to cerr are left out; [what] is the text of an exception. *)

From stdpp Require Import strings.
From S2P Require Import Prelude IO WrappingIntegers ByteStream Buffer Parser TCPHeader TCPSegment IPv4 Address Adapter Text TCPReceiver.
From S2P Require Import TCPSender TCPConnection Kernel SimKernel FileDescriptor EventLoop Socket Tun FdAdapter Cmdline.
From S2P Require Import TCPSpongeSocket SpongeSafe EndToEnd StreamCopy.

Section programs.
Context {K : Type} `{Kernel K} {Res : Resolver}.

(** [bidirectional_stream_copy], with its local variables. *)
Definition run_copy (fuel : nat) (socket : FileDescriptor) : io (machine K) unit :=
  zoom (fun m => ((m, copy_start), [])) (fun v _ => v.1.1) (bidirectional_stream_copy fuel socket).

(** ** tcp_native *)

(** The socket: the one that is accepted, or connected. *)
Definition native_socket (server_mode : bool) (argv : list bytes) : io (machine K) FileDescriptor :=
  if server_mode then
    listening_socket ← TCPSocket_new;
    socket ← unwinding (
        _ ← set_reuseaddr listening_socket;
        host ← of_result (argv_at argv 2);
        service ← of_result (argv_at argv 3);
        a ← of_result (Address_of_host host service);
        _ ← bind listening_socket a;
        _ ← Socket.listen listening_socket 16;
        accept listening_socket)
      (release listening_socket);
    _ ← release listening_socket;
    mret socket
  else
    connecting_socket ← TCPSocket_new;
    unwinding (
        host ← of_result (argv_at argv 1);
        service ← of_result (argv_at argv 2);
        a ← of_result (Address_of_host host service);
        _ ← socket_connect connecting_socket a;
        mret connecting_socket)
      (release connecting_socket).

Definition native_main (fuel : nat) (argv : list bytes) : io (machine K) Z :=
  catch_all (
    if argc argv <? 3 then mret EXIT_FAILURE
    else
      a ← of_result (argv_at argv 1);
      let server_mode := strncmp_eq 3 (lit "-l") a in
      if server_mode && (argc argv <? 4) then mret EXIT_FAILURE
      else
        socket ← native_socket server_mode argv;
        _ ← unwinding (run_copy fuel socket) (release socket);
        _ ← release socket;
        mret EXIT_SUCCESS)
    (fun _ => mret EXIT_FAILURE).

(** ** Programs with a socket of the library *)

(** After [connect] or [listen_and_accept] the thread of the socket runs beside the program's own,
    for which it is part of the environment; [join] is what it has done when it is joined. *)
Section threaded.
Context {A : Type} `{!FdAdapter K A}.
Abbreviation loop_state := ((machine K * TCPSpongeSocket A) * list (Rule K (TCPSpongeSocket A)))%type (only parsing).
Context (_abort : K -> bool) (store_abort : K -> K) (join : io loop_state unit).

Definition use_socket (fuel fuel' : nat) (server_mode : bool) (c_fsm : TCPConfig) (random : Z) (c_filt : FdAdapterConfig)
  : io loop_state unit :=
  _ ← open_socket _abort (negb server_mode) fuel c_fsm random c_filt;
  owner ← gets (fun s => _owner s.1.2);
  _ ← on_fst (on_fst (run_copy fuel' owner));
  wait_until_closed join.

(** The socket is made from an adapter and destroyed at the end, or by an exception. *)
Definition with_socket (adapter : A) (use : io loop_state unit) : io (machine K) unit :=
  tcp_socket ← TCPSpongeSocket_new adapter;
  zoom (fun m => ((m, tcp_socket), [])) (fun v _ => v.1.1) (
    _ ← unwinding_threads use (destroy_socket store_abort join);
    destroy_socket store_abort join).
End threaded.

Section lossy.
Context {FP : FloatParser} {G : Type} `{RandomGenerator G}.
Context (_abort : K -> bool) (store_abort : K -> K).

(** [generator] is the state of the adapter's random numbers, [random] the number for the initial
    sequence number. *)
Definition udp_main (join : io ((machine K * TCPSpongeSocket (LossyFdAdapter G UDPFdAdapter)) * list (Rule K _)) unit)
    (fuel fuel' : nat) (generator : G) (random : Z) (argv : list bytes) : io (machine K * ostream) Z :=
  catch_all (
    if argc argv <? 3 then
      argv0 ← of_result (argv_at argv 0);
      _ ← on_snd (modify (udp_show_usage argv0 (Some (lit "ERROR: required arguments are missing."))));
      mret 1
    else
      r ← on_snd (udp_get_config argv);
      match r with
      | inl code => mret code
      | inr (c_fsm, c_filt, server_mode) =>
          udp_sock ← on_fst UDPSocket_new;
          _ ← on_fst (unwinding (when server_mode (bind udp_sock (source c_filt))) (release udp_sock));
          base ← on_fst (unwinding (of_result default_adapter) (release udp_sock));
          _ ← on_fst (with_socket store_abort join (mkLossy generator (mkUDPFdAdapter udp_sock base))
                (use_socket _abort join fuel fuel' server_mode c_fsm random c_filt));
          mret EXIT_SUCCESS
      end)
    (fun _ => mret EXIT_FAILURE).

(** [device] is the number for the source port. *)
Definition ipv4_main (join : io ((machine K * TCPSpongeSocket (LossyFdAdapter G TunFdAdapter)) * list (Rule K _)) unit)
    (fuel fuel' : nat) (generator : G) (device random : Z) (argv : list bytes) : io (machine K * ostream) Z :=
  catch_all (
    if argc argv <? 3 then
      argv0 ← of_result (argv_at argv 0);
      _ ← on_snd (modify (ipv4_show_usage argv0 (Some (lit "ERROR: required arguments are missing."))));
      mret EXIT_FAILURE
    else
      r ← on_snd (ipv4_get_config device argv);
      match r with
      | inl code => mret code
      | inr (c_fsm, c_filt, server_mode, tun_dev_name) =>
          tun ← on_fst (TunFD_new (default TUN_DFLT tun_dev_name));
          base ← on_fst (unwinding (of_result default_adapter) (release tun));
          _ ← on_fst (with_socket store_abort join (mkLossy generator (mkTunFdAdapter tun base))
                (use_socket _abort join fuel fuel' server_mode c_fsm random c_filt));
          mret EXIT_SUCCESS
      end)
    (fun _ => mret EXIT_FAILURE).
End lossy.

(** ** tun *)

(** A packet: the dump of it, and what the two parsers make of it. *)
Definition print_tun_packet (buffer : bytes) : io ostream unit :=
  _ ← modify (fun cout => cout << nl2 << lit "***" << newline << lit "*** Got packet:" << newline << lit "***" << newline);
  _ ← modify (hexdump buffer 0);
  _ ← modify (fun cout => cout << lit "attempting to parse as ipv4 datagram... ");
  r ← of_result (parse_datagram (Buffer_of buffer) default_datagram);
  let '(res, ip_dgram) := r in
  if negb (bool_decide (res = NoError)) then modify (fun cout => cout << lit "failed." << newline)
  else
    _ ← modify (fun cout => cout << lit "success! totlen=" << len (ip_header ip_dgram) << lit ", IPv4 header contents:" << newline);
    _ ← modify (fun cout => cout << IPv4Header_to_string (ip_header ip_dgram));
    if negb (proto (ip_header ip_dgram) =? PROTO_TCP)
    then modify (fun cout => cout << newline << lit "Not TCP, skipping." << newline)
    else
      _ ← modify (fun cout => cout << newline << lit "Attempting to parse as a TCP segment... ");
      payload_buffer ← of_result (to_Buffer (ip_payload ip_dgram));
      r ← of_result (parse_segment payload_buffer (pseudo_cksum (ip_header ip_dgram)) default_segment);
      let '(res, tcp_seg) := r in
      if negb (bool_decide (res = NoError)) then modify (fun cout => cout << lit "failed." << newline)
      else
        _ ← modify (fun cout => cout << lit "success! payload len=" << size (payload tcp_seg) << lit ", TCP header contents:" << newline);
        modify (fun cout => cout << TCPHeader_to_string (header tcp_seg) << newline).

Definition tun_turn (tun : FileDescriptor) (_ : unit) : io (machine K * ostream) (unit + unit) :=
  buffer ← on_fst (fd_read tun size_max);
  _ ← on_snd (print_tun_packet buffer);
  mret (inl tt).

(** At most [fuel] packets: the loop is only left by an exception. *)
Definition tun_main (what : exn -> bytes) (fuel : nat) : io (machine K * ostream) Z :=
  catch_all (
    tun ← on_fst (TunFD_new (lit "tun144"));
    _ ← unwinding (iterate fuel (tun_turn tun) tt) (on_fst (release tun));
    mret EXIT_SUCCESS)
    (fun e => _ ← on_snd (modify (fun cout => cout << lit "Exception: " << what e << newline)); mret EXIT_FAILURE).
End programs.

(** ** tun: every packet is reported *)

Section reports.
Context {K : Type} `{KernelLaws K} {Res : Resolver}.
Implicit Types m : machine K.

(** What is printed for a packet. *)
Definition report (cout : ostream) (packet : bytes) : ostream := (print_tun_packet packet cout).2.

(** No packet makes the parsers throw. *)
Lemma print_tun_packet_ok packet cout :
  #packet < 18446744073709551616 ->
  wp (print_tun_packet packet) (fun _ cout' => cout' = report cout packet) (fun _ _ => False) cout.
Proof.
  intros Hp. assert (wp (print_tun_packet packet) (fun _ _ => True) (fun _ _ => False) cout) as HW.
  { unfold print_tun_packet. wp_steps. destruct (parse_datagram_sound packet Hp) as (r & h & b & E & Hb & _).
    eapply wp_of_result; [exact E|]. cbv beta iota. case_if; [done|]. wp_steps. case_if; [done|]. wp_steps.
    eapply wp_of_result; [done|]. wp_step. destruct (parse_segment_total b (pseudo_cksum h) default_segment Hb) as (res & seg & Es).
    eapply wp_of_result; [exact Es|]. cbv beta iota. case_if; by wp_steps. }
  unfold wp, report in *. by destruct (print_tun_packet packet cout) as [[[]|e|] c].
Qed.

(** The descriptor [fd] has delivered [packets], which were reported. *)
Definition reported (m0 : machine K) (cout0 : ostream) (fd : Z) (packets : list bytes) (w : machine K * ostream) : Prop :=
  log w.1 = log m0 ++ map (Received fd) packets /\ w.2 = foldl report cout0 packets.

Lemma tun_loop_reports m0 cout0 tun fd fuel packets w :
  reported m0 cout0 fd packets w -> fd_num tun w.1 = fd ->
  run_ends (iterate fuel (tun_turn tun) tt) (fun _ _ => False)
    (fun e w' => sys_error e /\ exists more, (length more < fuel)%nat /\ reported m0 cout0 fd (packets ++ more) w')
    (fun w' => exists more, length more = fuel /\ reported m0 cout0 fd (packets ++ more) w') w.
Proof.
  revert packets w. induction fuel as [|fuel IH]; intros packets [m cout] [HL HC] Hfd; cbn [fst snd] in *.
  { exists []. by rewrite app_nil_r. }
  cbn [iterate]. apply run_ends_bind, run_ends_wp. unfold tun_turn. wp_steps. cbn [fst snd].
  eapply wp_mono; [by apply fd_read_spec| |].
  2: { intros e m' (He & L' & _). split; [done|]. exists []. rewrite app_nil_r. split; [simpl; lia|]. split; [|done]. by rewrite <- HL. }
  intros d m' (Hd & L' & Hh). wp_steps. cbn [fst snd]. eapply wp_mono; [apply print_tun_packet_ok|..|done].
  { unfold BUFFER_SIZE in Hd. lia. }
  intros [] cout' ->. wp_step. eapply run_ends_mono; [apply (IH (packets ++ [d]))|..]; cbn [fst snd].
  - split; cbn [fst snd]; [|by rewrite foldl_snoc, HC]. by rewrite L', HL, map_app, Hfd, app_assoc.
  - by rewrite (fd_num_alter (after_read _) _ tun m m' ltac:(done) Hh).
  - done.
  - intros e w' (He & more & Hl & Hr). split; [done|]. exists (d :: more). split; [simpl; lia|]. by rewrite <- app_assoc in Hr.
  - intros w' (more & Hl & Hr). exists (d :: more). split; [simpl; lia|]. by rewrite <- app_assoc in Hr.
Qed.

Lemma TunFD_new_opens devname m :
  wp (TunFD_new devname) (fun h m' => log m' = log m) (fun e m' => (sys_error e \/ tame_exn e) /\ log m' = log m) m.
Proof.
  unfold TunFD_new, TunTapFD_new. wp_step. apply wp_system_call; [apply open_quiet| |intros n k Hk; split; [left; by eexists|done]].
  intros fd k Hk. wp_step. unfold FileDescriptor_of. case_if; wp_steps; [by split; [right|]|]. cbn [kernel heap].
  apply wp_unwinding. wp_steps. apply wp_system_call; [apply ioctl_quiet|intros r k' Hk'; wp_step; by etransitivity|].
  intros n k' Hk'. eapply wp_mono; [apply release_spec| |done]. intros [] m' [L _].
  split; [left; by eexists|]. etransitivity; [exact L|]. by etransitivity.
Qed.

(** The program has ended by an exception. *)
Definition exception_printed (what : exn -> bytes) m0 cout0 (code : Z) (w : machine K * ostream) : Prop :=
  code = EXIT_FAILURE /\ exists fd packets e, (sys_error e \/ tame_exn e) /\
    log w.1 = log m0 ++ map (Received fd) packets /\
    w.2 = (foldl report cout0 packets << lit "Exception: " << what e << newline).

Lemma print_exception what m0 cout0 e w fd packets :
  sys_error e \/ tame_exn e -> reported m0 cout0 fd packets w ->
  wp (match e with
      | undefined _ | terminated => throw e
      | _ => _ ← on_snd (modify (fun cout => cout << lit "Exception: " << what e << newline)); mret EXIT_FAILURE
      end) (exception_printed what m0 cout0) (fun _ _ => False) w.
Proof.
  intros He [HL HC]. destruct w as [m c]. cbn [fst snd] in HL, HC. subst c.
  destruct e; try (destruct He as [[? ?]|[]]; done); wp_steps; (split; [done|]); cbn [fst snd]; eauto 8.
Qed.
End reports.

(** ** tcp_native: the socket *)

(** Descriptors that the kernel hands out are not those of the standard input and output, which are
    open. *)
Definition fresh {A} (r : sysret A) : Prop := ret r = -1 /\ 0 < errno r \/ 2 <= ret r < 2147483648.
Definition streams_open (K : Type) `{Kernel K} : Prop :=
  (forall domain type (k : K), fresh (sys_socket domain type k).1) /\ (forall fd (k : K), fresh (sys_accept fd k).1).

Section native.
Context {K : Type} `{KernelLaws K} {Res : Resolver} (Hopen : streams_open K).
Implicit Types m : machine K.

(** A new object for a descriptor other than the standard ones; nothing has been transferred. *)
Definition opened (l : list event) (h : FileDescriptor) m : Prop :=
  log m = l /\ (h < length (heap m))%nat /\ fd_num h m <> STDIN_FILENO /\ fd_num h m <> STDOUT_FILENO.

Lemma opened_silent l h h' m m' : silent h' m m' -> opened l h m -> opened l h m'.
Proof.
  intros [L (f & Hh & Hf)] (H1 & H2 & H3). unfold opened. rewrite (fd_num_alter f h h' m m') by done.
  by rewrite L, Hh, length_alter.
Qed.
Lemma opened_kernel l h m k : observed k = log m -> opened l h m -> opened l h (mkMachine k (heap m)).
Proof. intros Hk (H1 & H2). split; [|exact H2]. by rewrite <- H1. Qed.

(** A call that returns a descriptor, and the object for it. *)
Lemma open_call {A} (call : K -> sysret A * K) m :
  quiet call -> (forall k, fresh (call k).1) ->
  wp (fd ← system_call call; FileDescriptor_of fd) (fun h m' => opened (log m) h m') (fun e m' => caught e /\ log m' = log m) m.
Proof.
  intros Hq Hf. unfold system_call. wp_steps. apply wp_sys. specialize (Hq (kernel m)). destruct (Hf (kernel m)) as [[Hr He]|Hr].
  { rewrite SystemCall_failed by done. done. }
  eapply wp_of_result; [by apply SystemCall_ok; lia|]. unfold FileDescriptor_of. rewrite (proj2 (Z.ltb_ge _ _)) by lia. wp_steps.
  unfold opened, fd_num, wrapper. cbn [heap]. rewrite length_app, lookup_app_r, Nat.sub_diag by lia. cbn.
  unfold STDIN_FILENO, STDOUT_FILENO. split_and!; [exact Hq|lia..].
Qed.

(** A call without data on a socket: [bind], [listen] and the like. *)
Lemma socket_call {A} (call : K -> sysret A * K) l h m :
  quiet call -> opened l h m ->
  wp (_ ← system_call call; mret tt) (fun _ m' => opened l h m') (fun e m' => caught e /\ opened l h m') m.
Proof.
  intros Hq Hm. wp_step. apply wp_system_call; [done|intros r k Hk; wp_step|intros n k Hk; split; [done|]];
    by apply opened_kernel.
Qed.

Lemma Socket_of_opened l h domain type m :
  opened l h m -> wp (Socket_of h domain type) (fun h' m' => h' = h /\ opened l h m') (fun e m' => caught e /\ log m' = l) m.
Proof.
  intros Hm. unfold Socket_of. apply wp_unwinding.
  assert (wp (Socket_check h domain type) (fun h' m' => h' = h /\ opened l h m') (fun e m' => caught e /\ opened l h m') m) as HC.
  { unfold Socket_check. wp_steps. apply wp_sys. wp_step. set (m1 := mkMachine _ _).
    assert (opened l h m1) as H1 by (apply opened_kernel; [apply getsockopt_quiet|done]).
    apply wp_SystemCall; [intros r|by intros n]. destruct (out _) as [v n]. case_if; [by wp_step|]. wp_steps. apply wp_sys.
    wp_step. set (m2 := mkMachine _ (heap m1)).
    assert (opened l h m2) as H2 by (apply opened_kernel; [apply getsockopt_quiet|done]).
    apply wp_SystemCall; [intros r'|by intros n']. destruct (out _) as [v' n']. case_if; by wp_step. }
  eapply wp_mono; [exact HC|done|]. intros e m' [He Hm']. eapply wp_mono; [apply release_spec| |done].
  intros [] m2 [L _]. split; [done|]. rewrite L. apply Hm'.
Qed.

Lemma accept_opened l h m :
  opened l h m -> wp (accept h) (fun h' m' => opened l h' m') (fun e m' => caught e /\ log m' = l) m.
Proof.
  intros Hm. unfold accept, register_read. wp_step. apply wp_update. do 2 wp_step. set (m1 := mkMachine _ _).
  assert (log m1 = l) as L1 by apply Hm. apply wp_bind_assoc. eapply wp_mono; [apply (open_call (sys_accept _)); [apply accept_quiet|apply Hopen]| |].
  - intros h' m2 H2. rewrite L1 in H2. eapply wp_mono; [by apply Socket_of_opened| |done]. by intros ? m3 [-> ?].
  - intros e m2 [He L]. by rewrite <- L1.
Qed.

Lemma argv_at_in (argv : list bytes) i (Q : bytes -> machine K -> Prop) (E : exn -> machine K -> Prop) m :
  0 <= i < argc argv -> (forall a, Q a m) -> wp (of_result (argv_at argv i)) Q E m.
Proof. intros Hi HQ. destruct (argv_at_ok argv i Hi) as [a ->]. by apply (wp_of_result _ _ _ _ a). Qed.


Lemma native_socket_opened (server_mode : bool) argv m :
  (if server_mode then 4 else 3) <= argc argv ->
  wp (native_socket server_mode argv) (opened (log m)) (fun e m' => caught e /\ log m' = log m) m.
Proof.
  intros Hargc. set (l := log m).
  assert (forall h e m', caught e /\ opened l h m' -> wp (release h) (fun _ m'' => caught e /\ log m'' = l)
    (fun e' m'' => caught e' /\ log m'' = l) m') as Hrel.
  { intros h e m' [He Hm']. eapply wp_mono; [apply release_spec| |done]. intros [] m2 [L _]. split; [done|]. rewrite L. apply Hm'. }
  unfold native_socket, TCPSocket_new, Socket_new.
  destruct server_mode; wp_step; (eapply wp_mono; [apply open_call; [apply socket_quiet|apply Hopen]| |done]); intros h m1 H1.
  - wp_step. apply wp_unwinding. unfold set_reuseaddr, setsockopt. wp_step. wp_step. wp_step.
    eapply wp_mono; [eapply (socket_call (sys_setsockopt _ _ _ _)); [apply setsockopt_quiet|exact H1]| |apply Hrel]. intros [] m2 H2.
    wp_step. apply argv_at_in; [lia|intros host]. wp_step. apply argv_at_in; [lia|intros service]. wp_step.
    apply wp_tame; [apply tame_Address_of_host| |intros e He; apply Hrel; split; [by apply tame_caught|exact H2]]. intros a _.
    unfold bind, Socket.listen. wp_step. wp_step. wp_step.
    eapply wp_mono; [eapply (socket_call (sys_bind _ _ _)); [apply bind_quiet|exact H2]| |apply Hrel]. intros [] m3 H3.
    wp_step. wp_step. wp_step.
    eapply wp_mono; [eapply (socket_call (sys_listen _ _)); [apply listen_quiet|exact H3]| |apply Hrel]. intros [] m4 H4.
    eapply wp_mono; [by apply accept_opened| |].
    + intros socket m5 H5. wp_step. eapply wp_mono; [apply release_spec| |done]. intros [] m6 H6. wp_step. by eapply opened_silent.
    + intros e m5 [He L]. eapply wp_mono; [apply release_spec| |done]. intros [] m6 [L6 _]. by rewrite L6.
  - apply wp_unwinding. wp_step. apply argv_at_in; [lia|intros host]. wp_step. apply argv_at_in; [lia|intros service]. wp_step.
    apply wp_tame; [apply tame_Address_of_host| |intros e He; apply Hrel; split; [by apply tame_caught|exact H1]]. intros a _.
    unfold socket_connect. wp_step. wp_step. wp_step.
    eapply wp_mono; [eapply (socket_call (sys_connect _ _ _)); [apply connect_quiet|exact H1]| |apply Hrel]. intros [] m2 H2. by wp_step.
Qed.

(** Copying, and the destruction of the socket: data is exchanged with the standard streams and with [fd],
    the socket, alone. *)
Definition copied_with (fd : Z) (es : list event) : Prop :=
  fd <> STDIN_FILENO /\ fd <> STDOUT_FILENO /\ Forall (copy_event fd) es /\
  sent fd es `prefix_of` received STDIN_FILENO es /\ sent STDOUT_FILENO es `prefix_of` received fd es.
Definition copied (l : list event) m : Prop := exists fd es, log m = l ++ es /\ copied_with fd es.

Lemma copied_nothing l m : log m = l -> copied l m.
Proof. intros <-. exists 2, []. split; [by rewrite app_nil_r|]. by split_and!. Qed.

Lemma flow_prefix src dst es st : flow src dst es st -> sent dst es `prefix_of` received src es.
Proof. intros (_ & _ & lost & -> & _). by apply prefix_app_r. Qed.

Lemma run_copy_copies fuel l h m :
  opened l h m ->
  run_ends (run_copy fuel h) (fun _ => copied l) (fun e m' => caught e /\ copied l m') (copied l) m.
Proof.
  intros (<- & Hh & F1 & F2). pose proof (stream_copy_keeps fuel h m copy_start Hh F1 F2) as HR. cbv zeta in HR.
  unfold run_ends, run_copy, zoom in *. destruct (bidirectional_stream_copy fuel h (m, copy_start, [])) as [r [[m' s'] rs]].
  cbn [fst snd] in *.
  assert ((exists es, log m' = log m ++ es /\ flows (fd_num h m) es s') -> copied (log m) m') as Hc.
  { intros (es & L & HF & Ho%flow_prefix & Hi%flow_prefix). exists (fd_num h m), es. split; [done|]. by split_and!. }
  destruct r as [a|e|]; [auto| |auto]. destruct HR as [He HR]. split; [|auto].
  by destruct He as [[[n ->] | ->] | ->].
Qed.
End native.

(** ** tcp_udp and tcp_ipv4: the main thread *)

Section main_thread.
Context {K A : Type} `{KernelLaws K} `{!FdAdapter K A} `{!WireFormat A} {Res : Resolver} {La : FdAdapterLaws K A}.
Abbreviation loop_state := ((machine K * TCPSpongeSocket A) * list (Rule K (TCPSpongeSocket A)))%type (only parsing).
Implicit Types (m : machine K) (s : TCPSpongeSocket A).

(** The numbers of the thread's and of the owner's end of the socket pair, and of the adapter. *)
Definition tfd m s : Z := fd_num (_thread_data s) m.
Definition afd m s : Z := fd_num (ad_fd (_datagram_adapter s)) m.
Definition ofd m s : Z := fd_num (_owner s) m.

(** A new socket, whose descriptors differ from one another and from the standard streams. *)
Definition started m s : Prop :=
  ready m s /\ opened (log m) (_owner s) m /\
  Forall (fun fd => fd <> STDIN_FILENO /\ fd <> STDOUT_FILENO /\ fd <> ofd m s) [tfd m s; afd m s].

(** Data copied between the standard streams and the owner's end, in order. *)
Definition main_copied m s (v : loop_state) : Prop := exists es, log v.1.1 = log m ++ es /\
  sent (ofd m s) es `prefix_of` received STDIN_FILENO es /\ sent STDOUT_FILENO es `prefix_of` received (ofd m s) es.

Lemma foreign_events t a fd es :
  Forall (local_event t a) es -> t <> fd /\ a <> fd -> received fd es = [] /\ sent fd es = [].
Proof.
  intros HF [Ht Ha]. induction HF as [|e es He _ [IH1 IH2]]; [done|]. unfold received, sent in *. cbn [map concat].
  rewrite IH1, IH2, !app_nil_r. destruct e as [x d|x d], He as [E|E]; simpl in E; subst; simpl; by case_if; [lia|].
Qed.

(** Events of the other descriptors come before the copying. *)
Lemma main_copied_after m s (v : loop_state) es0 es :
  started m s -> Forall (local_event (tfd m s) (afd m s)) es0 -> log v.1.1 = log m ++ es0 ++ es ->
  sent (ofd m s) es `prefix_of` received STDIN_FILENO es -> sent STDOUT_FILENO es `prefix_of` received (ofd m s) es ->
  main_copied m s v.
Proof.
  intros (_ & _ & HF) Hlo L P1 P2. apply Forall_cons_1 in HF as [(T1 & T2 & T3) HF]. apply Forall_cons_1 in HF as [(A1 & A2 & A3) _].
  exists (es0 ++ es). split; [done|]. rewrite !sent_app, !received_app.
  destruct (foreign_events _ _ (ofd m s) _ Hlo) as [-> ->]; [done|].
  destruct (foreign_events _ _ STDIN_FILENO _ Hlo) as [-> _]; [done|].
  by destruct (foreign_events _ _ STDOUT_FILENO _ Hlo) as [_ ->].
Qed.

(** The thread that is joined transfers nothing for the one that joins it. *)
Definition keeps_log (join : io loop_state unit) : Prop := forall v, log (join v).2.1.1 = log v.1.1.

Lemma wait_until_closed_quiet join (I : loop_state -> Prop) v :
  keeps_log join -> (forall v v' : loop_state, log v'.1.1 = log v.1.1 -> I v -> I v') -> I v ->
  run_ends (wait_until_closed join) (fun _ => I) (fun _ => I) I v.
Proof.
  intros Hj HI Hv. unfold wait_until_closed. apply run_ends_bind, run_ends_wp. wp_step. apply run_ends_bind, run_ends_wp.
  destruct v as [[m s] rs]. wp_steps. cbn [fst snd]. unfold shutdown. wp_steps.
  apply wp_system_call; [apply shutdown_quiet| |intros n k Hk; by eapply HI; [|exact Hv]]. intros r k Hk.
  change (SHUT_RDWR =? SHUT_RD) with false. change (SHUT_RDWR =? SHUT_WR) with false. change (SHUT_RDWR =? SHUT_RDWR) with true. cbv iota.
  unfold register_read, register_write. wp_steps. apply wp_update. apply wp_update. cbn [fst snd kernel heap].
  set (v1 := (_, _, _) : loop_state). assert (I v1) as H1 by (by eapply HI; [|exact Hv]). clearbody v1.
  apply run_ends_bind, run_ends_wp. wp_step. unfold when. case_if; [|done]. apply run_ends_bind.
  specialize (Hj v1). unfold run_ends, thread_join, catch.
  destruct (join v1) as [[[]|e|] v2]; cbn [snd] in Hj; [|destruct e|]; eapply HI; eauto; done.
Qed.

Context (_abort : K -> bool) (join : io loop_state unit) (Hjoin : keeps_log join).

Lemma use_socket_copies fuel fuel' server_mode cfg random c_ad m s :
  started m s -> bounded_run cfg fuel ->
  run_ends (use_socket _abort join fuel fuel' server_mode cfg random c_ad) (fun _ => main_copied m s) (fun _ => main_copied m s)
    (main_copied m s) ((m, s), []).
Proof.
  intros Hs Hb. pose proof Hs as (Hready & (_ & Hlen & F1 & F2) & _).
  assert (forall es0 (v : loop_state), Forall (local_event (tfd m s) (afd m s)) es0 -> log v.1.1 = log m ++ es0 -> main_copied m s v) as Hopen.
  { intros es0 v Hlo L. apply (main_copied_after m s v es0 []); [done..|by rewrite app_nil_r|apply prefix_nil|apply prefix_nil]. }
  unfold use_socket. apply run_ends_bind.
  eapply run_ends_mono; [by apply (opening_local _abort (negb server_mode) fuel cfg random c_ad m s)| | |]; cbn zeta.
  2: { intros e v [(es0 & L & Hlo) _]. by eapply Hopen. }
  2: { intros v (es0 & L & Hlo). by eapply Hopen. }
  intros [] [[m1 s1] rs] ((es0 & L & Hlo) & Ho & Hsz & Hfd). cbn [fst snd] in *. apply run_ends_bind, run_ends_wp. wp_step.
  cbn [fst snd]. rewrite Ho. apply run_ends_bind.
  pose proof (stream_copy_keeps fuel' (_owner s) m1 copy_start) as HC. rewrite Hsz, Hfd in HC. specialize (HC Hlen F1 F2). cbv zeta in HC.
  unfold run_ends, on_fst, zoom, run_copy, zoom in *. cbn [fst snd].
  destruct (bidirectional_stream_copy fuel' (_owner s) (m1, copy_start, [])) as [r [[m2 s2] rs2]]. cbn [fst snd] in *.
  assert (forall v : loop_state, log v.1.1 = log m2 -> (exists es, log m2 = log m1 ++ es /\ flows (ofd m s) es s2) ->
    main_copied m s v) as Hcopy.
  { intros v L2 (es & L1 & _ & P1%flow_prefix & P2%flow_prefix). apply (main_copied_after m s v es0 es); try done.
    by rewrite L2, L1, L, app_assoc. }
  destruct r as [a|e|]; [|destruct HC as [_ HC]|]; try by apply Hcopy.
  apply wait_until_closed_quiet; [done| |by apply Hcopy].
  intros v v' E (es & L' & HP). exists es. by rewrite E.
Qed.
End main_thread.

(** ** Two programs *)

(** A program such as tcp_udp or tcp_ipv4, from the moment its socket is made. Its main thread runs [use_socket];
    the thread of the socket, from the moment the connection is open, [_tcp_main]. To each thread the
    other is a part of the environment, and each sees the kernel in its own way: the kernel's state
    stands for what happens to the one thread. [p_fuel] is the number of turns of opening, of
    the thread and of copying. *)
Record program (K A : Type) := mkProgram {
  p_abort : K -> bool;
  p_join : io ((machine K * TCPSpongeSocket A) * list (Rule K (TCPSpongeSocket A))) unit;
  p_server : bool;
  p_fuel : nat * nat * nat;
  p_config : TCPConfig;
  p_random : Z;
  p_filter : FdAdapterConfig;
  p_machine : machine K;
  p_socket : TCPSpongeSocket A
}.
Arguments mkProgram {K A}.
Arguments p_abort {K A}.
Arguments p_join {K A}.
Arguments p_server {K A}.
Arguments p_fuel {K A}.
Arguments p_config {K A}.
Arguments p_random {K A}.
Arguments p_filter {K A}.
Arguments p_machine {K A}.
Arguments p_socket {K A}.

Section program.
Context {K A : Type} `{Kernel K} `{!FdAdapter K A} {Res : Resolver} (p : program K A).

(** What the thread of the socket, and what the main thread has seen. *)
Definition run_thread : machine K :=
  (run_socket (p_abort p) (negb (p_server p)) (p_fuel p).1.1 (p_fuel p).1.2 (p_config p) (p_random p) (p_filter p)
     ((p_machine p, p_socket p), [])).2.1.1.
Definition run_main : machine K :=
  (use_socket (p_abort p) (p_join p) (p_fuel p).1.1 (p_fuel p).2 (p_server p) (p_config p) (p_random p) (p_filter p)
     ((p_machine p, p_socket p), [])).2.1.1.

Definition p_tfd : Z := tfd (p_machine p) (p_socket p).
Definition p_afd : Z := afd (p_machine p) (p_socket p).
Definition p_ofd : Z := ofd (p_machine p) (p_socket p).

Definition program_ok : Prop :=
  started (p_machine p) (p_socket p) /\ keeps_log (p_join p) /\
  bounded_run (p_config p) ((p_fuel p).1.1 + (p_fuel p).1.2).

(** The data that the two threads have exchanged with their descriptors; the socket pair between them
    delivers a prefix of what was sent. *)
Definition exchanged (thread main : list event) : Prop :=
  log run_thread = log (p_machine p) ++ thread /\ log run_main = log (p_machine p) ++ main /\
  received p_tfd thread `prefix_of` sent p_ofd main /\ received p_ofd main `prefix_of` sent p_tfd thread.
End program.

Lemma bounded_run_le cfg k k' : (k <= k')%nat -> bounded_run cfg k' -> bounded_run cfg k.
Proof.
  intros Hk (H1 & H2 & H3). pose proof H1 as (Hc & _). split; [done|]. split; [lia|]. eapply Z.le_lt_trans; [|exact H3].
  apply Z.mul_le_mono_nonneg_r; lia.
Qed.

(** What the main thread copies. *)
Lemma run_main_copies {K A} `{KernelLaws K} `{!FdAdapter K A} `{!WireFormat A} {Res : Resolver} {La : FdAdapterLaws K A}
    (p : program K A) thread main :
  program_ok p -> exchanged p thread main ->
  sent (p_ofd p) main `prefix_of` received STDIN_FILENO main /\ sent STDOUT_FILENO main `prefix_of` received (p_ofd p) main.
Proof.
  intros (Hs & Hj & Hb) (_ & L & _). unfold run_main in L.
  pose proof (use_socket_copies (p_abort p) (p_join p) Hj (p_fuel p).1.1 (p_fuel p).2 (p_server p) (p_config p) (p_random p) (p_filter p)
    _ _ Hs (bounded_run_le _ _ _ (Nat.le_add_r _ _) Hb)) as HR. unfold run_ends in HR.
  destruct (use_socket _ _ _ _ _ _ _ _ _) as [r v]. cbn [fst snd] in L.
  assert (main_copied (p_machine p) (p_socket p) v) as (es & L' & HP) by (by destruct r).
  rewrite L' in L. by apply app_inv_head in L as <-.
Qed.

(** ** Properties *)

(** C13: tun reports every packet. On any kernel and for any number of packets, well-formed or not: each
    packet that the device delivers is printed, in order and exactly once, and no packet ends the
    program. It ends only by an error of a call, which is printed, with EXIT_FAILURE. *)
Theorem tun_reports_packets {K} `{KernelLaws K} what fuel (m : machine K) cout :
  let '(r, (m', cout')) := tun_main what fuel (m, cout) in
  exists fd packets, log m' = log m ++ map (Received fd) packets /\
    match r with
    | Ok code => code = EXIT_FAILURE /\ exists e, (sys_error e \/ tame_exn e) /\
        cout' = (foldl report cout packets << lit "Exception: " << what e << newline)
    | Throw _ => False
    | Diverge => length packets = fuel /\ cout' = foldl report cout packets
    end.
Proof.
  assert (run_ends (tun_main what fuel) (exception_printed what m cout) (fun _ _ => False)
    (fun w' => exists fd packets, length packets = fuel /\ reported m cout fd packets w') (m, cout)) as HR.
  { unfold tun_main, catch_all. apply run_ends_catch, run_ends_bind, run_ends_wp. wp_step. cbn [fst snd].
    eapply wp_mono; [apply TunFD_new_opens| |].
    2: { intros e m' [He HL]. apply run_ends_wp, (print_exception what m cout e (m', cout) 0 []); [done|].
         split; [by rewrite app_nil_r|done]. }
    intros tun m1 HL. apply run_ends_bind, run_ends_unwinding.
    eapply run_ends_mono; [apply (tun_loop_reports m cout tun (fd_num tun m1) fuel []);
      [split; [by rewrite app_nil_r|done]|done]|done| |intros w' (more & Hl & Hr); eauto].
    intros e [m2 c2] (He & more & _ & HL2 & HC2). wp_step. cbn [fst snd] in *. eapply wp_mono; [apply release_spec| |done].
    intros [] m3 [L3 _]. apply run_ends_wp, (print_exception what m cout e _ (fd_num tun m1) more); [by left|].
    split; cbn [fst snd]; [by rewrite L3|done]. }
  unfold run_ends in HR. destruct (tun_main what fuel (m, cout)) as [[code|e|] [m' cout']]; cbn [fst snd] in *.
  - destruct HR as (-> & fd & packets & e & He & HL & HC). exists fd, packets. split; [done|]. split; [done|]. by exists e.
  - done.
  - destruct HR as (fd & packets & Hl & HL & HC). by exists fd, packets.
Qed.

(** C10: tcp_native copies. On any kernel whose descriptors are new ones, for any arguments and any number of
    turns, as a server and as a client, the program exchanges data with one descriptor besides the
    standard streams, its socket: it reads from the standard input and from the socket and writes to the
    socket and to the standard output, and nothing else. What it writes to the socket is a prefix of
    what it has read from the standard input, and what it writes to the standard output a prefix of what
    the socket has delivered. No exception leaves [main] and no argument is read that is not there: the
    program returns EXIT_SUCCESS or EXIT_FAILURE, or goes on. *)
Theorem native_main_copies {K} `{KernelLaws K} {Res : Resolver} fuel argv (m : machine K) :
  streams_open K ->
  let '(r, m') := native_main fuel argv m in
  (exists fd es, log m' = log m ++ es /\ fd <> STDIN_FILENO /\ fd <> STDOUT_FILENO /\ Forall (copy_event fd) es /\
     sent fd es `prefix_of` received STDIN_FILENO es /\ sent STDOUT_FILENO es `prefix_of` received fd es) /\
  match r with
  | Ok code => code = EXIT_SUCCESS \/ code = EXIT_FAILURE
  | Throw _ => False
  | Diverge => True
  end.
Proof.
  intros Hopen. set (l := log m).
  assert (run_ends (native_main fuel argv)
    (fun code m' => copied l m' /\ (code = EXIT_SUCCESS \/ code = EXIT_FAILURE)) (fun _ _ => False) (copied l) m) as HR.
  { assert (forall m', log m' = l -> copied l m' /\ (EXIT_FAILURE = EXIT_SUCCESS \/ EXIT_FAILURE = EXIT_FAILURE)) as Hno
      by (intros m' L; split; [by apply copied_nothing|by right]).
    unfold native_main, catch_all. apply run_ends_catch. case_if; [by apply Hno|]. apply run_ends_bind, run_ends_wp.
    apply argv_at_in; [unfold argc in *; lia|]. intros a. destruct (strncmp_eq 3 (lit "-l") a && (argc argv <? 4)) eqn:E4; [by apply Hno|].
    apply run_ends_bind, run_ends_wp. eapply wp_mono; [apply native_socket_opened; [done|]| |].
    - destruct (strncmp_eq 3 (lit "-l") a); cbn [andb] in E4; lia.
    - intros h m1 H1. apply run_ends_bind, run_ends_unwinding. eapply run_ends_mono; [by apply (run_copy_copies fuel l)|..|done].
      + intros [] m2 (fd & es & L2 & HP). apply run_ends_wp. wp_step. eapply wp_mono; [apply release_spec| |done].
        intros [] m3 [L3 _]. wp_step. split; [|by left]. exists fd, es. by rewrite L3.
      + intros e m2 [He (fd & es & L2 & HP)]. eapply wp_mono; [apply release_spec| |done]. intros [] m3 [L3 _].
        destruct e; try done; (split; [|by right]); exists fd, es; by rewrite L3.
    - intros e m1 [He L]. destruct e; try done; by apply Hno. }
  unfold run_ends in HR. destruct (native_main fuel argv m) as [[code|e|] m']; [done|done|by split].
Qed.

(** C1: two programs. Two programs such as tcp_udp or tcp_ipv4 run, each with the thread of its socket and
    its main thread, which opens the connection, as client or server, copies the standard
    streams and waits for the end; on any kernels and adapters that keep their promises and for
    any number of turns. The network between them may lose, repeat, reorder and delay datagrams and
    deliver others that cannot be read; within each program the socket pair delivers a prefix of
    what was sent. Then the standard output of the second program is a prefix of the standard input of
    the first. (The stream is shorter than half of the sequence space, and the adapter's descriptor
    sends datagrams whole.) *)
Theorem programs_end_to_end {K1 A1 K2 A2} `{KernelLaws K1} `{!FdAdapter K1 A1} `{!WireFormat A1}
    `{KernelLaws K2} `{!FdAdapter K2 A2} `{!WireFormat A2} {Res : Resolver}
    {L1 : FdAdapterLaws K1 A1} {L2 : FdAdapterLaws K2 A2}
    (p1 : program K1 A1) (p2 : program K2 A2) thread1 main1 thread2 main2 :
  program_ok p1 -> program_ok p2 -> ad_format A1 = ad_format A2 -> sends_whole K1 (ad_format A1) (p_afd p1) ->
  exchanged p1 thread1 main1 -> exchanged p2 thread2 main2 ->
  network_delivers (ad_format A2) (p_afd p1) (p_afd p2) thread1 thread2 -> #(received (p_tfd p1) thread1) + 2 <= 2147483648 ->
  sent STDOUT_FILENO main2 `prefix_of` received STDIN_FILENO main1.
Proof.
  intros Hp1 Hp2 Hf Hw He1 He2 Hn Hl. pose proof (run_main_copies p1 _ _ Hp1 He1) as [F1 _].
  pose proof (run_main_copies p2 _ _ Hp2 He2) as [_ F2].
  destruct Hp1 as ((R1 & _) & _ & B1), Hp2 as ((R2 & _) & _ & B2), He1 as (T1 & _ & D1 & _), He2 as (T2 & _ & _ & D2).
  pose proof (sockets_deliver (p_abort p1) (p_abort p2) (negb (p_server p1)) (negb (p_server p2)) (p_fuel p1).1.1 (p_fuel p1).1.2
    (p_fuel p2).1.1 (p_fuel p2).1.2 (p_config p1) (p_config p2) (p_random p1) (p_random p2) (p_filter p1) (p_filter p2)
    (p_machine p1) (p_socket p1) (p_machine p2) (p_socket p2) R1 B1 R2 B2 Hf Hw) as HS. cbv zeta in HS.
  unfold run_thread in T1, T2.
  destruct (run_socket (p_abort p1) _ _ _ _ _ _ _) as [r1 [[m1' s1'] rs1]].
  destruct (run_socket (p_abort p2) _ _ _ _ _ _ _) as [r2 [[m2' s2'] rs2]]. cbn [fst snd] in *.
  destruct (HS _ _ T1 T2 Hn Hl) as [P _].
  etransitivity; [exact F2|]. etransitivity; [exact D2|]. etransitivity; [exact P|]. by etransitivity.
Qed.

(** ** Runs *)

Section runs.
#[local] Existing Instance numeric_resolver.

Lemma sim_streams_open : streams_open sim.
Proof. split; intros; right; cbn; lia. Qed.

(** A packet that is too short, one that is empty, and an error. *)
Lemma tun_reports_packets_witness :
  let m := mkMachine (mkSim [(6, inl [x45; x00]); (6, inl []); (6, inr 5)] 0 [] 0 []) [] in
  let what := fun _ => lit "read: Input/output error" in
  let '(r, (m', cout')) := tun_main what 10 (m, new_stream) in
  r = Ok EXIT_FAILURE /\ log m' = [Received 6 [x45; x00]; Received 6 []] /\
  exists fd packets, log m' = map (Received fd) packets /\
    cout' = (foldl report new_stream packets << lit "Exception: " << what (unix_error 5) << newline).
Proof.
  intros m what. pose proof (tun_reports_packets what 10 m new_stream) as HT.
  assert (let o := tun_main what 10 (m, new_stream) in (o.1, log o.2.1) =
    (Ok EXIT_FAILURE, [Received 6 [x45; x00]; Received 6 []])) as HV by (vm_compute; reflexivity).
  destruct (tun_main what 10 (m, new_stream)) as [r [m' cout']]. cbn [fst snd] in HV. injection HV as -> E.
  destruct HT as (fd & packets & HL & _ & e & _ & HC). split_and!; [done|exact E|]. by exists fd, packets.
Defined.

(** A client of 10.0.0.2:2000, with three bytes of input and an answer of one. *)
Lemma native_main_copies_witness :
  let m := mkMachine (mkSim [(0, inl [x01; x02; x03]); (3, inl [x0a]); (0, inl []); (3, inl [])] 2 [] 0 []) [] in
  let argv := [lit "tcp_native"; lit "10.0.0.2"; lit "2000"] in
  let '(r, m') := native_main 10 argv m in
  r = Ok EXIT_SUCCESS /\ sent 3 (log m') = [x01; x02; x03] /\ sent 1 (log m') = [x0a] /\
  exists fd es, log m' = log m ++ es /\ fd <> STDIN_FILENO /\ fd <> STDOUT_FILENO /\ Forall (copy_event fd) es /\
    sent fd es `prefix_of` received STDIN_FILENO es /\ sent STDOUT_FILENO es `prefix_of` received fd es.
Proof.
  intros m argv. pose proof (native_main_copies 10 argv m sim_streams_open) as HC.
  assert (let o := native_main 10 argv m in (o.1, sent 3 (log o.2), sent 1 (log o.2)) =
    (Ok EXIT_SUCCESS, [x01; x02; x03], [x0a])) as HV by (vm_compute; reflexivity).
  destruct (native_main 10 argv m) as [r m']. cbn [fst snd] in HV. injection HV as -> E1 E2.
  split_and!; [done|exact E1|exact E2|apply HC].
Defined.

(** The client and the server of EndToEnd.v, as programs: the standard input of the client is what its
    socket gets from its owner, and the owner of the server gets what its socket was sent. *)
Definition sample_program (server_mode : bool) (fuel : nat * nat * nat) (cfg : TCPConfig) (start : machine sim * TCPSpongeSocket UDPFdAdapter)
  : program sim UDPFdAdapter :=
  mkProgram (fun _ => false) (mret tt) server_mode fuel cfg 0 client_adapter start.1 start.2.
Definition sender_program : program sim UDPFdAdapter :=
  sample_program false (2%nat, 3%nat, 10%nat) client_config
    (client [(5, inl syn_ack); (4, inl [x01; x02; x03]); (4, inl []); (0, inl [x01; x02; x03]); (0, inl [])]).
Definition receiver_program : program sim UDPFdAdapter :=
  sample_program true (4%nat, 4%nat, 10%nat) server_config
    (client ((5, inl [x00]) :: map (fun d => (5, inl d)) (datagrams ++ datagrams) ++ [(3, inl [x01; x02]); (3, inl [x03]); (3, inl [])])).
Definition sender_main : list event := Eval vm_compute in log (run_main sender_program).
Definition receiver_main : list event := Eval vm_compute in log (run_main receiver_program).

Lemma client_started l : started (client l).1 (client l).2.
Proof.
  split; [apply client_ready|]. split; [split_and!; [done|simpl; lia|vm_compute; discriminate..]|].
  repeat constructor; vm_compute; discriminate.
Qed.

Lemma programs_end_to_end_witness :
  sent STDOUT_FILENO receiver_main = [x01; x02; x03] /\
  sent STDOUT_FILENO receiver_main `prefix_of` received STDIN_FILENO sender_main.
Proof.
  assert (bounded_run server_config 8) as Hb.
  { unfold bounded_run, valid_config. cbn [recv_capacity send_capacity rt_timeout fixed_isn server_config].
    split_and!; try lia. by intros i [= <-]. }
  split; [vm_compute; reflexivity|].
  apply (programs_end_to_end sender_program receiver_program sender_log sender_main receiver_log receiver_main).
  - split; [apply client_started|]. split; [done|exact (client_bounded 5 ltac:(lia))].
  - split; [apply client_started|]. split; [done|exact Hb].
  - reflexivity.
  - exact (sim_sendmsg_whole _).
  - split_and!; [vm_compute; reflexivity|vm_compute; reflexivity|exists []; vm_compute; reflexivity|exists []; vm_compute; reflexivity].
  - split_and!; [vm_compute; reflexivity|vm_compute; reflexivity|exists []; vm_compute; reflexivity|exists []; vm_compute; reflexivity].
  - exact delivered_were_sent.
  - by_compute.
Defined.
End runs.
