(* ===== verification/Release.v ===== *)
(** * The programs release what they open

    Whatever the kernel answers and whichever call fails, a program of apps/ that returns has released
    every descriptor that it made: those of sockets and devices, of the socket pair of a
    TCPSpongeSocket, of the standard streams, and the copies of them that rules hold. *)

From stdpp Require Import strings.
From S2P Require Import Prelude IO ByteStream Buffer Parser TCPHeader TCPSegment IPv4 Address Adapter Text TCPReceiver.
From S2P Require Import TCPSender TCPConnection Kernel SimKernel FileDescriptor EventLoop Socket Tun FdAdapter Random Cmdline.
From S2P Require Import TCPSpongeSocket Holders SpongeSafe EndToEnd StreamCopy CS144Socket Webget Programs.

(** ** Copying *)

Section copying.
Context {K : Type} `{Kernel K}.
Abbreviation any := (fun _ : copy_state => True) (only parsing).
Abbreviation kept body := (kept_with (K := K) any body (fun _ => True)) (only parsing).

Lemma copy_machine {B} (body : io (machine K) B) : (forall l hs, keeps (owns l hs) body (fun _ => True)) -> kept (on_fst body).
Proof. apply kept_with_machine. Qed.
Lemma copy_modify f : kept (on_snd (modify f)).
Proof. apply kept_with_state. by apply keeps_modify. Qed.

Lemma kept_end_stream get set : kept (end_stream get set).
Proof. apply copy_modify. Qed.

Lemma kept_copy_in get set h : kept (copy_in get set h).
Proof.
  intros l hs. unfold copy_in. keeps_step; [by apply keeps_gets|].
  keeps_step; [apply copy_machine; intros; apply kept_fd_read|].
  keeps_step; [apply copy_modify|]. keeps_step; [by apply keeps_gets|]. keeps_step. apply kept_end_stream.
Qed.

Lemma kept_copy_out get set h finish : kept finish -> kept (copy_out get set h finish).
Proof.
  intros Hf l hs. unfold copy_out. do 2 (keeps_step; [by apply keeps_gets|]).
  keeps_step; [apply copy_machine; intros; apply kept_fd_write_string|].
  keeps_step; [apply copy_modify|]. keeps_step; [by apply keeps_gets|]. keeps_step. apply Hf.
Qed.

Lemma kept_finish_outbound h : kept (finish_outbound h).
Proof.
  intros l hs. unfold finish_outbound. keeps_step; [apply copy_machine; intros; apply kept_shutdown|].
  apply copy_modify.
Qed.
Lemma kept_finish_inbound h : kept (finish_inbound h).
Proof.
  intros l hs. unfold finish_inbound. keeps_step; [apply copy_machine; intros; apply kept_close|].
  apply copy_modify.
Qed.

Section loop.
Context (l : list nat) (hs : list FileDescriptor).
Abbreviation copy_owns := (loop_owns (K := K) any l hs) (only parsing).

Lemma copy_loop_owns fuel socket input output :
  socket ∈ hs -> input ∈ hs -> output ∈ hs -> keeps copy_owns (copy_loop fuel socket input output) (fun _ => True).
Proof.
  intros Hs Hi Ho. unfold copy_loop.
  do 3 (keeps_step; [apply loop_owns_kept, copy_machine; intros; apply kept_set_blocking|]).
  keeps_step.
  - unfold copy_rules. repeat (keeps_step; [apply add_rule_owns; [done|split]|]); [..|apply add_rule_owns; [done|split]].
    all: cbn [callback cancel].
    all: first [apply kept_end_stream|apply kept_copy_in|apply kept_copy_out, kept_finish_outbound|apply kept_copy_out, kept_finish_inbound].
  - apply keeps_iterate. intros []. unfold copy_turn. keeps_step; [apply wait_next_event_owns|by apply keeps_ret].
Qed.
End loop.

Lemma copy_unwind_owns l hs input output v :
  loop_owns (K := K) any l (output :: input :: hs) v ->
  wp (copy_unwind input output) (fun _ v' => owns l hs v'.1.1) (fun _ _ => False) v.
Proof.
  intros (H1 & H2 & H3). destruct v as [[m s] rules]. cbn [fst snd] in *. unfold copy_unwind. wp_steps. cbn [fst snd].
  assert (owns l (output :: input :: map rule_fd rules ++ hs) m) as Hm
    by (eapply (owns_perm l); [|reflexivity|exact H1]; solve_Permutation).
  eapply wp_mono; [by apply release_owns| |done]. intros [] m1 E1. wp_steps. cbn [fst snd].
  eapply wp_mono; [by apply release_owns| |done]. intros [] m2 E2. cbn [fst snd].
  eapply wp_mono; [by apply (destroy_rules_owns any l hs)| |done]. by intros [] v' [].
Qed.

Lemma run_copy_owns l hs fuel socket : socket ∈ hs -> turns (K := K) l hs (run_copy fuel socket) (fun _ => hs) hs.
Proof.
  intros Hs m Hm. apply run_ends_zoom. unfold bidirectional_stream_copy. apply run_ends_bind. do 2 apply run_ends_on_fst. cbn [fst snd].
  apply run_ends_wp. eapply wp_mono; [by apply (wp_FileDescriptor_of l STDIN_FILENO hs)| |done]. intros input m1 H1.
  apply run_ends_bind. do 2 apply run_ends_on_fst. cbn [fst snd].
  apply run_ends_wp. eapply wp_mono; [by apply (wp_FileDescriptor_of l STDOUT_FILENO (input :: hs))| |done]. intros output m2 H2.
  apply run_ends_bind, run_ends_wp. wp_steps. cbn [fst snd]. apply run_ends_bind, run_ends_unwinding.
  eapply keeps_run; [apply (copy_loop_owns l (output :: input :: hs)); rewrite !elem_of_cons; auto|done|..].
  - intros [] v Hv _. apply run_ends_wp. eapply wp_mono; [by apply copy_unwind_owns|done|done].
  - intros e v He Hv. eapply wp_mono; [by apply copy_unwind_owns|done|done].
Qed.
End copying.

(** ** Programs *)

(** Printing a packet. *)
Lemma print_tun_packet_defined packet : keeps (fun _ => True) (print_tun_packet packet) (fun _ => True).
Proof.
  assert (forall f : ostream -> ostream, keeps (fun _ => True) (modify f) (fun _ => True)) as Hm by (intros; by apply keeps_modify).
  unfold print_tun_packet.
  repeat first [apply Hm|apply keeps_of_result; [first [apply defined_parse_datagram|apply defined_parse_segment|apply defined_to_Buffer]|done]|keeps_step].
Qed.

Section programs.
Context {K : Type} `{Kernel K} {Res : Resolver}.
Implicit Types m : machine K.

(** What is left of the objects that were made since [m]: nobody holds them, and they are closed unless
    the kernel has refused to. *)
Definition cleaned_up m m' : Prop :=
  (exists k, held m' = held m ++ replicate k 0%nat) /\
  (closes K -> forall h w, (length (heap m) <= h)%nat -> heap m' !! h = Some w -> _closed w = true).

(** A program that returns 0 or 1 and has cleaned up, or ends in another way that [E] allows; [get] is its
    machine. *)
Definition ends_clean {W} (get : W -> machine K) (E : exn -> machine K -> Prop) (prog : io W Z) (w : W) : Prop :=
  run_ends prog (fun code w' => (code = EXIT_SUCCESS \/ code = EXIT_FAILURE) /\ cleaned_up (get w) (get w'))
    (fun e w' => E e (get w')) (fun _ => True) w.

Lemma ends_clean_run {W} (get : W -> machine K) E prog (w w' : W) code :
  ends_clean get E prog w -> prog w = (Ok code, w') -> cleaned_up (get w) (get w').
Proof. unfold ends_clean, run_ends. intros HC EP. rewrite EP in HC. apply HC. Qed.

Lemma owns_cleaned m m' : owns (held m) [] m' -> cleaned_up m m'.
Proof.
  intros (Hs & k & _ & E). split; [by exists k|]. intros Hc h w Hh Hw. rewrite length_held in Hs. apply (Hs Hc h w Hh Hw).
  assert (held m' !! h = Some (use_count w)) as Hu by (unfold held; by rewrite list_lookup_fmap, Hw).
  rewrite E in Hu. apply lookup_app_Some in Hu as [Hu|[_ Hu]]; [apply lookup_lt_Some in Hu; rewrite length_held in Hu; lia|].
  by apply lookup_replicate_1 in Hu as [-> _].
Qed.

(** The exceptions of a program before they are caught. *)
Definition before_catch m (E : exn -> machine K -> Prop) (e : exn) m' : Prop :=
  caught e /\ owns (held m) [] m' \/ ~ caught e /\ E e m'.

Lemma catch_all_clean {W} (get : W -> machine K) (body : io W Z) (handler : exn -> io W Z) E w :
  run_ends body (fun code w' => (code = EXIT_SUCCESS \/ code = EXIT_FAILURE) /\ owns (held (get w)) [] (get w'))
    (fun e w' => before_catch (get w) E e (get w')) (fun _ => True) w ->
  (forall e w', run_ends (handler e) (fun code w'' => code = EXIT_FAILURE /\ get w'' = get w') (fun _ _ => False) (fun _ => True) w') ->
  ends_clean get E (catch_all body handler) w.
Proof.
  intros Hb Hh. apply run_ends_catch. eapply run_ends_mono; [exact Hb|..|done].
  - intros code w' [Hc Ho]. split; [done|by apply owns_cleaned].
  - intros e w' [[He Ho]|[Hn HE]]; [|by destruct e; try by destruct Hn].
    assert (run_ends (handler e) (fun code w'' => (code = EXIT_SUCCESS \/ code = EXIT_FAILURE) /\ cleaned_up (get w) (get w''))
      (fun e w'' => E e (get w'')) (fun _ => True) w') as HC.
    { eapply run_ends_mono; [apply Hh|..|done]; [|done]. intros code w'' [-> ->]. split; [by right|by apply owns_cleaned]. }
    by destruct e.
Qed.

Lemma kept_argv l hs argv i : 0 <= i < argc argv -> keeps (owns (K := K) l hs) (of_result (argv_at argv i)) (fun _ => True).
Proof. intros Hi. destruct (argv_at_ok argv i Hi) as [s ->]. by apply kept_defined. Qed.

Lemma native_socket_owns l hs (server_mode : bool) argv :
  (if server_mode then 4 else 3) <= argc argv -> turns (K := K) l hs (native_socket server_mode argv) (fun h => h :: hs) hs.
Proof.
  intros Hc. unfold native_socket. destruct server_mode; (eapply turns_bind; [apply opens_Socket_new|]); intros h.
  - eapply turns_bind; [eapply turns_unwinding; [|by apply turns_release]|].
    + eapply turns_bind; [apply turns_kept, kept_set_reuseaddr|]. intros [].
      eapply turns_bind; [apply turns_kept, kept_argv; lia|]. intros host.
      eapply turns_bind; [apply turns_kept, kept_argv; lia|]. intros service.
      eapply turns_bind; [apply turns_kept, kept_defined, defined_Address_resolve|]. intros a.
      eapply turns_bind; [apply turns_kept, kept_bind|]. intros [].
      eapply turns_bind; [apply turns_kept, kept_listen|]. intros []. apply turns_accept.
    + intros s. cbv beta. eapply turns_bind; [apply (turns_release l h (s :: hs)), perm_swap|]. intros []. by apply turns_ret.
  - eapply turns_unwinding; [|by apply turns_release].
    eapply turns_bind; [apply turns_kept, kept_argv; lia|]. intros host.
    eapply turns_bind; [apply turns_kept, kept_argv; lia|]. intros service.
    eapply turns_bind; [apply turns_kept, kept_defined, defined_Address_resolve|]. intros a.
    eapply turns_bind; [apply turns_kept, kept_socket_connect|]. intros []. by apply turns_ret.
Qed.

Lemma native_main_clean fuel argv m : ends_clean (fun m => m) (fun _ _ => False) (native_main fuel argv) m.
Proof.
  unfold native_main. apply (catch_all_clean (fun m => m)); [|by intros].
  pose proof (owns_start m) as Hm. case_if; [by split; [right|]|]. apply run_ends_bind.
  eapply keeps_run; [apply (kept_argv (held m) [] argv 1); lia|done| |by intros; left]. intros a m1 H1 _.
  destruct (strncmp_eq 3 (lit "-l") a && (argc argv <? 4)) eqn:E4; [by split; [right|]|]. apply run_ends_bind.
  eapply run_ends_mono; [apply (native_socket_owns (held m) []); [|done]|..|done].
  - destruct (strncmp_eq 3 (lit "-l") a); cbn [andb] in E4; lia.
  - intros h m2 H2. apply run_ends_bind.
    eapply run_ends_mono; [eapply (turns_unwinding (held m)); [apply run_copy_owns|by apply turns_release|exact H2]|..|done].
    + apply elem_of_cons. by left.
    + intros [] m3 H3. apply run_ends_wp. wp_step. eapply wp_mono; [by apply release_owns| |done]. intros [] m4 H4. wp_step.
      by split; [left|].
    + by intros e m3 [He H3]; left.
  - by intros e m2 [He H2]; left.
Qed.

(** ** webget and tun *)

(** A descriptor that is held while [body] runs and released after it, or by an exception. *)
Lemma opened_run {W A} (get : W -> machine K) (set : machine K -> W -> W) l (make : io (machine K) FileDescriptor)
    (body : FileDescriptor -> io W A) (Q : A -> W -> Prop) (E : exn -> W -> Prop) w :
  opens l make -> owns l [] (get w) ->
  (forall m, owns l [] m -> forall e, caught e -> E e (set m w)) ->
  (forall h m, owns l [h] m -> run_ends (body h) Q E (fun _ => True) (set m w)) ->
  run_ends (h ← zoom get set make; body h) Q E (fun _ => True) w.
Proof.
  intros Ho Hw HE Hb. apply run_ends_bind, run_ends_zoom. eapply run_ends_mono; [by apply (Ho [])|..|done].
  - intros h m Hm. by apply Hb.
  - intros e m [He Hm]. by apply HE.
Qed.

Abbreviation printing := (machine K * bytes)%type (only parsing).

Lemma kept_out {S A} l hs (body : io (machine K) A) :
  keeps (owns (K := K) l hs) body (fun _ => True) -> keeps (fun w : machine K * S => owns l hs w.1) (on_fst body) (fun _ => True).
Proof. intros Hb. by eapply keeps_zoom; [| |exact Hb]. Qed.

Lemma get_URL_owns l fuel host path w :
  owns l [] w.1 ->
  run_ends (get_URL (K := K) fuel host path) (fun _ w' => owns l [] w'.1) (fun e w' => caught e /\ owns l [] w'.1) (fun _ => True) w.
Proof.
  intros Hw. unfold get_URL. apply (opened_run fst (fun v w => (v, w.2)) l); [apply opens_Socket_new|done|done|].
  intros tcp m Hm. apply run_ends_bind, run_ends_unwinding.
  eapply (keeps_run (fun w : printing => owns l [tcp] w.1)); [|exact Hm|..].
  - keeps_step; [apply keeps_of_result; [apply defined_Address_resolve|done]|].
    keeps_step; [apply kept_out, kept_socket_connect|]. keeps_step; [apply kept_out, kept_fd_write_string|].
    keeps_step; [apply kept_out, kept_shutdown|]. keeps_step; [|apply kept_out, kept_close].
    apply keeps_iterate. intros []. unfold print_turn. keeps_step; [by apply keeps_gets|]. keeps_step; [by apply keeps_ret|].
    keeps_step; [apply kept_out, kept_fd_read|]. keeps_step; [by eapply keeps_zoom; [| |by apply (keeps_modify (fun _ => True))]|by apply keeps_ret].
  - intros [] [m' out] Hm' _. apply run_ends_wp. wp_step. by eapply wp_mono; [apply release_owns| |].
  - intros e [m' out] He Hm'. wp_step. by eapply wp_mono; [apply release_owns| |].
Qed.

Lemma webget_clean fuel args w : ends_clean fst (fun _ _ => False) (Webget.main (K := K) fuel args) w.
Proof.
  assert (ends_clean fst (fun _ _ => False) (mret EXIT_FAILURE) w) as Hno by (split; [by right|apply owns_cleaned, owns_start]).
  unfold Webget.main. destruct args as [|host [|path [|]]]; try exact Hno. apply catch_all_clean; [|by intros].
  apply run_ends_bind. eapply run_ends_mono; [apply (get_URL_owns (held w.1)), owns_start|..|done].
  - intros [] w' Hw'. by split; [left|].
  - intros e w' [He Hw']. by left.
Qed.

Lemma tun_main_clean what fuel w : ends_clean fst (fun _ _ => False) (tun_main (K := K) what fuel) w.
Proof.
  apply catch_all_clean; [|by intros]. pose proof (owns_start w.1) as Hw.
  apply (opened_run fst (fun v w => (v, w.2)) (held w.1)); [apply opens_TunFD_new|done|by intros; left|].
  intros tun m Hm. apply run_ends_bind, run_ends_unwinding.
  eapply (keeps_run (fun v : machine K * ostream => owns (held w.1) [tun] v.1)); [|exact Hm|..].
  - apply (keeps_loop _ _ (fun _ => False)). intros []. unfold tun_turn. keeps_step; [apply kept_out, kept_fd_read|].
    keeps_step; [|by apply keeps_ret]. eapply keeps_zoom; [| |apply (print_tun_packet_defined _)]; done.
  - done.
  - intros e [m' out] He Hm'. wp_step. eapply wp_mono; [by apply release_owns| |done]. intros [] m2 H2. by left.
Qed.
End programs.

(** ** Programs with a socket of the library *)

(** The thread that is joined has kept what was held: it runs the loop of the socket. *)
Definition joinable {K A} `{Kernel K} `{!FdAdapter K A}
    (join : io ((machine K * TCPSpongeSocket A) * list (Rule K (TCPSpongeSocket A))) unit) : Prop :=
  forall l hs ah th oh, ah ∈ hs -> th ∈ hs ->
    keeps (loop_owns (fun s => socket_fds s = [ah; th; oh]) l hs) join (fun _ => True).

Lemma tcp_main_joinable {K A} `{Kernel K} `{!FdAdapter K A} {Res : Resolver} {Ho : AdapterOwns K A} (_abort : K -> bool) fuel :
  joinable (_tcp_main (A := A) _abort fuel).
Proof. intros l hs ah th oh Ha Ht. by apply tcp_main_owns. Qed.

Section threaded.
Context {K A : Type} `{Kernel K} `{!FdAdapter K A} {Res : Resolver} {Ho : AdapterOwns K A}.
Context (_abort : K -> bool) (store_abort : K -> K).
Context (join : io ((machine K * TCPSpongeSocket A) * list (Rule K (TCPSpongeSocket A))) unit) (Hj : joinable join).

Lemma use_socket_owns fuel fuel' server_mode cfg random c_filt l hs ah th oh v :
  ah ∈ hs -> th ∈ hs -> oh ∈ hs -> loop_owns (fun s => socket_fds s = [ah; th; oh]) l hs v ->
  run_ends (use_socket _abort join fuel fuel' server_mode cfg random c_filt)
    (fun _ => loop_owns (fun s => socket_fds s = [ah; th; oh]) l hs)
    (fun e v' => caught e /\ loop_owns (fun s => socket_fds s = [ah; th; oh]) l hs v' \/ thread_ended join e v') (fun _ => True) v.
Proof.
  intros Ha Ht Hoh Hv. unfold use_socket, open_socket. apply run_ends_bind.
  eapply keeps_run; [|exact Hv| |by left].
  { destruct server_mode; cbn [negb]; [by apply listen_owns|by apply connect_owns]. }
  intros [] [[m s] rules] (H1 & H2 & H3) _. apply run_ends_bind, run_ends_wp, wp_gets. cbn [fst snd] in *.
  assert (_owner s = oh) as Eo by (by injection H2). rewrite Eo. apply run_ends_bind. do 2 apply run_ends_on_fst. cbn [fst snd].
  eapply run_ends_mono; [apply (run_copy_owns l (map rule_fd rules ++ hs)); [|exact H1]|..|done].
  - apply elem_of_app. by right.
  - intros [] m' H1'. by apply wait_until_closed_owns; [apply Hj|].
  - intros e m' [He H1']. left. by split.
Qed.

(** The machine as an exception has left it in the thread. *)
Definition thread_threw (m' : machine K) : Prop := exists v v' e, join v = (Throw e, v') /\ caught e /\ v'.1.1 = m'.

Lemma with_socket_owns l hs adapter fuel fuel' server_mode cfg random c_filt m :
  owns l (ad_fd adapter :: hs) m ->
  run_ends (with_socket store_abort join adapter (use_socket _abort join fuel fuel' server_mode cfg random c_filt))
    (fun _ => owns (K := K) l hs) (fun e m' => caught e /\ owns l hs m' \/ e = terminated /\ thread_threw m') (fun _ => True) m.
Proof.
  intros Hm0. unfold with_socket. apply run_ends_bind. eapply run_ends_mono; [by apply (turns_TCPSpongeSocket_new l hs adapter)| |by left|done].
  intros s m1 Hm. apply run_ends_zoom.
  set (ah := ad_fd (_datagram_adapter s)). set (th := _thread_data s). set (oh := _owner s).
  assert (ah ∈ socket_fds s ++ hs /\ th ∈ socket_fds s ++ hs /\ oh ∈ socket_fds s ++ hs) as (Ha & Ht & Hoh)
    by (unfold socket_fds; cbn [app]; rewrite !elem_of_cons; auto 6).
  assert (forall e v, thread_ended join e v -> e = terminated /\ thread_threw v.1.1) as HT.
  { intros e v (-> & v0 & e' & Ej & He). split; [done|]. by exists v0, v, e'. }
  assert (forall v, loop_owns (fun s => socket_fds s = [ah; th; oh]) l (socket_fds s ++ hs) v ->
    run_ends (destroy_socket store_abort join) (fun _ v' => owns l hs v'.1.1) (thread_ended join) (fun _ => True) v) as Hd.
  { intros v Hv. eapply (destroy_socket_owns ah th oh l (socket_fds s ++ hs)); [by apply Hj|done|exact Hv]. }
  apply run_ends_bind, run_ends_catch.
  eapply run_ends_mono; [by apply (use_socket_owns fuel fuel' server_mode cfg random c_filt l (socket_fds s ++ hs) ah th oh)|..|done].
  - intros [] v Hv. eapply run_ends_mono; [by apply Hd|done| |done]. intros e v' HE. right. by apply HT.
  - intros e v [[He Hv]|HE]; [|destruct (HT _ _ HE) as [-> Hw]; by right].
    assert (run_ends (_ ← destroy_socket store_abort join; throw (A := unit) e) (fun _ _ => False)
      (fun e v' => caught e /\ owns l hs v'.1.1 \/ e = terminated /\ thread_threw v'.1.1) (fun _ => True) v) as HC.
    { apply run_ends_bind. eapply run_ends_mono; [by apply Hd|..|done]; [by left|]. intros e' v' HE'. right. by apply HT. }
    by destruct e; try done; eapply run_ends_mono; [exact HC|..].
Qed.
End threaded.
Arguments thread_threw {K A} join m'.

(** How a program with a socket ends other than by returning: a loss rate is out of range, before anything is
    opened, or an exception has left the thread of the socket. *)
Definition ends_badly {K A} `{Kernel K} {FP : FloatParser} (argv : list bytes) (join : io ((machine K * TCPSpongeSocket A) * list (Rule K (TCPSpongeSocket A))) unit)
    (m : machine K) (e : exn) (m' : machine K) : Prop :=
  e = undefined "float"%string /\ bad_loss_rate argv /\ cleaned_up m m' \/ e = terminated /\ thread_threw join m'.

Section lossy.
Context {K : Type} `{Kernel K} {Res : Resolver} {FP : FloatParser} {G : Type} `{RandomGenerator G}.
Context (_abort : K -> bool) (store_abort : K -> K).

Lemma config_exn_ends {A} (join : io ((machine K * TCPSpongeSocket A) * list (Rule K (TCPSpongeSocket A))) unit) argv e m :
  config_exn argv e -> before_catch m (ends_badly argv join m) e m.
Proof.
  pose proof (owns_start m). intros [He|[-> Hbad]]; [left; split; [by apply tame_caught|done]|right].
  split; [by intros []|]. left. split_and!; [done..|by apply owns_cleaned].
Qed.

(** The steps of a program that also prints. *)
Lemma run_turns {B C} l hs (body : io (machine K) B) post (rest : B -> io (machine K * ostream) C) Q E (w : machine K * ostream) :
  turns l hs body post [] -> owns l hs w.1 -> (forall e m, caught e -> owns l [] m -> E e (m, w.2)) ->
  (forall b m, owns l (post b) m -> run_ends (rest b) Q E (fun _ => True) (m, w.2)) ->
  run_ends (b ← on_fst body; rest b) Q E (fun _ => True) w.
Proof.
  intros Hb Hw HE HR. apply run_ends_bind, run_ends_on_fst. eapply run_ends_mono; [by apply Hb|..|done].
  - intros b m Hm. by apply HR.
  - intros e m [He Hm]. by apply HE.
Qed.

Lemma turns_default_adapter l (h : FileDescriptor) :
  turns (K := K) l [h] (unwinding (of_result default_adapter) (release h)) (fun _ => [h]) [].
Proof. eapply turns_unwinding; [apply turns_kept, kept_defined, defined_default_adapter|by apply turns_release]. Qed.

Section mains.
Context (fuel fuel' : nat) (generator : G) (device random : Z) (argv : list bytes) (Hargv : 1 <= argc argv).

(** The command line is not understood. *)
Lemma usage_clean (show : bytes -> ostream -> ostream) l E (w : machine K * ostream) :
  owns l [] w.1 ->
  run_ends (argv0 ← of_result (argv_at argv 0); _ ← on_snd (modify (show argv0)); mret EXIT_FAILURE)
    (fun code w' => (code = EXIT_SUCCESS \/ code = EXIT_FAILURE) /\ owns l [] w'.1) E (fun _ => True) w.
Proof.
  intros Hw. destruct (argv_at_ok argv 0) as [a Ea]; [lia|]. apply run_ends_wp. wp_step. eapply wp_of_result; [exact Ea|]. wp_steps.
  by split; [right|].
Qed.

(** From the moment the adapter is made. *)
Lemma threaded_clean {A} `{!FdAdapter K A} {Ho : AdapterOwns K A} join (adapter : A) server_mode cfg c_filt (w : machine K * ostream) m :
  joinable join -> owns (held m) [ad_fd adapter] w.1 ->
  run_ends (_ ← on_fst (with_socket store_abort join adapter (use_socket _abort join fuel fuel' server_mode cfg random c_filt));
            mret EXIT_SUCCESS)
    (fun code w' => (code = EXIT_SUCCESS \/ code = EXIT_FAILURE) /\ owns (held m) [] w'.1)
    (fun e w' => before_catch m (ends_badly argv join m) e w'.1) (fun _ => True) w.
Proof.
  intros Hj Hw. apply run_ends_bind, run_ends_on_fst.
  eapply run_ends_mono; [by apply (with_socket_owns _abort store_abort join Hj (held m) [])|..|done].
  - intros [] m' Hm'. by split; [left|].
  - intros e m' [He|[-> HT]]; [by left|right]. split; [by intros []|by right].
Qed.

Lemma udp_main_clean join w :
  joinable join -> ends_clean fst (ends_badly argv join w.1) (udp_main _abort store_abort join fuel fuel' generator random argv) w.
Proof.
  intros Hj. apply catch_all_clean; [|by intros]. pose proof (owns_start w.1) as Hw. case_if; [by apply usage_clean|].
  apply run_ends_bind, run_ends_wp. wp_step. eapply wp_mono; [apply udp_get_config_ok; lia|..].
  2: { intros e w' He. by eapply config_exn_ends. }
  intros [code|[[c_fsm c_filt] server_mode]] cout Hr; [by destruct Hr as [->| ->]; split; auto|].
  assert (forall e m, caught e -> owns (held w.1) [] m -> before_catch w.1 (ends_badly argv join w.1) e (m, cout).1) as HE by (by left).
  eapply run_turns; [apply opens_Socket_new|done|done|]. intros h m1 H1.
  eapply run_turns; [eapply turns_unwinding; [apply turns_kept; keeps_step; apply kept_bind|by apply turns_release]|done|done|].
  intros [] m2 H2. eapply run_turns; [apply turns_default_adapter|done|done|]. intros base m3 H3. by apply threaded_clean.
Qed.

Lemma ipv4_main_clean join w :
  joinable join -> ends_clean fst (ends_badly argv join w.1) (ipv4_main _abort store_abort join fuel fuel' generator device random argv) w.
Proof.
  intros Hj. apply catch_all_clean; [|by intros]. pose proof (owns_start w.1) as Hw. case_if; [by apply usage_clean|].
  apply run_ends_bind, run_ends_wp. wp_step. eapply wp_mono; [apply ipv4_get_config_ok; lia|..].
  2: { intros e w' He. by eapply config_exn_ends. }
  intros [code|[[[c_fsm c_filt] server_mode] name]] cout Hr; [by destruct Hr as [->| ->]; split; auto|].
  assert (forall e m, caught e -> owns (held w.1) [] m -> before_catch w.1 (ends_badly argv join w.1) e (m, cout).1) as HE by (by left).
  eapply run_turns; [apply opens_TunFD_new|done|done|]. intros h m1 H1.
  eapply run_turns; [apply turns_default_adapter|done|done|]. intros base m3 H3. by apply threaded_clean.
Qed.
End mains.
End lossy.

(** ** Properties *)

(** C11: the programs release what they open. On any kernel, whichever calls fail and however the peers behave,
    and for any arguments, tcp_native, webget, tun, tcp_udp and tcp_ipv4 end in order: when one returns, nobody
    holds a descriptor that it made (the sockets, the device, the socket pair, the standard
    streams and the copies in rules), each is closed unless the kernel refused to, and the
    objects of before are held as they were; the code is EXIT_SUCCESS or EXIT_FAILURE. No exception leaves
    the programs and nothing undefined is done, with two exceptions for tcp_udp and tcp_ipv4: a loss
    rate out of range, which is converted before anything is opened; and std::terminate, when
    an exception leaves the thread of the socket, in the state that this exception has left.
    (The thread of a socket is one that runs the socket's loop, and the program has a name.) *)
Theorem programs_release {K} `{Kernel K} {Res : Resolver} {FP : FloatParser} {G} `{RandomGenerator G}
    (_abort : K -> bool) (store_abort : K -> K) join_udp join_tun what fuel fuel' (generator : G) device random argv
    (m : machine K) cout out :
  1 <= argc argv -> joinable join_udp -> joinable join_tun ->
  ends_clean (fun m => m) (fun _ _ => False) (native_main fuel argv) m /\
  ends_clean fst (fun _ _ => False) (Webget.main fuel (drop 1 argv)) (m, out) /\
  ends_clean fst (fun _ _ => False) (tun_main what fuel) (m, cout) /\
  ends_clean fst (ends_badly argv join_udp m) (udp_main _abort store_abort join_udp fuel fuel' generator random argv) (m, cout) /\
  ends_clean fst (ends_badly argv join_tun m) (ipv4_main _abort store_abort join_tun fuel fuel' generator device random argv) (m, cout).
Proof.
  intros Hc Hu Ht. split_and!; [apply native_main_clean|apply webget_clean|apply tun_main_clean| |].
  - exact (udp_main_clean _abort store_abort fuel fuel' generator random argv Hc join_udp (m, cout) Hu).
  - exact (ipv4_main_clean _abort store_abort fuel fuel' generator device random argv Hc join_tun (m, cout) Ht).
Qed.

(** ** Runs *)

Section runs.
#[local] Existing Instance numeric_resolver.
#[local] Instance no_floats : FloatParser := fun _ => SpecFloat.S754_zero false.

(** The generator, of a device that counts. *)
Definition counted : list Z := (get_random_generator (fun d => (d, d + 1)) 0).1.

Lemma sim_closes : closes sim.
Proof. done. Qed.

(** tcp_udp with a peer that refuses the connection: five descriptors are made and released. *)
Lemma programs_release_witness :
  let m := mkMachine (mkSim [(3, inl (peer_datagram (peer_header 0 1 true true false) [])); (3, inl []); (0, inl [])] 100 [] 0 []) [] in
  let argv := [lit "tcp_udp"; lit "10.0.0.2"; lit "2000"] in
  let main := udp_main (fun _ => false) (fun k => k) (_tcp_main (fun _ => false) 5) 5 10 counted 0 argv in
  let '(r, (m', _)) := main (m, new_stream) in
  r = Ok EXIT_SUCCESS /\ map _fd (heap m') = [3; 3; 4; 0; 1] /\ held m' = [0; 0; 0; 0; 0]%nat /\
  forall h w, heap m' !! h = Some w -> _closed w = true.
Proof.
  intros m argv main.
  assert (1 <= argc argv) as Hargc by by_compute.
  pose proof (proj1 (proj2 (proj2 (proj2 (programs_release (fun _ => false) (fun k => k) (_tcp_main (fun _ => false) 5)
    (_tcp_main (fun _ => false) 5) (fun _ => []) 5 10 counted 0 0 argv m new_stream [] Hargc (tcp_main_joinable _ _)
    (tcp_main_joinable _ _)))))) as HU.
  lazymatch type of HU with ends_clean _ ?E _ _ => change (ends_clean fst E main (m, new_stream)) in HU; set (E0 := E) in HU end.
  clearbody E0.
  assert (let o := main (m, new_stream) in (o.1, map _fd (heap o.2.1), held o.2.1) =
    (Ok EXIT_SUCCESS, [3; 3; 4; 0; 1], [0; 0; 0; 0; 0]%nat)) as HV by (vm_compute; reflexivity).
  clearbody main. destruct (main (m, new_stream)) as [r [m' c]] eqn:EM. cbn [fst snd] in HV. injection HV as -> E1 E2.
  split_and!; [done|exact E1|exact E2|]. destruct (ends_clean_run _ _ _ _ _ _ HU EM) as [_ HC]. intros h w Hw.
  apply (HC sim_closes h w); [apply Nat.le_0_l|exact Hw].
Defined.
End runs.
